(* ===== verification/_CoqProject ===== *)
-Q . S2P
Prelude.v
wrapping_integers.v
byte_stream.v
stream_reassembler.v
buffer.v
parser.v
util.v
random.v
tcp_segment.v
ipv4_datagram.v
ethernet_frame.v
wire_formats.v
address.v
printing.v
network_interface.v
router.v
tcp_receiver.v
tcp_sender.v
tcp_state.v
tcp_connection.v
end_to_end.v
tcp_peers.v
segments_made.v
clean_close.v
tcp_benchmark.v
file_descriptor.v
fd_handles.v
socket.v
tun.v
eventloop.v
fd_adapter.v
command_line.v
udp_tcpdump.v
adapter_carries.v
tcp_sponge_socket.v
tcp_sponge_pair.v
tcp_sponge_loop.v
tcp_sponge_life.v
bidirectional_stream_copy.v
program_pair.v
network_simulator.v
apps.v
