(* ===== verification/Prelude.v ===== *)
(** * A verification of Sponge

    Sponge is a user-space TCP implementation with the layers below it (IPv4,
    Ethernet, ARP, a router) and the sockets and event loop that connect it to
    an operating system.  This library models its C++ sources under [src/] as
    Rocq functions and proves what makes each part, and their composition,
    correct.

    ** The parts and their files

    Every class is a [Module] with the class's name; its data members are the
    record [t], and each method is a definition of the same name that takes the
    object and returns the new one.  A file is named after the source file it
    models.

    - Integers and streams: [wrapping_integers] (sequence numbers),
      [byte_stream] (the bounded queue between writer and reader),
      [stream_reassembler] (out-of-order excerpts to an in-order stream).
    - Bytes on the wire: [buffer] (shared strings), [parser] (network byte
      order), [util] (Internet checksum, [SystemCall], errors, the clock),
      [random] ([get_random_generator], with the standard's [seed_seq] and
      [mt19937]), [tcp_segment], [ipv4_datagram], [ethernet_frame] (with ARP
      messages), [wire_formats] (the four packet types together), [address];
      [printing] holds the texts of all these and [hexdump].
    - TCP: [tcp_receiver], [tcp_sender] (with its timer and the configuration),
      [tcp_state], [tcp_connection].
    - Below TCP: [network_interface] (ARP), [router].
    - To the operating system: [file_descriptor], [fd_handles] (the handles
      that share a descriptor), [socket], [tun], [eventloop], [fd_adapter] (TCP
      in UDP, in IPv4 on TUN, in IPv4 in Ethernet on TAP, and the lossy
      adapter), [tcp_sponge_socket] (the four rules of the socket, as functions
      on its state), [tcp_sponge_loop] (the rules in the event loop,
      construction, [connect], [listen_and_accept] and the loop),
      [tcp_sponge_life] (the socket's thread, its start, its joining and the
      destructor).
    - Compositions: [end_to_end] (one sender, a network, one receiver),
      [tcp_peers] (two connections and the network between them),
      [segments_made] (what holds of every segment a connection makes),
      [clean_close] (what acknowledgments say of the other end),
      [adapter_carries] (what every adapter promises of the bytes it puts on the
      network, a class with an instance per adapter), [tcp_sponge_pair] (two
      sockets with their adapters and the network between them),
      [program_pair] (two programs, each with its two threads and the kernel's
      socket pair between them, in any interleaving).
    - Programs: [bidirectional_stream_copy], [tcp_benchmark],
      [network_simulator], [command_line] (the option parsers of [tcp_ipv4],
      [tcp_udp] and [tcp_ip_ethernet]), [udp_tcpdump], [apps] (the [main]
      functions of these and of [tcp_native], [webget], [tun] and [selftest]).

    This file holds what they share: the [result] monad, machine integers,
    strings as lists of bytes, and the tactics [word_lia] (bounds of machine
    integers), [zlen] (lengths) and [by_decide].

    ** How C++ is modelled

    - An unsigned integer of [w] bits is a [Z]; every operation that can leave
      the range is followed by its wrap ([u8] to [u64], [⊕] and [⊖] for 64-bit
      addition and subtraction).
    - A method that can throw returns a [result]: a value, an exception
      ([Throw]), or [OutOfFuel].  An expression that C++ leaves undefined is
      [Throw (UndefinedBehaviour _)], so that no theorem gives it a meaning.
    - A loop that is not structural takes fuel, which is chosen from the state
      ([fill_window]: one more than the bytes buffered; [Router.route]: the
      length of each queue; the benchmark's [write_loop]: the bytes still to be
      sent); theorems exclude [OutOfFuel].  Loops driven from outside take the
      list of outside answers ([poll] results, the kernel's answers to a
      partial write) and their theorems hold for every such list, however long.
    - What is not under [src/] is an argument: the kernel's return values,
      [errno] and bytes, the answers of [poll], the clock, the machine's
      entropy.
      What is documented of the kernel and of the C library is a named
      hypothesis ([honest_read], [honest_write], [gai_inet] for [getaddrinfo],
      [shutdown_checks] for a closed descriptor), with witnesses that show it
      can hold.
    - Objects that share state do so in a store ([fd_handles]: handles that
      point to one wrapper).  Threads are interleaved callback by callback
      ([program_pair]): a callback makes at most one call that the other
      thread can see before it ends, apart from [shutdown], and a callback
      that throws ends the program.
    - A program's end is an [outcome]: a value, a call of [exit] with the text
      printed, an exception, [abort], or a loop that has not ended.  Reading
      past [argv] or past a captured packet is undefined behaviour.

    ** What is proved

    - Reliability ([tcp_peers]): two connections over a network that loses,
      repeats, delays and reorders deliver, in both directions, a prefix of
      what was written.  It rests on what [connection_sends_stream] states
      (what is emitted is the stream, correctly numbered), [receiver_in_order] and
      [reassembler_in_order] (what is delivered is the peer's stream), and
      [unwrap_closest].  [sockets_reliable] lifts it to two sockets whose
      adapters exchange bytes: UDP datagrams, IPv4 packets, or Ethernet frames
      with the ARP they need, over a network that also drops and reorders these;
      it is proved against the class of [adapter_carries], whose instances are
      all the adapters of the program.  [programs_reliable] lifts that in turn
      to two programs, from the standard input of one to the standard output of
      the other, whatever the interleaving of the four threads; and
      [threads_are_steps] shows that the loops of the code take no other steps.
    - Completeness ([clean_close]): what a connection acknowledges it has
      assembled, and a sender believes no more than it was told, so a connection
      that is over without a reset has delivered its whole stream; [programs_complete]
      states it of the two programs.
    - Contracts of the components: the stream is a bounded FIFO queue, the
      reassembler is bounded for substrings that start in the window and
      complete for those that lie in it, with an [eof] that the code does not
      lose, the sender fills the window and retransmits as specified, the
      connection acknowledges what occupies sequence space after the peer's SYN,
      closes cleanly and stays reset, the interface neither loses nor floods,
      the router forwards by the longest prefix and never throws, the event loop
      keeps the invariants of its callbacks, and its test for a busy wait never
      fires in the socket.
    - Round trips and rejection: segments, datagrams and whole Ethernet stacks
      parse back; one altered byte is refused; parsing any bytes is total and
      gives fields within their widths ([packets_typed]).  The checksum is that
      of RFC 1071, in whatever pieces it is computed ([checksum_rfc1071]).
    - Resources: no descriptor leaks, and one that its owner does not close
      twice or with an error is closed exactly once ([descriptors_closed_once]).
    - Refinement: the socket, from its constructor through every turn of its
      event loop, drives its connection only through the connection's own
      calls, so what holds of every reachable connection holds of its own.
    - Programs: the stream copy loses nothing; two new interfaces exchange a
      datagram in three steps, the simulator's scenarios succeed, the
      benchmark's strings can differ only by missing bytes.  Options are read back from every command line that is
      made of them, and no command line is read past its end.  The packet
      printer shows a segment as it was sent.  The texts of headers and the hex
      dump lose nothing.
    - Deviations, each with a concrete run: reordered acknowledgments make the
      sender overrun the receiver's window, and the receiver throw
      ([peers_overrun]); a FIN that overtakes lost data ends the stream early
      ([peers_truncated]) and an [eof] that finds the buffer full is forgotten
      ([reassembler_full_eof]); every RST resets a connection, where the tests
      want some ignored ([connection_resets_anywhere]); a segment whose absolute
      sequence number is a multiple of 2^32 is dropped ([receiver_drops_wrapped]); ARP requests do
      not release waiting datagrams ([interface_arp_gaps]); [webget] closes its
      socket before it waits for it and therefore always fails
      ([webget_fails]); the packet printer reads behind a cut IPv4 header
      ([tcpdump_reads], [tcpdump_overreads]); a [close] that failed is repeated
      by the destructor ([failed_close_repeated]); servers ignore the host they
      are told to bind ([server_ignores_host]); a second [connect] on a
      socket that was not waited for ends the program
      ([connect_unjoined_aborts]); and the smaller ones stated as
      theorems in the files concerned.

    Streams are taken to be shorter than 2 GiB where the theorems compare
    positions (the unwrapping of sequence numbers is only then unambiguous), and
    64-bit counters of bytes written not to overflow.

    ** What is not modelled

    What the programs write to [cerr].  The conversion of a loss rate in
    floating point, the resolution of names and the words that [random_device]
    yields, which are arguments.  In [apps], where a program is a function of
    the kernel's answers, the socket's thread runs from the opening of the
    connection to its join and its interleaving with the owner is not seen;
    [program_pair] is about that interleaving.  [program_pair] shows safety
    only: that the kernel and the network make progress is not assumed, so no
    theorem says that everything arrives.  Data races on the socket's members
    between [connect] or the destructor and the thread are outside the model,
    since the thread runs only between its start and its join.  The templates
    and declarations of headers, deleted and defaulted members and conversion
    operators have no behaviour to model. *)

From Stdlib Require Export ZArith Lia.
From stdpp Require Export base option list list_numbers gmap strings.
From Stdlib Require Export Strings.Byte.

#[global] Open Scope Z_scope.
#[global] Set Default Goal Selector "!".

Abbreviation bytes := (list byte).

#[global] Instance byte_eq_dec : EqDecision byte := Byte.byte_eq_dec.

(** A string literal. *)
Definition lit (s : string) : bytes := String.list_byte_of_string s.
#[global] Arguments lit : simpl never.

(** ** C++ exceptions as values *)

(** What a C++ [throw] carries; [UnixError] is [unix_error], with the [errno]
    of the system call that failed, and [GaiError] the [tagged_error] of
    [getaddrinfo], with its return value.  [UndefinedBehaviour] is not an exception of
    the program: it marks the inputs on which the C++ standard leaves an
    expression undefined, so that no theorem silently gives it a meaning. *)
Inductive exn : Type :=
| OutOfRange (what : string)
| RuntimeError (what : string)
| UnixError (attempt : string) (error : Z)
| GaiError (attempt : bytes) (error : Z)
| LengthError (what : string)
| UndefinedBehaviour (what : string).

(** The outcome of a method: a value, an exception, or a loop whose fuel was
    not enough.  Every fuelled loop has a theorem that excludes the last. *)
Inductive result (A : Type) : Type :=
| Ok (a : A)
| Throw (e : exn)
| OutOfFuel.
Arguments Ok {A} a.
Arguments Throw {A} e.
Arguments OutOfFuel {A}.

#[global] Instance exn_eq_dec : EqDecision exn.
Proof. solve_decision. Defined.

#[global] Instance result_eq_dec `{EqDecision A} : EqDecision (result A).
Proof. solve_decision. Defined.

#[global] Instance result_ret : MRet result := fun A a => Ok a.
#[global] Instance result_bind : MBind result := fun A B f m =>
  match m with
  | Ok a => f a
  | Throw e => Throw e
  | OutOfFuel => OutOfFuel
  end.
#[global] Instance result_fmap : FMap result := fun A B f m =>
  match m with
  | Ok a => Ok (f a)
  | Throw e => Throw e
  | OutOfFuel => OutOfFuel
  end.

Lemma result_bind_Ok {A B} (m : result A) (f : A -> result B) b :
  (m ≫= f) = Ok b <-> exists a, m = Ok a /\ f a = Ok b.
Proof. destruct m; cbn; split; intros H; try (destruct H as (?&?&?)); simplify_eq; eauto. Qed.

Lemma result_fmap_Ok {A B} (m : result A) (f : A -> B) b :
  (f <$> m) = Ok b <-> exists a, m = Ok a /\ f a = b.
Proof. destruct m; cbn; split; intros H; try (destruct H as (?&?&?)); simplify_eq; eauto. Qed.

(** ** Record update: [r <| field := v |>]

    A record type declares its eta expansion once; the setter of a field is
    the eta expansion with that projection abstracted out. *)
Class Eta (R : Type) := eta : R -> R.
Class Setter {R T : Type} (proj : R -> T) := upd : (T -> T) -> R -> R.
Arguments upd {R T} proj {_} _ _.

Ltac solve_setter :=
  lazymatch goal with
  | |- @Setter ?R ?T ?proj =>
      let e := constr:(_ : Eta R) in
      let e := eval hnf in e in
      let p := eval pattern proj in e in
      lazymatch p with
      | ?body _ => exact (fun (f : T -> T) (r : R) => body (fun r' => f (proj r')) r)
      end
  end.
#[global] Hint Extern 1 (Setter _) => solve_setter : typeclass_instances.

Notation "r <| proj := v |>" := (upd proj (fun _ => v) r)
  (at level 1, left associativity, format "r  <| proj  :=  v |>").

(** ** Unsigned machine integers

    An unsigned [w]-bit integer is a [Z] in [[0, 2^w)]; every arithmetic
    operation of the source that can leave the range is written with the
    reduction it performs.  [size_t] and [uint64_t] are 64 bits wide. *)
Definition u8 (z : Z) : Z := z mod 2 ^ 8.
Definition u16 (z : Z) : Z := z mod 2 ^ 16.
Definition u32 (z : Z) : Z := z mod 2 ^ 32.
Definition u64 (z : Z) : Z := z mod 2 ^ 64.

(** Conversion of a [uint32_t] to [int32_t]. *)
Definition i32 (z : Z) : Z := (z + 2 ^ 31) mod 2 ^ 32 - 2 ^ 31.

Definition add64 (a b : Z) : Z := u64 (a + b).
Definition sub64 (a b : Z) : Z := u64 (a - b).

Declare Scope cpp_scope.
Delimit Scope cpp_scope with cpp.
Infix "⊕" := add64 (at level 50, left associativity) : cpp_scope.
Infix "⊖" := sub64 (at level 50, left associativity) : cpp_scope.
#[global] Open Scope cpp_scope.

Definition is_u8 (z : Z) : Prop := 0 <= z < 2 ^ 8.
Definition is_u16 (z : Z) : Prop := 0 <= z < 2 ^ 16.
Definition is_u32 (z : Z) : Prop := 0 <= z < 2 ^ 32.
Definition is_u64 (z : Z) : Prop := 0 <= z < 2 ^ 64.

Create HintDb word discriminated.
Create HintDb stream discriminated.
#[export] Hint Unfold u8 u16 u32 u64 i32 add64 sub64 is_u8 is_u16 is_u32 is_u64 : word.

Lemma u8_range z : is_u8 (u8 z).
Proof. apply Z.mod_pos_bound; lia. Qed.
Lemma u16_range z : is_u16 (u16 z).
Proof. apply Z.mod_pos_bound; lia. Qed.
Lemma u32_range z : is_u32 (u32 z).
Proof. apply Z.mod_pos_bound; lia. Qed.
Lemma u64_range z : is_u64 (u64 z).
Proof. apply Z.mod_pos_bound; lia. Qed.
#[export] Hint Resolve u8_range u16_range u32_range u64_range : word.

Lemma u8_id z : is_u8 z -> u8 z = z.
Proof. intros H. apply Z.mod_small, H. Qed.
Lemma u16_id z : is_u16 z -> u16 z = z.
Proof. intros H. apply Z.mod_small, H. Qed.
Lemma u32_id z : is_u32 z -> u32 z = z.
Proof. intros H. apply Z.mod_small, H. Qed.
Lemma u64_id z : is_u64 z -> u64 z = z.
Proof. intros H. apply Z.mod_small, H. Qed.

Lemma add64_id a b : is_u64 (a + b) -> a ⊕ b = a + b.
Proof. apply u64_id. Qed.
Lemma sub64_id a b : is_u64 (a - b) -> a ⊖ b = a - b.
Proof. apply u64_id. Qed.
Lemma add64_range a b : is_u64 (a ⊕ b).
Proof. apply u64_range. Qed.
Lemma sub64_range a b : is_u64 (a ⊖ b).
Proof. apply u64_range. Qed.
#[export] Hint Resolve add64_range sub64_range : word.

(** [word_lia]: linear arithmetic that also sees the ranges and reductions of the
    machine integers. *)
Ltac word_lia :=
  repeat autounfold with word in *; Z.div_mod_to_equations; lia.

(** [no_wrap]: removes the reductions that linear arithmetic shows idle. *)
Ltac no_wrap :=
  repeat match goal with
  | |- context [?a ⊕ ?b] => rewrite (add64_id a b) by (unfold is_u64 in *; lia)
  | |- context [?a ⊖ ?b] => rewrite (sub64_id a b) by (unfold is_u64 in *; lia)
  | |- context [u64 ?a] => rewrite (u64_id a) by (unfold is_u64 in *; lia)
  end.

(** ** Strings of bytes *)
(** The value of an [unsigned char] and the conversion of an integer to it. *)
Definition byte_val (b : byte) : Z := Z.of_N (Byte.to_N b).
Definition byte_of (z : Z) : byte :=
  default Byte.x00 (Byte.of_N (Z.to_N (u8 z))).

Lemma byte_val_range b : is_u8 (byte_val b).
Proof. unfold byte_val, is_u8. pose proof (Byte.to_N_bounded b). lia. Qed.
#[export] Hint Resolve byte_val_range : word.

Lemma byte_val_of z : byte_val (byte_of z) = u8 z.
Proof.
  pose proof (u8_range z) as Hr. unfold byte_val, byte_of, is_u8 in *.
  destruct (Byte.of_N (Z.to_N (u8 z))) as [b|] eqn:E; cbn.
  - apply Byte.to_of_N in E. rewrite E. lia.
  - apply Byte.of_N_None_iff in E. lia.
Qed.

Lemma byte_of_val b : byte_of (byte_val b) = b.
Proof.
  unfold byte_of. rewrite u8_id by auto with word.
  unfold byte_val. rewrite N2Z.id, Byte.of_to_N. done.
Qed.

(** [std::string::size]. *)
Definition zlen {A} (s : list A) : Z := Z.of_nat (length s).

Lemma zlen_nonneg {A} (s : list A) : 0 <= zlen s.
Proof. unfold zlen. lia. Qed.
Lemma zlen_nil {A} : zlen (@nil A) = 0.
Proof. done. Qed.
Lemma zlen_cons {A} (x : A) s : zlen (x :: s) = 1 + zlen s.
Proof. unfold zlen. cbn. lia. Qed.
Lemma zlen_app {A} (s t : list A) : zlen (s ++ t) = zlen s + zlen t.
Proof. unfold zlen. rewrite length_app. lia. Qed.
Lemma zlen_take {A} n (s : list A) : zlen (take (Z.to_nat n) s) = Z.min (Z.max 0 n) (zlen s).
Proof. unfold zlen. rewrite length_take. lia. Qed.
Lemma zlen_drop {A} n (s : list A) : zlen (drop (Z.to_nat n) s) = Z.max 0 (zlen s - Z.max 0 n).
Proof. unfold zlen. rewrite length_drop. lia. Qed.
Lemma zlen_0_nil {A} (s : list A) : zlen s = 0 -> s = [].
Proof. destruct s; [done|]. rewrite zlen_cons. pose proof (zlen_nonneg s). lia. Qed.

Create Rewrite HintDb zlen.
#[export] Hint Rewrite @zlen_nil @zlen_cons @zlen_app @zlen_take @zlen_drop : zlen.
Ltac zlen := autorewrite with zlen in *.

(** What holds of a list holds of what is left when elements are removed. *)
Lemma Forall_sublist {A} (P : A -> Prop) (l k : list A) : l `sublist_of` k -> Forall P k -> Forall P l.
Proof. rewrite !Forall_forall. intros Hs Hk x Hx. apply Hk. by eapply elem_of_sublist. Qed.

(** [std::string::npos] and [std::string::substr]: throws when [pos] is past
    the end, otherwise clamps the count.  The form [substr(0, n)] cannot throw
    and is [substr0]. *)
Definition npos : Z := 2 ^ 64 - 1.
Definition substr0 (s : bytes) (n : Z) : bytes := take (Z.to_nat (Z.min n (zlen s))) s.
Definition substr (s : bytes) (pos n : Z) : result bytes :=
  if pos <=? zlen s
  then Ok (take (Z.to_nat (Z.min n (zlen s))) (drop (Z.to_nat pos) s))
  else Throw (OutOfRange "basic_string::substr").

Lemma substr0_eq s n : substr0 s n = take (Z.to_nat n) s.
Proof.
  unfold substr0, zlen. destruct (Z.le_gt_cases n (Z.of_nat (length s))); [by rewrite Z.min_l|].
  rewrite Z.min_r, !take_ge by lia. done.
Qed.

(** [std::string::resize], which pads with null characters. *)
Definition resize (s : bytes) (n : Z) : bytes :=
  take (Z.to_nat n) s ++ replicate (Z.to_nat n - length s) x00.

Lemma zlen_resize s n : zlen (resize s n) = Z.max 0 n.
Proof. unfold resize, zlen. rewrite length_app, length_take, length_replicate. lia. Qed.

Lemma resize_grow s n : zlen s <= n -> resize s n = s ++ replicate (Z.to_nat n - length s) x00.
Proof. intros H. unfold resize. rewrite take_ge; [done|]. unfold zlen in *. lia. Qed.

(** [at_offset T a s]: the bytes [s] are found in the stream [T] at offset [a]. *)
Definition at_offset (T : bytes) (a : Z) (s : bytes) : Prop :=
  0 <= a <= zlen T /\ s `prefix_of` drop (Z.to_nat a) T.

#[global] Instance at_offset_dec T a s : Decision (at_offset T a s).
Proof. unfold at_offset. apply _. Defined.

(** [by_decide]: proves a closed decidable proposition by evaluation. *)
Ltac by_decide := refine (bool_decide_unpack _ _); vm_compute; exact I.

Lemma at_offset_bound T a s : at_offset T a s -> a + zlen s <= zlen T.
Proof.
  intros [Ha Hp%prefix_length]. rewrite length_drop in Hp. unfold zlen in *. lia.
Qed.

Lemma at_offset_nil T a : 0 <= a <= zlen T -> at_offset T a [].
Proof. intros Ha. split; [done|]. apply prefix_nil. Qed.

Lemma at_offset_take T a s n : at_offset T a s -> at_offset T a (take n s).
Proof. intros [Ha Hp]. split; [done|]. etrans; [|exact Hp]. apply prefix_take. Qed.

Lemma at_offset_drop T a s n :
  at_offset T a s -> 0 <= n <= zlen s -> at_offset T (a + n) (drop (Z.to_nat n) s).
Proof.
  intros Hs Hn. pose proof (at_offset_bound _ _ _ Hs). destruct Hs as [Ha [k Hk]].
  split; [lia|]. exists k.
  replace (Z.to_nat (a + n)) with (Z.to_nat a + Z.to_nat n)%nat by lia.
  rewrite <- drop_drop, Hk, drop_app_le; [done|]. unfold zlen in *. lia.
Qed.

Lemma at_offset_app T a s u :
  at_offset T a s -> at_offset T (a + zlen s) u -> at_offset T a (s ++ u).
Proof.
  intros [Ha [k Hk]] [_ Hu]. split; [done|]. rewrite Hk. apply prefix_app.
  replace (drop (Z.to_nat (a + zlen s)) T) with k in Hu; [done|].
  replace (Z.to_nat (a + zlen s)) with (Z.to_nat a + length s)%nat by (unfold zlen; lia).
  by rewrite <- drop_drop, Hk, drop_app_length.
Qed.

Lemma at_offset_grow T a s u : at_offset T a s -> at_offset (T ++ u) a s.
Proof.
  intros Hs. pose proof (at_offset_bound _ _ _ Hs). destruct Hs as [Ha Hp]. split.
  - rewrite zlen_app. pose proof (zlen_nonneg u). lia.
  - rewrite drop_app_le by (unfold zlen in *; lia). by apply prefix_app_r.
Qed.

Lemma at_offset_all T s : at_offset T 0 s -> zlen s = zlen T -> s = T.
Proof.
  intros [_ [k Hk]] Hl. cbn in Hk. rewrite drop_0 in Hk. subst T.
  rewrite zlen_app in Hl. pose proof (zlen_nonneg k). rewrite (zlen_0_nil k) by lia.
  by rewrite app_nil_r.
Qed.

(** Two readings of the same stretch of a stream agree. *)
Lemma at_offset_eq T a s u : at_offset T a s -> at_offset T a u -> zlen s = zlen u -> s = u.
Proof.
  intros [_ [k Hk]] [_ [k' Hk']] Hl. rewrite Hk in Hk'.
  by apply app_inj_1 in Hk' as [-> _]; [|unfold zlen in Hl; lia].
Qed.
