(* ===== verification/wrapping_integers.v ===== *)
(** * [libsponge/wrapping_integers.hh], [libsponge/wrapping_integers.cc]

    32-bit sequence numbers relative to an initial sequence number, and their
    conversion to and from absolute 64-bit sequence numbers.  The theorems say
    that [wrap] is addition modulo [2^32], that [unwrap] returns the closest
    absolute number, and that [unwrap] inverts [wrap] near the checkpoint. *)

From S2P Require Import Prelude.

Module WrappingInt32.

Record t : Type := mk { raw_value : Z }.

#[global] Instance t_eq_dec : EqDecision t.
Proof. solve_decision. Defined.

Definition wf (a : t) : Prop := is_u32 (raw_value a).

(** [operator-(WrappingInt32, WrappingInt32)]. *)
Definition diff (a b : t) : Z := i32 (u32 (raw_value a - raw_value b)).

(** [operator==]. *)
Definition eqb (a b : t) : bool := raw_value a =? raw_value b.

(** [operator+(WrappingInt32, uint32_t)]. *)
Definition add (a : t) (b : Z) : t := mk (u32 (raw_value a + b)).

(** [operator-(WrappingInt32, uint32_t)]: [a + -b], the negation at 32 bits. *)
Definition sub (a : t) (b : Z) : t := add a (u32 (- b)).

Definition wrap (n : Z) (isn : t) : t :=
  let mask := 0xFFFFFFFF in
  let n := Z.land n mask in
  let n := n ⊕ raw_value isn in
  let n := Z.land n mask in
  mk (u32 n).

Definition unwrap (n isn : t) (checkpoint : Z) : Z :=
  let mask := 0xFFFFFFFF in
  let UINT32_MAX := 0xFFFFFFFF in
  let off :=
    if diff n isn <? 0
    then u32 (UINT32_MAX - u32 (u32 (raw_value isn - raw_value n) - 1))
    else u32 (raw_value n - raw_value isn) in
  let res := Z.land checkpoint (u64 (Z.lnot mask)) ⊕ off in
  if res <=? checkpoint then
    if checkpoint ⊖ res <=? Z.shiftr (mask ⊕ 1) 1 then res
    else Z.max res (res ⊕ (mask ⊕ 1))
  else
    if (res ⊖ checkpoint <=? Z.shiftr (mask ⊕ 1) 1) || (res <? mask ⊕ 1) then res
    else res ⊖ (mask ⊕ 1).

(** ** Bit masks as remainders *)

Lemma land_mask32 z : Z.land z 0xFFFFFFFF = u32 z.
Proof. change 0xFFFFFFFF with (Z.ones 32). apply Z.land_ones. lia. Qed.

Lemma land_high_mask z :
  is_u64 z -> Z.land z (u64 (Z.lnot 0xFFFFFFFF)) = z - z mod 2 ^ 32.
Proof.
  intros Hz.
  change (u64 (Z.lnot 0xFFFFFFFF)) with (Z.ldiff (Z.ones 64) (Z.ones 32)).
  assert (Z.land z (Z.ones 64) = z) as Hid.
  { rewrite Z.land_ones by lia. apply u64_id, Hz. }
  rewrite <- (Z.land_ones z 32) by lia.
  assert (Z.land z (Z.ones 32) + Z.ldiff z (Z.ones 32) = z) as Hsplit.
  { rewrite Z.add_nocarry_lxor.
    - apply Z.bits_inj'. intros i Hi. rewrite Z.lxor_spec, Z.land_spec, Z.ldiff_spec.
      destruct (Z.testbit z i), (Z.testbit (Z.ones 32) i); done.
    - apply Z.bits_inj'. intros i Hi. rewrite Z.land_spec, Z.land_spec, Z.ldiff_spec, Z.bits_0.
      destruct (Z.testbit z i), (Z.testbit (Z.ones 32) i); done. }
  assert (Z.land z (Z.ldiff (Z.ones 64) (Z.ones 32)) = Z.ldiff z (Z.ones 32)) as ->.
  { rewrite <- Hid at 2. apply Z.bits_inj'. intros i Hi.
    rewrite !Z.land_spec, !Z.ldiff_spec, Z.land_spec. by rewrite andb_assoc. }
  lia.
Qed.

Lemma wrap_raw n isn :
  wf isn -> raw_value (wrap n isn) = u32 (n + raw_value isn).
Proof.
  intros Hi. unfold wrap, wf in *. cbn. rewrite !land_mask32.
  pose proof (u32_range n). rewrite add64_id by word_lia. word_lia.
Qed.

Lemma wrap_wf n isn : wf (wrap n isn).
Proof. apply u32_range. Qed.

Lemma add_wf a b : wf (add a b).
Proof. apply u32_range. Qed.

(** The two arms of [off] compute the same 32-bit difference. *)
Lemma off_eq n isn :
  wf n -> wf isn ->
  (if diff n isn <? 0
   then u32 (0xFFFFFFFF - u32 (u32 (raw_value isn - raw_value n) - 1))
   else u32 (raw_value n - raw_value isn)) = u32 (raw_value n - raw_value isn).
Proof.
  unfold wf, diff. intros Hn Hi. destruct (Z.ltb_spec (i32 (u32 (raw_value n - raw_value isn))) 0); [|done].
  word_lia.
Qed.

(** The closed form of [unwrap] on in-range arguments: no reduction is left,
    except for the sum that can pass [2^64]. *)
Lemma unwrap_eq n isn cp :
  wf n -> wf isn -> is_u64 cp ->
  let res := cp - cp mod 2 ^ 32 + u32 (raw_value n - raw_value isn) in
  unwrap n isn cp =
    if res <=? cp then
      if cp - res <=? 2 ^ 31 then res
      else if res + 2 ^ 32 <? 2 ^ 64 then res + 2 ^ 32 else res
    else if (res - cp <=? 2 ^ 31) || (res <? 2 ^ 32) then res else res - 2 ^ 32.
Proof.
  intros Hn Hi Hc res. unfold unwrap. cbv zeta.
  rewrite off_eq by done. rewrite land_high_mask by done.
  pose proof (u32_range (raw_value n - raw_value isn)) as Ho.
  rewrite (add64_id (cp - _)) by word_lia. fold res.
  assert (is_u64 res) by (unfold res; word_lia).
  change (0xFFFFFFFF ⊕ 1) with (2 ^ 32). change (Z.shiftr (2 ^ 32) 1) with (2 ^ 31).
  destruct (Z.leb_spec res cp).
  - rewrite sub64_id by word_lia. case_match; [done|].
    destruct (Z.ltb_spec (res + 2 ^ 32) (2 ^ 64)); word_lia.
  - rewrite (sub64_id res cp) by word_lia.
    destruct (Z.leb_spec (res - cp) (2 ^ 31)), (Z.ltb_spec res (2 ^ 32)); cbn; try done.
    rewrite sub64_id by word_lia. done.
Qed.

Lemma wrap_eq_iff m n isn :
  wf n -> wf isn -> wrap m isn = n <-> m mod 2 ^ 32 = u32 (raw_value n - raw_value isn).
Proof.
  intros Hn Hi. split.
  - intros <-. rewrite wrap_raw by done. word_lia.
  - intros Hm. destruct n as [n]. unfold wf in *. cbn in *.
    transitivity (mk (raw_value (wrap m isn))); [by destruct (wrap m isn)|].
    rewrite wrap_raw by done. f_equal. word_lia.
Qed.

(** C7: [unwrap] returns an absolute sequence number that wraps to the given
    one, and no other 64-bit number that wraps to it is closer to the
    checkpoint.  The reduction modulo [2^64] in the upper branch never makes
    the answer wrong. *)
Theorem unwrap_closest n isn cp :
  wf n -> wf isn -> is_u64 cp ->
  is_u64 (unwrap n isn cp) /\
  wrap (unwrap n isn cp) isn = n /\
  (forall m, is_u64 m -> wrap m isn = n ->
     Z.abs (unwrap n isn cp - cp) <= Z.abs (m - cp)).
Proof.
  intros Hn Hi Hc. setoid_rewrite wrap_eq_iff; [|done..].
  rewrite unwrap_eq by done. cbv zeta.
  set (off := u32 (raw_value n - raw_value isn)).
  assert (is_u32 off) by apply u32_range. unfold is_u32, is_u64 in *.
  assert (cp = 2 ^ 32 * (cp / 2 ^ 32) + cp mod 2 ^ 32) by (apply Z.div_mod; lia).
  assert (0 <= cp mod 2 ^ 32 < 2 ^ 32) by (apply Z.mod_pos_bound; lia).
  set (q := cp / 2 ^ 32) in *. set (r := cp mod 2 ^ 32) in *.
  assert (forall m k, m = 2 ^ 32 * k + off -> m mod 2 ^ 32 = off) as Hmod.
  { intros m k ->. rewrite (Z.mul_comm (2 ^ 32)), Z.add_comm, Z.mod_add by lia. apply Z.mod_small. lia. }
  assert (forall m, m mod 2 ^ 32 = off -> exists k, m = 2 ^ 32 * k + off) as Hk.
  { intros m Hm. exists (m / 2 ^ 32). pose proof (Z.div_mod m (2 ^ 32)). lia. }
  replace (cp - r + off) with (2 ^ 32 * q + off) by lia.
  split; [|split].
  - repeat case_match; lia.
  - repeat case_match;
      first [apply (Hmod _ q); lia | apply (Hmod _ (q + 1)); lia | apply (Hmod _ (q - 1)); lia].
  - intros m Hm [k ->]%Hk. repeat case_match; nia.
Qed.

Lemma unwrap_closest_witness :
  unwrap (mk 5) (mk 7) (2 ^ 33) = 2 ^ 33 - 2 /\
  is_u64 (unwrap (mk 5) (mk 7) (2 ^ 33)) /\
  wrap (unwrap (mk 5) (mk 7) (2 ^ 33)) (mk 7) = mk 5.
Proof.
  split; [vm_compute; reflexivity|].
  destruct (unwrap_closest (mk 5) (mk 7) (2 ^ 33)) as (H1 & H2 & _);
    [unfold wf, is_u32; cbn; lia | unfold wf, is_u32; cbn; lia | unfold is_u64; lia |].
  split; assumption.
Defined.

(** [unwrap] inverts [wrap] for every absolute sequence number strictly within
    [2^31] of the checkpoint. *)
Theorem unwrap_wrap n isn cp :
  wf isn -> is_u64 n -> is_u64 cp -> Z.abs (n - cp) < 2 ^ 31 ->
  unwrap (wrap n isn) isn cp = n.
Proof.
  intros Hi Hn Hc Hd. rewrite unwrap_eq by (try apply wrap_wf; done). cbv zeta.
  rewrite wrap_raw by done.
  assert (u32 (u32 (n + raw_value isn) - raw_value isn) = n mod 2 ^ 32) as -> by word_lia.
  unfold is_u64 in *.
  pose proof (Z.div_mod n (2 ^ 32)). pose proof (Z.mod_pos_bound n (2 ^ 32)).
  pose proof (Z.div_mod cp (2 ^ 32)). pose proof (Z.mod_pos_bound cp (2 ^ 32)).
  repeat case_match; lia.
Qed.

Lemma wrap_add n k isn : wf isn -> add (wrap n isn) k = wrap (n + k) isn.
Proof.
  intros Hi. unfold add. destruct (wrap (n + k) isn) as [r] eqn:E.
  apply (f_equal raw_value) in E. rewrite wrap_raw in E by done. cbn in E. subst r.
  rewrite wrap_raw by done. f_equal. word_lia.
Qed.

Lemma eqb_wrap n isn : wf isn -> eqb isn (wrap n isn) = true <-> n mod 2 ^ 32 = 0.
Proof.
  intros Hi. unfold eqb. rewrite wrap_raw, Z.eqb_eq by done. unfold wf in Hi. split; word_lia.
Qed.

End WrappingInt32.
