(* ===== verification/byte_stream.v ===== *)
(** * [libsponge/byte_stream.hh], [libsponge/byte_stream.cc]

    The flow-controlled in-memory byte stream.  [t] is the class, one
    definition per method.  The theorems give each mutator's effect, show that
    none of them throws in a well-formed state, and that every reachable
    stream is a bounded FIFO queue: what was accepted is what was delivered
    followed by what is still buffered. *)

From stdpp Require Import relations.
From S2P Require Import Prelude.

Module ByteStream.

Record t : Type := mk {
  _str : bytes;
  _capacity : Z;
  _cur_cap : Z;
  _bytes_read : Z;
  _bytes_written : Z;
  _input_is_end : bool;
  _error : bool
}.

#[global] Instance eta_t : Eta t := fun s =>
  mk (_str s) (_capacity s) (_cur_cap s) (_bytes_read s) (_bytes_written s) (_input_is_end s) (_error s).

#[global] Instance t_eq_dec : EqDecision t.
Proof. solve_decision. Defined.

(** The constructor: the other members have default initialisers. *)
Definition init (capacity : Z) : t := mk [] capacity 0 0 0 false false.

Definition remaining_capacity (s : t) : Z := _capacity s ⊖ _cur_cap s.
Definition buffer_size (s : t) : Z := _cur_cap s.
Definition buffer_empty (s : t) : bool := buffer_size s =? 0.
Definition input_ended (s : t) : bool := _input_is_end s.
Definition eof (s : t) : bool := input_ended s && buffer_empty s.
Definition error (s : t) : bool := _error s.
Definition bytes_written (s : t) : Z := _bytes_written s.
Definition bytes_read (s : t) : Z := _bytes_read s.

Definition write (data : bytes) (s : t) : Z * t :=
  let real_len := Z.min (zlen data) (remaining_capacity s) in
  (real_len,
   s <| _str := _str s ++ substr0 data real_len |>
     <| _bytes_written := _bytes_written s ⊕ real_len |>
     <| _cur_cap := _cur_cap s ⊕ real_len |>).

Definition peek_output (len : Z) (s : t) : bytes :=
  let real_len := Z.min len (buffer_size s) in
  substr0 (_str s) real_len.

Definition pop_output (len : Z) (s : t) : result t :=
  let real_len := Z.min len (buffer_size s) in
  str ← (if real_len =? buffer_size s then Ok []
         else substr (_str s) real_len (buffer_size s ⊖ real_len));
  Ok (s <| _str := str |>
        <| _cur_cap := _cur_cap s ⊖ real_len |>
        <| _bytes_read := _bytes_read s ⊕ real_len |>).

Definition read (len : Z) (s : t) : result (bytes * t) :=
  let real_len := Z.min len (buffer_size s) in
  let ret := peek_output real_len s in
  s ← pop_output real_len s;
  Ok (ret, s).

#[global] Arguments write : simpl never.
#[global] Arguments peek_output : simpl never.
#[global] Arguments pop_output : simpl never.
#[global] Arguments read : simpl never.

Definition end_input (s : t) : t := s <| _input_is_end := true |>.
Definition set_error (s : t) : t := s <| _error := true |>.

(** ** Well-formed streams *)

Record wf (s : t) : Prop := {
  wf_len : _cur_cap s = zlen (_str s);
  wf_cap : _cur_cap s <= _capacity s;
  wf_capacity : is_u64 (_capacity s);
  wf_read : is_u64 (_bytes_read s);
  wf_written : _bytes_written s = _bytes_read s ⊕ _cur_cap s
}.

Ltac unfold_wf :=
  repeat match goal with H : wf ?s |- _ =>
    let H1 := fresh "Hlen" in let H2 := fresh "Hcap" in let H3 := fresh "Hcapacity" in
    let H4 := fresh "Hread" in let H5 := fresh "Hwritten" in
    destruct H as [H1 H2 H3 H4 H5]
  end.

Lemma init_wf capacity : is_u64 capacity -> wf (init capacity).
Proof. intros H. split; cbn; first [done | word_lia]. Qed.

Lemma remaining_capacity_eq s : wf s -> remaining_capacity s = _capacity s - zlen (_str s).
Proof.
  intros []. unfold remaining_capacity. pose proof (zlen_nonneg (_str s)).
  rewrite sub64_id by word_lia. lia.
Qed.

Lemma buffer_empty_nil s : wf s -> buffer_empty s = true <-> _str s = [].
Proof.
  intros []. unfold buffer_empty, buffer_size. rewrite wf_len0, Z.eqb_eq.
  split; [apply zlen_0_nil | by intros ->].
Qed.

Lemma u64_add_assoc a b c : (a ⊕ b) ⊕ c = u64 (a + b + c).
Proof. unfold add64, u64. rewrite Zplus_mod_idemp_l. done. Qed.

(** [write] in closed form. *)
Lemma write_eq data s :
  wf s ->
  let n := Z.min (zlen data) (_capacity s - zlen (_str s)) in
  write data s =
    (n, mk (_str s ++ take (Z.to_nat n) data) (_capacity s) (zlen (_str s) + n) (_bytes_read s)
           (_bytes_written s ⊕ n) (_input_is_end s) (_error s)).
Proof.
  intros Hwf n. unfold write. rewrite remaining_capacity_eq by done. fold n.
  destruct Hwf. rewrite wf_len0. pose proof (zlen_nonneg (_str s)). pose proof (zlen_nonneg data).
  cbn. rewrite substr0_eq, (add64_id (zlen _)) by (unfold n; word_lia). done.
Qed.

Lemma write_wf data s : wf s -> wf (snd (write data s)).
Proof.
  intros Hwf. rewrite write_eq by done. destruct Hwf. pose proof (zlen_nonneg (_str s)).
  pose proof (zlen_nonneg data). split; cbn; zlen; try lia; try done.
  rewrite wf_written0, wf_len0, u64_add_assoc. unfold add64. f_equal. lia.
Qed.

(** [pop_output] in closed form: it does not throw. *)
Lemma pop_output_eq len s :
  wf s -> 0 <= len ->
  let n := Z.min len (zlen (_str s)) in
  pop_output len s =
    Ok (mk (drop (Z.to_nat n) (_str s)) (_capacity s) (zlen (_str s) - n) (_bytes_read s ⊕ n)
           (_bytes_written s) (_input_is_end s) (_error s)).
Proof.
  intros [] Hl n. unfold pop_output, buffer_size. rewrite wf_len0. fold n.
  pose proof (zlen_nonneg (_str s)).
  rewrite !(sub64_id (zlen _)) by (unfold n; word_lia).
  destruct (Z.eqb_spec n (zlen (_str s))) as [E|E]; cbn.
  - rewrite drop_ge; [done|]. unfold zlen in *. lia.
  - unfold substr. rewrite (proj2 (Z.leb_le n _)) by lia. cbn.
    rewrite take_ge; [done|]. rewrite length_drop. unfold zlen in *. lia.
Qed.

Lemma pop_output_wf len s s' : wf s -> 0 <= len -> pop_output len s = Ok s' -> wf s'.
Proof.
  intros Hwf Hl. rewrite pop_output_eq by done. destruct Hwf.
  intros [= <-]. pose proof (zlen_nonneg (_str s)).
  split; cbn; zlen; try lia; try done; [apply add64_range|].
  rewrite wf_written0, wf_len0, u64_add_assoc. unfold add64. f_equal. lia.
Qed.

Lemma peek_output_eq len s :
  wf s -> peek_output len s = take (Z.to_nat (Z.min len (zlen (_str s)))) (_str s).
Proof. intros []. unfold peek_output, buffer_size. by rewrite substr0_eq, wf_len0. Qed.

(** [read] in closed form. *)
Lemma read_eq len s :
  wf s -> 0 <= len ->
  let n := Z.min len (zlen (_str s)) in
  read len s =
    Ok (take (Z.to_nat n) (_str s),
        mk (drop (Z.to_nat n) (_str s)) (_capacity s) (zlen (_str s) - n) (_bytes_read s ⊕ n)
           (_bytes_written s) (_input_is_end s) (_error s)).
Proof.
  intros Hwf Hl n. unfold read. rewrite peek_output_eq by done.
  assert (buffer_size s = zlen (_str s)) as -> by apply Hwf.
  fold n. pose proof (zlen_nonneg (_str s)). rewrite pop_output_eq by (done || lia). cbn.
  replace (Z.min n (zlen (_str s))) with n by lia. done.
Qed.

Lemma read_wf len s d s' : wf s -> 0 <= len -> read len s = Ok (d, s') -> wf s'.
Proof.
  intros Hwf Hl (s1 & Hp & Heq)%result_bind_Ok. simplify_eq. eapply pop_output_wf; [done| |done].
  pose proof (zlen_nonneg (_str s)). destruct Hwf. unfold buffer_size. lia.
Qed.

Lemma end_input_wf s : wf s -> wf (end_input s).
Proof. intros []. by split. Qed.
Lemma set_error_wf s : wf s -> wf (set_error s).
Proof. intros []. by split. Qed.
#[export] Hint Resolve init_wf write_wf pop_output_wf read_wf end_input_wf set_error_wf : stream.

(** ** Traces

    A configuration pairs the stream with two histories that the program does
    not keep: every byte a [write] accepted, and every byte that was popped or
    read.  [step] is one call by the writer or the reader. *)
Definition config : Type := t * bytes * bytes.

Inductive step : config -> config -> Prop :=
| step_write s i o data n s' :
    write data s = (n, s') -> step (s, i, o) (s', i ++ substr0 data n, o)
| step_pop s i o len s' :
    is_u64 len -> pop_output len s = Ok s' -> step (s, i, o) (s', i, o ++ peek_output len s)
| step_read s i o len d s' :
    is_u64 len -> read len s = Ok (d, s') -> step (s, i, o) (s', i, o ++ d)
| step_end s i o : step (s, i, o) (end_input s, i, o)
| step_error s i o : step (s, i, o) (set_error s, i, o).

Definition reachable (capacity : Z) (c : config) : Prop :=
  rtc step (init capacity, [], []) c.

(** The contract of the class: a bounded FIFO queue with 64-bit counters. *)
Record fifo (capacity : Z) (c : config) : Prop := {
  fifo_wf : wf (c.1.1);
  fifo_capacity : _capacity (c.1.1) = capacity;
  fifo_order : c.1.2 = c.2 ++ _str (c.1.1);
  fifo_read : bytes_read (c.1.1) = u64 (zlen (c.2));
  fifo_written : bytes_written (c.1.1) = u64 (zlen (c.1.2))
}.

Lemma step_fifo capacity c c' : fifo capacity c -> step c c' -> fifo capacity c'.
Proof.
  intros Hf Hs.
  destruct Hs as [s i o data n s' Hw|s i o len s' Hl Hp|s i o len d s' Hl Hr|s i o|s i o];
    destruct Hf as [Hwf Hc Ho Hrd Hwr]; cbn in *.
  - pose proof (write_wf data s Hwf) as Hwf'. rewrite write_eq in Hw, Hwf' by done.
    injection Hw as <- <-. split; cbn in *; try done.
    + by rewrite Ho, substr0_eq, app_assoc.
    + unfold bytes_written in *. cbn. rewrite Hwr. unfold add64. rewrite ?substr0_eq. zlen.
      pose proof (zlen_nonneg data). destruct Hwf. pose proof (zlen_nonneg (_str s)).
      unfold u64. rewrite Zplus_mod_idemp_l. f_equal. lia.
  - pose proof (pop_output_wf len s s' Hwf ltac:(word_lia) Hp) as Hwf'.
    rewrite pop_output_eq in Hp by (done || word_lia). injection Hp as <-.
    rewrite peek_output_eq by done. split; cbn in *; try done.
    + by rewrite <- app_assoc, take_drop.
    + unfold bytes_read in *. cbn. rewrite Hrd. unfold add64. zlen.
      unfold u64. rewrite Zplus_mod_idemp_l. f_equal. pose proof (zlen_nonneg (_str s)). word_lia.
  - pose proof (read_wf len s d s' Hwf ltac:(word_lia) Hr) as Hwf'.
    rewrite read_eq in Hr by (done || word_lia). injection Hr as <- <-.
    split; cbn in *; try done.
    + by rewrite <- app_assoc, take_drop.
    + unfold bytes_read in *. cbn. rewrite Hrd. unfold add64. zlen.
      unfold u64. rewrite Zplus_mod_idemp_l. f_equal. pose proof (zlen_nonneg (_str s)). word_lia.
  - split; cbn; auto with stream.
  - split; cbn; auto with stream.
Qed.

Lemma reachable_fifo capacity c : is_u64 capacity -> reachable capacity c -> fifo capacity c.
Proof.
  intros Hc Hr. assert (fifo capacity (init capacity, [], [])) as H0 by (split; cbn; auto with stream).
  unfold reachable in Hr. revert H0. induction Hr; eauto using step_fifo.
Qed.

(** C8: after any interleaving of writes, pops, reads and closes, the stream
    implements a bounded FIFO queue: the accepted bytes are the delivered ones
    followed by the buffered ones, the buffer never exceeds the capacity, and
    the two counters are the history lengths modulo [2^64]. *)
Theorem byte_stream_fifo capacity c :
  is_u64 capacity -> reachable capacity c ->
  c.1.2 = c.2 ++ _str (c.1.1) /\
  zlen (_str (c.1.1)) <= capacity /\
  remaining_capacity (c.1.1) = capacity - zlen (_str (c.1.1)) /\
  bytes_read (c.1.1) = u64 (zlen (c.2)) /\
  bytes_written (c.1.1) = u64 (zlen (c.1.2)).
Proof.
  intros Hc Hr.
  destruct (reachable_fifo capacity c) as [Hwf Hcap Ho Hrd Hwr]; [done..|].
  rewrite remaining_capacity_eq by done. destruct Hwf. split_and!; try done; lia.
Qed.

Lemma byte_stream_fifo_witness :
  exists c, reachable 2 c /\ c.2 = [x61] /\ c.1.2 = [x61; x62] /\
    c.1.2 = c.2 ++ _str (c.1.1).
Proof.
  exists (mk [x62] 2 1 1 2 false false, [x61; x62], [x61]).
  assert (reachable 2 (mk [x62] 2 1 1 2 false false, [x61; x62], [x61])) as Hr.
  { eapply rtc_l; [apply (step_write _ _ _ [x61; x62; x63] 2 (mk [x61; x62] 2 2 0 2 false false)); reflexivity|].
    eapply rtc_l; [apply (step_read _ _ _ 1 [x61] (mk [x62] 2 1 1 2 false false)); [word_lia|reflexivity]|].
    apply rtc_refl. }
  split; [exact Hr|]. split; [reflexivity|]. split; [reflexivity|].
  apply (byte_stream_fifo 2 _ ltac:(word_lia) Hr).
Defined.

(** No call throws: in every reachable stream, [pop_output] and [read]
    with any 64-bit length return normally. *)
Theorem byte_stream_no_throw capacity c len :
  is_u64 capacity -> reachable capacity c -> is_u64 len ->
  (exists s', pop_output len (c.1.1) = Ok s') /\
  (exists s', read len (c.1.1) = Ok (peek_output len (c.1.1), s')).
Proof.
  intros Hc Hr Hl. pose proof (fifo_wf _ _ (reachable_fifo _ _ Hc Hr)).
  rewrite pop_output_eq, read_eq, peek_output_eq by (done || word_lia). eauto.
Qed.

End ByteStream.
