(* ===== verification/stream_reassembler.v ===== *)
(** * [libsponge/stream_reassembler.hh], [libsponge/stream_reassembler.cc]

    The reassembler turns excerpts of a byte stream, possibly out of order and
    overlapping, into an in-order [ByteStream].  [scan] is the first loop of
    [push_substring] (merging with the stored substrings), [insert_node] the
    second one, [out] the code at the label of the same name. *)

From stdpp Require Import relations.
From S2P Require Import Prelude.
From S2P Require Import byte_stream.
Import (hints) ByteStream.

Module StreamReassembler.

(** [struct _list_node]. *)
Record node : Type := mk_node { _s : bytes; _beg : Z; _end : Z }.

Record t : Type := mk {
  _output : ByteStream.t;
  _capacity : Z;
  _cur_index : Z;
  _eof : bool;
  _list : list node
}.

#[global] Instance eta_t : Eta t := fun s =>
  mk (_output s) (_capacity s) (_cur_index s) (_eof s) (_list s).

#[global] Instance node_eq_dec : EqDecision node.
Proof. solve_decision. Defined.
#[global] Instance t_eq_dec : EqDecision t.
Proof. solve_decision. Defined.

Definition init (capacity : Z) : t := mk (ByteStream.init capacity) capacity 0 false [].

Definition stream_out (s : t) : ByteStream.t := _output s.
Definition cur_index (s : t) : Z := _cur_index s.

Definition unassembled_bytes (s : t) : Z :=
  foldl (fun ret e => ret ⊕ zlen (_s e)) 0 (_list s).

Definition empty (s : t) : bool := unassembled_bytes s =? 0.

(** The first loop.  [true] in the first component is the [goto out] of a
    substring that a stored one covers; the list is the one left by the
    erasures made so far. *)
Fixpoint scan (l : list node) (actual_data : bytes) (left right : Z)
    : result (bool * list node * bytes * Z * Z) :=
  match l with
  | [] => Ok (false, [], actual_data, left, right)
  | it :: rest =>
      if (_end it ⊕ 1 <? left) || (right ⊕ 1 <? _beg it) then
        '(covered, l', d, a, b) ← scan rest actual_data left right;
        Ok (covered, it :: l', d, a, b)
      else if (_beg it <=? left) && (right <=? _end it) then
        Ok (true, it :: rest, actual_data, left, right)
      else if (_end it <=? right) && (left <=? _beg it) then
        scan rest actual_data left right
      else if (left <=? _end it ⊕ 1) && (_end it ⊕ 1 <=? right) then
        scan rest (substr0 (_s it) (left ⊖ _beg it) ++ actual_data) (_beg it) right
      else if (left ⊕ 1 <=? _beg it) && (_beg it <=? right ⊕ 1) then
        suffix ← substr (_s it) (right ⊕ 1 ⊖ _beg it) npos;
        scan rest (actual_data ++ suffix) left (_end it)
      else Throw (RuntimeError "Control flow shouldn't reach here!")
  end.

(** The second loop: insert before the first node past the substring. *)
Fixpoint insert_node (n : node) (l : list node) : list node :=
  match l with
  | [] => [n]
  | it :: rest => if _end n ⊕ 1 <? _beg it then n :: it :: rest else it :: insert_node n rest
  end.

Definition out (should_set_eof : bool) (s : t) : t :=
  let s := if should_set_eof then s <| _eof := true |> else s in
  if _eof s && empty s then s <| _output := ByteStream.end_input (_output s) |> else s.

Definition write_refused : exn := RuntimeError "ByteStream::write() return value not expected.".

(** Past the first loop: the merged substring is written when it is next in
    order, stored otherwise. *)
Definition settle (actual_data : bytes) (left right : Z) (should_set_eof : bool) (s : t) : result t :=
  if left =? _cur_index s then
    let '(n, o) := ByteStream.write actual_data (stream_out s) in
    if negb (zlen actual_data =? n) then Throw write_refused
    else Ok (out should_set_eof
               (s <| _output := o |> <| _cur_index := _cur_index s ⊕ zlen actual_data |>))
  else Ok (out should_set_eof
             (s <| _list := insert_node (mk_node actual_data left right) (_list s) |>)).

(** The rest of the call once the substring has been trimmed to the window. *)
Definition place (actual_data : bytes) (left : Z) (should_set_eof : bool) (s : t) : result t :=
  let right := left ⊕ zlen actual_data ⊖ 1 in
  '(covered, l, actual_data, left', right') ← scan (_list s) actual_data left right;
  let s := s <| _list := l |> in
  if covered : bool then Ok (out should_set_eof s)
  else settle actual_data left' right' should_set_eof s.

Definition push_substring (data : bytes) (index : Z) (eof : bool) (s : t) : result t :=
  let first_unavailable := _cur_index s ⊕ ByteStream.remaining_capacity (stream_out s) in
  if first_unavailable =? _cur_index s then Ok s else
  trimmed ← (if index <? _cur_index s then
               let offset := _cur_index s ⊖ index in
               if zlen data <=? offset then Ok None
               else d ← substr data offset npos; Ok (Some (d, _cur_index s))
             else Ok (Some (data, index)));
  match trimmed with
  | None => Ok (out eof s)
  | Some (actual_data, left') =>
      if first_unavailable <? left' ⊕ zlen actual_data
      then place (substr0 actual_data (first_unavailable ⊖ left')) left' false s
      else place actual_data left' eof s
  end.

(** No call changes the error flag of the output. *)
Lemma out_error b s : ByteStream.error (_output (out b s)) = ByteStream.error (_output s).
Proof. unfold out. destruct b; cbn; by case_match. Qed.

Lemma settle_error d a b e s s' :
  settle d a b e s = Ok s' -> ByteStream.error (_output s') = ByteStream.error (_output s).
Proof.
  unfold settle, ByteStream.write. destruct (_ =? _); [destruct (negb _); [done|]|]; intros [= <-]; by rewrite out_error.
Qed.

Lemma place_error d a e s s' :
  place d a e s = Ok s' -> ByteStream.error (_output s') = ByteStream.error (_output s).
Proof.
  unfold place. intros ([[[[cov l] d'] a'] b'] & _ & H)%result_bind_Ok.
  destruct cov; [injection H as <-; by rewrite out_error|by apply settle_error in H].
Qed.

Lemma push_substring_error data index eof s s' :
  push_substring data index eof s = Ok s' -> ByteStream.error (_output s') = ByteStream.error (_output s).
Proof.
  unfold push_substring. destruct (_ =? _); [by intros [= <-]|]. intros ([[d a]|] & _ & H)%result_bind_Ok.
  - destruct (_ <? _); by apply place_error in H.
  - injection H as <-. apply out_error.
Qed.

(** No loop of the class is fuelled. *)
Lemma scan_fuel l d a b : scan l d a b <> OutOfFuel.
Proof.
  revert d a b. induction l as [|it rest IH]; intros d a b; cbn [scan]; [done|].
  repeat (case_match; try done); try apply IH.
  - destruct (scan rest d a b) as [[[[[]]]]| |] eqn:E; cbn; [done|done|]. by apply IH in E.
  - unfold substr. case_match; cbn; [apply IH|done].
Qed.

Lemma place_fuel d a e s : place d a e s <> OutOfFuel.
Proof.
  unfold place. destruct (scan _ _ _ _) as [[[[[[] l] d'] a'] b']| |] eqn:E; cbn; try done.
  - unfold settle. case_match; [|done]. destruct (ByteStream.write _ _). by case_match.
  - by apply scan_fuel in E.
Qed.

Lemma push_substring_fuel data index eof s : push_substring data index eof s <> OutOfFuel.
Proof.
  unfold push_substring, substr. repeat (case_match; cbn; try done); try apply place_fuel.
Qed.

(** ** Well-formed lists of stored substrings

    [T] is the byte stream of the peer.  [chain T lo l]: the nodes of [l] hold
    excerpts of [T], in order, each starting past [lo] and with a gap between
    consecutive ones. *)
Record node_ok (T : bytes) (n : node) : Prop := {
  node_at : at_offset T (_beg n) (_s n);
  node_end : _end n = _beg n + zlen (_s n) - 1
}.

Fixpoint chain (T : bytes) (lo : Z) (l : list node) : Prop :=
  match l with
  | [] => True
  | n :: l => lo < _beg n /\ node_ok T n /\ chain T (_end n + 1) l
  end.

(** The set of stream indices held by the list. *)
Definition held (l : list node) (i : Z) : Prop := exists n, n ∈ l /\ _beg n <= i <= _end n.

Lemma chain_weaken T lo lo' l : chain T lo l -> lo' <= lo -> chain T lo' l.
Proof. destruct l as [|n l]; cbn; [done|]. intros (?&?&?) ?. split_and!; [lia|done|done]. Qed.

Lemma node_ok_bounds T n :
  node_ok T n -> 0 <= _beg n /\ _beg n <= _end n + 1 /\ _end n + 1 <= zlen T.
Proof.
  intros [Ha He]. pose proof (at_offset_bound _ _ _ Ha). destruct Ha as [? _].
  pose proof (zlen_nonneg (_s n)). lia.
Qed.

Lemma chain_beg T lo l n : chain T lo l -> n ∈ l -> lo < _beg n /\ node_ok T n.
Proof.
  revert lo. induction l as [|m l IH]; intros lo Hc Hn; [by apply not_elem_of_nil in Hn|].
  destruct Hc as (Hlo & Hm & Hl). apply elem_of_cons in Hn as [->|Hn]; [done|].
  destruct (IH _ Hl Hn) as [? ?]. pose proof (node_ok_bounds _ _ Hm). split; [lia|done].
Qed.

Lemma held_nil i : held [] i <-> False.
Proof. split; [|done]. intros (n & Hn & _). by apply not_elem_of_nil in Hn. Qed.

Lemma held_cons n l i : held (n :: l) i <-> _beg n <= i <= _end n \/ held l i.
Proof.
  unfold held. split.
  - intros (m & [->|Hm]%elem_of_cons & ?); eauto.
  - intros [?|(m & ? & ?)]; [exists n|exists m]; split; try done; [left|by right].
Qed.

(** What the first loop establishes when it does not jump to [out]: [[a, b]]
    is the union of the new substring and of the nodes that touch it, and the
    nodes kept are the ones that do not. *)
Record scanned (T : bytes) (lo : Z) (l : list node) (left right : Z)
    (l' : list node) (d : bytes) (a b : Z) : Prop := {
  sc_at : at_offset T a d;
  sc_right : b = a + zlen d - 1;
  sc_chain : chain T lo l';
  sc_sep n : n ∈ l' -> _end n + 1 < a \/ b + 1 < _beg n;
  sc_held i : held l' i \/ a <= i <= b <-> held l i \/ left <= i <= right;
  sc_grow : a <= left /\ right <= b;
  sc_left : a = left \/ lo < a;
  sc_src : b = right \/ exists n, n ∈ l /\ b = _end n /\ _beg n <= right + 1;
  sc_sub n : n ∈ l' -> n ∈ l
}.

Definition covering (l : list node) (left right : Z) : Prop :=
  exists n, n ∈ l /\ _beg n <= left /\ right <= _end n.

Lemma scan_step_keep T lo it rest left right l' d a b :
  chain T lo (it :: rest) ->
  _end it + 1 < left \/ right + 1 < _beg it ->
  scanned T (_end it + 1) rest left right l' d a b ->
  scanned T lo (it :: rest) left right (it :: l') d a b.
Proof.
  intros (Hlo & Hit & Hrest) Hirr [Hat Hr Hch Hsep Hheld Hgrow Hleft Hsrc Hsub].
  pose proof (node_ok_bounds _ _ Hit). split; try done.
  - intros n [->|Hn]%elem_of_cons; [|by apply Hsep]. destruct Hirr as [?|?].
    + left. destruct Hleft; lia.
    + right. destruct Hsrc as [->|(m & Hm & -> & ?)]; [lia|].
      destruct (chain_beg _ _ _ _ Hrest Hm). lia.
  - intros i. rewrite !held_cons. specialize (Hheld i). tauto.
  - destruct Hleft; [by left|right; lia].
  - destruct Hsrc as [?|(m & ? & ?)]; [by left|right; exists m; split; [by right|done]].
  - intros n [->|Hn]%elem_of_cons; [left|right; auto].
Qed.

(** Erasing a node that touches the substring: the substring grows to [a0, b0]
    first, and the rest of the list is scanned with it. *)
Lemma scan_step_merge T lo it rest left right a0 b0 l' d a b :
  chain T lo (it :: rest) ->
  left <= _end it + 1 -> _beg it <= right + 1 ->
  a0 = Z.min left (_beg it) -> b0 = Z.max right (_end it) ->
  scanned T (_end it + 1) rest a0 b0 l' d a b ->
  scanned T lo (it :: rest) left right l' d a b.
Proof.
  intros (Hlo & Hit & Hrest) H1 H2 -> -> [Hat Hr Hch Hsep Hheld Hgrow Hleft Hsrc Hsub].
  pose proof (node_ok_bounds _ _ Hit). split; try done; try lia.
  - eapply chain_weaken; [done|lia].
  - intros i. rewrite Hheld, held_cons.
    destruct (decide (left <= i <= right)), (decide (_beg it <= i <= _end it)); split; try tauto;
      intros [?|?]; try tauto; lia.
  - destruct Hsrc as [->|(m & Hm & -> & Hb)].
    + destruct (decide (_end it <= right)); [left; lia|].
      right. exists it. split; [left|lia].
    + right. exists m. split; [by right|]. split; [done|].
      destruct (chain_beg _ _ _ _ Hrest Hm). lia.
  - intros n Hn. right. auto.
Qed.

(** The state of the loop after a merge is again that of a scan, and no later
    node can cover the grown substring. *)
Lemma scan_merged T lo it rest left right d0 a0 b0 :
  chain T lo (it :: rest) ->
  left <= _end it + 1 -> _beg it <= right + 1 ->
  a0 = Z.min left (_beg it) -> b0 = Z.max right (_end it) ->
  (scan rest d0 a0 b0 = Ok (true, rest, d0, a0, b0) /\ covering rest a0 b0) \/
  (exists l' d a b, scan rest d0 a0 b0 = Ok (false, l', d, a, b) /\
     scanned T (_end it + 1) rest a0 b0 l' d a b) ->
  exists l' d a b, scan rest d0 a0 b0 = Ok (false, l', d, a, b) /\
     scanned T lo (it :: rest) left right l' d a b.
Proof.
  intros Hch H1 H2 Ha Hb [[_ (n & Hn & Hc & _)]|(l' & d & a & b & Hs & Hsc)].
  - pose proof Hch as (Hlo & Hit & Hrest). pose proof (node_ok_bounds _ _ Hit).
    destruct (chain_beg _ _ _ _ Hrest Hn). lia.
  - eauto 10 using scan_step_merge.
Qed.

Lemma scan_spec T lo l data left right :
  zlen T + 1 < 2 ^ 64 -> chain T lo l ->
  at_offset T left data -> right = left + zlen data - 1 -> 0 <= right ->
  (scan l data left right = Ok (true, l, data, left, right) /\ covering l left right) \/
  (exists l' d a b, scan l data left right = Ok (false, l', d, a, b) /\
     scanned T lo l left right l' d a b).
Proof.
  intros HT. revert lo data left right.
  induction l as [|it rest IH]; intros lo data left right Hch Hat Hr Hr0.
  { right. exists [], data, left, right. split; [done|].
    split; try done; try tauto; try lia. intros n Hn. by apply not_elem_of_nil in Hn. }
  pose proof Hch as (Hlo & Hit & Hrest). pose proof (node_ok_bounds _ _ Hit) as Hb.
  pose proof (at_offset_bound _ _ _ Hat) as Hbd. pose proof (proj1 Hat) as Hl0.
  assert (forall n, n ∈ rest -> _end it + 1 < _beg n) as Hnext
    by (intros n Hn; apply (chain_beg _ _ _ _ Hrest Hn)).
  cbn [scan]. rewrite (add64_id (_end it)), (add64_id right), (add64_id left) by word_lia.
  destruct (Z.ltb_spec (_end it + 1) left), (Z.ltb_spec (right + 1) (_beg it)); cbn [orb].
  1-3: (destruct (IH _ _ _ _ Hrest Hat Hr Hr0) as [[Hs Hcov]|(l' & d & a & b & Hs & Hsc)];
        rewrite Hs; cbn; [left|right]; [|by eauto 10 using scan_step_keep]).
  1-3: (split; [done|]; destruct Hcov as (n & Hn & ?); exists n; split; [by right|done]).
  destruct (Z.leb_spec (_beg it) left), (Z.leb_spec right (_end it)); cbn [andb].
  { left. split; [done|]. exists it. split; [left|done]. }
  all: right; destruct (Z.leb_spec (_end it) right), (Z.leb_spec left (_beg it)); cbn [andb]; try lia.
  - (* the node lies inside the substring, sharing its first byte *)
    eapply scan_merged; try done; try lia. eapply IH; done.
  - (* the node ends inside the substring *)
    rewrite (proj2 (Z.leb_le left _)), (proj2 (Z.leb_le _ right)) by lia. cbn [andb].
    rewrite (sub64_id left) by word_lia.
    assert (at_offset T (_beg it) (substr0 (_s it) (left - _beg it) ++ data)) as Hat'.
    { destruct Hit as [Hn He]. apply at_offset_app; [by apply at_offset_take|].
      rewrite substr0_eq. zlen. replace (_beg it + _) with left by lia. done. }
    destruct Hit as [Hn He]. eapply scan_merged; try done; try lia.
    eapply IH; try done. rewrite substr0_eq. zlen. lia.
  - (* the node lies inside the substring *)
    eapply scan_merged; try done; try lia. eapply IH; done.
  - (* the node starts inside the substring and ends past it *)
    rewrite (proj2 (Z.leb_gt (_end it + 1) right)) by lia. rewrite andb_false_r.
    rewrite (proj2 (Z.leb_le (left + 1) _)), (proj2 (Z.leb_le _ (right + 1))) by lia. cbn [andb].
    rewrite (sub64_id (right + 1)) by word_lia.
    destruct Hit as [Hn He]. unfold substr.
    rewrite (proj2 (Z.leb_le (right + 1 - _beg it) _)) by lia. cbn.
    rewrite take_ge by (unfold npos; rewrite length_drop; unfold zlen in *; lia).
    set (suf := drop (Z.to_nat (right + 1 - _beg it)) (_s it)).
    assert (zlen suf = _end it - right) as Hsuf by (unfold suf; zlen; lia).
    eapply scan_merged; try done; try lia. eapply IH; try done; [|zlen; lia|lia].
    apply at_offset_app; [done|]. replace (left + zlen data) with (_beg it + (right + 1 - _beg it)) by lia.
    apply at_offset_drop; [done|lia].
  - (* the node is exactly the substring's tail *)
    eapply scan_merged; try done; try lia. eapply IH; done.
Qed.

(** An empty substring at index 0: [right] is [2^64 - 1] and every stored node
    is skipped. *)
Lemma scan_empty_at_0 T l :
  zlen T + 1 < 2 ^ 64 -> chain T 0 l -> scan l [] 0 (2 ^ 64 - 1) = Ok (false, l, [], 0, 2 ^ 64 - 1).
Proof.
  intros HT Hc. enough (forall lo, 0 <= lo -> chain T lo l ->
    scan l [] 0 (2 ^ 64 - 1) = Ok (false, l, [], 0, 2 ^ 64 - 1)) as H by (by apply (H 0)).
  clear Hc.
  induction l as [|it rest IH]; intros lo Hlo Hch; [done|]. destruct Hch as (Hl & Hit & Hrest).
  pose proof (node_ok_bounds _ _ Hit). cbn [scan].
  change (2 ^ 64 - 1 ⊕ 1) with 0. rewrite (proj2 (Z.ltb_lt 0 _)) by lia. rewrite orb_true_r.
  rewrite (IH (_end it + 1)) by (done || lia). done.
Qed.

Lemma insert_node_spec T lo n l :
  zlen T + 1 < 2 ^ 64 -> chain T lo l -> lo < _beg n -> node_ok T n ->
  (forall m, m ∈ l -> _end m + 1 < _beg n \/ _end n + 1 < _beg m) ->
  chain T lo (insert_node n l) /\
  (forall m, m ∈ insert_node n l <-> m = n \/ m ∈ l).
Proof.
  intros HT. revert lo. induction l as [|it rest IH]; intros lo Hch Hlo Hn Hsep.
  { cbn. split; [done|]. intros m. rewrite elem_of_cons. done. }
  pose proof Hch as (Hl & Hit & Hrest). pose proof (node_ok_bounds _ _ Hn).
  cbn [insert_node]. rewrite (add64_id (_end n)) by word_lia.
  destruct (Z.ltb_spec (_end n + 1) (_beg it)).
  - split; [cbn; done|]. intros m. rewrite !elem_of_cons. done.
  - destruct (IH (_end it + 1)) as [Hc He]; [done| |done| |].
    { destruct (Hsep it); [left|lia|lia]. }
    { intros m Hm. apply Hsep. by right. }
    split; [cbn; done|]. intros m. rewrite !elem_of_cons, He. tauto.
Qed.

Lemma insert_node_held n l i :
  (forall m, m ∈ insert_node n l <-> m = n \/ m ∈ l) ->
  held (insert_node n l) i <-> held l i \/ _beg n <= i <= _end n.
Proof.
  intros Hm. unfold held. setoid_rewrite Hm. split.
  - intros (m & [->|?] & ?); eauto.
  - intros [(m & ? & ?)|?]; eauto.
Qed.

Lemma chain_strengthen T lo lo' l :
  chain T lo l -> (forall n, n ∈ l -> lo' < _beg n) -> chain T lo' l.
Proof. destruct l as [|n l]; cbn; [done|]. intros (?&?&?) Hlo. split_and!; [apply Hlo; left|done|done]. Qed.

(** [unassembled_bytes] does not overflow, and counts the indices held. *)
Fixpoint total (l : list node) : Z :=
  match l with [] => 0 | n :: l => zlen (_s n) + total l end.

Lemma total_nonneg l : 0 <= total l.
Proof. induction l as [|n l IH]; cbn [total]; [lia|]. pose proof (zlen_nonneg (_s n)). lia. Qed.

Lemma total_bound T lo hi l :
  chain T lo l -> lo <= hi -> (forall n, n ∈ l -> _end n + 1 <= hi) -> 0 <= total l <= hi - lo.
Proof.
  revert lo. induction l as [|n l IH]; intros lo Hch Hlh Hhi; [cbn; lia|].
  destruct Hch as (Hl & Hn & Hrest). pose proof (Hhi n ltac:(left)).
  destruct (IH (_end n + 1)) as [? ?]; [done|lia|intros m Hm; apply Hhi; by right|].
  destruct Hn as [_ He]. pose proof (zlen_nonneg (_s n)). cbn [total]. lia.
Qed.

Lemma unassembled_bytes_eq T s :
  zlen T + 1 < 2 ^ 64 -> 0 <= _cur_index s <= zlen T -> chain T (_cur_index s) (_list s) ->
  unassembled_bytes s = total (_list s).
Proof.
  intros HT Hc Hch. unfold unassembled_bytes.
  assert (0 <= total (_list s) <= zlen T - _cur_index s) as Hb.
  { apply (total_bound T); [done|lia|]. intros n Hn.
    destruct (chain_beg _ _ _ _ Hch Hn) as [_ Hok]. apply node_ok_bounds in Hok. lia. }
  assert (forall l acc, 0 <= acc -> acc + total l < 2 ^ 64 ->
    foldl (fun ret e => ret ⊕ zlen (_s e)) acc l = acc + total l) as H.
  { clear. induction l as [|n l IH]; intros acc Ha Hs; cbn [total foldl] in *; [lia|].
    pose proof (total_nonneg l).
    pose proof (zlen_nonneg (_s n)). rewrite add64_id by word_lia. rewrite IH by lia. lia. }
  rewrite H by lia. lia.
Qed.

Lemma total_0_not_held T lo l i : chain T lo l -> total l = 0 -> ~ held l i.
Proof.
  revert lo. induction l as [|n l IH]; intros lo Hch Ht; [by intros ?%held_nil|].
  destruct Hch as (Hl & [Hat He] & Hrest). cbn [total] in Ht. pose proof (zlen_nonneg (_s n)).
  pose proof (total_nonneg l).
  rewrite held_cons. intros [?|Hh]; [lia|]. eapply IH; [done|lia|done].
Qed.

(** ** Well-formed reassemblers *)

(** The index past the last byte that fits: what [push_substring] computes as
    [first_unavailable]. *)
Definition window_end (s : t) : Z :=
  ByteStream.bytes_read (_output s) + ByteStream._capacity (_output s).

Record wf (T : bytes) (s : t) : Prop := {
  wf_out : ByteStream.wf (_output s);
  wf_len : zlen T + ByteStream._capacity (_output s) + 1 < 2 ^ 64;
  wf_cur : _cur_index s = ByteStream.bytes_read (_output s) + zlen (ByteStream._str (_output s));
  wf_buf : at_offset T (ByteStream.bytes_read (_output s)) (ByteStream._str (_output s));
  wf_chain : chain T (_cur_index s) (_list s)
}.

(** The substrings stored lie within the window. *)
Definition in_window (s : t) : Prop := forall n, n ∈ _list s -> _end n + 1 <= window_end s.

(** The indices the reassembler knows: assembled, or stored. *)
Definition known (s : t) (i : Z) : Prop := 0 <= i < _cur_index s \/ held (_list s) i.

(** The indices of the substring that one call adds: those past the assembled
    ones and inside the window, unless the whole substring starts past the
    window, which the code stores as it is. *)
Definition accepted (s : t) (data : bytes) (index i : Z) : Prop :=
  _cur_index s < window_end s /\ _cur_index s <= i /\ index <= i < index + zlen data /\
  (i < window_end s \/ window_end s < index).

Lemma wf_cur_bounds T s : wf T s -> 0 <= _cur_index s <= zlen T /\ _cur_index s <= window_end s.
Proof.
  intros [Ho Hl Hc Hb _]. pose proof (at_offset_bound _ _ _ Hb). destruct Hb as [? _].
  pose proof (zlen_nonneg (ByteStream._str (_output s))). destruct Ho.
  unfold window_end, ByteStream.bytes_read in *. lia.
Qed.

Lemma first_unavailable_eq T s :
  wf T s -> _cur_index s ⊕ ByteStream.remaining_capacity (stream_out s) = window_end s.
Proof.
  intros Hwf. pose proof (wf_cur_bounds _ _ Hwf) as [? ?]. destruct Hwf as [Ho Hl Hc Hb _].
  unfold stream_out. rewrite ByteStream.remaining_capacity_eq by done.
  pose proof (zlen_nonneg (ByteStream._str (_output s))).
  unfold window_end, ByteStream.bytes_read in *. destruct Ho. rewrite add64_id; word_lia.
Qed.

(** ** The code at [out] *)

Lemma out_frame b s :
  _cur_index (out b s) = _cur_index s /\ _list (out b s) = _list s /\
  _eof (out b s) = b || _eof s /\
  ByteStream.bytes_read (_output (out b s)) = ByteStream.bytes_read (_output s) /\
  ByteStream._str (_output (out b s)) = ByteStream._str (_output s) /\
  ByteStream._capacity (_output (out b s)) = ByteStream._capacity (_output s) /\
  ByteStream.input_ended (_output (out b s)) =
    ((b || _eof s) && empty s) || ByteStream.input_ended (_output s).
Proof.
  unfold out. destruct b; cbn [orb].
  - change (empty (s <| _eof := true |>)) with (empty s). cbn [_eof upd]. cbn.
    destruct (empty s); cbn; done.
  - destruct (_eof s) eqn:He; cbn; [|by rewrite He]. destruct (empty s); cbn; by rewrite ?He.
Qed.

Lemma out_wf T b s : wf T s -> wf T (out b s).
Proof.
  intros [Ho Hl Hc Hb Hch]. destruct (out_frame b s) as (E1 & E2 & _ & E4 & E5 & E6 & _).
  split; rewrite ?E1, ?E2, ?E4, ?E5, ?E6; try done.
  unfold out. destruct b; case_match; cbn; auto with stream.
Qed.

Lemma out_known b s i : known (out b s) i <-> known s i.
Proof. unfold known. destruct (out_frame b s) as (-> & -> & _). done. Qed.

Lemma out_window b s : window_end (out b s) = window_end s.
Proof. unfold window_end. destruct (out_frame b s) as (_ & _ & _ & -> & _ & -> & _). done. Qed.

(** ** Placing a trimmed substring *)

(** What an outcome short of an exception does before the code at [out]:
    the indices satisfying [P] become known. *)
Record placed (T : bytes) (s : t) (P : Z -> Prop) (s1 : t) : Prop := {
  pl_wf : wf T s1;
  pl_eof : _eof s1 = _eof s;
  pl_read : ByteStream.bytes_read (_output s1) = ByteStream.bytes_read (_output s);
  pl_cap : ByteStream._capacity (_output s1) = ByteStream._capacity (_output s);
  pl_ended : ByteStream.input_ended (_output s1) = ByteStream.input_ended (_output s);
  pl_known i : known s1 i <-> known s i \/ P i
}.

(** The three ways out of the loop, each from a well-formed state. *)
Lemma place_covered T s left (d : bytes) :
  wf T s -> covering (_list s) left (left + zlen d - 1) ->
  placed T s (fun i => left <= i < left + zlen d) s.
Proof.
  intros Hwf (n & Hn & ? & ?). split; try done.
  intros i. split; [by left|]. intros [?|?]; [done|]. right. exists n. split; [done|lia].
Qed.

Lemma place_insert T s left right l' d a b :
  wf T s -> _cur_index s <= left -> scanned T (_cur_index s) (_list s) left right l' d a b ->
  a <> _cur_index s ->
  placed T s (fun i => left <= i <= right)
    (s <| _list := insert_node (mk_node d a b) l' |>).
Proof.
  intros Hwf Hl [Hat Hr Hch Hsep Hheld Hgrow Hleft Hsrc Hsub] Ha.
  assert (zlen T + 1 < 2 ^ 64) as HT.
  { destruct Hwf as [[_ _ Hc _ _] Hlen _ _ _]. word_lia. }
  destruct (insert_node_spec T (_cur_index s) (mk_node d a b) l' HT Hch) as [Hc He]; cbn.
  { destruct Hleft; lia. }
  { by split. }
  { intros m Hm. destruct (Hsep m Hm); [by left|right; lia]. }
  split; cbn; try done.
  - destruct Hwf. by split.
  - intros i. unfold known. cbn. rewrite insert_node_held by done. cbn. rewrite Hheld. tauto.
Qed.

Lemma place_write T s left right l' d b :
  wf T s -> _cur_index s <= left ->
  scanned T (_cur_index s) (_list s) left right l' d (_cur_index s) b ->
  zlen d <= window_end s - _cur_index s ->
  let o := snd (ByteStream.write d (_output s)) in
  fst (ByteStream.write d (_output s)) = zlen d /\
  placed T s (fun i => left <= i <= right)
    (s <| _list := l' |> <| _output := o |> <| _cur_index := _cur_index s ⊕ zlen d |>).
Proof.
  intros Hwf Hl [Hat Hr Hch Hsep Hheld Hgrow Hleft Hsrc Hsub] Hd o.
  pose proof (wf_cur_bounds _ _ Hwf) as [? ?]. pose proof (at_offset_bound _ _ _ Hat).
  pose proof (zlen_nonneg d). destruct Hwf as [Ho Hlen Hcur Hbuf Hc0].
  unfold window_end in *.
  assert (Z.min (zlen d) (ByteStream._capacity (_output s) - zlen (ByteStream._str (_output s))) = zlen d)
    as Hmin by lia.
  pose proof (ByteStream.write_wf d _ Ho) as Ho'. unfold o.
  rewrite ByteStream.write_eq in Ho' |- * by done. rewrite Hmin in *. cbn in *.
  split; [done|]. rewrite (add64_id (_cur_index s)) in * by (destruct Ho; word_lia).
  assert (take (Z.to_nat (zlen d)) d = d) as Htk by (apply take_ge; unfold zlen; lia).
  rewrite Htk in *.
  split; cbn; try done.
  - split; cbn; try done.
    + unfold ByteStream.bytes_read in *. cbn. zlen. lia.
    + apply at_offset_app; [done|]. unfold ByteStream.bytes_read in *. cbn. by rewrite <- Hcur.
    + eapply chain_strengthen; [done|]. intros n Hn.
      destruct (chain_beg _ _ _ _ Hch Hn) as [Hb Hok]. pose proof (node_ok_bounds _ _ Hok).
      destruct (Hsep n Hn); lia.
  - intros i. unfold known. cbn. specialize (Hheld i).
    assert (0 <= i < _cur_index s + zlen d <-> 0 <= i < _cur_index s \/ _cur_index s <= i <= b) as -> by lia.
    tauto.
Qed.

Lemma placed_ext T s P Q s1 : (forall i, P i <-> Q i) -> placed T s P s1 -> placed T s Q s1.
Proof. intros H []. split; try done. intros i. by rewrite <- H. Qed.

Lemma scanned_window T s left right l' d a b :
  scanned T (_cur_index s) (_list s) left right l' d a b ->
  in_window s -> right + 1 <= window_end s ->
  b + 1 <= window_end s /\ forall n, n ∈ l' -> _end n + 1 <= window_end s.
Proof.
  intros [] Hw Hr. split; [|by auto].
  destruct sc_src0 as [->|(n & Hn & -> & _)]; [done|by apply Hw].
Qed.

Lemma settle_spec T s left right l' d a b should_set_eof :
  wf T s -> _cur_index s <= left -> scanned T (_cur_index s) (_list s) left right l' d a b ->
  (exists s1, settle d a b should_set_eof (s <| _list := l' |>) = Ok (out should_set_eof s1) /\
     placed T s (fun i => left <= i <= right) s1 /\
     (in_window s -> right + 1 <= window_end s -> in_window s1)) \/
  (settle d a b should_set_eof (s <| _list := l' |>) = Throw write_refused /\
     ~ (in_window s /\ right + 1 <= window_end s)).
Proof.
  intros Hwf Hl Hsc. unfold settle, stream_out. cbn. destruct (Z.eqb_spec a (_cur_index s)) as [->|Ha].
  - destruct (decide (zlen d <= window_end s - _cur_index s)) as [Hd|Hd].
    + left. destruct (place_write _ _ _ _ _ _ _ Hwf Hl Hsc Hd) as [Hn Hp].
      destruct (ByteStream.write d (_output s)) as [n o]. cbn in Hn, Hp. subst n. rewrite Z.eqb_refl. cbn. eexists. split; [done|].
      split; [done|]. intros Hw Hr n Hn. destruct (scanned_window _ _ _ _ _ _ _ _ Hsc Hw Hr) as [_ H].
      unfold window_end. rewrite (pl_read _ _ _ _ Hp), (pl_cap _ _ _ _ Hp). by apply H.
    + right. split.
      * rewrite ByteStream.write_eq by apply Hwf. unfold window_end in *.
        destruct Hwf as [[] ? ? ? ?]. rewrite (proj2 (Z.eqb_neq _ _)) by lia. done.
      * intros [Hw Hr]. destruct (scanned_window _ _ _ _ _ _ _ _ Hsc Hw Hr) as [? _].
        destruct Hsc. lia.
  - left. exists (s <| _list := insert_node (mk_node d a b) l' |>).
    split; [done|]. split; [by eapply place_insert|].
    intros Hw Hr n Hn. destruct (scanned_window _ _ _ _ _ _ _ _ Hsc Hw Hr) as [? H].
    change (window_end _) with (window_end s). destruct Hsc.
    destruct (insert_node_spec T (_cur_index s) (mk_node d a b) l') as [_ He]; cbn; try done.
    + destruct Hwf as [[] ? ? ? ?]. word_lia.
    + lia.
    + apply He in Hn as [->|Hn]; cbn; [done|by apply H].
Qed.

Lemma place_spec T s left d should_set_eof :
  wf T s -> at_offset T left d -> _cur_index s <= left ->
  (exists s1, place d left should_set_eof s = Ok (out should_set_eof s1) /\
     placed T s (fun i => left <= i < left + zlen d) s1 /\
     (in_window s -> left + zlen d <= window_end s -> in_window s1)) \/
  (place d left should_set_eof s = Throw write_refused /\
     ~ (in_window s /\ left + zlen d <= window_end s)).
Proof.
  intros Hwf Hat Hl. pose proof (wf_cur_bounds _ _ Hwf) as [Hc _].
  pose proof (at_offset_bound _ _ _ Hat). pose proof (zlen_nonneg d).
  assert (zlen T + 1 < 2 ^ 64) as HT by (destruct Hwf as [[] ? ? ? ?]; word_lia).
  assert (forall i, left <= i <= left + zlen d - 1 <-> left <= i < left + zlen d) as Hext by lia.
  unfold place. rewrite (add64_id left) by word_lia.
  destruct (decide (left + zlen d = 0)) as [Hz|Hz].
  - (* an empty substring at index 0 *)
    assert (left = 0) as -> by lia. rewrite (zlen_0_nil d) by lia.
    change (0 + zlen [] ⊖ 1) with (2 ^ 64 - 1).
    assert (_cur_index s = 0) as E by lia.
    rewrite (scan_empty_at_0 T) by (done || rewrite <- E; apply Hwf). cbn.
    assert (forall r, settle [] 0 r should_set_eof (s <| _list := _list s |>) =
                      settle [] 0 (-1) should_set_eof (s <| _list := _list s |>)) as ->
      by (intros r; unfold settle; cbn; by rewrite E).
    assert (scanned T (_cur_index s) (_list s) 0 (-1) (_list s) [] 0 (-1)) as Hsc.
    { split; try done; try lia; [by rewrite (zlen_0_nil d) in Hat by lia|apply Hwf|].
      intros n Hn. right. destruct (chain_beg _ _ _ _ (wf_chain _ _ Hwf) Hn). lia. }
    destruct (settle_spec _ _ _ _ _ _ _ _ should_set_eof Hwf Hl Hsc) as [(s1 & Hs & Hp & Hw)|[Hs Hw]].
    + left. exists s1. split; [exact Hs|].
      split; [eapply placed_ext; [|done]; intros i; rewrite (@zlen_nil byte); lia|]. exact Hw.
    + right. split; [exact Hs|]. exact Hw.
  - rewrite (sub64_id (left + zlen d)) by word_lia.
    destruct (scan_spec T (_cur_index s) (_list s) d left (left + zlen d - 1)) as
      [[Hs Hcov]|(l' & d' & a & b & Hs & Hsc)]; [done|apply Hwf|done|done|lia| |]; rewrite Hs; cbn.
    + left. exists s. split; [by destruct s|]. split; [by apply place_covered|done].
    + replace (left + zlen d) with (left + zlen d - 1 + 1) by lia.
      destruct (settle_spec _ _ _ _ _ _ _ _ should_set_eof Hwf Hl Hsc) as [(s1 & Hs1 & Hp & Hw)|[Hs1 Hw]].
      * left. exists s1. split; [exact Hs1|]. split; [|done]. eapply placed_ext; [|exact Hp]. intros i. cbv beta. lia.
      * right. split; [exact Hs1|done].
Qed.

(** ** One call of [push_substring] *)

Lemma substr_suffix (d : bytes) off :
  0 <= off <= zlen d -> zlen d < 2 ^ 64 -> substr d off npos = Ok (drop (Z.to_nat off) d).
Proof.
  intros Ho Hd. unfold substr. rewrite (proj2 (Z.leb_le _ _)) by lia.
  rewrite take_ge; [done|]. rewrite length_drop. unfold npos, zlen in *. lia.
Qed.

Definition push_outcome (T : bytes) (s : t) (data : bytes) (index : Z) (eof : bool) (r : result t) : Prop :=
  (window_end s = _cur_index s /\ r = Ok s) \/
  (_cur_index s < window_end s /\
   exists s1, r = Ok (out (eof && (index + zlen data <=? window_end s)) s1) /\
     placed T s (accepted s data index) s1 /\
     (in_window s -> index <= window_end s -> in_window s1)) \/
  (r = Throw write_refused /\ ~ (in_window s /\ index <= window_end s)).

(** From the trimmed substring on. *)
Lemma push_trimmed T s data index eof left d :
  wf T s -> at_offset T index data -> _cur_index s < window_end s ->
  left = Z.max index (_cur_index s) -> left + zlen d = index + zlen data -> at_offset T left d ->
  push_outcome T s data index eof
    (if window_end s <? left ⊕ zlen d
     then place (substr0 d (window_end s ⊖ left)) left false s
     else place d left eof s).
Proof.
  intros Hwf Hdata Hopen Hleft Hlen Hd. pose proof (wf_cur_bounds _ _ Hwf) as [Hc Hcw].
  pose proof (at_offset_bound _ _ _ Hd). pose proof (zlen_nonneg d).
  pose proof (wf_len _ _ Hwf) as HT. pose proof (wf_out _ _ Hwf) as [_ _ Hcap Hrd _].
  pose proof (proj1 Hd). pose proof (proj1 Hdata). assert (window_end s - _cur_index s <= ByteStream._capacity (_output s)) as Hwe.
  { rewrite (wf_cur _ _ Hwf). unfold window_end. pose proof (zlen_nonneg (ByteStream._str (_output s))). lia. }
  rewrite (add64_id left) by word_lia. right. rewrite Hlen.
  destruct (Z.ltb_spec (window_end s) (index + zlen data)) as [Hcut|Hfit].
  - rewrite (proj2 (Z.leb_gt _ _)), andb_false_r by lia.
    set (d' := substr0 d (window_end s ⊖ left)).
    assert (at_offset T left d') as Hd' by (by apply at_offset_take).
    assert (left + zlen d' = if decide (left <= window_end s) then window_end s else left + zlen d) as Hl'.
    { unfold d'. rewrite substr0_eq. zlen. case_decide; word_lia. }
    destruct (place_spec T s left d' false Hwf Hd') as [(s1 & Hs & Hp & Hw)|[Hs Hw]]; [lia|left|right].
    + split; [done|]. exists s1. split; [done|]. split.
      * eapply placed_ext; [|exact Hp]. intros i. unfold accepted. cbv beta. case_decide; lia.
      * intros Hi Hx. apply Hw; [done|]. case_decide; lia.
    + split; [done|]. intros [Hi Hx]. apply Hw. split; [done|]. case_decide; lia.
  - rewrite (proj2 (Z.leb_le _ _)), andb_true_r by lia.
    destruct (place_spec T s left d eof Hwf Hd) as [(s1 & Hs & Hp & Hw)|[Hs Hw]]; [lia|left|right].
    + split; [done|]. exists s1. split; [done|]. split.
      * eapply placed_ext; [|exact Hp]. intros i. unfold accepted. cbv beta. lia.
      * intros Hi Hx. apply Hw; [done|lia].
    + split; [done|]. intros [Hi Hx]. apply Hw. split; [done|]. lia.
Qed.

Lemma push_substring_spec T s data index eof :
  wf T s -> at_offset T index data ->
  push_outcome T s data index eof (push_substring data index eof s).
Proof.
  intros Hwf Hd. pose proof (wf_cur_bounds _ _ Hwf) as [Hc Hcw].
  pose proof (at_offset_bound _ _ _ Hd). pose proof (zlen_nonneg data). pose proof (proj1 Hd).
  pose proof (wf_len _ _ Hwf) as HT. pose proof (wf_out _ _ Hwf) as [_ _ Hcap _ _].
  unfold push_substring. rewrite (first_unavailable_eq T) by done.
  destruct (Z.eqb_spec (window_end s) (_cur_index s)) as [E|E]; [by left|].
  destruct (Z.ltb_spec index (_cur_index s)) as [Hi|Hi].
  - rewrite (sub64_id (_cur_index s)) by word_lia. destruct (Z.leb_spec (zlen data) (_cur_index s - index)); cbn.
    + right. left. split; [lia|]. exists s. rewrite (proj2 (Z.leb_le _ _)), andb_true_r by lia.
      split; [done|]. split; [|done]. split; try done.
      intros i. unfold accepted. split; [by left|]. intros [?|?]; [done|lia].
    + rewrite substr_suffix by word_lia. cbn. apply push_trimmed; try done; try lia; [zlen; lia|].
      replace (_cur_index s) with (index + (_cur_index s - index)) at 1 by lia.
      apply at_offset_drop; [done|lia].
  - cbn. apply push_trimmed; try done; lia.
Qed.

Lemma push_substring_wf T s data index eof s' :
  wf T s -> at_offset T index data -> push_substring data index eof s = Ok s' ->
  wf T s' /\ ByteStream.bytes_read (_output s') = ByteStream.bytes_read (_output s) /\
  ByteStream._capacity (_output s') = ByteStream._capacity (_output s) /\
  (forall i, known s' i <-> known s i \/ accepted s data index i) /\
  (in_window s -> index <= window_end s -> in_window s').
Proof.
  intros Hwf Hd Hp.
  destruct (push_substring_spec T s data index eof Hwf Hd) as [[E Hr]|[(Ho & s1 & Hr & Hpl & Hw)|[Hr _]]];
    rewrite Hr in Hp; simplify_eq.
  - split_and!; try done. intros i. unfold accepted. split; [by left|]. intros [?|?]; [done|lia].
  - destruct Hpl as [Hw1 He Hrd Hcp Hen Hk].
    match goal with |- context [out ?b s1] => destruct (out_frame b s1) as (E1 & E2 & E3 & E4 & E5 & E6 & E7) end.
    split_and!; [by apply out_wf|congruence|congruence| |].
    + intros i. by rewrite out_known, Hk.
    + intros Hi Hx n. rewrite E2, out_window. by apply Hw.
Qed.

(** A push inside the window does not throw. *)
Lemma push_total T s data index eof :
  wf T s -> at_offset T index data -> in_window s -> index <= window_end s ->
  exists s', push_substring data index eof s = Ok s'.
Proof.
  intros Hwf Hd Hw Hi.
  destruct (push_substring_spec T s data index eof Hwf Hd) as [[_ H]|[(_ & s1 & H & _)|[_ H]]]; [eauto..|].
  by destruct H.
Qed.

(** The assembled prefix is maximal: the next index is never held. *)
Lemma next_not_known T s : wf T s -> ~ known s (_cur_index s).
Proof.
  intros Hwf [?|(n & Hn & ?)]; [lia|].
  destruct (chain_beg _ _ _ _ (wf_chain _ _ Hwf) Hn). lia.
Qed.

Lemma known_prefix T s k : wf T s -> (forall i, 0 <= i < k -> known s i) -> k <= _cur_index s.
Proof.
  intros Hwf Hk. destruct (Z.le_gt_cases k (_cur_index s)) as [|H]; [done|].
  destruct (next_not_known T s Hwf). apply Hk. pose proof (wf_cur_bounds _ _ Hwf). lia.
Qed.

(** A call never takes anything back. *)
Lemma push_progress T s data index eof s' :
  wf T s -> at_offset T index data -> push_substring data index eof s = Ok s' ->
  _cur_index s <= _cur_index s' /\
  (ByteStream.input_ended (_output s) = true -> ByteStream.input_ended (_output s') = true).
Proof.
  intros Hwf Hd Hp. destruct (push_substring_wf _ _ _ _ _ _ Hwf Hd Hp) as (Hwf' & _ & _ & Hk & _). split.
  - apply (known_prefix T); [done|]. intros i Hi. apply Hk. left. by left.
  - intros He. destruct (push_substring_spec T s data index eof Hwf Hd) as [[_ Hr]|[(_ & s1 & Hr & Hpl & _)|[Hr _]]];
      rewrite Hr in Hp; simplify_eq; [done|].
    match goal with |- context [out ?b s1] => destruct (out_frame b s1) as (_ & _ & _ & _ & _ & _ & ->) end.
    by rewrite (pl_ended _ _ _ _ Hpl), He, orb_true_r.
Qed.

(** ** Traces

    A configuration is the reassembler, the bytes its reader has taken, and
    the calls of [push_substring] made so far.  Every pushed substring is an
    excerpt of the peer's stream [T], and one that carries [eof] ends it;
    [ok] is what is further assumed of a call. *)
Definition push : Type := bytes * Z * bool.
Definition config : Type := t * bytes * list push.
Definition policy : Type := t -> bytes -> Z -> bool -> Prop.

Inductive step (T : bytes) (ok : policy) : config -> config -> Prop :=
| step_push s o ps data index eof s' :
    at_offset T index data -> (eof = true -> index + zlen data = zlen T) -> ok s data index eof ->
    push_substring data index eof s = Ok s' ->
    step T ok (s, o, ps) (s', o, ps ++ [(data, index, eof)])
| step_read s o ps len d out' :
    is_u64 len -> ByteStream.read len (stream_out s) = Ok (d, out') ->
    step T ok (s, o, ps) (s <| _output := out' |>, o ++ d, ps).

Definition reachable (T : bytes) (ok : policy) (capacity : Z) (c : config) : Prop :=
  rtc (step T ok) (init capacity, [], []) c.

(** No assumption; the substring starts within the window; it lies within the
    window and, if it carries [eof], the window is open and the substring is not
    both empty and early.  The code does not check the last two: with the window
    shut [push_substring] returns before it looks at [eof], and an empty
    substring that is early ends the output at once
    ([reassembler_early_eof]). *)
Definition any_push : policy := fun _ _ _ _ => True.
Definition starts_in_window : policy := fun s _ index _ => index <= window_end s.
Definition fits : policy := fun s data index eof =>
  index + zlen data <= window_end s /\
  (eof = true -> _cur_index s < window_end s /\ (data <> [] \/ index <= _cur_index s)).

Record good (T : bytes) (capacity : Z) (c : config) : Prop := {
  good_wf : wf T (c.1.1);
  good_out : at_offset T 0 (c.1.2);
  good_read : zlen (c.1.2) = ByteStream.bytes_read (_output (c.1.1));
  good_capacity : ByteStream._capacity (_output (c.1.1)) = capacity
}.

Lemma init_good T capacity :
  is_u64 capacity -> zlen T + capacity + 1 < 2 ^ 64 -> good T capacity (init capacity, [], []).
Proof.
  intros Hc HT. pose proof (zlen_nonneg T).
  split; cbn; try done; [|by apply at_offset_nil].
  split; cbn; try done; [by auto with stream|by apply at_offset_nil].
Qed.

(** A read moves the window and nothing else. *)
Lemma read_good T capacity s o ps len d out' :
  good T capacity (s, o, ps) -> is_u64 len -> ByteStream.read len (stream_out s) = Ok (d, out') ->
  let s' := s <| _output := out' |> in
  good T capacity (s', o ++ d, ps) /\ window_end s <= window_end s' /\
  ByteStream.input_ended out' = ByteStream.input_ended (_output s).
Proof.
  intros [Hwf Ho Hrd Hcap] Hl Hr s'. cbn in *. unfold stream_out in Hr.
  pose proof (ByteStream.read_wf _ _ _ _ (wf_out _ _ Hwf) (proj1 Hl) Hr) as Hwf'.
  pose proof (wf_cur_bounds _ _ Hwf) as [Hc _]. pose proof (zlen_nonneg o).
  destruct Hwf as [Hw HT Hcur Hbuf Hch]. rewrite ByteStream.read_eq in Hr by (done || word_lia).
  injection Hr as <- <-. pose proof (zlen_nonneg (ByteStream._str (_output s))).
  set (n := Z.min len (zlen (ByteStream._str (_output s)))) in *.
  assert (0 <= n <= zlen (ByteStream._str (_output s))) as Hn by (unfold n; word_lia).
  unfold ByteStream.bytes_read in *. destruct Hw as [_ _ Hcp _ _]. cbn in Hwf'.
  assert (ByteStream._bytes_read (_output s) ⊕ n = ByteStream._bytes_read (_output s) + n) as E
    by (apply add64_id; word_lia).
  unfold s'. clear s'. rewrite E in *. unfold window_end, ByteStream.bytes_read. cbn. split; [|split; [lia|done]].
  split; cbn; try done.
  - split; cbn; try done; unfold ByteStream.bytes_read; cbn; [zlen; lia|]. by apply at_offset_drop.
  - apply at_offset_app; [done|]. rewrite Z.add_0_l, Hrd. by apply at_offset_take.
  - unfold ByteStream.bytes_read. cbn. zlen. lia.
Qed.

Lemma step_good T ok capacity c c' : good T capacity c -> step T ok c c' -> good T capacity c'.
Proof.
  intros Hg Hs. destruct Hs as [s o ps data index eof s' Hd He Hok Hp|s o ps len d out' Hl Hr].
  - destruct Hg as [Hwf Ho Hrd Hcap]. cbn in *.
    destruct (push_substring_wf _ _ _ _ _ _ Hwf Hd Hp) as (Hw & Er & Ec & _). split; cbn; congruence.
  - by eapply read_good.
Qed.

Lemma reachable_good T ok capacity c :
  is_u64 capacity -> zlen T + capacity + 1 < 2 ^ 64 -> reachable T ok capacity c -> good T capacity c.
Proof.
  intros Hc HT Hr. pose proof (init_good T capacity Hc HT) as H0.
  unfold reachable in Hr. revert H0. induction Hr; eauto using step_good.
Qed.

(** An invariant kept by the pushes of a policy and by the reads holds in
    every reachable configuration. *)
Lemma reachable_ind' T ok capacity (I : config -> Prop) c :
  is_u64 capacity -> zlen T + capacity + 1 < 2 ^ 64 ->
  I (init capacity, [], []) ->
  (forall c c', good T capacity c -> I c -> step T ok c c' -> I c') ->
  reachable T ok capacity c -> good T capacity c /\ I c.
Proof.
  intros Hc HT H0 Hs Hr. unfold reachable in Hr.
  assert (good T capacity (init capacity, [], []) /\ I (init capacity, [], [])) as H
    by (split; [by apply init_good|done]).
  clear H0. revert H. induction Hr as [|c1 c2 c3 H12 _ IH]; [done|].
  intros [Hg HI]. apply IH. split; [by eapply step_good|by eapply Hs].
Qed.

Lemma in_window_reachable T capacity c :
  is_u64 capacity -> zlen T + capacity + 1 < 2 ^ 64 -> reachable T starts_in_window capacity c ->
  good T capacity c /\ in_window (c.1.1).
Proof.
  intros Hc HT. eapply (reachable_ind' _ _ _ (fun c => in_window (c.1.1))); [done|done| |].
  { intros n Hn. by apply not_elem_of_nil in Hn. }
  intros c1 c2 Hg Hw Hs.
  destruct Hs as [s o ps data index eof s' Hd _ Hok Hp|s o ps len d out' Hl Hr]; cbn in *.
  - apply (push_substring_wf _ _ _ _ _ _ (good_wf _ _ _ Hg) Hd Hp); done.
  - destruct (read_good _ _ _ _ _ _ _ _ Hg Hl Hr) as (_ & Hwe & _).
    intros n Hn. specialize (Hw n Hn). cbn in *. lia.
Qed.

(** Every index of a pushed substring that fitted is known. *)
Definition covered (ps : list push) (i : Z) : Prop :=
  exists data index eof, (data, index, eof) ∈ ps /\ index <= i < index + zlen data.

(** What [eof] stands for: the last byte has been seen. *)
Record eof_inv (T : bytes) (s : t) : Prop := {
  eof_last : _eof s = true -> _cur_index s = zlen T \/ held (_list s) (zlen T - 1);
  eof_ended : ByteStream.input_ended (_output s) = true <-> _eof s = true /\ _cur_index s = zlen T
}.

Lemma empty_all_assembled T s : wf T s -> _cur_index s = zlen T -> _list s = [].
Proof.
  intros Hwf Hc. pose proof (wf_chain _ _ Hwf) as Hch. destruct (_list s) as [|n l]; [done|].
  destruct Hch as (? & Hn & _). apply node_ok_bounds in Hn. destruct Hn as (?&?&?). lia.
Qed.

Lemma empty_not_held T s i : wf T s -> empty s = true -> ~ held (_list s) i.
Proof.
  intros Hwf He. pose proof (wf_cur_bounds _ _ Hwf) as [? _]. pose proof (wf_len _ _ Hwf).
  pose proof (wf_out _ _ Hwf) as [_ _ [] _ _]. unfold empty in He. apply Z.eqb_eq in He.
  rewrite (unassembled_bytes_eq T) in He by (first [lia | apply Hwf]).
  eapply total_0_not_held; [apply (wf_chain _ _ Hwf)|done].
Qed.

Lemma last_known T s :
  wf T s -> zlen T = 0 \/ known s (zlen T - 1) -> _cur_index s = zlen T \/ held (_list s) (zlen T - 1).
Proof. intros Hwf. pose proof (wf_cur_bounds _ _ Hwf). unfold known. intros [?|[?|?]]; auto; left; lia. Qed.

Lemma known_last T s :
  wf T s -> _cur_index s = zlen T \/ held (_list s) (zlen T - 1) -> zlen T = 0 \/ known s (zlen T - 1).
Proof. intros Hwf. pose proof (wf_cur_bounds _ _ Hwf). unfold known. intros [?|?]; [|by auto]. lia. Qed.

(** With the window shut a call that fits does nothing. *)
Lemma push_fits T s data index eof s' :
  wf T s -> at_offset T index data -> fits s data index eof ->
  push_substring data index eof s = Ok s' ->
  (eof = false /\ s' = s) \/ exists s1, s' = out eof s1 /\ placed T s (accepted s data index) s1.
Proof.
  intros Hwf Hd [Hi Heof] Hp.
  destruct (push_substring_spec T s data index eof Hwf Hd) as [[E Hr]|[(_ & s1 & Hr & Hpl & _)|[Hr _]]];
    [left| |congruence].
  - split; [|congruence]. destruct eof; [|done]. destruct (Heof eq_refl). lia.
  - rewrite Hr in Hp. rewrite (proj2 (Z.leb_le _ _)), andb_true_r in Hp by lia.
    injection Hp as <-. eauto.
Qed.

Lemma push_eof T s data index eof s' :
  wf T s -> eof_inv T s -> at_offset T index data -> (eof = true -> index + zlen data = zlen T) ->
  fits s data index eof -> push_substring data index eof s = Ok s' ->
  eof_inv T s' /\ _eof s' = eof || _eof s.
Proof.
  intros Hwf [Hl Hen] Hd He Hfit Hp. pose proof Hfit as [Hi Hearly].
  destruct (push_fits _ _ _ _ _ _ Hwf Hd Hfit Hp) as [[-> ->]|(s1 & -> & [Hw1 He1 Hrd Hcp Hi1 Hk])]; [by split|].
  destruct (out_frame eof s1) as (E1 & E2 & E3 & _ & _ & _ & E7). rewrite He1 in *.
  assert (_cur_index s <= _cur_index s1) as Hmono.
  { apply (known_prefix T); [done|]. intros i ?. apply Hk. left. by left. }
  pose proof (wf_cur_bounds _ _ Hwf). pose proof (wf_cur_bounds _ _ Hw1).
  assert (eof || _eof s = true -> _cur_index s1 = zlen T \/ held (_list s1) (zlen T - 1)) as Hlast.
  { intros Hor. apply last_known; [done|]. rewrite Hk. destruct eof; cbn in Hor.
    - specialize (He eq_refl). destruct (decide (_cur_index s = zlen T)).
      + apply known_last in Hwf; [|by left]. tauto.
      + right. right. unfold accepted. pose proof (zlen_nonneg data). destruct (Hearly eq_refl) as [_ [Hne|?]]; [|lia].
        assert (zlen data <> 0) by (intros ?%zlen_0_nil; done). lia.
    - pose proof (known_last T s Hwf (Hl Hor)). tauto. }
  split; [|done]. split; rewrite ?E1, ?E2, ?E3; [done|].
  rewrite E7, Hi1, orb_true_iff, andb_true_iff, Hen. split.
  - intros [[Hor Hemp]|[Hse Hc]]; split; try done; try lia.
    + destruct (Hlast Hor) as [?|Hh]; [done|]. by destruct (empty_not_held _ _ _ Hw1 Hemp Hh).
    + rewrite Hse. apply orb_true_r.
  - intros [Hor Hc]. left. split; [done|]. unfold empty, unassembled_bytes.
    by rewrite (empty_all_assembled T s1).
Qed.

Definition eof_pushed (ps : list push) : Prop := exists data index, (data, index, true) ∈ ps.

Lemma eof_pushed_snoc ps data index eof :
  eof_pushed (ps ++ [(data, index, eof)]) <-> eof = true \/ eof_pushed ps.
Proof.
  unfold eof_pushed. setoid_rewrite elem_of_app. setoid_rewrite list_elem_of_singleton. split.
  - intros (d & i & [?|[= -> -> ->]]); eauto.
  - intros [->|(d & i & ?)]; eauto.
Qed.

Lemma covered_snoc ps data index eof i :
  covered (ps ++ [(data, index, eof)]) i <-> covered ps i \/ index <= i < index + zlen data.
Proof.
  unfold covered. setoid_rewrite elem_of_app. setoid_rewrite list_elem_of_singleton. split.
  - intros (d & x & e & [?|[= -> -> ->]] & ?); eauto 10.
  - intros [(d & x & e & ? & ?)|?]; eauto 10.
Qed.

(** What holds of the traces in which every push fits. *)
Record tracked (T : bytes) (c : config) : Prop := {
  tr_known i : 0 <= i -> covered c.2 i -> known (c.1.1) i;
  tr_inv : eof_inv T (c.1.1);
  tr_eof : _eof (c.1.1) = true <-> eof_pushed c.2
}.

Lemma fits_reachable T capacity c :
  is_u64 capacity -> zlen T + capacity + 1 < 2 ^ 64 -> reachable T fits capacity c ->
  good T capacity c /\ tracked T c.
Proof.
  intros Hc HT. apply reachable_ind'; [done|done| |].
  { split; cbn.
    - intros i _ (d & x & e & Hn & _). by apply not_elem_of_nil in Hn.
    - split; cbn; [done|]. split; [done|by intros [? _]].
    - split; [done|]. intros (d & x & Hn). by apply not_elem_of_nil in Hn. }
  intros c1 c2 Hg [Hk Hi He] Hs.
  destruct Hs as [s o ps data index eof s' Hd Hend Hok Hp|s o ps len d out' Hl Hr]; cbn in *.
  - pose proof (good_wf _ _ _ Hg) as Hwf. cbn in Hwf.
    destruct (push_eof _ _ _ _ _ _ Hwf Hi Hd Hend Hok Hp) as [Hinv Heof].
    split; cbn; [|done|].
    + destruct (push_substring_wf _ _ _ _ _ _ Hwf Hd Hp) as (_ & _ & _ & Hkn & _).
      destruct Hok as [Hfit _]. intros i Hi0. rewrite covered_snoc, Hkn. intros [Hcov|Hrange]; [by auto|].
      destruct (decide (i < _cur_index s)); [left; by left|]. right. unfold accepted. lia.
    + rewrite Heof, orb_true_iff, eof_pushed_snoc, He. done.
  - destruct (read_good _ _ _ _ _ _ _ _ Hg Hl Hr) as (_ & _ & Hie).
    split; cbn; [done| |done]. destruct Hi as [H1 H2]. split; cbn; [done|]. by rewrite Hie.
Qed.

(** ** The properties of the class *)

(** C4: in-order delivery.  Whatever excerpts of the peer's stream are pushed,
    in whatever order and interleaved with reads, the bytes taken by the
    reader followed by those still buffered are exactly the first
    [cur_index()] bytes of the peer's stream. *)
Theorem reassembler_in_order T capacity c :
  is_u64 capacity -> zlen T + capacity + 1 < 2 ^ 64 -> reachable T any_push capacity c ->
  c.1.2 ++ ByteStream._str (stream_out (c.1.1)) = take (Z.to_nat (cur_index (c.1.1))) T /\
  zlen (ByteStream._str (stream_out (c.1.1))) <= capacity.
Proof.
  intros Hc HT Hr. destruct (reachable_good _ _ _ _ Hc HT Hr) as [Hwf Ho Hrd Hcap].
  pose proof (wf_cur_bounds _ _ Hwf) as [Hb _]. unfold stream_out, cur_index. split.
  - apply (at_offset_eq T 0).
    + apply at_offset_app; [done|]. rewrite Z.add_0_l, Hrd. apply Hwf.
    + apply at_offset_take. split; [pose proof (zlen_nonneg T); lia|done].
    + destruct Hwf. zlen. lia.
  - destruct Hwf as [[? ? ? ? ?] ? ? ? ?]. lia.
Qed.

Lemma reassembler_in_order_witness :
  exists c : config, c.1.2 = [x61] /\ cur_index (c.1.1) = 3 /\
    c.1.2 ++ ByteStream._str (stream_out (c.1.1)) = take 3 [x61; x62; x63; x64].
Proof.
  pose (T := [x61; x62; x63; x64]).
  assert (exists c : config, reachable T any_push 4 c /\ c.1.2 = [x61] /\ cur_index (c.1.1) = 3) as (c & Hr & Ho & Hc).
  { eexists. split.
    - eapply rtc_l; [apply (step_push _ _ _ _ _ [x62; x63] 1 false); try done; by_decide|].
      eapply rtc_l; [apply (step_push _ _ _ _ _ [x61; x62] 0 false); try done; by_decide|].
      eapply rtc_l; [apply (step_read _ _ _ _ _ 1); [word_lia|reflexivity]|]. apply rtc_refl.
    - split; reflexivity. }
  exists c. split; [exact Ho|]. split; [exact Hc|].
  destruct (reassembler_in_order T 4 c) as [H _]; [word_lia|vm_compute; reflexivity|exact Hr|].
  rewrite Hc in H. exact H.
Defined.

(** C6: safety and memory bound.  When no substring starts past the window
    (the bytes that fit in the capacity), [push_substring] never throws, and
    the bytes buffered for the reader and those stored out of order together
    never exceed the capacity. *)
Theorem reassembler_bounded T capacity c data index eof :
  is_u64 capacity -> zlen T + capacity + 1 < 2 ^ 64 -> reachable T starts_in_window capacity c ->
  at_offset T index data -> index <= window_end (c.1.1) ->
  (exists s', push_substring data index eof (c.1.1) = Ok s') /\
  ByteStream.buffer_size (stream_out (c.1.1)) + unassembled_bytes (c.1.1) <= capacity.
Proof.
  intros Hc HT Hr Hd Hi. destruct (in_window_reachable _ _ _ Hc HT Hr) as [[Hwf Ho Hrd Hcap] Hw].
  split.
  - by eapply push_total.
  - pose proof (wf_cur_bounds _ _ Hwf) as [Hb Hcw]. rewrite (unassembled_bytes_eq T).
    + destruct (total_bound T _ (window_end c.1.1) _ (wf_chain _ _ Hwf) Hcw Hw) as [_ H].
      destruct Hwf as [[? ? ? ? ?] ? ? ? ?]. unfold stream_out, ByteStream.buffer_size, window_end in *. lia.
    + word_lia.
    + done.
    + apply Hwf.
Qed.

Lemma reassembler_bounded_witness :
  exists s', push_substring [x62; x63] 1 false (init 2) = Ok s'.
Proof.
  apply (reassembler_bounded [x61; x62; x63] 2 (init 2, [], []) [x62; x63] 1 false).
  - word_lia.
  - vm_compute. reflexivity.
  - apply rtc_refl.
  - by_decide.
  - vm_compute. discriminate.
Defined.

(** C5: completeness and end of stream.  When every pushed substring lies within
    the window of its moment, and those that carry [eof] are pushed while the
    window is open and are not empty substrings that come before the bytes they
    follow: each index is assembled as soon as all the indices up to it have
    been pushed, and the output is closed exactly when the end of the stream has
    been pushed and the whole stream has been assembled.  The two conditions on
    [eof] are needed: the code drops it while the window is shut, and closes the
    output too soon for an early empty one. *)
Theorem reassembler_complete T capacity c :
  is_u64 capacity -> zlen T + capacity + 1 < 2 ^ 64 -> reachable T fits capacity c ->
  (forall k, (forall i, 0 <= i < k -> covered c.2 i) -> k <= cur_index (c.1.1)) /\
  (ByteStream.input_ended (stream_out (c.1.1)) = true <->
     eof_pushed c.2 /\ c.1.2 ++ ByteStream._str (stream_out (c.1.1)) = T).
Proof.
  intros Hc HT Hr. destruct (fits_reachable _ _ _ Hc HT Hr) as [[Hwf Ho Hrd Hcap] [Hk [_ Hen] He]].
  split.
  - intros k Hall. apply (known_prefix T); [done|]. intros i Hi. apply Hk; [lia|by apply Hall].
  - unfold stream_out. rewrite Hen, He. apply and_iff_compat_l.
    assert (at_offset T 0 (c.1.2 ++ ByteStream._str (_output c.1.1))) as Hat.
    { apply at_offset_app; [done|]. rewrite Z.add_0_l, Hrd. apply Hwf. }
    destruct Hwf as [_ _ Hcur _ _]. rewrite Hcur, <- Hrd, <- zlen_app.
    split; [by apply at_offset_all|by intros ->].
Qed.

Lemma reassembler_complete_witness :
  exists c : config, cur_index (c.1.1) = 2 /\ ByteStream.input_ended (stream_out (c.1.1)) = true.
Proof.
  pose (T := [x61; x62]).
  assert (exists c : config, reachable T fits 4 c /\ eof_pushed c.2 /\ cur_index c.1.1 = 2 /\
    c.1.2 ++ ByteStream._str (stream_out (c.1.1)) = T) as (c & Hr & He & Hc & HT).
  { eexists. split.
    - eapply rtc_l; [apply (step_push _ _ _ _ _ [x62] 1 true); try done;
        first [by_decide | split; [by_decide|intros _; split; [by_decide|by left]]]|].
      eapply rtc_l; [apply (step_push _ _ _ _ _ [x61] 0 false); try done;
        first [by_decide | split; [by_decide|done]]|].
      apply rtc_refl.
    - split; [exists [x62], 1; left|split; reflexivity]. }
  exists c. split; [exact Hc|].
  apply (reassembler_complete T 4 c); [word_lia|vm_compute; reflexivity|exact Hr|by split].
Defined.

(** A substring that starts past the window is not discarded: the
    subtraction [first_unavailable - left] wraps around, so it is stored whole
    (here one byte more than the capacity of 2 allows), and a later push that
    is itself within the window then throws. *)
Theorem reassembler_overrun :
  exists s1 s2 d o s3,
    push_substring [x64] 3 false (init 2) = Ok s1 /\ window_end (init 2) = 2 /\
    push_substring [x61; x62] 0 false s1 = Ok s2 /\
    ByteStream.buffer_size (stream_out s2) + unassembled_bytes s2 = 3 /\
    ByteStream.read 1 (stream_out s2) = Ok (d, o) /\ s3 = s2 <| _output := o |> /\
    window_end s3 = 3 /\ push_substring [x63] 2 false s3 = Throw write_refused.
Proof. do 5 eexists. repeat split; vm_compute; reflexivity. Qed.

(** An empty substring that carries [eof] and arrives before the data it
    follows closes the output at once: after the end of the one-byte stream
    ["a"] the output is closed with no byte assembled, and the byte pushed
    afterwards is written to a closed stream. *)
Theorem reassembler_early_eof :
  exists s1 s2,
    push_substring [] 1 true (init 4) = Ok s1 /\
    ByteStream.eof (stream_out s1) = true /\ cur_index s1 = 0 /\
    push_substring [x61] 0 false s1 = Ok s2 /\
    ByteStream.eof (stream_out s2) = false /\ ByteStream._str (stream_out s2) = [x61].
Proof. do 2 eexists. repeat split; vm_compute; reflexivity. Qed.

(** An [eof] that comes while the output is full is forgotten, although every
    byte before it is there: after the reader has taken them the stream has not
    ended. *)
Theorem reassembler_full_eof :
  exists s1 d o,
    push_substring [x61; x62] 0 false (init 2) = Ok s1 /\
    push_substring [] 2 true s1 = Ok s1 /\
    ByteStream.read 2 (stream_out s1) = Ok (d, o) /\ d = [x61; x62] /\ ByteStream.eof o = false.
Proof. do 3 eexists. repeat split; vm_compute; reflexivity. Qed.

End StreamReassembler.
