(* ===== verification/buffer.v ===== *)
(** * [libsponge/util/buffer.hh], [libsponge/util/buffer.cc]

    Reference-counted strings that discard bytes from the front, and lists of
    them.  The storage a [Buffer] shares with its copies is never written to,
    so it is modelled by value.  The theorems relate each operation to the
    string the buffer, list or view shows. *)

From S2P Require Import Prelude.

Module Buffer.

Record t : Type := mk { _storage : option bytes; _starting_offset : Z }.

#[global] Instance eta_t : Eta t := fun s => mk (_storage s) (_starting_offset s).

#[global] Instance t_eq_dec : EqDecision t.
Proof. solve_decision. Defined.

Definition empty : t := mk None 0.
Definition of_string (str : bytes) : t := mk (Some str) 0.

(** The view starts at [data() + _starting_offset] and its length is computed
    in [size_t]. *)
Definition str (b : t) : bytes :=
  match _storage b with
  | None => []
  | Some s =>
      take (Z.to_nat (zlen s ⊖ _starting_offset b)) (drop (Z.to_nat (_starting_offset b)) s)
  end.

Definition size (b : t) : Z := zlen (str b).

(** [std::string_view::at]. *)
Definition at_ (n : Z) (b : t) : result byte :=
  match str b !! Z.to_nat n with
  | Some c => Ok c
  | None => Throw (OutOfRange "basic_string_view::at")
  end.

Definition copy (b : t) : bytes := str b.

Definition remove_prefix (n : Z) (b : t) : result t :=
  if zlen (str b) <? n then Throw (OutOfRange "Buffer::remove_prefix")
  else
    let b := b <| _starting_offset := _starting_offset b ⊕ n |> in
    match _storage b with
    | Some s => if _starting_offset b =? zlen s then Ok (b <| _storage := None |>) else Ok b
    | None => Ok b
    end.

#[global] Arguments str : simpl never.
#[global] Arguments remove_prefix : simpl never.

(** The offset stays within the storage. *)
Definition wf (b : t) : Prop :=
  match _storage b with
  | Some s => 0 <= _starting_offset b <= zlen s /\ is_u64 (zlen s)
  | None => True
  end.

Lemma of_string_wf s : is_u64 (zlen s) -> wf (of_string s).
Proof. intros H. cbn. pose proof (zlen_nonneg s). split; [lia|done]. Qed.

Lemma empty_buffer_wf : wf empty.
Proof. done. Qed.

Lemma str_of_string s : is_u64 (zlen s) -> str (of_string s) = s.
Proof.
  intros H. unfold str. cbn. rewrite sub64_id by word_lia. rewrite Z.sub_0_r, drop_0.
  apply take_ge. unfold zlen. lia.
Qed.

Lemma str_eq b s : wf b -> _storage b = Some s -> str b = drop (Z.to_nat (_starting_offset b)) s.
Proof.
  unfold wf, str. intros Hwf E. rewrite E in *. destruct Hwf as [? ?].
  rewrite sub64_id by word_lia. apply take_ge. rewrite length_drop. unfold zlen. lia.
Qed.

Lemma str_size b : wf b -> is_u64 (zlen (str b)).
Proof.
  intros Hwf. destruct (_storage b) as [s|] eqn:E; [|unfold str; rewrite E; done].
  rewrite (str_eq _ _ Hwf E). unfold wf in Hwf. rewrite E in Hwf. zlen. word_lia.
Qed.

(** [remove_prefix] drops exactly the bytes asked for, or throws. *)
Lemma remove_prefix_spec n b :
  wf b -> 0 <= n ->
  if decide (n <= zlen (str b))
  then exists b', remove_prefix n b = Ok b' /\ wf b' /\ str b' = drop (Z.to_nat n) (str b)
  else remove_prefix n b = Throw (OutOfRange "Buffer::remove_prefix").
Proof.
  intros Hwf Hn. unfold remove_prefix. case_decide as Hle; [|by rewrite (proj2 (Z.ltb_lt _ _)) by lia].
  rewrite (proj2 (Z.ltb_ge _ _)) by lia. destruct b as [[s|] off]; cbn.
  - pose proof (str_eq _ _ Hwf eq_refl) as Hs. destruct Hwf as [Ho Hz]. cbn in *.
    rewrite Hs, zlen_drop in Hle. rewrite add64_id by word_lia. rewrite Hs, drop_drop, <- Z2Nat.inj_add by lia.
    destruct (Z.eqb_spec (off + n) (zlen s)) as [He|He]; eexists; (split; [done|]).
    + split; [done|]. unfold str. cbn. rewrite drop_ge; [done|]. unfold zlen in *. lia.
    + assert (wf (mk (Some s) (off + n))) as Hwf' by (cbn; split; [lia|done]).
      split; [exact Hwf'|]. exact (str_eq _ _ Hwf' eq_refl).
  - eexists. split; [done|]. split; [done|]. unfold str. cbn. by rewrite drop_nil.
Qed.

Lemma remove_prefix_ok n b :
  wf b -> 0 <= n <= zlen (str b) ->
  exists b', remove_prefix n b = Ok b' /\ wf b' /\ str b' = drop (Z.to_nat n) (str b).
Proof.
  intros Hwf Hn. pose proof (remove_prefix_spec n b Hwf ltac:(lia)) as H.
  by rewrite decide_True in H by lia.
Qed.

Lemma at_ok n b c : str b !! Z.to_nat n = Some c -> at_ n b = Ok c.
Proof. intros H. unfold at_. by rewrite H. Qed.

End Buffer.

(** [BufferList] and [BufferViewList] are the same operations over two kinds
    of piece; what they share is stated once, over what a piece shows. *)
Section pieces.
Context {P : Type} (show : P -> bytes).

Definition pieces_size (l : list P) : Z := foldl (fun ret p => ret ⊕ zlen (show p)) 0 l.
Definition pieces_concat (l : list P) : bytes := foldl (fun ret p => ret ++ show p) [] l.

Lemma pieces_concat_eq l : pieces_concat l = concat (show <$> l).
Proof.
  unfold pieces_concat. enough (forall a, foldl (fun ret p => ret ++ show p) a l = a ++ concat (show <$> l)) as H
    by apply (H []).
  induction l as [|p l IH]; intros a; cbn; [by rewrite app_nil_r|]. by rewrite IH, app_assoc.
Qed.

Lemma pieces_size_eq l : is_u64 (zlen (concat (show <$> l))) -> pieces_size l = zlen (concat (show <$> l)).
Proof.
  unfold pieces_size. intros Hl.
  enough (forall a, 0 <= a -> a + zlen (concat (show <$> l)) < 2 ^ 64 ->
    foldl (fun ret p => ret ⊕ zlen (show p)) a l = a + zlen (concat (show <$> l))) as H
    by (rewrite H; [lia|lia|word_lia]).
  clear Hl. induction l as [|p l IH]; intros a Ha Hl; cbn in *; [zlen; lia|].
  rewrite zlen_app in *. pose proof (zlen_nonneg (show p)).
  pose proof (zlen_nonneg (concat (show <$> l))).
  rewrite add64_id by word_lia. rewrite IH by lia. lia.
Qed.
End pieces.

Module BufferList.

Definition t : Type := list Buffer.t.

Definition empty : t := [].
Definition of_buffer (b : Buffer.t) : t := [b].

Definition append (l other : t) : t := foldl (fun l buf => l ++ [buf]) l other.

Definition of_string (str : bytes) : t := append [] (of_buffer (Buffer.of_string str)).

(** The conversion to a [Buffer]. *)
Definition to_Buffer (l : t) : result Buffer.t :=
  match l with
  | [] => Ok Buffer.empty
  | [b] => Ok b
  | _ => Throw (RuntimeError "BufferList: please use concatenate() to combine a multi-Buffer BufferList into one Buffer")
  end.

Definition concatenate (l : t) : bytes := pieces_concat Buffer.str l.
Definition size (l : t) : Z := pieces_size Buffer.str l.

(** Each turn of the loop either ends it or drops a buffer. *)
Fixpoint remove_prefix (n : Z) (l : t) : result t :=
  if n <=? 0 then Ok l else
  match l with
  | [] => Throw (OutOfRange "BufferList::remove_prefix")
  | b :: rest =>
      if n <? zlen (Buffer.str b) then b ← Buffer.remove_prefix n b; Ok (b :: rest)
      else remove_prefix (n ⊖ zlen (Buffer.str b)) rest
  end.

#[global] Arguments size : simpl never.
#[global] Arguments concatenate : simpl never.

Definition wf (l : t) : Prop := Forall Buffer.wf l.

Lemma append_eq l other : append l other = l ++ other.
Proof.
  unfold append. revert l. induction other as [|b other IH]; intros l; cbn; [by rewrite app_nil_r|].
  by rewrite IH, <- app_assoc.
Qed.

Lemma concatenate_append l other :
  concatenate (append l other) = concatenate l ++ concatenate other.
Proof. unfold concatenate. by rewrite append_eq, !pieces_concat_eq, fmap_app, concat_app. Qed.

Lemma concatenate_of_buffer b : concatenate (of_buffer b) = Buffer.str b.
Proof. done. Qed.

Lemma concatenate_of_string s : is_u64 (zlen s) -> concatenate (of_string s) = s.
Proof. intros H. change (Buffer.str (Buffer.of_string s) = s). by apply Buffer.str_of_string. Qed.

(** [BufferList::remove_prefix] drops exactly the first [n] bytes of the
    concatenation, whatever the division into buffers, and throws exactly when
    there are fewer than [n] bytes. *)
Theorem buffer_list_remove_prefix n l :
  wf l -> is_u64 n ->
  if decide (n <= zlen (concatenate l))
  then exists l', remove_prefix n l = Ok l' /\ wf l' /\ concatenate l' = drop (Z.to_nat n) (concatenate l)
  else remove_prefix n l = Throw (OutOfRange "BufferList::remove_prefix").
Proof.
  unfold concatenate. intros Hwf. revert n. induction Hwf as [|b l Hb Hwf IH]; intros n Hn.
  - change (pieces_concat Buffer.str []) with (@nil byte). rewrite zlen_nil. cbn. case_decide.
    + rewrite (proj2 (Z.leb_le n 0)) by done. exists []. split_and!; [done|constructor|by rewrite drop_nil].
    + by rewrite (proj2 (Z.leb_gt _ _)) by lia.
  - rewrite pieces_concat_eq. cbn [fmap list_fmap concat remove_prefix]. rewrite <- pieces_concat_eq, zlen_app.
    pose proof (zlen_nonneg (Buffer.str b)). pose proof (zlen_nonneg (pieces_concat Buffer.str l)).
    destruct (Z.leb_spec n 0) as [Hz|Hz].
    { rewrite decide_True by lia. exists (b :: l). replace (Z.to_nat n) with 0%nat by lia. rewrite drop_0.
      split; [done|]. split; [by constructor|]. rewrite !pieces_concat_eq. done. }
    destruct (Z.ltb_spec n (zlen (Buffer.str b))) as [Hlt|Hge].
    + rewrite decide_True by lia.
      destruct (Buffer.remove_prefix_ok n b Hb) as (b' & -> & Hb' & Hs); [lia|].
      exists (b' :: l). split; [done|]. split; [by constructor|].
      rewrite pieces_concat_eq. cbn [fmap list_fmap concat]. rewrite Hs, <- pieces_concat_eq.
      rewrite drop_app_le; [done|]. unfold zlen in *. lia.
    + rewrite sub64_id by word_lia.
      specialize (IH (n - zlen (Buffer.str b)) ltac:(word_lia)). case_decide as Hd.
      * rewrite decide_True by lia. destruct IH as (l' & Hr & Hl' & Hs). exists l'. split; [done|]. split; [done|].
        rewrite Hs, drop_app_ge by (unfold zlen in *; lia). f_equal. unfold zlen. lia.
      * rewrite decide_False by lia. done.
Qed.

End BufferList.

Module BufferViewList.

Definition t : Type := list bytes.

Definition of_string (str : bytes) : t := [str].
Definition of_buffers (buffers : BufferList.t) : t := foldl (fun l x => l ++ [Buffer.str x]) [] buffers.

Fixpoint remove_prefix (n : Z) (l : t) : result t :=
  if n <=? 0 then Ok l else
  match l with
  | [] => Throw (OutOfRange "BufferListView::remove_prefix")
  | v :: rest =>
      if n <? zlen v then Ok (drop (Z.to_nat n) v :: rest)
      else remove_prefix (n ⊖ zlen v) rest
  end.

Definition size (l : t) : Z := pieces_size (fun v => v) l.

(** An [iovec] is a base pointer, here the bytes it points at, and a length. *)
Definition as_iovecs (l : t) : list (bytes * Z) := foldl (fun ret x => ret ++ [(x, zlen x)]) [] l.

Lemma of_buffers_eq buffers : of_buffers buffers = Buffer.str <$> buffers.
Proof.
  unfold of_buffers.
  enough (forall a, foldl (fun l x => l ++ [Buffer.str x]) a buffers = a ++ (Buffer.str <$> buffers)) as H
    by apply (H []).
  induction buffers as [|b l IH]; intros a; cbn; [by rewrite app_nil_r|]. by rewrite IH, <- app_assoc.
Qed.

Lemma as_iovecs_eq l : as_iovecs l = (fun x => (x, zlen x)) <$> l.
Proof.
  unfold as_iovecs.
  enough (forall a, foldl (fun ret x => ret ++ [(x, zlen x)]) a l = a ++ ((fun x => (x, zlen x)) <$> l)) as H
    by apply (H []).
  induction l as [|x l IH]; intros a; cbn; [by rewrite app_nil_r|]. by rewrite IH, <- app_assoc.
Qed.

Lemma view_remove_prefix n l :
  0 <= n -> zlen (concat l) < 2 ^ 64 -> n <= zlen (concat l) ->
  exists l', remove_prefix n l = Ok l' /\ concat l' = drop (Z.to_nat n) (concat l).
Proof.
  revert n. induction l as [|v l IH]; intros n Hn Hb Hle; cbn [remove_prefix concat] in *.
  - rewrite (proj2 (Z.leb_le n 0)) by done. exists []. by rewrite drop_nil.
  - zlen. pose proof (zlen_nonneg v). pose proof (zlen_nonneg (concat l)).
    destruct (Z.leb_spec n 0).
    { exists (v :: l). replace (Z.to_nat n) with 0%nat by lia. done. }
    destruct (Z.ltb_spec n (zlen v)).
    + eexists. split; [done|]. cbn. rewrite drop_app_le; [done|]. unfold zlen in *. lia.
    + rewrite sub64_id by word_lia. destruct (IH (n - zlen v)) as (l' & Hr & Hs); [lia..|].
      exists l'. split; [done|]. rewrite Hs, drop_app_ge by (unfold zlen in *; lia). f_equal. unfold zlen. lia.
Qed.

End BufferViewList.
