(* ===== verification/parser.v ===== *)
(** * [libsponge/util/parser.hh], [libsponge/util/parser.cc]

    Reading and writing integers in network byte order.  [reads p rest] is the
    state of a parser that has met no error and has [rest] left; the lemmas
    step a parser through what the unparser wrote, and through an arbitrary
    buffer that is long enough. *)

From S2P Require Import Prelude.
From S2P Require Import buffer.

Inductive ParseResult : Type :=
| NoError
| BadChecksum
| PacketTooShort
| WrongIPVersion
| HeaderTooShort
| TruncatedPacket
| Unsupported.

#[global] Instance ParseResult_eq_dec : EqDecision ParseResult.
Proof. solve_decision. Defined.

(** The table of names has six entries; the seventh value of the enumeration
    indexes past its end. *)
Definition as_string (r : ParseResult) : result string :=
  match r with
  | NoError => Ok "NoError"%string
  | BadChecksum => Ok "BadChecksum"%string
  | PacketTooShort => Ok "PacketTooShort"%string
  | WrongIPVersion => Ok "WrongIPVersion"%string
  | HeaderTooShort => Ok "HeaderTooShort"%string
  | TruncatedPacket => Ok "TruncatedPacket"%string
  | Unsupported => Throw (UndefinedBehaviour "_names[6]")
  end.

(** ** Big-endian integers *)

(** The [len] low-order bytes of [v], most significant first, and back. *)
Fixpoint be (len : nat) (v : Z) : bytes :=
  match len with
  | O => []
  | S n => byte_of (v / 2 ^ (8 * Z.of_nat n)) :: be n v
  end.

Definition be_val (s : bytes) : Z := foldl (fun acc b => acc * 256 + byte_val b) 0 s.

Lemma length_be len v : length (be len v) = len.
Proof. induction len as [|n IH]; cbn; [done|]. by rewrite IH. Qed.

Lemma zlen_be len v : zlen (be len v) = Z.of_nat len.
Proof. unfold zlen. by rewrite length_be. Qed.
#[export] Hint Rewrite zlen_be : zlen.

Lemma foldl_be_acc s acc :
  foldl (fun acc b => acc * 256 + byte_val b) acc s = acc * 2 ^ (8 * zlen s) + be_val s.
Proof.
  unfold be_val. revert acc. induction s as [|b s IH]; intros acc; [unfold zlen; cbn; lia|].
  cbn [foldl]. rewrite IH. rewrite (IH (0 * 256 + _)). rewrite zlen_cons.
  replace (8 * (1 + zlen s)) with (8 + 8 * zlen s) by lia.
  rewrite Z.pow_add_r by (pose proof (zlen_nonneg s); lia). change (2 ^ 8) with 256. ring.
Qed.

Lemma be_val_cons b s : be_val (b :: s) = byte_val b * 2 ^ (8 * zlen s) + be_val s.
Proof. unfold be_val at 1. cbn [foldl]. rewrite foldl_be_acc. lia. Qed.

Lemma be_val_range s : 0 <= be_val s < 2 ^ (8 * zlen s).
Proof.
  induction s as [|b s IH]; [unfold zlen; cbn; lia|]. rewrite be_val_cons, zlen_cons.
  replace (8 * (1 + zlen s)) with (8 + 8 * zlen s) by lia.
  rewrite Z.pow_add_r by (pose proof (zlen_nonneg s); lia).
  pose proof (byte_val_range b) as Hb. unfold is_u8 in Hb. nia.
Qed.

Lemma be_val_be len v : be_val (be len v) = v mod 2 ^ (8 * Z.of_nat len).
Proof.
  induction len as [|n IH]; cbn [be]; [by rewrite Z.mod_1_r|].
  rewrite be_val_cons, IH, zlen_be, byte_val_of. unfold u8.
  replace (8 * Z.of_nat (S n)) with (8 * Z.of_nat n + 8) by lia.
  rewrite Z.pow_add_r by lia. rewrite Z.rem_mul_r by lia. lia.
Qed.

(** A buffer's integer is the only one that unparses to it. *)
Lemma be_be_val s : be (length s) (be_val s) = s.
Proof.
  induction s as [|b s IH]; [done|]. cbn [length be]. rewrite be_val_cons. f_equal.
  - fold (zlen s). pose proof (be_val_range s). rewrite Z.div_add_l, Z.div_small by lia.
    rewrite Z.add_0_r. apply byte_of_val.
  - etrans; [|exact IH]. generalize (be_val s) as v. unfold zlen. intros v.
    enough (forall m, (m <= length s)%nat -> be m (byte_val b * 2 ^ (8 * Z.of_nat (length s)) + v) = be m v) as H
      by (by apply H).
    induction m as [|m IHm]; intros Hm; [done|]. cbn [be]. rewrite IHm by lia. f_equal.
    replace (8 * Z.of_nat (length s)) with (8 + 8 * (Z.of_nat (length s) - Z.of_nat m - 1) + 8 * Z.of_nat m) by lia.
    rewrite !Z.pow_add_r, Z.mul_assoc, Z.div_add_l by lia.
    unfold byte_of, u8. do 3 f_equal.
    replace (byte_val b * (2 ^ 8 * 2 ^ (8 * (Z.of_nat (length s) - Z.of_nat m - 1))) + v / 2 ^ (8 * Z.of_nat m))
      with (v / 2 ^ (8 * Z.of_nat m) + byte_val b * 2 ^ (8 * (Z.of_nat (length s) - Z.of_nat m - 1)) * 2 ^ 8) by ring.
    by rewrite Z.mod_add.
Qed.

Module NetUnparser.

(** [_unparse_int<T>] for a [T] of [len] bytes: one [push_back] per byte. *)
Definition unparse_int (len : nat) (s : bytes) (val : Z) : bytes :=
  foldl (fun s i => s ++ [byte_of (Z.land (Z.shiftr val ((Z.of_nat len - i - 1) * 8)) 0xff)])
    s (seqZ 0 (Z.of_nat len)).

Definition u32 (s : bytes) (val : Z) : bytes := unparse_int 4 s val.
Definition u16 (s : bytes) (val : Z) : bytes := unparse_int 2 s val.
Definition u8 (s : bytes) (val : Z) : bytes := unparse_int 1 s val.

Lemma low_byte v k : 0 <= k -> byte_of (Z.land (Z.shiftr v k) 0xff) = byte_of (v / 2 ^ k).
Proof.
  intros Hk. unfold byte_of. do 3 f_equal. change 0xff with (Z.ones 8).
  rewrite Z.land_ones, Z.shiftr_div_pow2 by lia. unfold Prelude.u8. by rewrite Z.mod_mod.
Qed.

Lemma u32_eq s v : u32 s v = s ++ be 4 v.
Proof.
  unfold u32, unparse_int. change (seqZ 0 (Z.of_nat 4)) with [0; 1; 2; 3]. cbn [foldl].
  rewrite !low_byte by lia. by rewrite <- ?app_assoc.
Qed.
Lemma u16_eq s v : u16 s v = s ++ be 2 v.
Proof.
  unfold u16, unparse_int. change (seqZ 0 (Z.of_nat 2)) with [0; 1]. cbn [foldl].
  rewrite !low_byte by lia. by rewrite <- ?app_assoc.
Qed.
Lemma u8_eq s v : u8 s v = s ++ be 1 v.
Proof.
  unfold u8, unparse_int. change (seqZ 0 (Z.of_nat 1)) with [0]. cbn [foldl].
  rewrite !low_byte by lia. by rewrite <- ?app_assoc.
Qed.

End NetUnparser.

Module NetParser.

Record t : Type := mk { _buffer : Buffer.t; _error : ParseResult }.

#[global] Instance eta_t : Eta t := fun s => mk (_buffer s) (_error s).

Definition init (buffer : Buffer.t) : t := mk buffer NoError.
Definition buffer (p : t) : Buffer.t := _buffer p.
Definition get_error (p : t) : ParseResult := _error p.
Definition set_error (res : ParseResult) (p : t) : t := p <| _error := res |>.
Definition error (p : t) : bool := bool_decide (get_error p <> NoError).

Definition _check_size (size : Z) (p : t) : t :=
  if Buffer.size (_buffer p) <? size then set_error PacketTooShort p else p.

(** The loop of [_parse_int<T>], [T] being [len] bytes wide: turns [i] to
    [i + n - 1]. *)
Fixpoint parse_loop (len : nat) (b : Buffer.t) (i : Z) (n : nat) (ret : Z) : result Z :=
  match n with
  | O => Ok ret
  | S n =>
      let ret := Z.shiftl ret 8 mod 2 ^ (8 * Z.of_nat len) in
      c ← Buffer.at_ i b;
      parse_loop len b (i + 1) n ((ret + byte_val c) mod 2 ^ (8 * Z.of_nat len))
  end.

Definition _parse_int (len : nat) (p : t) : result (Z * t) :=
  let p := _check_size (Z.of_nat len) p in
  if error p then Ok (0, p) else
  ret ← parse_loop len (_buffer p) 0 len 0;
  b ← Buffer.remove_prefix (Z.of_nat len) (_buffer p);
  Ok (ret, p <| _buffer := b |>).

Definition remove_prefix (n : Z) (p : t) : result t :=
  let p := _check_size n p in
  if error p then Ok p else
  b ← Buffer.remove_prefix n (_buffer p);
  Ok (p <| _buffer := b |>).

Definition u32 (p : t) : result (Z * t) := _parse_int 4 p.
Definition u16 (p : t) : result (Z * t) := _parse_int 2 p.
Definition u8 (p : t) : result (Z * t) := _parse_int 1 p.

#[global] Arguments u32 : simpl never.
#[global] Arguments u16 : simpl never.
#[global] Arguments u8 : simpl never.
#[global] Arguments remove_prefix : simpl never.

Definition reads (p : t) (rest : bytes) : Prop :=
  Buffer.wf (_buffer p) /\ _error p = NoError /\ Buffer.str (_buffer p) = rest.

Lemma init_reads b : Buffer.wf b -> reads (init b) (Buffer.str b).
Proof. done. Qed.

Lemma reads_error p rest : reads p rest -> error p = false.
Proof. intros (_ & E & _). unfold error, get_error. rewrite E. done. Qed.

Lemma check_size_reads n p rest : reads p rest -> n <= zlen rest -> _check_size n p = p.
Proof. intros (_ & _ & E) Hn. unfold _check_size, Buffer.size. rewrite E. by rewrite (proj2 (Z.ltb_ge _ _)) by lia. Qed.

Lemma parse_loop_eq len b s pre rest ret :
  Buffer.str b = pre ++ s ++ rest -> zlen pre + zlen s <= Z.of_nat len ->
  0 <= ret < 2 ^ (8 * zlen pre) ->
  parse_loop len b (zlen pre) (length s) ret = Ok (ret * 2 ^ (8 * zlen s) + be_val s).
Proof.
  revert pre ret. induction s as [|c s IH]; intros pre ret Hs Hl Hr.
  { cbn. f_equal. unfold be_val, zlen. cbn. lia. }
  cbn [length parse_loop]. rewrite zlen_cons in *.
  pose proof (zlen_nonneg pre). pose proof (zlen_nonneg s). pose proof (byte_val_range c) as Hc. unfold is_u8 in Hc.
  rewrite (Buffer.at_ok _ _ c).
  2:{ rewrite Hs. unfold zlen. rewrite Nat2Z.id. by apply list_lookup_middle. }
  rewrite Z.shiftl_mul_pow2 by lia. cbn [mbind result_bind].
  assert (2 ^ (8 * (zlen pre + 1)) <= 2 ^ (8 * Z.of_nat len)) as Hle by (apply Z.pow_le_mono_r; lia).
  assert (2 ^ (8 * (zlen pre + 1)) = 2 ^ (8 * zlen pre) * 256) as E.
  { replace (8 * (zlen pre + 1)) with (8 * zlen pre + 8) by lia. by rewrite Z.pow_add_r by lia. }
  change (2 ^ 8) with 256 in *.
  rewrite (Z.mod_small (ret * 256)), Z.mod_small by lia.
  replace (zlen pre + 1) with (zlen (pre ++ [c])) by (zlen; lia).
  rewrite IH.
  - f_equal. rewrite be_val_cons. replace (8 * (1 + zlen s)) with (8 + 8 * zlen s) by lia.
    rewrite Z.pow_add_r by lia. change (2 ^ 8) with 256. ring.
  - by rewrite Hs, <- app_assoc.
  - zlen. lia.
  - zlen. replace (zlen pre + (1 + 0)) with (zlen pre + 1) by lia. lia.
Qed.

(** A read from a buffer that is long enough. *)
Lemma parse_int_reads len p s rest :
  reads p (s ++ rest) -> length s = len ->
  exists p', _parse_int len p = Ok (be_val s, p') /\ reads p' rest.
Proof.
  intros Hp Hl. unfold _parse_int.
  rewrite (check_size_reads _ _ _ Hp) by (rewrite zlen_app; pose proof (zlen_nonneg rest); unfold zlen; lia).
  rewrite (reads_error _ _ Hp). destruct Hp as (Hwf & He & Hs).
  pose proof (parse_loop_eq len (_buffer p) s [] rest 0 Hs) as Hloop. cbn [zlen] in Hloop.
  change (zlen []) with 0 in Hloop. rewrite Hl in Hloop. rewrite Hloop by (unfold zlen; lia). cbn [mbind result_bind].
  destruct (Buffer.remove_prefix_ok (Z.of_nat len) (_buffer p) Hwf) as (b & -> & Hb & Hr).
  { rewrite Hs, zlen_app. pose proof (zlen_nonneg rest). unfold zlen. lia. }
  cbn. eexists. split; [rewrite Z.add_0_l; done|]. split; [done|]. split; [done|]. cbn.
  rewrite Hr, Hs, Nat2Z.id, <- Hl. by rewrite drop_app_length.
Qed.

(** A read past the end: 0, and the error is set. *)
Lemma parse_int_short len p :
  zlen (Buffer.str (_buffer p)) < Z.of_nat len ->
  _parse_int len p = Ok (0, set_error PacketTooShort p).
Proof.
  intros H. unfold _parse_int, _check_size, Buffer.size. rewrite (proj2 (Z.ltb_lt _ _)) by done. done.
Qed.

Lemma remove_prefix_reads n p rest :
  reads p rest -> 0 <= n <= zlen rest ->
  exists p', remove_prefix n p = Ok p' /\ reads p' (drop (Z.to_nat n) rest).
Proof.
  intros Hp Hn. unfold remove_prefix.
  rewrite (check_size_reads _ _ _ Hp) by lia. rewrite (reads_error _ _ Hp). destruct Hp as (Hwf & He & Hs).
  destruct (Buffer.remove_prefix_ok n (_buffer p) Hwf) as (b & -> & Hb & Hr); [by rewrite Hs|].
  cbn. eexists. split; [done|]. split; [done|]. split; [done|]. cbn. by rewrite Hr, Hs.
Qed.

Lemma remove_prefix_short n p :
  zlen (Buffer.str (_buffer p)) < n -> remove_prefix n p = Ok (set_error PacketTooShort p).
Proof.
  intros H. unfold remove_prefix, _check_size, Buffer.size. by rewrite (proj2 (Z.ltb_lt _ _)).
Qed.

(** Reading back what the unparser wrote. *)
Lemma u8_reads p v rest : reads p (be 1 v ++ rest) -> is_u8 v -> exists p', u8 p = Ok (v, p') /\ reads p' rest.
Proof.
  intros Hp Hv. destruct (parse_int_reads 1 p _ _ Hp (length_be _ _)) as (p' & H & Hr).
  exists p'. split; [|done]. unfold u8. rewrite H, be_val_be, Z.mod_small by exact Hv. done.
Qed.
Lemma u16_reads p v rest : reads p (be 2 v ++ rest) -> is_u16 v -> exists p', u16 p = Ok (v, p') /\ reads p' rest.
Proof.
  intros Hp Hv. destruct (parse_int_reads 2 p _ _ Hp (length_be _ _)) as (p' & H & Hr).
  exists p'. split; [|done]. unfold u16. rewrite H, be_val_be, Z.mod_small by exact Hv. done.
Qed.
Lemma u32_reads p v rest : reads p (be 4 v ++ rest) -> is_u32 v -> exists p', u32 p = Ok (v, p') /\ reads p' rest.
Proof.
  intros Hp Hv. destruct (parse_int_reads 4 p _ _ Hp (length_be _ _)) as (p' & H & Hr).
  exists p'. split; [|done]. unfold u32. rewrite H, be_val_be, Z.mod_small by exact Hv. done.
Qed.

(** On an arbitrary buffer a read always returns, with a value in range; the
    only error it sets is [PacketTooShort]. *)
Definition sound (p : t) : Prop :=
  Buffer.wf (_buffer p) /\ (_error p = NoError \/ _error p = PacketTooShort).

Lemma init_sound b : Buffer.wf b -> sound (init b).
Proof. split; [done|by left]. Qed.

Lemma parse_int_total len p :
  sound p -> exists v p', _parse_int len p = Ok (v, p') /\ sound p' /\ 0 <= v < 2 ^ (8 * Z.of_nat len).
Proof.
  intros [Hwf Hs0]. assert (0 < 2 ^ (8 * Z.of_nat len)) by (apply Z.pow_pos_nonneg; lia).
  destruct (decide (zlen (Buffer.str (_buffer p)) < Z.of_nat len)) as [Hs|Hs].
  { rewrite parse_int_short by done. do 2 eexists. split; [done|]. split; [|lia]. split; [done|by right]. }
  destruct (decide (_error p = NoError)) as [He|He].
  - assert (reads p (Buffer.str (_buffer p))) as Hr by done. unfold zlen in Hs.
    remember (Buffer.str (_buffer p)) as s. rewrite <- (take_drop len s) in Hr.
    destruct (parse_int_reads len p _ _ Hr) as (p' & -> & Hb & He' & _); [rewrite length_take; lia|].
    do 2 eexists. split; [done|]. split; [split; [done|by left]|].
    pose proof (be_val_range (take len s)) as H0. unfold zlen in H0. rewrite length_take in H0.
    rewrite Nat.min_l in H0 by lia. done.
  - exists 0, p. unfold _parse_int, _check_size, Buffer.size.
    rewrite (proj2 (Z.ltb_ge _ _)) by lia. unfold error, get_error. rewrite bool_decide_true by done.
    split; [done|]. split; [done|lia].
Qed.

Lemma remove_prefix_total n p : sound p -> 0 <= n -> exists p', remove_prefix n p = Ok p' /\ sound p'.
Proof.
  intros [Hwf Hs0] Hn. destruct (decide (zlen (Buffer.str (_buffer p)) < n)) as [Hs|Hs].
  { rewrite remove_prefix_short by done. eexists. split; [done|]. split; [done|by right]. }
  destruct (decide (_error p = NoError)) as [He|He].
  - destruct (remove_prefix_reads n p (Buffer.str (_buffer p))) as (p' & -> & Hb & E & _); [done|lia|].
    eexists. split; [done|]. split; [done|by left].
  - unfold remove_prefix, _check_size, Buffer.size. rewrite (proj2 (Z.ltb_ge _ _)) by lia.
    unfold error, get_error. rewrite bool_decide_true by done. eexists. split; [done|]. by split.
Qed.

End NetParser.

(** [read_back]: steps a parse past every integer that the buffer starts with.
    [read_any]: steps a parse of an arbitrary buffer. *)
Ltac read_back :=
  repeat (rewrite <- ?app_assoc in *;
  match goal with
  | H : NetParser.reads ?q (be 1 ?v ++ _) |- context [NetParser.u8 ?q] =>
      destruct (NetParser.u8_reads _ _ _ H) as (?p & -> & ?);
      [solve [done | auto with word | word_lia]|]; clear H
  | H : NetParser.reads ?q (be 2 ?v ++ _) |- context [NetParser.u16 ?q] =>
      destruct (NetParser.u16_reads _ _ _ H) as (?p & -> & ?);
      [solve [done | auto with word | word_lia]|]; clear H
  | H : NetParser.reads ?q (be 4 ?v ++ _) |- context [NetParser.u32 ?q] =>
      destruct (NetParser.u32_reads _ _ _ H) as (?p & -> & ?);
      [solve [done | auto with word | word_lia]|]; clear H
  end; cbn [mbind result_bind]).

Ltac read_any_with n H q :=
  let E := fresh "E" in
  destruct (NetParser.parse_int_total n q H) as (?v & ?p & E & ? & ?);
  lazymatch n with
  | 1%nat => change (NetParser._parse_int 1 q) with (NetParser.u8 q) in E
  | 2%nat => change (NetParser._parse_int 2 q) with (NetParser.u16 q) in E
  | 4%nat => change (NetParser._parse_int 4 q) with (NetParser.u32 q) in E
  end;
  rewrite E; clear E H.

Ltac read_any :=
  repeat (match goal with
  | H : NetParser.sound ?q |- context [NetParser.u8 ?q] => read_any_with 1%nat H q
  | H : NetParser.sound ?q |- context [NetParser.u16 ?q] => read_any_with 2%nat H q
  | H : NetParser.sound ?q |- context [NetParser.u32 ?q] => read_any_with 4%nat H q
  | H : NetParser.sound ?q |- context [NetParser.remove_prefix ?n ?q] =>
      let E := fresh "E" in
      destruct (NetParser.remove_prefix_total n q H) as (?p & E & ?);
      [solve [lia | word_lia]|rewrite E; clear E]
  end; cbn [mbind result_bind]).
