(* ===== verification/util.v ===== *)
(** * [libsponge/util/util.hh], [libsponge/util/util.cc]: system calls, errors, time and the Internet checksum

    [csum] is the sum of the 16-bit words without any reduction and [fold16]
    the end-around carry; the class computes both, in 32 bits and in a loop.
    What matters to the packet formats: a packet whose checksum field holds
    the value computed with the field zeroed verifies, and a packet with one
    altered byte does not. *)

From S2P Require Import Prelude.
From S2P Require Import parser.

(** The wrapper of the system calls; [errno] is the thread's error number after
    the call. *)
Definition SystemCall (attempt : string) (return_value errno errno_mask : Z) : result Z :=
  if (0 <=? return_value) || (errno =? errno_mask) then Ok return_value else Throw (UnixError attempt errno).

(** The message of an exception: [tagged_error] puts the attempt before what
    the category says of the error number ([strerror] and [gai_strerror] of the
    C library). *)
Definition tagged_error (attempt message : bytes) : bytes := attempt ++ lit ": " ++ message.

Definition what (strerror gai_strerror : Z -> bytes) (e : exn) : bytes :=
  match e with
  | UnixError attempt error => tagged_error (lit attempt) (strerror error)
  | GaiError attempt error => tagged_error attempt (gai_strerror error)
  | OutOfRange s | RuntimeError s | LengthError s | UndefinedBehaviour s => lit s
  end.

(** Two readings of the steady clock, in nanoseconds. *)
Definition timestamp_ms (program_start now : Z) : Z := u64 (Z.quot (now - program_start) 1000000).

(** The time between two calls is that between the readings, to within a
    millisecond: nothing accumulates over the turns of a loop. *)
Lemma timestamp_elapsed program_start t1 t2 :
  program_start <= t1 <= t2 -> t2 < program_start + 2 ^ 63 ->
  let ms := timestamp_ms program_start t2 ⊖ timestamp_ms program_start t1 in
  0 <= ms /\ Z.abs (ms * 1000000 - (t2 - t1)) < 1000000.
Proof.
  intros H1 H2. unfold timestamp_ms. rewrite !Z.quot_div_nonneg by lia.
  pose proof (Z.div_mod (t1 - program_start) 1000000). pose proof (Z.mod_pos_bound (t1 - program_start) 1000000).
  pose proof (Z.div_mod (t2 - program_start) 1000000). pose proof (Z.mod_pos_bound (t2 - program_start) 1000000).
  assert ((t1 - program_start) / 1000000 <= (t2 - program_start) / 1000000) by (apply Z.div_le_mono; lia).
  assert (0 <= (t1 - program_start) / 1000000) by (apply Z.div_pos; lia).
  rewrite !u64_id by (unfold is_u64; lia). rewrite sub64_id by (unfold is_u64; lia). lia.
Qed.

Module InternetChecksum.

Record t : Type := mk { _sum : Z; _parity : bool }.

Definition init (initial_sum : Z) : t := mk initial_sum false.

(** One turn of the loop of [add]. *)
Definition add_byte (c : t) (b : byte) : t :=
  let val := byte_val b in
  let val := if negb (_parity c) then u16 (Z.shiftl val 8) else val in
  mk (u32 (_sum c + val)) (negb (_parity c)).

Definition add (data : bytes) (c : t) : t := foldl add_byte c data.

Fixpoint value_loop (fuel : nat) (ret : Z) : result Z :=
  match fuel with
  | O => OutOfFuel
  | S fuel =>
      if 0xffff <? ret
      then value_loop fuel (u32 (Z.shiftr ret 16 + Z.land ret 0xffff))
      else Ok ret
  end.

(** Three tests of the loop condition are enough for any 32-bit sum. *)
Definition value (c : t) : result Z :=
  ret ← value_loop 3 (_sum c);
  Ok (u16 (Z.lnot ret)).

#[global] Arguments add : simpl never.
#[global] Arguments value : simpl never.

(** ** Reference definitions *)

Fixpoint csum (parity : bool) (s : bytes) : Z :=
  match s with
  | [] => 0
  | b :: s => (if parity then byte_val b else 256 * byte_val b) + csum (negb parity) s
  end.

Definition fold16 (s : Z) : Z := if s =? 0 then 0 else (s - 1) mod 65535 + 1.

Lemma csum_bounds par s : 0 <= csum par s <= 65280 * zlen s.
Proof.
  revert par. induction s as [|b s IH]; intros par; [unfold zlen; cbn; lia|].
  cbn [csum]. rewrite zlen_cons. specialize (IH (negb par)). pose proof (byte_val_range b).
  unfold is_u8 in *. destruct par; lia.
Qed.

Lemma csum_app par s u : csum par (s ++ u) = csum par s + csum (xorb par (Nat.odd (length s))) u.
Proof.
  revert par. induction s as [|b s IH]; intros par; cbn [app csum length].
  { cbn. by rewrite xorb_false_r. }
  rewrite IH, Nat.odd_succ, <- Nat.negb_odd.
  replace (xorb par (negb (Nat.odd (length s)))) with (xorb (negb par) (Nat.odd (length s)))
    by (by destruct par, (Nat.odd (length s))).
  lia.
Qed.

Lemma csum_be16 v : is_u16 v -> csum false (be 2 v) = v.
Proof.
  intros Hv. cbn [be csum negb]. rewrite !byte_val_of. change (8 * Z.of_nat 1) with 8. change (8 * Z.of_nat 0) with 0.
  rewrite Z.pow_0_r, Z.div_1_r. word_lia.
Qed.

Lemma add_app s u c : add (s ++ u) c = add u (add s c).
Proof. unfold add. by rewrite foldl_app. Qed.

Lemma add_eq s sum par :
  is_u32 sum -> add s (mk sum par) = mk (u32 (sum + csum par s)) (xorb par (Nat.odd (length s))).
Proof.
  revert sum par. induction s as [|b s IH]; intros sum par Hs.
  { cbn. by rewrite Z.add_0_r, u32_id, xorb_false_r. }
  unfold add in *. cbn [foldl]. unfold add_byte at 2. cbn [_sum _parity].
  rewrite IH by apply u32_range. cbn [csum length]. rewrite Nat.odd_succ, <- Nat.negb_odd. f_equal.
  - pose proof (byte_val_range b). rewrite Z.shiftl_mul_pow2 by lia.
    unfold u32. rewrite Zplus_mod_idemp_l. f_equal.
    destruct par; cbn [negb]; [lia|]. rewrite u16_id by word_lia. lia.
  - by destruct par, (Nat.odd (length s)).
Qed.

Lemma fold16_small r : 0 <= r <= 65535 -> fold16 r = r.
Proof. intros Hr. unfold fold16. destruct (Z.eqb_spec r 0); [lia|]. rewrite Z.mod_small; lia. Qed.

Lemma fold16_step r : 0 <= r -> fold16 (r / 2 ^ 16 + r mod 2 ^ 16) = fold16 r.
Proof.
  intros Hr. unfold fold16. pose proof (Z.div_mod r (2 ^ 16)) as E.
  pose proof (Z.mod_pos_bound r (2 ^ 16)). assert (0 <= r / 2 ^ 16) by (apply Z.div_pos; lia).
  destruct (Z.eqb_spec r 0), (Z.eqb_spec (r / 2 ^ 16 + r mod 2 ^ 16) 0); try lia; try done.
  f_equal. replace (r - 1) with (r / 2 ^ 16 + r mod 2 ^ 16 - 1 + r / 2 ^ 16 * 65535) by lia.
  by rewrite Z.mod_add.
Qed.

Lemma value_loop_step fuel r :
  is_u32 r -> 65535 < r -> value_loop (S fuel) r = value_loop fuel (r / 2 ^ 16 + r mod 2 ^ 16).
Proof.
  intros Hr Hl. cbn [value_loop]. rewrite (proj2 (Z.ltb_lt _ _)) by done.
  change 0xffff with (Z.ones 16). rewrite Z.land_ones, Z.shiftr_div_pow2 by lia.
  rewrite u32_id; [done|]. word_lia.
Qed.

Lemma value_loop_stop fuel r : 0 <= r <= 65535 -> value_loop (S fuel) r = Ok (fold16 r).
Proof.
  intros Hr. cbn [value_loop]. rewrite (proj2 (Z.ltb_ge _ _)) by lia. by rewrite fold16_small.
Qed.

(** The loop returns, for any 32-bit sum. *)
Lemma value_loop_eq r : is_u32 r -> value_loop 3 r = Ok (fold16 r).
Proof.
  intros Hr. destruct (Z.le_gt_cases r 65535); [apply value_loop_stop; word_lia|].
  rewrite value_loop_step by (done || lia). rewrite <- (fold16_step r) by word_lia.
  set (r1 := r / 2 ^ 16 + r mod 2 ^ 16). assert (0 <= r1 <= 131070) by (unfold r1; word_lia). clearbody r1.
  destruct (Z.le_gt_cases r1 65535); [apply value_loop_stop; word_lia|].
  rewrite value_loop_step by (word_lia || lia). rewrite <- (fold16_step r1) by lia.
  apply value_loop_stop. word_lia.
Qed.

Lemma fold16_range r : 0 <= fold16 r <= 65535.
Proof. unfold fold16. case_match; [lia|]. pose proof (Z.mod_pos_bound (r - 1) 65535). lia. Qed.

Lemma value_eq c : is_u32 (_sum c) -> value c = Ok (65535 - fold16 (_sum c)).
Proof.
  intros H. unfold value. rewrite value_loop_eq by done. cbn. f_equal.
  pose proof (fold16_range (_sum c)). unfold Z.lnot. word_lia.
Qed.

(** The packet verifies exactly when the sum is a positive multiple of 65535. *)
Lemma value_zero_iff c :
  is_u32 (_sum c) -> value c = Ok 0 <-> _sum c <> 0 /\ _sum c mod 65535 = 0.
Proof.
  intros H. rewrite value_eq by done. unfold fold16. destruct (Z.eqb_spec (_sum c) 0) as [->|E].
  { split; [done|]. by intros [? _]. }
  split.
  - intros [= Hv]. split; [done|]. Z.div_mod_to_equations. lia.
  - intros [_ Hm]. f_equal. Z.div_mod_to_equations. lia.
Qed.

(** [fits_sum i s]: the 32-bit sum of [s], started at [i], does not wrap. *)
Definition fits_sum (i : Z) (s : bytes) : Prop := 0 <= i /\ i + 65280 * zlen s < 2 ^ 32.

Lemma sum_eq i s : fits_sum i s -> _sum (add s (init i)) = i + csum false s.
Proof.
  intros [Hi Hb]. pose proof (csum_bounds false s). pose proof (zlen_nonneg s).
  unfold init. rewrite add_eq by word_lia. cbn. apply u32_id. word_lia.
Qed.

Lemma sum_u32 i s : fits_sum i s -> is_u32 (_sum (add s (init i))).
Proof. intros H. rewrite sum_eq by done. destruct H. pose proof (csum_bounds false s). word_lia. Qed.

Lemma value_ok i s : fits_sum i s -> exists v, value (add s (init i)) = Ok v /\ is_u16 v.
Proof.
  intros H. rewrite value_eq by (by apply sum_u32). eexists. split; [done|].
  match goal with |- is_u16 (_ - fold16 ?x) => pose proof (fold16_range x) end. word_lia.
Qed.

(** The value computed with the field zeroed makes the packet verify. *)
Lemma value_fill i a b v :
  Nat.even (length a) = true -> fits_sum i (a ++ be 2 0 ++ b) ->
  value (add (a ++ be 2 0 ++ b) (init i)) = Ok v ->
  value (add (a ++ be 2 v ++ b) (init i)) = Ok 0.
Proof.
  intros Ha Hf Hv. rewrite <- Nat.negb_odd, negb_true_iff in Ha.
  destruct (value_ok _ _ Hf) as (v' & Hv' & Hr). assert (v' = v) as -> by congruence. clear Hv'.
  assert (fits_sum i (a ++ be 2 v ++ b)) as Hf' by (unfold fits_sum in *; zlen; lia).
  apply value_zero_iff; [by apply sum_u32|]. rewrite value_eq in Hv by (by apply sum_u32).
  assert (forall w, is_u16 w -> fits_sum i (a ++ be 2 w ++ b) ->
    _sum (add (a ++ be 2 w ++ b) (init i)) = i + csum false a + csum false b + w) as Hsum.
  { intros w Hw Hfw. rewrite sum_eq by done. rewrite !csum_app, Ha. cbn [xorb].
    rewrite csum_be16 by done. rewrite length_be. cbn. lia. }
  rewrite Hsum in Hv |- * by (done || word_lia). injection Hv as Hv.
  destruct Hf as [Hi _]. pose proof (csum_bounds false a). pose proof (csum_bounds false b).
  revert Hv. unfold fold16. destruct (Z.eqb_spec (i + csum false a + csum false b + 0) 0); intros Hv.
  - rewrite <- Hv. replace (i + csum false a + csum false b) with 0 by lia. done.
  - split; [word_lia|]. Z.div_mod_to_equations. lia.
Qed.

(** One altered byte makes a packet that verified fail. *)
Lemma value_detects i a x y b v :
  fits_sum i (a ++ [x] ++ b) -> x <> y ->
  value (add (a ++ [x] ++ b) (init i)) = Ok 0 ->
  value (add (a ++ [y] ++ b) (init i)) = Ok v -> v <> 0.
Proof.
  intros Hf Hxy Hx Hy ->. assert (fits_sum i (a ++ [y] ++ b)) as Hf' by (unfold fits_sum in *; zlen; lia).
  apply value_zero_iff in Hx as [_ Hx]; [|by apply sum_u32].
  apply value_zero_iff in Hy as [_ Hy]; [|by apply sum_u32].
  rewrite sum_eq in Hx, Hy by done. rewrite !csum_app in Hx, Hy. cbn [csum length] in Hx, Hy.
  assert (byte_val x <> byte_val y) as Hne.
  { intros E. apply Hxy. rewrite <- (byte_of_val x), <- (byte_of_val y). by rewrite E. }
  pose proof (byte_val_range x). pose proof (byte_val_range y). unfold is_u8 in *.
  set (p := xorb false (Nat.odd (length a))) in *.
  change (xorb p (Nat.odd 1)) with (xorb p true) in *.
  generalize dependent (csum (xorb p true) b). generalize dependent (csum false a).
  intros A B Hx Hy. destruct p; cbn [negb] in *; Z.div_mod_to_equations; lia.
Qed.

(** ** The checksum of RFC 1071

    The one's complement of the one's complement sum of the 16-bit words, the
    carry of each addition being added at the low end, and a last odd byte
    being the high half of a word. *)

Definition add_end_around (a b : Z) : Z := if a + b <? 2 ^ 16 then a + b else a + b - 2 ^ 16 + 1.

Fixpoint words (s : bytes) : list Z :=
  match s with
  | [] => []
  | [a] => [256 * byte_val a]
  | a :: b :: s => (256 * byte_val a + byte_val b) :: words s
  end.

Definition rfc1071 (ws : list Z) : Z := 0xffff - foldl add_end_around 0 ws.

Lemma fold16_add x w : 0 <= x -> is_u16 w -> add_end_around (fold16 x) w = fold16 (x + w).
Proof.
  intros Hx Hw. unfold add_end_around, fold16. destruct (Z.eqb_spec x 0) as [->|].
  { rewrite Z.add_0_l. destruct (Z.eqb_spec w 0) as [->|]; [done|].
    rewrite (proj2 (Z.ltb_lt _ _)) by word_lia. rewrite Z.mod_small by word_lia. lia. }
  rewrite (proj2 (Z.eqb_neq (x + w) 0)) by word_lia. unfold is_u16 in Hw.
  pose proof (Z.mod_pos_bound (x - 1) 65535). destruct (Z.ltb_spec ((x - 1) mod 65535 + 1 + w) (2 ^ 16)); Z.div_mod_to_equations; lia.
Qed.

Definition total (ws : list Z) : Z := foldr Z.add 0 ws.

Lemma foldl_fold16 ws x :
  0 <= x -> Forall is_u16 ws -> foldl add_end_around (fold16 x) ws = fold16 (x + total ws).
Proof.
  intros Hx Hw. revert x Hx. induction Hw as [|w ws Hw _ IH]; intros x Hx; cbn; [by rewrite Z.add_0_r|].
  rewrite fold16_add by done. rewrite IH by word_lia. f_equal. unfold total. lia.
Qed.

Lemma words_csum s : Forall is_u16 (words s) /\ total (words s) = csum false s.
Proof.
  revert s. fix IH 1. intros [|a [|b s]]; [split; [constructor|reflexivity]| |].
  - pose proof (byte_val_range a). cbn. split; [apply Forall_singleton; word_lia|lia].
  - destruct (IH s) as [Hw Ht]. pose proof (byte_val_range a). pose proof (byte_val_range b). unfold total in *. cbn.
    rewrite Ht. split; [constructor; [word_lia|done]|lia].
Qed.

Lemma total_app ws us : total (ws ++ us) = total ws + total us.
Proof. unfold total. induction ws as [|w ws IH]; cbn; [done|]. rewrite IH. lia. Qed.

Lemma add_pieces pieces c : foldl (fun c data => add data c) c pieces = add (concat pieces) c.
Proof. revert c. induction pieces as [|d pieces IH]; intros c; cbn; [done|]. by rewrite IH, add_app. Qed.

(** C22: the checksum is that of RFC 1071.  However the data is cut into the
    pieces that are added one after the other, at odd offsets too, and with an
    initial sum that is the plain sum of other words (those of the
    pseudo-header), the value is the one's complement sum with end-around
    carry of all the words, as long as the 32-bit sum does not wrap; and the
    loop that folds it ends. *)
Theorem checksum_rfc1071 ws pieces :
  Forall is_u16 ws -> fits_sum (total ws) (concat pieces) ->
  value (foldl (fun c data => add data c) (init (total ws)) pieces) = Ok (rfc1071 (ws ++ words (concat pieces))).
Proof.
  intros Hws Hf. destruct (words_csum (concat pieces)) as [Hw Ht]. rewrite add_pieces, value_eq by (by apply sum_u32).
  rewrite sum_eq by done. unfold rfc1071. do 2 f_equal. change 0 with (fold16 0) at 1.
  rewrite foldl_fold16 by (lia || by apply Forall_app). by rewrite total_app, Ht.
Qed.

(** The pseudo-header's words and a segment in three pieces, cut at odd
    offsets. *)
Lemma checksum_rfc1071_witness :
  value (foldl (fun c data => add data c) (init (total [0x0a00; 0xffff; 6])) [[x12]; [x34; xff; xff]; [x80]]) = Ok 0x63c5 /\
  rfc1071 ([0x0a00; 0xffff; 6] ++ words (concat [[x12]; [x34; xff; xff]; [x80]])) = 0x63c5.
Proof.
  rewrite (checksum_rfc1071 [0x0a00; 0xffff; 6] [[x12]; [x34; xff; xff]; [x80]]);
    [split; reflexivity|repeat constructor; word_lia|split; vm_compute; congruence].
Defined.

End InternetChecksum.
