(* ===== verification/random.v ===== *)
(** * [libsponge/util/util.cc]: [get_random_generator]

    The generator [std::mt19937] and the seed sequence [std::seed_seq] of the
    standard library, as the C++ standard defines them ([rand.eng.mers] and
    [rand.util.seedseq]), and the function that makes a generator from 624
    numbers of [random_device], which are arguments. *)

From S2P Require Import Prelude.

(** ** [std::mt19937] *)

Module mt19937.

Definition state_size : nat := 624.
Definition shift_size : nat := 397.
Definition xor_mask : Z := 0x9908b0df.
Definition upper_mask : Z := 0x80000000.
Definition lower_mask : Z := 0x7fffffff.

(** The last [state_size] words of the sequence, the oldest first. *)
Definition t : Type := list Z.

(** The tempering of an output. *)
Definition temper (x : Z) : Z :=
  let z := Z.lxor x (Z.shiftr x 11) in
  let z := Z.lxor z (Z.land (u32 (Z.shiftl z 7)) 0x9d2c5680) in
  let z := Z.lxor z (Z.land (u32 (Z.shiftl z 15)) 0xefc60000) in
  Z.lxor z (Z.shiftr z 18).

(** The next word of the sequence. *)
Definition twist (x0 x1 xm : Z) : Z :=
  let y := Z.lor (Z.land x0 upper_mask) (Z.land x1 lower_mask) in
  Z.lxor (Z.lxor xm (Z.shiftr y 1)) (if Z.testbit y 0 then xor_mask else 0).

(** [operator()]. *)
Definition next (g : t) : Z * t :=
  let x := twist (nth 0 g 0) (nth 1 g 0) (nth shift_size g 0) in
  (temper x, tail g ++ [x]).

(** Seeding with one number, as by default. *)
Fixpoint seed_words (n : nat) (i x : Z) : list Z :=
  match n with
  | O => []
  | S n => x :: seed_words n (i + 1) (u32 (1812433253 * Z.lxor x (Z.shiftr x 30) + (i + 1)))
  end.

Definition default_seed : Z := 5489.
Definition of_number (value : Z) : t := seed_words state_size 0 (u32 value).

(** Seeding with the words that a seed sequence has generated: a state that is
    zero but for the bits never used is replaced. *)
Definition of_words (a : list Z) : t :=
  if (Z.shiftr (nth 0 a 0) 31 =? 0) && forallb (fun x => x =? 0) (tail a) then 0x80000000 :: tail a else a.

Fixpoint discard (n : nat) (g : t) : t :=
  match n with O => g | S n => discard n (next g).2 end.

End mt19937.

(** ** [std::seed_seq] *)

Module seed_seq.

Definition T (x : Z) : Z := Z.lxor x (Z.shiftr x 27).

Definition at_mod (b : list Z) (n : nat) (i : nat) : Z := nth (i mod n)%nat b 0.
Definition put_mod (b : list Z) (n : nat) (i : nat) (f : Z -> Z) : list Z := alter f (i mod n)%nat b.

(** The distances [p] and [q]. *)
Definition mix_size (n : nat) : nat :=
  if (623 <=? n)%nat then 11%nat else if (68 <=? n)%nat then 7%nat else if (39 <=? n)%nat then 5%nat
  else if (7 <=? n)%nat then 3%nat else ((n - 1) / 2)%nat.
Definition p_of (n : nat) : nat := ((n - mix_size n) / 2)%nat.
Definition q_of (n : nat) : nat := (p_of n + mix_size n)%nat.

(** One turn of the first loop: the numbers are mixed in. *)
Definition mix_in (v : list Z) (n : nat) (b : list Z) (k : nat) : list Z :=
  let p := p_of n in
  let q := q_of n in
  let r1 := u32 (1664525 * T (Z.lxor (Z.lxor (at_mod b n k) (at_mod b n (k + p)%nat)) (at_mod b n (k + n - 1)%nat))) in
  let r2 := u32 (r1 + (if (k =? 0)%nat then Z.of_nat (length v)
                       else if (k <=? length v)%nat then Z.of_nat (k mod n)%nat + nth (k - 1)%nat v 0
                       else Z.of_nat (k mod n)%nat)) in
  let b := put_mod b n (k + p)%nat (fun x => u32 (x + r1)) in
  let b := put_mod b n (k + q)%nat (fun x => u32 (x + r2)) in
  put_mod b n k (fun _ => r2).

(** One turn of the second loop. *)
Definition mix_up (n : nat) (b : list Z) (k : nat) : list Z :=
  let p := p_of n in
  let q := q_of n in
  let r3 := u32 (1566083941 * T (u32 (at_mod b n k + at_mod b n (k + p)%nat + at_mod b n (k + n - 1)%nat))) in
  let r4 := u32 (r3 - Z.of_nat (k mod n)%nat) in
  let b := put_mod b n (k + p)%nat (fun x => Z.lxor x r3) in
  let b := put_mod b n (k + q)%nat (fun x => Z.lxor x r4) in
  put_mod b n k (fun _ => r4).

(** [generate] into [n] words, for the numbers [v] of the sequence. *)
Definition generate (v : list Z) (n : nat) : list Z :=
  let m := Nat.max (length v + 1)%nat n in
  let b := foldl (mix_in v n) (replicate n 0x8b8b8b8b) (seq 0 m) in
  foldl (mix_up n) b (seq m n).

End seed_seq.

(** ** The function *)

(** [draws] are the numbers of [random_device]. *)
Definition get_random_generator (draws : list Z) : mt19937.t :=
  let seed_data := u32 <$> take mt19937.state_size draws in
  mt19937.of_words (seed_seq.generate seed_data mt19937.state_size).

(** ** The model and the standard *)

(** The value that the standard requires of the ten thousandth call. *)
Lemma mt19937_standard_value :
  (mt19937.next (mt19937.discard (Z.to_nat 9999) (mt19937.of_number mt19937.default_seed))).1 = 4123659995.
Proof. vm_compute. reflexivity. Qed.

Definition sample_generator : mt19937.t := get_random_generator ((fun i => Z.of_nat i * 2654435761) <$> seq 0 624).

(** The first, third and seven hundredth numbers of a generator seeded with a
    sequence. *)
Lemma seed_seq_values :
  (fun n => (mt19937.next (mt19937.discard n sample_generator)).1) <$> [0; 2; 699]%nat = [719116409; 751804500; 2362889139].
Proof. vm_compute. reflexivity. Qed.

(** ** Every number drawn fits in 32 bits *)

Lemma u32_land x : is_u32 x <-> Z.land x (Z.ones 32) = x.
Proof.
  rewrite Z.land_ones by lia. split; [intros [? ?]; by apply Z.mod_small|intros <-]. apply Z.mod_pos_bound. lia.
Qed.

Lemma land_lxor x y m : Z.land (Z.lxor x y) m = Z.lxor (Z.land x m) (Z.land y m).
Proof.
  apply Z.bits_inj'. intros n _. rewrite Z.land_spec, !Z.lxor_spec, !Z.land_spec.
  by destruct (Z.testbit x n), (Z.testbit y n), (Z.testbit m n).
Qed.

Lemma is_u32_lxor x y : is_u32 x -> is_u32 y -> is_u32 (Z.lxor x y).
Proof. rewrite !u32_land, land_lxor. congruence. Qed.

Lemma is_u32_lor x y : is_u32 x -> is_u32 y -> is_u32 (Z.lor x y).
Proof. rewrite !u32_land, Z.land_lor_distr_l. congruence. Qed.

Lemma is_u32_land x y : is_u32 y -> is_u32 (Z.land x y).
Proof. rewrite !u32_land, <- Z.land_assoc. congruence. Qed.

Lemma is_u32_shiftr x n : 0 <= n -> is_u32 x -> is_u32 (Z.shiftr x n).
Proof.
  intros Hn [H0 H1]. rewrite Z.shiftr_div_pow2 by done. assert (0 < 2 ^ n) by (apply Z.pow_pos_nonneg; lia).
  split; [apply Z.div_pos; lia|]. apply Z.div_lt_upper_bound; [lia|]. nia.
Qed.

Create HintDb words.
#[local] Hint Resolve is_u32_lxor is_u32_lor is_u32_land u32_range : words.
#[local] Hint Extern 2 (is_u32 (Z.shiftr _ _)) => apply is_u32_shiftr; [lia|] : words.
#[local] Hint Extern 3 (is_u32 _) => (split; vm_compute; congruence) : words.

Lemma temper_range x : is_u32 x -> is_u32 (mt19937.temper x).
Proof. intros Hx. unfold mt19937.temper. cbv zeta. auto 12 with words. Qed.

Lemma twist_range x0 x1 xm : is_u32 xm -> is_u32 (mt19937.twist x0 x1 xm).
Proof.
  intros Hm. unfold mt19937.twist. cbv zeta. apply is_u32_lxor; [|case_match; auto with words].
  apply is_u32_lxor; [done|]. apply is_u32_shiftr; [lia|]. apply is_u32_lor; apply is_u32_land; auto with words.
Qed.

Definition generator_wf (g : mt19937.t) : Prop := length g = 624%nat /\ Forall is_u32 g.

Lemma nth_u32 l n : Forall is_u32 l -> is_u32 (nth n l 0).
Proof. intros Hl. revert n. induction Hl; intros [|n]; cbn; auto; split; lia. Qed.

(** Each call yields a number of 32 bits and keeps the state's shape. *)
Lemma next_wf g : generator_wf g -> is_u32 (mt19937.next g).1 /\ generator_wf (mt19937.next g).2.
Proof.
  intros [Hl Hg]. unfold mt19937.next. cbn [fst snd]. set (x := mt19937.twist _ _ _).
  assert (is_u32 x) as Hx by (apply twist_range; by apply nth_u32). split; [by apply temper_range|]. split.
  - rewrite length_app. destruct g; [done|]. cbn in *. lia.
  - apply Forall_app. split; [|by apply Forall_singleton]. destruct g; [done|]. by apply Forall_cons in Hg as [_ ?].
Qed.

Lemma put_mod_wf b n i f : Forall is_u32 b -> (forall x, is_u32 x -> is_u32 (f x)) ->
  Forall is_u32 (seed_seq.put_mod b n i f) /\ length (seed_seq.put_mod b n i f) = length b.
Proof.
  intros Hb Hf. unfold seed_seq.put_mod. split; [|apply length_alter]. apply Forall_alter; [done|]. intros x Hx. apply Hf.
Qed.

Lemma put3_wf b n i1 i2 i3 f1 f2 f3 :
  Forall is_u32 b -> (forall x, is_u32 x -> is_u32 (f1 x)) -> (forall x, is_u32 x -> is_u32 (f2 x)) ->
  (forall x, is_u32 x -> is_u32 (f3 x)) ->
  let b' := seed_seq.put_mod (seed_seq.put_mod (seed_seq.put_mod b n i1 f1) n i2 f2) n i3 f3 in
  Forall is_u32 b' /\ length b' = length b.
Proof.
  intros Hb H1 H2 H3. destruct (put_mod_wf b n i1 f1 Hb H1) as [Hb1 L1]. destruct (put_mod_wf _ n i2 f2 Hb1 H2) as [Hb2 L2].
  destruct (put_mod_wf _ n i3 f3 Hb2 H3) as [Hb3 L3]. cbv zeta. split; [done|congruence].
Qed.

Lemma foldl_wf (f : list Z -> nat -> list Z) b l :
  (forall b k, Forall is_u32 b -> Forall is_u32 (f b k) /\ length (f b k) = length b) -> Forall is_u32 b ->
  Forall is_u32 (foldl f b l) /\ length (foldl f b l) = length b.
Proof.
  intros Hf. revert b. induction l as [|k l IH]; intros b Hb; [done|]. cbn. destruct (Hf b k Hb) as [H1 H2].
  destruct (IH _ H1) as [H3 H4]. split; [done|congruence].
Qed.

Lemma generate_wf v n : Forall is_u32 (seed_seq.generate v n) /\ length (seed_seq.generate v n) = n.
Proof.
  unfold seed_seq.generate. cbv zeta.
  destruct (foldl_wf (seed_seq.mix_in v n) (replicate n 0x8b8b8b8b) (seq 0 (Nat.max (length v + 1) n))) as [H1 L1].
  { intros b k Hb. unfold seed_seq.mix_in. cbv zeta. apply put3_wf; [done|intros; apply u32_range..]. }
  { apply Forall_replicate. word_lia. }
  destruct (foldl_wf (seed_seq.mix_up n) _ (seq (Nat.max (length v + 1) n) n)
              ltac:(intros b k Hb; unfold seed_seq.mix_up; cbv zeta; apply put3_wf; [done|intros; auto with words..]) H1) as [H2 L2].
  split; [exact H2|]. by rewrite L2, L1, length_replicate.
Qed.

Lemma of_words_wf a : Forall is_u32 a -> length a = 624%nat -> generator_wf (mt19937.of_words a).
Proof.
  intros Ha Hl. unfold mt19937.of_words. destruct a as [|x a]; [done|]. apply Forall_cons in Ha as [Hx Ha].
  case_match; [|split; [done|by constructor]]. split; [done|]. constructor; [word_lia|done].
Qed.

(** The generator that the program makes, and all numbers drawn from it. *)
Lemma random_generator_bounded draws n :
  generator_wf (mt19937.discard n (get_random_generator draws)) /\
  is_u32 (mt19937.next (mt19937.discard n (get_random_generator draws))).1.
Proof.
  assert (forall g, generator_wf g -> generator_wf (mt19937.discard n g)) as Hd.
  { induction n as [|n IH]; intros g Hg; [done|]. cbn. apply IH. by apply next_wf. }
  assert (generator_wf (get_random_generator draws)) as Hg.
  { unfold get_random_generator. cbv zeta. destruct (generate_wf (u32 <$> take mt19937.state_size draws) mt19937.state_size). by apply of_words_wf. }
  split; [by apply Hd|]. by apply next_wf, Hd.
Qed.
