(* ===== verification/tcp_segment.v ===== *)
(** * [libsponge/tcp_helpers/tcp_header.*], [libsponge/tcp_helpers/tcp_segment.*]

    The TCP header and segment: fields, parsing, serialisation, checksum.  The
    theorems: what is serialised parses back, parsing is total, a segment with
    one corrupted byte is refused; and the header's own verdict on a short
    data offset does not reach the caller. *)

From S2P Require Import Prelude.
From S2P Require Import wrapping_integers.
From S2P Require Import buffer.
From S2P Require Import parser.
From S2P Require Import util.

Module TCPHeader.

Record t : Type := mk {
  sport : Z;
  dport : Z;
  seqno : WrappingInt32.t;
  ackno : WrappingInt32.t;
  doff : Z;
  urg : bool;
  ack : bool;
  psh : bool;
  rst : bool;
  syn : bool;
  fin : bool;
  win : Z;
  cksum : Z;
  uptr : Z
}.

#[global] Instance eta_t : Eta t := fun h =>
  mk (sport h) (dport h) (seqno h) (ackno h) (doff h) (urg h) (ack h) (psh h) (rst h) (syn h)
     (fin h) (win h) (cksum h) (uptr h).

#[global] Instance t_eq_dec : EqDecision t.
Proof. solve_decision. Defined.

Definition LENGTH : Z := 20.

(** The default member initialisers. *)
Definition init : t :=
  mk 0 0 (WrappingInt32.mk 0) (WrappingInt32.mk 0) (LENGTH / 4)
     false false false false false false 0 0 0.

Definition flag (fl_b mask : Z) : bool := negb (Z.land fl_b mask =? 0).

(** Every field is assigned, so the header's previous value does not matter. *)
Definition parse (p : NetParser.t) : result (ParseResult * t * NetParser.t) :=
  '(sport, p) ← NetParser.u16 p;
  '(dport, p) ← NetParser.u16 p;
  '(seqno, p) ← NetParser.u32 p;
  '(ackno, p) ← NetParser.u32 p;
  '(doff, p) ← NetParser.u8 p;
  let doff := Z.shiftr doff 4 in
  '(fl_b, p) ← NetParser.u8 p;
  '(win, p) ← NetParser.u16 p;
  '(cksum, p) ← NetParser.u16 p;
  '(uptr, p) ← NetParser.u16 p;
  let h := mk sport dport (WrappingInt32.mk seqno) (WrappingInt32.mk ackno) doff
              (flag fl_b 0x20) (flag fl_b 0x10) (flag fl_b 0x08)
              (flag fl_b 0x04) (flag fl_b 0x02) (flag fl_b 0x01) win cksum uptr in
  if doff <? 5 then Ok (HeaderTooShort, h, p) else
  p ← NetParser.remove_prefix (doff * 4 ⊖ LENGTH) p;
  if NetParser.error p then Ok (NetParser.get_error p, h, p) else Ok (NoError, h, p).

Definition bit (b : bool) (mask : Z) : Z := if b then mask else 0.

(** The byte of flags that [serialize] writes. *)
Definition flags (h : t) : Z :=
  Z.lor (Z.lor (Z.lor (Z.lor (Z.lor (bit (urg h) 0x20) (bit (ack h) 0x10)) (bit (psh h) 0x08))
    (bit (rst h) 0x04)) (bit (syn h) 0x02)) (bit (fin h) 0x01).

Definition serialize (h : t) : result bytes :=
  if doff h <? 5 then Throw (RuntimeError "TCP header too short") else
  let ret := NetUnparser.u16 [] (sport h) in
  let ret := NetUnparser.u16 ret (dport h) in
  let ret := NetUnparser.u32 ret (WrappingInt32.raw_value (seqno h)) in
  let ret := NetUnparser.u32 ret (WrappingInt32.raw_value (ackno h)) in
  let ret := NetUnparser.u8 ret (u8 (Z.shiftl (doff h) 4)) in
  let ret := NetUnparser.u8 ret (flags h) in
  let ret := NetUnparser.u16 ret (win h) in
  let ret := NetUnparser.u16 ret (cksum h) in
  let ret := NetUnparser.u16 ret (uptr h) in
  Ok (resize ret (4 * doff h)).

(** [operator==], which leaves the ports and the checksum out. *)
Definition eqb (a b : t) : bool :=
  WrappingInt32.eqb (seqno a) (seqno b) && WrappingInt32.eqb (ackno a) (ackno b) &&
  (doff a =? doff b) && Bool.eqb (urg a) (urg b) && Bool.eqb (ack a) (ack b) &&
  Bool.eqb (psh a) (psh b) && Bool.eqb (rst a) (rst b) && Bool.eqb (syn a) (syn b) &&
  Bool.eqb (fin a) (fin b) && (win a =? win b) && (uptr a =? uptr b).

#[global] Arguments parse : simpl never.
#[global] Arguments serialize : simpl never.

(** The ranges of the fields' types; [doff] has four bits on the wire. *)
Record wf (h : t) : Prop := {
  wf_sport : is_u16 (sport h);
  wf_dport : is_u16 (dport h);
  wf_seqno : WrappingInt32.wf (seqno h);
  wf_ackno : WrappingInt32.wf (ackno h);
  wf_doff : 0 <= doff h < 16;
  wf_win : is_u16 (win h);
  wf_cksum : is_u16 (cksum h);
  wf_uptr : is_u16 (uptr h)
}.

Lemma init_header_wf : wf init.
Proof. split; vm_compute; split; congruence. Qed.

(** What is on the wire before the checksum, and after. *)
Definition wire_before (h : t) : bytes :=
  be 2 (sport h) ++ be 2 (dport h) ++ be 4 (WrappingInt32.raw_value (seqno h)) ++
  be 4 (WrappingInt32.raw_value (ackno h)) ++ be 1 (u8 (Z.shiftl (doff h) 4)) ++
  be 1 (flags h) ++ be 2 (win h).
Definition wire_after (h : t) : bytes :=
  be 2 (uptr h) ++ replicate (Z.to_nat (4 * doff h) - 20) x00.

Lemma tcp_header_wire h :
  5 <= doff h -> serialize h = Ok (wire_before h ++ be 2 (cksum h) ++ wire_after h).
Proof.
  intros Hd. unfold serialize. rewrite (proj2 (Z.ltb_ge _ _)) by done.
  rewrite !NetUnparser.u16_eq, !NetUnparser.u8_eq, !NetUnparser.u32_eq.
  rewrite app_nil_l, resize_grow by (zlen; lia). rewrite !length_app, !length_be. cbn [Nat.add].
  unfold wire_before, wire_after. by rewrite <- !app_assoc.
Qed.

Lemma tcp_header_wire_cksum h v :
  5 <= doff h -> serialize (h <| cksum := v |>) = Ok (wire_before h ++ be 2 v ++ wire_after h).
Proof. intros Hd. by rewrite tcp_header_wire. Qed.

Lemma tcp_header_before_even h : Nat.even (length (wire_before h)) = true.
Proof. unfold wire_before. by rewrite !length_app, !length_be. Qed.

Lemma tcp_header_wire_zlen h : 5 <= doff h -> zlen (wire_before h ++ be 2 (cksum h) ++ wire_after h) = 4 * doff h.
Proof.
  intros Hd. unfold wire_before, wire_after. zlen. unfold zlen. rewrite length_replicate. lia.
Qed.

Lemma flags_range h : is_u8 (flags h).
Proof. unfold flags, bit. destruct (urg h), (ack h), (psh h), (rst h), (syn h), (fin h); vm_compute; split; congruence. Qed.
#[export] Hint Resolve flags_range : word.

Lemma flags_back h :
  flag (flags h) 0x20 = urg h /\ flag (flags h) 0x10 = ack h /\ flag (flags h) 0x08 = psh h /\
  flag (flags h) 0x04 = rst h /\ flag (flags h) 0x02 = syn h /\ flag (flags h) 0x01 = fin h.
Proof. unfold flags, bit. destruct (urg h), (ack h), (psh h), (rst h), (syn h), (fin h); done. Qed.

Lemma doff_back d : 0 <= d < 16 -> Z.shiftr (u8 (Z.shiftl d 4)) 4 = d.
Proof. intros Hd. rewrite Z.shiftl_mul_pow2, Z.shiftr_div_pow2 by lia. word_lia. Qed.

Lemma tcp_header_roundtrip h p rest :
  wf h -> 5 <= doff h ->
  NetParser.reads p ((wire_before h ++ be 2 (cksum h) ++ wire_after h) ++ rest) ->
  exists p', parse p = Ok (NoError, h, p') /\ NetParser.reads p' rest.
Proof.
  intros [] Hd Hp. unfold WrappingInt32.wf, wire_before, wire_after in *. unfold parse. read_back.
  rewrite doff_back by done. rewrite (proj2 (Z.ltb_ge (doff h) 5)) by done. unfold LENGTH.
  rewrite sub64_id by word_lia.
  match goal with H : NetParser.reads ?p _ |- _ =>
    destruct (NetParser.remove_prefix_reads (doff h * 4 - 20) p _ H) as (p' & -> & Hp') end.
  { zlen. unfold zlen. rewrite length_replicate. lia. }
  cbn. rewrite (NetParser.reads_error _ _ Hp'). destruct (flags_back h) as (-> & -> & -> & -> & -> & ->).
  exists p'. split.
  - by destruct h as [? ? [] [] ? ? ? ? ? ? ? ? ? ?].
  - rewrite drop_app_ge in Hp' by (rewrite length_replicate; lia). rewrite length_replicate in Hp'.
    replace (Z.to_nat (doff h * 4 - 20) - (Z.to_nat (4 * doff h) - 20))%nat with 0%nat in Hp' by lia. done.
Qed.

(** On any buffer: the parser's error is at most [PacketTooShort]. *)
Lemma tcp_header_parse_total p :
  NetParser.sound p ->
  exists r h p', parse p = Ok (r, h, p') /\ wf h /\ NetParser.sound p'.
Proof.
  intros Hp. unfold parse, LENGTH. read_any.
  match goal with |- context [Z.shiftr ?v 4] =>
    assert (0 <= Z.shiftr v 4 < 16) as Hd by (rewrite Z.shiftr_div_pow2 by lia; word_lia);
    set (d := Z.shiftr v 4) in * end.
  match goal with |- context [(_, ?h0, _)] => assert (wf h0) as Hwf by (split; cbn; done) end.
  destruct (Z.ltb_spec d 5); [by eauto 10|]. read_any. case_match; eauto 10.
Qed.

End TCPHeader.

Module TCPSegment.

Record t : Type := mk { _header : TCPHeader.t; _payload : Buffer.t }.

#[global] Instance eta_t : Eta t := fun s => mk (_header s) (_payload s).

#[global] Instance t_eq_dec : EqDecision t.
Proof. solve_decision. Defined.

Definition init : t := mk TCPHeader.init Buffer.empty.
Definition header (s : t) : TCPHeader.t := _header s.
Definition payload (s : t) : Buffer.t := _payload s.

Definition parse (buffer : Buffer.t) (datagram_layer_checksum : Z) (s : t) : result (ParseResult * t) :=
  let check := InternetChecksum.init datagram_layer_checksum in
  let check := InternetChecksum.add (Buffer.str buffer) check in
  v ← InternetChecksum.value check;
  if negb (v =? 0) then Ok (BadChecksum, s) else
  let p := NetParser.init buffer in
  '(_, h, p) ← TCPHeader.parse p;
  let s := s <| _header := h |> in
  let s := s <| _payload := NetParser.buffer p |> in
  Ok (NetParser.get_error p, s).

Definition length_in_sequence_space (s : t) : Z :=
  zlen (Buffer.str (payload s)) ⊕ (if TCPHeader.syn (header s) then 1 else 0)
    ⊕ (if TCPHeader.fin (header s) then 1 else 0).

Definition serialize (datagram_layer_checksum : Z) (s : t) : result BufferList.t :=
  let header_out := (_header s) <| TCPHeader.cksum := 0 |> in
  let check := InternetChecksum.init datagram_layer_checksum in
  ser ← TCPHeader.serialize header_out;
  let check := InternetChecksum.add ser check in
  let check := InternetChecksum.add (Buffer.str (_payload s)) check in
  v ← InternetChecksum.value check;
  let header_out := header_out <| TCPHeader.cksum := v |> in
  let ret := BufferList.empty in
  ser ← TCPHeader.serialize header_out;
  let ret := BufferList.append ret (BufferList.of_string ser) in
  let ret := BufferList.append ret (BufferList.of_buffer (_payload s)) in
  Ok ret.

#[global] Arguments parse : simpl never.
#[global] Arguments serialize : simpl never.

Record wf (s : t) : Prop := {
  wf_header : TCPHeader.wf (_header s);
  wf_payload : Buffer.wf (_payload s)
}.

(** The sum of the segment's words, over the pseudo-header's, fits in 32 bits;
    so for every segment that an IPv4 datagram can carry. *)
Definition fits (datagram_layer_checksum : Z) (s : t) : Prop :=
  0 <= datagram_layer_checksum /\
  datagram_layer_checksum + 65280 * (4 * TCPHeader.doff (_header s) + zlen (Buffer.str (_payload s))) < 2 ^ 32.

(** What [serialize] puts on the wire: the header with the checksum filled in,
    then the payload; and the whole of it verifies. *)
Lemma tcp_segment_wire ck s :
  wf s -> 5 <= TCPHeader.doff (_header s) -> fits ck s ->
  exists l v, serialize ck s = Ok l /\ is_u16 v /\
    BufferList.concatenate l =
      (TCPHeader.wire_before (_header s) ++ be 2 v ++ TCPHeader.wire_after (_header s)) ++ Buffer.str (_payload s) /\
    InternetChecksum.value (InternetChecksum.add (BufferList.concatenate l) (InternetChecksum.init ck)) = Ok 0.
Proof.
  intros [Hh Hp] Hd [Hck Hfit]. unfold serialize.
  rewrite TCPHeader.tcp_header_wire_cksum by done. cbn [mbind result_bind].
  pose proof (TCPHeader.tcp_header_wire_zlen (_header s) Hd) as Hz. rewrite !zlen_app, zlen_be in Hz.
  set (a := TCPHeader.wire_before (_header s)) in *. set (b := TCPHeader.wire_after (_header s)) in *.
  rewrite <- InternetChecksum.add_app.
  set (pl := Buffer.str (_payload s)) in *. pose proof (Buffer.str_size _ Hp) as Hpl. fold pl in Hpl.
  assert (forall v, InternetChecksum.fits_sum ck ((a ++ be 2 v ++ b) ++ pl)) as Hf.
  { intros v. unfold InternetChecksum.fits_sum. rewrite !zlen_app, zlen_be. lia. }
  destruct (InternetChecksum.value_ok _ _ (Hf 0)) as (v & Hv & Hr). rewrite Hv. cbn [mbind result_bind].
  rewrite TCPHeader.tcp_header_wire_cksum by done. cbn [mbind result_bind].
  change (TCPHeader.wire_before _) with a. change (TCPHeader.wire_after _) with b.
  eexists _, v. split; [done|]. split; [done|].
  assert (forall x, zlen (a ++ be 2 x ++ b) = 4 * TCPHeader.doff (_header s)) as Hzl
    by (intros x; rewrite !zlen_app, zlen_be; lia).
  rewrite !BufferList.concatenate_append, BufferList.concatenate_of_buffer.
  rewrite BufferList.concatenate_of_string by (rewrite Hzl; destruct Hh; word_lia).
  change (BufferList.concatenate BufferList.empty) with (@nil byte). rewrite app_nil_l. fold pl.
  split; [done|]. rewrite <- !app_assoc in *.
  eapply InternetChecksum.value_fill; [apply TCPHeader.tcp_header_before_even| |exact Hv].
  specialize (Hf 0). by rewrite <- !app_assoc in Hf.
Qed.

(** A segment is read back from any buffer that holds its wire format. *)
Lemma tcp_segment_read_back ck s s0 :
  wf s -> 5 <= TCPHeader.doff (_header s) -> fits ck s ->
  exists l v, serialize ck s = Ok l /\ is_u64 (zlen (BufferList.concatenate l)) /\
    zlen (BufferList.concatenate l) = 4 * TCPHeader.doff (_header s) + zlen (Buffer.str (_payload s)) /\
    forall b, Buffer.wf b -> Buffer.str b = BufferList.concatenate l ->
    exists s', parse b ck s0 = Ok (NoError, s') /\
      _header s' = (_header s) <| TCPHeader.cksum := v |> /\ Buffer.str (_payload s') = Buffer.str (_payload s).
Proof.
  intros Hwf Hd Hfit. destruct (tcp_segment_wire ck s Hwf Hd Hfit) as (l & v & Hs & Hv & Hc & Hk).
  destruct Hwf as [Hh Hp]. exists l, v. split; [done|].
  assert (zlen (BufferList.concatenate l) = 4 * TCPHeader.doff (_header s) + zlen (Buffer.str (_payload s))) as Hl.
  { pose proof (TCPHeader.tcp_header_wire_zlen (_header s) Hd) as Hz. rewrite Hc, !zlen_app, zlen_be in *. lia. }
  split.
  { rewrite Hl. pose proof (zlen_nonneg (Buffer.str (_payload s))). destruct Hfit, Hh. word_lia. }
  split; [done|]. intros b Hb Hstr. pose (h := (_header s) <| TCPHeader.cksum := v |>).
  assert (TCPHeader.wf h) as Hwh by (destruct Hh; split; done).
  pose proof (NetParser.init_reads _ Hb) as Hr. rewrite Hstr, Hc in Hr.
  destruct (TCPHeader.tcp_header_roundtrip h _ _ Hwh Hd Hr) as (p' & Hpr & Hb' & He & Hst).
  unfold parse. rewrite Hstr, Hk. cbn [mbind result_bind negb Z.eqb].
  rewrite Hpr. cbn. unfold NetParser.get_error. rewrite He. eexists. split; [done|]. split; [done|exact Hst].
Qed.

(** C24: serialising a segment and parsing the bytes with the same pseudo-header
    checksum succeeds, and gives back every header field (the checksum apart,
    which is the one computed) and the payload. *)
Theorem tcp_segment_roundtrip ck s s0 :
  wf s -> 5 <= TCPHeader.doff (_header s) -> fits ck s ->
  exists l s' v, serialize ck s = Ok l /\
    parse (Buffer.of_string (BufferList.concatenate l)) ck s0 = Ok (NoError, s') /\
    _header s' = (_header s) <| TCPHeader.cksum := v |> /\
    Buffer.str (_payload s') = Buffer.str (_payload s).
Proof.
  intros Hwf Hd Hfit. destruct (tcp_segment_read_back ck s s0 Hwf Hd Hfit) as (l & v & Hs & Hz & _ & Hp).
  destruct (Hp (Buffer.of_string (BufferList.concatenate l))) as (s' & H1 & H2 & H3);
    [by apply Buffer.of_string_wf|by apply Buffer.str_of_string|]. by exists l, s', v.
Qed.

Definition sample : t :=
  mk (TCPHeader.init <| TCPHeader.syn := true |> <| TCPHeader.doff := 6 |> <| TCPHeader.sport := 80 |>)
     (Buffer.of_string [x61; x62; x63]).

Lemma sample_wf : wf sample.
Proof. split; [split; vm_compute; split; congruence|by vm_compute]. Qed.

Lemma tcp_segment_roundtrip_witness :
  exists l s' v, serialize 7 sample = Ok l /\
    parse (Buffer.of_string (BufferList.concatenate l)) 7 init = Ok (NoError, s') /\
    _header s' = (_header sample) <| TCPHeader.cksum := v |> /\
    Buffer.str (_payload s') = [x61; x62; x63].
Proof.
  apply (tcp_segment_roundtrip 7 sample init); [apply sample_wf|vm_compute; discriminate|].
  split; [lia|vm_compute; reflexivity].
Defined.

(** Every buffer is parsed. *)
Lemma tcp_segment_parse_any buffer ck s :
  Buffer.wf buffer -> is_u32 ck ->
  exists r s', parse buffer ck s = Ok (r, s') /\
    ((r = BadChecksum /\ s' = s) \/ ((r = NoError \/ r = PacketTooShort) /\ wf s')).
Proof.
  intros Hb Hck. unfold parse. rewrite InternetChecksum.value_eq.
  2:{ unfold InternetChecksum.init. rewrite InternetChecksum.add_eq by done. apply u32_range. }
  cbn [mbind result_bind]. case_match; [by eauto 10|].
  destruct (TCPHeader.tcp_header_parse_total (NetParser.init buffer)) as (r & h & p & Hp & Hh & Hwp & He).
  { by apply NetParser.init_sound. }
  rewrite Hp. cbn. do 2 eexists. split; [done|]. right. split; [done|by split].
Qed.

(** C25: error detection: if a segment is accepted, the same bytes with exactly
    one of them altered are refused with [BadChecksum]. *)
Theorem tcp_segment_corruption a x y b ck s s1 :
  InternetChecksum.fits_sum ck (a ++ [x] ++ b) -> zlen (a ++ [x] ++ b) < 2 ^ 64 -> x <> y ->
  parse (Buffer.of_string (a ++ [x] ++ b)) ck s = Ok (NoError, s1) ->
  parse (Buffer.of_string (a ++ [y] ++ b)) ck s = Ok (BadChecksum, s).
Proof.
  intros Hf Hz Hxy. assert (InternetChecksum.fits_sum ck (a ++ [y] ++ b)) as Hf'
    by (unfold InternetChecksum.fits_sum in *; zlen; lia).
  pose proof (zlen_nonneg (a ++ [x] ++ b)). pose proof (zlen_nonneg (a ++ [y] ++ b)).
  unfold parse. rewrite !Buffer.str_of_string by (unfold is_u64; zlen; lia).
  destruct (InternetChecksum.value_ok _ _ Hf) as (v & Hv & _). rewrite Hv. cbn [mbind result_bind].
  destruct (Z.eqb_spec v 0) as [->|]; [|done]. intros _.
  destruct (InternetChecksum.value_ok _ _ Hf') as (w & Hw & _). rewrite Hw. cbn [mbind result_bind].
  destruct (Z.eqb_spec w 0); [|done].
  by destruct (InternetChecksum.value_detects ck a x y b w Hf Hxy Hv Hw).
Qed.

Lemma tcp_segment_corruption_witness :
  let wire := replicate 12 x00 ++ [x50] ++ [x00; x00; x00; xaf; xff; x00; x00] in
  exists s1, parse (Buffer.of_string wire) 0 init = Ok (NoError, s1) /\
    parse (Buffer.of_string (replicate 12 x00 ++ [x51] ++ [x00; x00; x00; xaf; xff; x00; x00])) 0 init
      = Ok (BadChecksum, init).
Proof.
  eexists. split; [vm_compute; reflexivity|].
  eapply (tcp_segment_corruption _ x50); [split; vm_compute; [discriminate|reflexivity]|
    vm_compute; reflexivity|discriminate|vm_compute; reflexivity].
Defined.

(** [TCPSegment::parse] does not look at the value that the header's
    [parse] returns: a segment whose data offset is below the minimum of five
    words is [HeaderTooShort] for the header and [NoError] for the caller. *)
Theorem tcp_segment_short_doff :
  let wire := replicate 16 x00 ++ [xff; xff; x00; x00] in
  exists h p s, TCPHeader.parse (NetParser.init (Buffer.of_string wire)) = Ok (HeaderTooShort, h, p) /\
    parse (Buffer.of_string wire) 0 init = Ok (NoError, s) /\ TCPHeader.doff (_header s) = 0.
Proof. do 3 eexists. split; [vm_compute; reflexivity|]. split; vm_compute; reflexivity. Qed.

End TCPSegment.
