(* ===== verification/ipv4_datagram.v ===== *)
(** * [libsponge/tcp_helpers/ipv4_header.*], [libsponge/tcp_helpers/ipv4_datagram.*]

    The IPv4 header and datagram.  The theorems: what is serialised parses back
    with a header the header's own checks accept, parsing is total, and the
    verdict of the header's checks does not reach the datagram's caller. *)

From S2P Require Import Prelude.
From S2P Require Import buffer.
From S2P Require Import parser.
From S2P Require Import util.

Module IPv4Header.

Record t : Type := mk {
  ver : Z;
  hlen : Z;
  tos : Z;
  len : Z;
  id : Z;
  df : bool;
  mf : bool;
  offset : Z;
  ttl : Z;
  proto : Z;
  cksum : Z;
  src : Z;
  dst : Z
}.

#[global] Instance eta_t : Eta t := fun h =>
  mk (ver h) (hlen h) (tos h) (len h) (id h) (df h) (mf h) (offset h) (ttl h) (proto h) (cksum h)
     (src h) (dst h).

#[global] Instance t_eq_dec : EqDecision t.
Proof. solve_decision. Defined.

Definition LENGTH : Z := 20.
Definition DEFAULT_TTL : Z := 128.
Definition PROTO_TCP : Z := 6.

Definition init : t := mk 4 (LENGTH / 4) 0 0 0 true false 0 DEFAULT_TTL PROTO_TCP 0 0 0.

(** [h] is the header object before the call. *)
Definition parse (h : t) (p : NetParser.t) : result (ParseResult * t * NetParser.t) :=
  let original_serialized_version := NetParser.buffer p in
  let data_size := Buffer.size (NetParser.buffer p) in
  if data_size <? LENGTH then Ok (PacketTooShort, h, p) else
  '(first_byte, p) ← NetParser.u8 p;
  let ver := Z.shiftr first_byte 4 in
  let hlen := Z.land first_byte 0x0f in
  '(tos, p) ← NetParser.u8 p;
  '(len, p) ← NetParser.u16 p;
  '(id, p) ← NetParser.u16 p;
  '(fo_val, p) ← NetParser.u16 p;
  let df := negb (Z.land fo_val 0x4000 =? 0) in
  let mf := negb (Z.land fo_val 0x2000 =? 0) in
  let offset := Z.land fo_val 0x1fff in
  '(ttl, p) ← NetParser.u8 p;
  '(proto, p) ← NetParser.u8 p;
  '(cksum, p) ← NetParser.u16 p;
  '(src, p) ← NetParser.u32 p;
  '(dst, p) ← NetParser.u32 p;
  let h := mk ver hlen tos len id df mf offset ttl proto cksum src dst in
  if data_size <? 4 * hlen then Ok (PacketTooShort, h, p) else
  if negb (ver =? 4) then Ok (WrongIPVersion, h, p) else
  if hlen <? 5 then Ok (HeaderTooShort, h, p) else
  if negb (data_size =? len) then Ok (TruncatedPacket, h, p) else
  p ← NetParser.remove_prefix (hlen * 4 ⊖ LENGTH) p;
  if NetParser.error p then Ok (NetParser.get_error p, h, p) else
  let check := InternetChecksum.init 0 in
  let check := InternetChecksum.add
                 (take (Z.to_nat (4 * hlen)) (Buffer.str original_serialized_version)) check in
  v ← InternetChecksum.value check;
  if negb (v =? 0) then Ok (BadChecksum, h, p) else Ok (NoError, h, p).

Definition first_byte (h : t) : Z := u8 (Z.lor (Z.shiftl (ver h) 4) (Z.land (hlen h) 0xf)).
Definition fo_val (h : t) : Z :=
  u16 (Z.lor (Z.lor (if df h then 0x4000 else 0) (if mf h then 0x2000 else 0)) (Z.land (offset h) 0x1fff)).

Definition serialize (h : t) : result bytes :=
  if negb (ver h =? 4) then Throw (RuntimeError "wrong IP version") else
  if 4 * hlen h <? LENGTH then Throw (RuntimeError "IP header too short") else
  let ret := NetUnparser.u8 [] (first_byte h) in
  let ret := NetUnparser.u8 ret (tos h) in
  let ret := NetUnparser.u16 ret (len h) in
  let ret := NetUnparser.u16 ret (id h) in
  let ret := NetUnparser.u16 ret (fo_val h) in
  let ret := NetUnparser.u8 ret (ttl h) in
  let ret := NetUnparser.u8 ret (proto h) in
  let ret := NetUnparser.u16 ret (cksum h) in
  let ret := NetUnparser.u32 ret (src h) in
  let ret := NetUnparser.u32 ret (dst h) in
  Ok (resize ret (4 * hlen h)).

Definition payload_length (h : t) : Z := u16 (len h - 4 * hlen h).

Definition pseudo_cksum (h : t) : Z :=
  let pcksum := u32 (Z.shiftr (src h) 16 + Z.land (src h) 0xffff) in
  let pcksum := u32 (pcksum + (Z.shiftr (dst h) 16 + Z.land (dst h) 0xffff)) in
  let pcksum := u32 (pcksum + proto h) in
  u32 (pcksum + payload_length h).

#[global] Arguments parse : simpl never.
#[global] Arguments serialize : simpl never.

(** The ranges of the fields as they are on the wire. *)
Record wf (h : t) : Prop := {
  wf_ver : 0 <= ver h < 16;
  wf_hlen : 0 <= hlen h < 16;
  wf_tos : is_u8 (tos h);
  wf_len : is_u16 (len h);
  wf_id : is_u16 (id h);
  wf_offset : 0 <= offset h < 2 ^ 13;
  wf_ttl : is_u8 (ttl h);
  wf_proto : is_u8 (proto h);
  wf_cksum : is_u16 (cksum h);
  wf_src : is_u32 (src h);
  wf_dst : is_u32 (dst h)
}.

Definition wire_before (h : t) : bytes :=
  be 1 (first_byte h) ++ be 1 (tos h) ++ be 2 (len h) ++ be 2 (id h) ++ be 2 (fo_val h) ++
  be 1 (ttl h) ++ be 1 (proto h).
Definition wire_after (h : t) : bytes :=
  be 4 (src h) ++ be 4 (dst h) ++ replicate (Z.to_nat (4 * hlen h) - 20) x00.

Lemma ipv4_header_wire h :
  ver h = 4 -> 5 <= hlen h -> serialize h = Ok (wire_before h ++ be 2 (cksum h) ++ wire_after h).
Proof.
  intros Hv Hd. unfold serialize, LENGTH. rewrite Hv, (proj2 (Z.ltb_ge _ _)) by lia. cbn [negb Z.eqb Pos.eqb].
  rewrite !NetUnparser.u32_eq, !NetUnparser.u16_eq, !NetUnparser.u8_eq.
  rewrite app_nil_l, resize_grow by (zlen; lia). rewrite !length_app, !length_be. cbn [Nat.add].
  unfold wire_before, wire_after. by rewrite <- !app_assoc.
Qed.

Lemma ipv4_header_wire_cksum h v :
  ver h = 4 -> 5 <= hlen h -> serialize (h <| cksum := v |>) = Ok (wire_before h ++ be 2 v ++ wire_after h).
Proof. intros Hv Hd. by rewrite ipv4_header_wire. Qed.

Lemma ipv4_header_before_even h : Nat.even (length (wire_before h)) = true.
Proof. unfold wire_before. by rewrite !length_app, !length_be. Qed.

Lemma ipv4_header_wire_zlen h v : 5 <= hlen h -> zlen (wire_before h ++ be 2 v ++ wire_after h) = 4 * hlen h.
Proof.
  intros Hd. unfold wire_before, wire_after. zlen. unfold zlen. rewrite length_replicate. lia.
Qed.

Lemma first_byte_back h :
  ver h = 4 -> 0 <= hlen h < 16 ->
  Z.shiftr (first_byte h) 4 = 4 /\ Z.land (first_byte h) 0x0f = hlen h.
Proof.
  unfold first_byte. intros -> Hl. generalize dependent (hlen h). intros l Hl.
  assert (l = 0 \/ l = 1 \/ l = 2 \/ l = 3 \/ l = 4 \/ l = 5 \/ l = 6 \/ l = 7 \/ l = 8 \/ l = 9 \/
    l = 10 \/ l = 11 \/ l = 12 \/ l = 13 \/ l = 14 \/ l = 15) as Hc by lia.
  repeat (destruct Hc as [->|Hc]; [done|]). by subst.
Qed.

Lemma fo_val_eq h :
  fo_val h = Z.lor (Z.lor (if df h then 0x4000 else 0) (if mf h then 0x2000 else 0)) (Z.land (offset h) 0x1fff).
Proof.
  unfold fo_val, u16. rewrite <- Z.land_ones by lia.
  rewrite Z.land_lor_distr_l, <- Z.land_assoc. by destruct (df h), (mf h).
Qed.

Lemma fo_val_back h :
  0 <= offset h < 2 ^ 13 ->
  negb (Z.land (fo_val h) 0x4000 =? 0) = df h /\ negb (Z.land (fo_val h) 0x2000 =? 0) = mf h /\
  Z.land (fo_val h) 0x1fff = offset h.
Proof.
  intros Ho. rewrite fo_val_eq, !Z.land_lor_distr_l, <- !Z.land_assoc.
  change (Z.land 0x1fff 0x4000) with 0. change (Z.land 0x1fff 0x2000) with 0.
  change (Z.land 0x1fff 0x1fff) with (Z.ones 13).
  rewrite Z.land_0_r, !Z.lor_0_r, Z.land_ones, (Z.mod_small (offset h)) by lia.
  by destruct (df h), (mf h).
Qed.

Lemma first_byte_range h : is_u8 (first_byte h).
Proof. apply u8_range. Qed.
Lemma fo_val_range h : is_u16 (fo_val h).
Proof. apply u16_range. Qed.
#[export] Hint Resolve first_byte_range fo_val_range : word.

(** Reading back a serialised header whose checksum verifies, followed by the
    payload that its length announces. *)
Lemma ipv4_header_roundtrip h h0 p rest :
  wf h -> ver h = 4 -> 5 <= hlen h -> len h = 4 * hlen h + zlen rest ->
  let wire := wire_before h ++ be 2 (cksum h) ++ wire_after h in
  InternetChecksum.value (InternetChecksum.add wire (InternetChecksum.init 0)) = Ok 0 ->
  NetParser.reads p (wire ++ rest) ->
  exists p', parse h0 p = Ok (NoError, h, p') /\ NetParser.reads p' rest.
Proof.
  intros [] Hv Hd Hl wire Hck Hp. pose proof (ipv4_header_wire_zlen h (cksum h) Hd) as Hw. fold wire in Hw.
  assert (NetParser._buffer p = NetParser.buffer p) as Hbuf by done.
  pose proof Hp as (_ & _ & Hstr). rewrite Hbuf in Hstr.
  unfold parse, Buffer.size, LENGTH. rewrite Hstr, zlen_app, Hw. pose proof (zlen_nonneg rest).
  rewrite (proj2 (Z.ltb_ge _ _)) by lia.
  assert (take (Z.to_nat (4 * hlen h)) (wire ++ rest) = wire) as Htk.
  { rewrite take_app_length'; [done|]. unfold zlen in Hw. lia. }
  clear Hbuf Hstr. unfold wire, wire_before, wire_after in Hp.
  read_back. destruct (first_byte_back h Hv wf_hlen0) as [-> ->].
  destruct (fo_val_back h wf_offset0) as (-> & -> & ->).
  rewrite Htk, Hck, (proj2 (Z.ltb_ge _ (4 * hlen h))), (proj2 (Z.ltb_ge (hlen h) _)), Hl, !Z.eqb_refl by lia.
  cbn [negb]. rewrite sub64_id by word_lia.
  match goal with H : NetParser.reads ?p _ |- _ =>
    destruct (NetParser.remove_prefix_reads (hlen h * 4 - 20) p _ H) as (p' & -> & Hp') end.
  { zlen. unfold zlen. rewrite length_replicate. lia. }
  cbn. rewrite (NetParser.reads_error _ _ Hp'). exists p'. split.
  - clear -Hv Hl. destruct h. cbn in *. by subst.
  - rewrite drop_app_ge in Hp' by (rewrite length_replicate; lia). rewrite length_replicate in Hp'.
    replace (Z.to_nat (hlen h * 4 - 20) - (Z.to_nat (4 * hlen h) - 20))%nat with 0%nat in Hp' by lia. done.
Qed.

(** On any buffer the header parses to some verdict, without an exception. *)
Lemma ipv4_header_parse_total h0 p :
  wf h0 -> NetParser.sound p ->
  exists r h p', parse h0 p = Ok (r, h, p') /\ wf h /\ NetParser.sound p'.
Proof.
  intros Hh0 Hp. unfold parse. set (str0 := Buffer.str (NetParser.buffer p)). unfold LENGTH.
  destruct (Buffer.size (NetParser.buffer p) <? 20); [by eauto 10|]. read_any.
  match goal with |- context [mk ?a ?b _ _ _ _ _ ?c _ _ _ _ _] =>
    assert (0 <= a < 16 /\ 0 <= b < 16 /\ 0 <= c < 2 ^ 13) as (Ha & Hb & Hc) end.
  { change 0x0f with (Z.ones 4). change 0x1fff with (Z.ones 13). rewrite !Z.land_ones, Z.shiftr_div_pow2 by lia. word_lia. }
  match goal with |- context [(_, ?h0, _)] => assert (wf h0) as Hwf by (split; cbn; done) end.
  match type of Hb with 0 <= ?b < 16 => set (hl := b) in * end.
  repeat (case_match; [by eauto 10|]).
  rewrite InternetChecksum.value_eq.
  2:{ unfold InternetChecksum.init. rewrite InternetChecksum.add_eq by done. apply u32_range. }
  cbn [mbind result_bind]. case_match; eauto 10.
Qed.

End IPv4Header.

Module IPv4Datagram.

Record t : Type := mk { _header : IPv4Header.t; _payload : BufferList.t }.

#[global] Instance eta_t : Eta t := fun d => mk (_header d) (_payload d).

#[global] Instance t_eq_dec : EqDecision t.
Proof. solve_decision. Defined.

Definition init : t := mk IPv4Header.init BufferList.empty.
Definition header (d : t) : IPv4Header.t := _header d.
Definition payload (d : t) : BufferList.t := _payload d.

Definition parse (buffer : Buffer.t) (d : t) : result (ParseResult * t) :=
  let p := NetParser.init buffer in
  '(_, h, p) ← IPv4Header.parse (_header d) p;
  let d := d <| _header := h |> in
  let d := d <| _payload := BufferList.of_buffer (NetParser.buffer p) |> in
  if negb (BufferList.size (_payload d) =? IPv4Header.payload_length (_header d))
  then Ok (PacketTooShort, d)
  else Ok (NetParser.get_error p, d).

Definition serialize (d : t) : result BufferList.t :=
  if negb (BufferList.size (_payload d) =? IPv4Header.payload_length (_header d))
  then Throw (RuntimeError "IPv4Datagram::serialize: payload is wrong size") else
  let header_out := (_header d) <| IPv4Header.cksum := 0 |> in
  header_zero_checksum ← IPv4Header.serialize header_out;
  let check := InternetChecksum.init 0 in
  let check := InternetChecksum.add header_zero_checksum check in
  v ← InternetChecksum.value check;
  let header_out := header_out <| IPv4Header.cksum := v |> in
  let ret := BufferList.empty in
  ser ← IPv4Header.serialize header_out;
  let ret := BufferList.append ret (BufferList.of_string ser) in
  let ret := BufferList.append ret (_payload d) in
  Ok ret.

#[global] Arguments parse : simpl never.
#[global] Arguments serialize : simpl never.

(** A datagram that can be sent: version 4, a header of at least five words,
    and a length field that matches the payload. *)
Record sendable (d : t) : Prop := {
  sd_header : IPv4Header.wf (_header d);
  sd_ver : IPv4Header.ver (_header d) = 4;
  sd_hlen : 5 <= IPv4Header.hlen (_header d);
  sd_len : IPv4Header.len (_header d) =
           4 * IPv4Header.hlen (_header d) + zlen (BufferList.concatenate (_payload d))
}.

Lemma sendable_size d :
  sendable d -> BufferList.size (_payload d) = IPv4Header.payload_length (_header d).
Proof.
  intros [[] _ Hh Hl]. unfold BufferList.size, IPv4Header.payload_length, BufferList.concatenate in *.
  rewrite pieces_concat_eq in Hl. pose proof (zlen_nonneg (concat (Buffer.str <$> _payload d))).
  rewrite pieces_size_eq by word_lia. rewrite u16_id by word_lia. lia.
Qed.

Lemma ipv4_datagram_wire d :
  sendable d ->
  exists l v, serialize d = Ok l /\ is_u16 v /\
    let wire := IPv4Header.wire_before (_header d) ++ be 2 v ++ IPv4Header.wire_after (_header d) in
    BufferList.concatenate l = wire ++ BufferList.concatenate (_payload d) /\
    InternetChecksum.value (InternetChecksum.add wire (InternetChecksum.init 0)) = Ok 0.
Proof.
  intros Hsd. pose proof (sendable_size d Hsd) as Hsz. destruct Hsd as [Hh Hv Hhl Hl].
  unfold serialize. rewrite Hsz, Z.eqb_refl. cbn [negb].
  rewrite IPv4Header.ipv4_header_wire_cksum by done. cbn [mbind result_bind].
  pose proof (fun v => IPv4Header.ipv4_header_wire_zlen (_header d) v Hhl) as Hz.
  set (a := IPv4Header.wire_before (_header d)) in *. set (b := IPv4Header.wire_after (_header d)) in *.
  assert (forall v, InternetChecksum.fits_sum 0 (a ++ be 2 v ++ b)) as Hf.
  { intros v. unfold InternetChecksum.fits_sum. rewrite Hz. destruct Hh. lia. }
  destruct (InternetChecksum.value_ok _ _ (Hf 0)) as (v & Hval & Hr). rewrite Hval. cbn [mbind result_bind].
  rewrite IPv4Header.ipv4_header_wire_cksum by done. cbn [mbind result_bind].
  change (IPv4Header.wire_before _) with a. change (IPv4Header.wire_after _) with b.
  eexists _, v. split; [done|]. split; [done|]. split.
  - rewrite !BufferList.concatenate_append, BufferList.concatenate_of_string; [done|].
    rewrite Hz. destruct Hh. word_lia.
  - eapply InternetChecksum.value_fill; [apply IPv4Header.ipv4_header_before_even|apply Hf|exact Hval].
Qed.

(** A datagram is read back from any buffer that holds its wire format. *)
Lemma ipv4_datagram_read_back d d0 :
  sendable d ->
  exists l v, serialize d = Ok l /\ is_u64 (zlen (BufferList.concatenate l)) /\
    zlen (BufferList.concatenate l) = IPv4Header.len (_header d) /\
    forall b, Buffer.wf b -> Buffer.str b = BufferList.concatenate l ->
    exists p pl, parse b d0 = Ok (NoError, mk ((_header d) <| IPv4Header.cksum := v |>) [pl]) /\
      IPv4Header.parse (_header d0) (NetParser.init b) = Ok (NoError, (_header d) <| IPv4Header.cksum := v |>, p) /\
      Buffer.wf pl /\ Buffer.str pl = BufferList.concatenate (_payload d).
Proof.
  intros Hsd. destruct (ipv4_datagram_wire d Hsd) as (l & v & Hs & Hv & Hc & Hk). cbn zeta in Hc.
  pose proof (sendable_size d Hsd) as Hsz. destruct Hsd as [Hh Hver Hhl Hl].
  pose proof (zlen_nonneg (BufferList.concatenate (_payload d))). exists l, v. split; [done|].
  assert (zlen (BufferList.concatenate l) = IPv4Header.len (_header d)) as Hz.
  { rewrite Hc, zlen_app, IPv4Header.ipv4_header_wire_zlen by done. lia. }
  split; [rewrite Hz; destruct Hh; word_lia|]. split; [done|]. intros b Hb Hstr.
  pose (h := (_header d) <| IPv4Header.cksum := v |>).
  assert (IPv4Header.wf h) as Hwh by (destruct Hh; split; done).
  pose proof (NetParser.init_reads _ Hb) as Hr. rewrite Hstr, Hc in Hr.
  destruct (IPv4Header.ipv4_header_roundtrip h (_header d0) _ _ Hwh Hver Hhl Hl Hk Hr) as (p & Hpr & Hb' & He & Hst).
  exists p, (NetParser._buffer p). unfold parse. rewrite Hpr. cbn [mbind result_bind].
  assert (BufferList.size [NetParser._buffer p] = IPv4Header.payload_length h) as E.
  { change (IPv4Header.payload_length h) with (IPv4Header.payload_length (_header d)). rewrite <- Hsz.
    unfold BufferList.size, BufferList.concatenate in *. rewrite pieces_concat_eq in *.
    rewrite !pieces_size_eq; cbn; rewrite ?app_nil_r, ?Hst; destruct Hh; word_lia. }
  cbn. unfold NetParser.buffer, BufferList.of_buffer. rewrite E, Z.eqb_refl. cbn. unfold NetParser.get_error. rewrite He.
  done.
Qed.

(** C26: a sendable datagram serialises without an exception, and parsing the
    bytes gives [NoError], the same header fields (with the checksum that was
    computed) and the same payload; the header's own [parse], checksum test
    included, accepts it too. *)
Theorem ipv4_datagram_roundtrip d d0 :
  sendable d ->
  exists l d' v p,
    serialize d = Ok l /\
    parse (Buffer.of_string (BufferList.concatenate l)) d0 = Ok (NoError, d') /\
    IPv4Header.parse (_header d0) (NetParser.init (Buffer.of_string (BufferList.concatenate l)))
      = Ok (NoError, _header d', p) /\
    _header d' = (_header d) <| IPv4Header.cksum := v |> /\
    BufferList.concatenate (_payload d') = BufferList.concatenate (_payload d).
Proof.
  intros Hd. destruct (ipv4_datagram_read_back d d0 Hd) as (l & v & Hs & Hz & _ & Hp).
  destruct (Hp (Buffer.of_string (BufferList.concatenate l))) as (p & pl & H1 & H2 & _ & H3);
    [by apply Buffer.of_string_wf|by apply Buffer.str_of_string|]. eexists l, _, v, p.
  split; [done|]. split; [exact H1|]. split; [exact H2|]. split; [done|exact H3].
Qed.

Definition sample : t :=
  mk (IPv4Header.init <| IPv4Header.len := 27 |> <| IPv4Header.hlen := 6 |> <| IPv4Header.src := 0xc0a80001 |>)
     [Buffer.of_string [x61; x62]; Buffer.of_string [x63]].

Lemma ipv4_datagram_roundtrip_witness :
  exists l d', serialize sample = Ok l /\
    parse (Buffer.of_string (BufferList.concatenate l)) init = Ok (NoError, d') /\
    BufferList.concatenate (_payload d') = [x61; x62; x63].
Proof.
  destruct (ipv4_datagram_roundtrip sample init) as (l & d' & v & p & H1 & H2 & _ & _ & H3).
  - split; [split; vm_compute; split; congruence|vm_compute; reflexivity|vm_compute; congruence|vm_compute; reflexivity].
  - exists l, d'. split; [exact H1|]. split; [exact H2|exact H3].
Defined.

(** Parsing is total: on any buffer, [IPv4Datagram::parse] returns [NoError] or
    [PacketTooShort], and [NoError] only with a payload of the length that the
    header announces. *)
Lemma ipv4_datagram_parse_any buffer d :
  Buffer.wf buffer -> IPv4Header.wf (_header d) ->
  exists r d', parse buffer d = Ok (r, d') /\ (r = NoError \/ r = PacketTooShort) /\
    IPv4Header.wf (_header d') /\
    (r = NoError -> BufferList.size (_payload d') = IPv4Header.payload_length (_header d')).
Proof.
  intros Hb Hd. unfold parse.
  destruct (IPv4Header.ipv4_header_parse_total (_header d) (NetParser.init buffer)) as (r & h & p & -> & Hh & Hwp & He);
    [done|by apply NetParser.init_sound|]. cbn.
  destruct (Z.eqb_spec (BufferList.size (BufferList.of_buffer (NetParser.buffer p))) (IPv4Header.payload_length h));
    cbn; do 2 eexists; (split; [done|]); cbn; (split; [by auto|]); (split; [done|]); by intros ?.
Qed.

Lemma ipv4_datagram_parse_ok buffer d :
  Buffer.wf buffer -> IPv4Header.wf (_header d) -> exists r d', parse buffer d = Ok (r, d') /\ BufferList.wf (_payload d').
Proof.
  intros Hb Hd. unfold parse.
  destruct (IPv4Header.ipv4_header_parse_total (_header d) (NetParser.init buffer)) as (r & h & p & -> & Hh & Hwp & He);
    [done|by apply NetParser.init_sound|]. cbn [mbind result_bind].
  case_match; do 2 eexists; (split; [done|]); apply Forall_singleton; apply Hwp.
Qed.

Lemma ipv4_init_wf : IPv4Header.wf (_header init).
Proof. split; vm_compute; split; congruence. Qed.

(** The bytes of a 20-byte datagram with the given first byte and checksum. *)
Definition bare_datagram (first hi lo : byte) : bytes :=
  [first; x00; x00; x14; x00; x00; x40; x00; x80; x06; hi; lo] ++ replicate 8 x00.

(** [IPv4Datagram::parse] does not look at the value that the header's
    [parse] returns: a datagram with a wrong checksum, and one of IP version 6,
    are [NoError] for the caller. *)
Theorem ipv4_datagram_unchecked :
  (exists h p d, IPv4Header.parse IPv4Header.init (NetParser.init (Buffer.of_string (bare_datagram x45 x00 x00)))
                   = Ok (BadChecksum, h, p) /\
     parse (Buffer.of_string (bare_datagram x45 x00 x00)) init = Ok (NoError, d)) /\
  (exists h p d, IPv4Header.parse IPv4Header.init (NetParser.init (Buffer.of_string (bare_datagram x65 x00 x00)))
                   = Ok (WrongIPVersion, h, p) /\
     parse (Buffer.of_string (bare_datagram x65 x00 x00)) init = Ok (NoError, d)).
Proof. split; do 3 eexists; split; vm_compute; reflexivity. Qed.

End IPv4Datagram.
