(* ===== verification/ethernet_frame.v ===== *)
(** * [libsponge/tcp_helpers/ethernet_header.*], [ethernet_frame.*], [arp_message.*]

    Ethernet headers and frames, and ARP messages.  An [EthernetAddress] is an
    array of six bytes. *)

From S2P Require Import Prelude.
From S2P Require Import buffer.
From S2P Require Import parser.

Definition EthernetAddress : Type := bytes.

Definition ETHERNET_BROADCAST : EthernetAddress := [xff; xff; xff; xff; xff; xff].

(** [std::array]'s zero initialisation. *)
Definition zero_address : EthernetAddress := replicate 6 x00.

(** The loops [for (auto &byte : address) byte = p.u8()] and
    [for (auto &byte : address) NetUnparser::u8(ret, byte)]. *)
Fixpoint read_address (n : nat) (p : NetParser.t) : result (EthernetAddress * NetParser.t) :=
  match n with
  | O => Ok ([], p)
  | S n =>
      '(byte, p) ← NetParser.u8 p;
      '(rest, p) ← read_address n p;
      Ok (byte_of byte :: rest, p)
  end.

Definition write_address (ret : bytes) (address : EthernetAddress) : bytes :=
  foldl (fun ret byte => NetUnparser.u8 ret (byte_val byte)) ret address.

Lemma write_address_eq ret a : write_address ret a = ret ++ a.
Proof.
  unfold write_address. revert ret. induction a as [|b a IH]; intros ret; cbn; [by rewrite app_nil_r|].
  rewrite IH, NetUnparser.u8_eq, <- app_assoc. f_equal. cbn. f_equal.
  rewrite Z.div_1_r. apply byte_of_val.
Qed.

Lemma read_address_reads a p rest :
  NetParser.reads p (a ++ rest) ->
  exists p', read_address (length a) p = Ok (a, p') /\ NetParser.reads p' rest.
Proof.
  revert p. induction a as [|b a IH]; intros p Hp; [by eauto|]. cbn [length read_address].
  change ((b :: a) ++ rest) with ([b] ++ (a ++ rest)) in Hp.
  destruct (NetParser.parse_int_reads 1 p [b] _ Hp eq_refl) as (p1 & E & H1).
  change (NetParser.u8 p) with (NetParser._parse_int 1 p). rewrite E. cbn [mbind result_bind].
  destruct (IH p1 H1) as (p2 & -> & H2). cbn [mbind result_bind]. exists p2. split; [|done].
  assert (be_val [b] = byte_val b) as -> by (unfold be_val; cbn [foldl]; lia). by rewrite byte_of_val.
Qed.

Lemma read_address_total n p :
  NetParser.sound p -> exists a p', read_address n p = Ok (a, p') /\ length a = n /\ NetParser.sound p'.
Proof.
  revert p. induction n as [|n IH]; intros p Hp; [by eauto|]. cbn [read_address]. read_any.
  match goal with H : NetParser.sound ?p |- _ => destruct (IH p H) as (a & p2 & -> & Hl & Hs) end.
  cbn. do 2 eexists. split; [done|]. cbn. auto.
Qed.

Module EthernetHeader.

Record t : Type := mk { dst : EthernetAddress; src : EthernetAddress; type : Z }.

#[global] Instance eta_t : Eta t := fun h => mk (dst h) (src h) (type h).

#[global] Instance t_eq_dec : EqDecision t.
Proof. solve_decision. Defined.

Definition LENGTH : Z := 14.
Definition TYPE_IPv4 : Z := 0x800.
Definition TYPE_ARP : Z := 0x806.

(** [EthernetHeader _header{}]. *)
Definition init : t := mk zero_address zero_address 0.

Definition parse (h : t) (p : NetParser.t) : result (ParseResult * t * NetParser.t) :=
  if Buffer.size (NetParser.buffer p) <? LENGTH then Ok (PacketTooShort, h, p) else
  '(dst, p) ← read_address 6 p;
  '(src, p) ← read_address 6 p;
  '(type, p) ← NetParser.u16 p;
  Ok (NetParser.get_error p, mk dst src type, p).

Definition serialize (h : t) : bytes :=
  let ret := write_address [] (dst h) in
  let ret := write_address ret (src h) in
  NetUnparser.u16 ret (type h).

#[global] Arguments parse : simpl never.
#[global] Arguments serialize : simpl never.

Record wf (h : t) : Prop := {
  wf_dst : length (dst h) = 6%nat;
  wf_src : length (src h) = 6%nat;
  wf_type : is_u16 (type h)
}.

Lemma eth_header_wire h : serialize h = dst h ++ src h ++ be 2 (type h).
Proof. unfold serialize. by rewrite NetUnparser.u16_eq, !write_address_eq, <- app_assoc. Qed.

Lemma eth_header_roundtrip h h0 p rest :
  wf h -> NetParser.reads p (serialize h ++ rest) ->
  exists p', parse h0 p = Ok (NoError, h, p') /\ NetParser.reads p' rest.
Proof.
  intros [Hd Hs Ht] Hp. rewrite eth_header_wire, <- !app_assoc in Hp. pose proof Hp as (_ & _ & Hstr).
  unfold parse, Buffer.size, NetParser.buffer, LENGTH. rewrite Hstr, (proj2 (Z.ltb_ge _ _)).
  2:{ zlen. unfold zlen. lia. }
  destruct (read_address_reads _ _ _ Hp) as (p1 & E1 & H1). rewrite Hd in E1. rewrite E1. cbn [mbind result_bind].
  destruct (read_address_reads _ _ _ H1) as (p2 & E2 & H2). rewrite Hs in E2. rewrite E2. cbn [mbind result_bind].
  read_back. eexists. split; [|done].
  match goal with H : NetParser.reads ?q rest |- _ => destruct H as (_ & He & _) end.
  unfold NetParser.get_error. rewrite He. by destruct h.
Qed.

Lemma eth_header_parse_total h0 p :
  wf h0 -> NetParser.sound p ->
  exists r h p', parse h0 p = Ok (r, h, p') /\ wf h /\ NetParser.sound p'.
Proof.
  intros Hh Hp. unfold parse. case_match; [by eauto 10|].
  destruct (read_address_total 6 p Hp) as (a1 & p1 & -> & L1 & S1). cbn [mbind result_bind].
  destruct (read_address_total 6 p1 S1) as (a2 & p2 & -> & L2 & S2). cbn [mbind result_bind].
  read_any. do 3 eexists. split; [done|]. split; [by split|done].
Qed.

End EthernetHeader.

Module EthernetFrame.

Record t : Type := mk { _header : EthernetHeader.t; _payload : BufferList.t }.

#[global] Instance eta_t : Eta t := fun f => mk (_header f) (_payload f).

#[global] Instance t_eq_dec : EqDecision t.
Proof. solve_decision. Defined.

Definition init : t := mk EthernetHeader.init BufferList.empty.
Definition header (f : t) : EthernetHeader.t := _header f.
Definition payload (f : t) : BufferList.t := _payload f.

Definition parse (buffer : Buffer.t) (f : t) : result (ParseResult * t) :=
  let p := NetParser.init buffer in
  '(_, h, p) ← EthernetHeader.parse (_header f) p;
  let f := f <| _header := h |> in
  let f := f <| _payload := BufferList.of_buffer (NetParser.buffer p) |> in
  Ok (NetParser.get_error p, f).

Definition serialize (f : t) : BufferList.t :=
  let ret := BufferList.empty in
  let ret := BufferList.append ret (BufferList.of_string (EthernetHeader.serialize (_header f))) in
  BufferList.append ret (_payload f).

#[global] Arguments parse : simpl never.
#[global] Arguments serialize : simpl never.

(** A frame is read back from any buffer that holds its wire format. *)
Lemma ethernet_frame_read_back f f0 :
  EthernetHeader.wf (_header f) -> is_u64 (14 + zlen (BufferList.concatenate (_payload f))) ->
  is_u64 (zlen (BufferList.concatenate (serialize f))) /\
  forall b, Buffer.wf b -> Buffer.str b = BufferList.concatenate (serialize f) ->
  exists pl, parse b f0 = Ok (NoError, mk (_header f) [pl]) /\ Buffer.wf pl /\
    Buffer.str pl = BufferList.concatenate (_payload f).
Proof.
  intros Hh Hz.
  assert (zlen (EthernetHeader.serialize (_header f)) = 14) as Hl.
  { rewrite EthernetHeader.eth_header_wire. destruct Hh. zlen. unfold zlen. lia. }
  assert (BufferList.concatenate (serialize f) =
    EthernetHeader.serialize (_header f) ++ BufferList.concatenate (_payload f)) as Hc.
  { unfold serialize. rewrite !BufferList.concatenate_append, BufferList.concatenate_of_string; [done|].
    rewrite Hl. word_lia. }
  split; [rewrite Hc, zlen_app, Hl; done|]. intros b Hb Hstr.
  pose proof (NetParser.init_reads _ Hb) as Hr. rewrite Hstr, Hc in Hr.
  destruct (EthernetHeader.eth_header_roundtrip _ (_header f0) _ _ Hh Hr) as (p & Hpr & Hb' & He & Hst).
  exists (NetParser._buffer p). unfold parse. rewrite Hpr. cbn. unfold NetParser.get_error. rewrite He. done.
Qed.

(** A frame parses back from its serialisation, header and payload. *)
Theorem ethernet_frame_roundtrip f f0 :
  EthernetHeader.wf (_header f) -> is_u64 (14 + zlen (BufferList.concatenate (_payload f))) ->
  exists f', parse (Buffer.of_string (BufferList.concatenate (serialize f))) f0 = Ok (NoError, f') /\
    _header f' = _header f /\
    BufferList.concatenate (_payload f') = BufferList.concatenate (_payload f).
Proof.
  intros Hh Hz. destruct (ethernet_frame_read_back f f0 Hh Hz) as [Hu Hp].
  destruct (Hp (Buffer.of_string (BufferList.concatenate (serialize f)))) as (pl & H1 & _ & H2);
    [by apply Buffer.of_string_wf|by apply Buffer.str_of_string|].
  eexists. split; [exact H1|]. split; [done|exact H2].
Qed.

Lemma ethernet_frame_parse_ok buffer f :
  Buffer.wf buffer -> EthernetHeader.wf (_header f) -> exists r f', parse buffer f = Ok (r, f') /\ BufferList.wf (_payload f').
Proof.
  intros Hb Hf. unfold parse.
  destruct (EthernetHeader.eth_header_parse_total (_header f) (NetParser.init buffer)) as (r & h & p & -> & Hh & Hp);
    [done|by apply NetParser.init_sound|]. cbn. do 2 eexists. split; [done|]. apply Forall_singleton, Hp.
Qed.

(** [EthernetFrame::parse] does not look at the value that the header's
    [parse] returns: a buffer shorter than an Ethernet header is
    [PacketTooShort] for the header and [NoError] for the caller, who sees the
    old header and the whole buffer as the payload. *)
Theorem ethernet_frame_short_accepted buffer f :
  Buffer.size buffer < EthernetHeader.LENGTH ->
  EthernetHeader.parse (_header f) (NetParser.init buffer) = Ok (PacketTooShort, _header f, NetParser.init buffer) /\
  parse buffer f = Ok (NoError, mk (_header f) [buffer]).
Proof.
  intros Hs. unfold parse, EthernetHeader.parse. cbn [NetParser.buffer NetParser._buffer NetParser.init].
  rewrite (proj2 (Z.ltb_lt _ _)) by done. done.
Qed.

Lemma ethernet_frame_short_accepted_witness :
  parse (Buffer.of_string [x61]) init = Ok (NoError, mk EthernetHeader.init [Buffer.of_string [x61]]).
Proof. apply (ethernet_frame_short_accepted (Buffer.of_string [x61]) init). vm_compute. reflexivity. Defined.

End EthernetFrame.

Module ARPMessage.

Record t : Type := mk {
  hardware_type : Z;
  protocol_type : Z;
  hardware_address_size : Z;
  protocol_address_size : Z;
  opcode : Z;
  sender_ethernet_address : EthernetAddress;
  sender_ip_address : Z;
  target_ethernet_address : EthernetAddress;
  target_ip_address : Z
}.

#[global] Instance eta_t : Eta t := fun m =>
  mk (hardware_type m) (protocol_type m) (hardware_address_size m) (protocol_address_size m) (opcode m)
     (sender_ethernet_address m) (sender_ip_address m) (target_ethernet_address m) (target_ip_address m).

#[global] Instance t_eq_dec : EqDecision t.
Proof. solve_decision. Defined.

Definition LENGTH : Z := 28.
Definition TYPE_ETHERNET : Z := 1.
Definition OPCODE_REQUEST : Z := 1.
Definition OPCODE_REPLY : Z := 2.

Definition init : t := mk TYPE_ETHERNET EthernetHeader.TYPE_IPv4 6 4 0 zero_address 0 zero_address 0.

Definition supported (m : t) : bool :=
  (hardware_type m =? TYPE_ETHERNET) && (protocol_type m =? EthernetHeader.TYPE_IPv4) &&
  (hardware_address_size m =? 6) && (protocol_address_size m =? 4) &&
  ((opcode m =? OPCODE_REQUEST) || (opcode m =? OPCODE_REPLY)).

Definition parse (buffer : Buffer.t) (m : t) : result (ParseResult * t) :=
  let p := NetParser.init buffer in
  if Buffer.size (NetParser.buffer p) <? LENGTH then Ok (PacketTooShort, m) else
  '(v, p) ← NetParser.u16 p; let m := m <| hardware_type := v |> in
  '(v, p) ← NetParser.u16 p; let m := m <| protocol_type := v |> in
  '(v, p) ← NetParser.u8 p; let m := m <| hardware_address_size := v |> in
  '(v, p) ← NetParser.u8 p; let m := m <| protocol_address_size := v |> in
  '(v, p) ← NetParser.u16 p; let m := m <| opcode := v |> in
  if negb (supported m) then Ok (Unsupported, m) else
  '(a, p) ← read_address 6 p; let m := m <| sender_ethernet_address := a |> in
  '(v, p) ← NetParser.u32 p; let m := m <| sender_ip_address := v |> in
  '(a, p) ← read_address 6 p; let m := m <| target_ethernet_address := a |> in
  '(v, p) ← NetParser.u32 p; let m := m <| target_ip_address := v |> in
  Ok (NetParser.get_error p, m).

Definition serialize (m : t) : result bytes :=
  if negb (supported m) then
    Throw (RuntimeError "ARPMessage::serialize(): unsupported field combination (must be Ethernet/IP, and request or reply)")
  else
  let ret := NetUnparser.u16 [] (hardware_type m) in
  let ret := NetUnparser.u16 ret (protocol_type m) in
  let ret := NetUnparser.u8 ret (hardware_address_size m) in
  let ret := NetUnparser.u8 ret (protocol_address_size m) in
  let ret := NetUnparser.u16 ret (opcode m) in
  let ret := write_address ret (sender_ethernet_address m) in
  let ret := NetUnparser.u32 ret (sender_ip_address m) in
  let ret := write_address ret (target_ethernet_address m) in
  let ret := NetUnparser.u32 ret (target_ip_address m) in
  Ok ret.

#[global] Arguments parse : simpl never.
#[global] Arguments serialize : simpl never.

Record wf (m : t) : Prop := {
  wf_hardware_type : is_u16 (hardware_type m);
  wf_protocol_type : is_u16 (protocol_type m);
  wf_hardware_size : is_u8 (hardware_address_size m);
  wf_protocol_size : is_u8 (protocol_address_size m);
  wf_opcode : is_u16 (opcode m);
  wf_sender : length (sender_ethernet_address m) = 6%nat;
  wf_sender_ip : is_u32 (sender_ip_address m);
  wf_target : length (target_ethernet_address m) = 6%nat;
  wf_target_ip : is_u32 (target_ip_address m)
}.

Lemma arp_message_wire m :
  supported m = true ->
  serialize m = Ok (be 2 (hardware_type m) ++ be 2 (protocol_type m) ++ be 1 (hardware_address_size m) ++
    be 1 (protocol_address_size m) ++ be 2 (opcode m) ++ sender_ethernet_address m ++
    be 4 (sender_ip_address m) ++ target_ethernet_address m ++ be 4 (target_ip_address m)).
Proof.
  intros Hs. unfold serialize. rewrite Hs. cbn [negb].
  rewrite !NetUnparser.u32_eq, !write_address_eq.
  rewrite !NetUnparser.u16_eq, !NetUnparser.u8_eq, app_nil_l. by rewrite <- !app_assoc.
Qed.

(** A message is read back from its wire format. *)
Lemma arp_message_read_back m m0 :
  wf m -> supported m = true ->
  exists s, serialize m = Ok s /\ zlen s = LENGTH /\ parse (Buffer.of_string s) m0 = Ok (NoError, m).
Proof.
  intros [] Hs. rewrite arp_message_wire by done. eexists. split; [done|].
  match goal with |- zlen ?s = _ /\ _ => assert (zlen s = LENGTH) as Hl end.
  { zlen. unfold zlen, LENGTH. lia. }
  split; [done|].
  assert (forall x : bytes, zlen x = LENGTH -> is_u64 (zlen x)) as Hu by (intros x ->; vm_compute; split; congruence).
  pose proof (NetParser.init_reads _ (Buffer.of_string_wf _ (Hu _ Hl))) as Hp.
  rewrite Buffer.str_of_string in Hp by (by apply Hu). unfold parse, Buffer.size.
  cbn [NetParser.buffer NetParser._buffer NetParser.init].
  rewrite Buffer.str_of_string, Hl by (by apply Hu). cbn [Z.ltb Z.compare].
  change (LENGTH <? LENGTH) with false. clear Hl Hu.
  read_back.
  match goal with |- context [supported ?x] => change (supported x) with (supported m) end.
  rewrite Hs. cbn [negb].
  match goal with H : NetParser.reads _ _ |- _ => destruct (read_address_reads _ _ _ H) as (q & E & Hq) end.
  rewrite wf_sender0 in E. rewrite E. cbn [mbind result_bind]. read_back.
  match goal with H : NetParser.reads ?p1 (target_ethernet_address _ ++ _) |- _ =>
    destruct (read_address_reads _ _ _ H) as (q2 & E2 & Hq2) end.
  rewrite wf_target0 in E2. rewrite E2. cbn [mbind result_bind]. rewrite <- (app_nil_r (be 4 (target_ip_address m))) in Hq2.
  read_back. match goal with H : NetParser.reads ?q [] |- _ => destruct H as (_ & He & _) end.
  unfold NetParser.get_error. rewrite He. by destruct m.
Qed.

(** Parsing is total, and [NoError] comes with a supported message. *)
Lemma arp_message_parse_total buffer m :
  Buffer.wf buffer -> wf m ->
  exists r m', parse buffer m = Ok (r, m') /\ wf m' /\ (r = NoError -> supported m' = true) /\
    r ∈ [NoError; PacketTooShort; Unsupported].
Proof.
  intros Hb Hm. unfold parse. case_match; [by do 2 eexists; split_and!; [..|repeat constructor]|].
  pose proof (NetParser.init_sound _ Hb). read_any. destruct (supported _) eqn:Hs; cbn [negb].
  2:{ do 2 eexists. split; [done|]. split; [destruct Hm; by split|]. split; [done|repeat constructor]. }
  match goal with H : NetParser.sound ?p |- _ => destruct (read_address_total 6 p H) as (a & q & -> & ? & Hq) end.
  cbn [mbind result_bind]. read_any.
  match goal with H : NetParser.sound ?p |- context [read_address 6 ?p] =>
    destruct (read_address_total 6 p H) as (a2 & q2 & -> & ? & Hq2) end.
  cbn [mbind result_bind]. read_any. do 2 eexists. split; [done|]. split; [by split|]. split; [intros _; exact Hs|].
  match goal with H : NetParser.sound ?p |- NetParser.get_error ?p ∈ _ => destruct H as [_ He] end.
  unfold NetParser.get_error. destruct He as [-> | ->]; repeat constructor.
Qed.

Lemma arp_init_wf : wf init.
Proof. split; first [reflexivity | vm_compute; split; congruence]. Qed.

End ARPMessage.
