(* ===== verification/wire_formats.v ===== *)
(** * The packet formats together

    [EthernetFrame], [ARPMessage], [IPv4Datagram] and [TCPSegment] hold their
    fields in integers of fixed width, some of them wider than the field on the
    wire (the 4-bit lengths and the 13-bit fragment offset).  Here: whatever
    bytes arrive, the four parsers return, and leave every field within the
    width that it has on the wire. *)

From S2P Require Import Prelude.
From S2P Require Import wrapping_integers.
From S2P Require Import buffer.
From S2P Require Import parser.
From S2P Require Import util.
From S2P Require Import tcp_segment.
From S2P Require Import ipv4_datagram.
From S2P Require Import ethernet_frame.

Module WireFormats.

Definition frame_typed (f : EthernetFrame.t) : Prop :=
  EthernetHeader.wf (EthernetFrame.header f) /\ BufferList.wf (EthernetFrame.payload f).

Definition datagram_typed (d : IPv4Datagram.t) : Prop :=
  IPv4Header.wf (IPv4Datagram.header d) /\ BufferList.wf (IPv4Datagram.payload d).

(** A parser that, on any buffer and into any object of its type, returns one
    of the results and an object of its type. *)
Definition typed_parser {T : Type} (parse : Buffer.t -> T -> result (ParseResult * T)) (typed : T -> Prop)
    (results : list ParseResult) : Prop :=
  forall buffer x, Buffer.wf buffer -> typed x -> exists r x', parse buffer x = Ok (r, x') /\ r ∈ results /\ typed x'.

Lemma frame_parser : typed_parser EthernetFrame.parse frame_typed [NoError; PacketTooShort].
Proof.
  intros buffer f Hb [Hh _]. unfold EthernetFrame.parse.
  destruct (EthernetHeader.eth_header_parse_total (EthernetFrame._header f) (NetParser.init buffer)) as (r & h & p & -> & Hh' & Hp & He);
    [done|by apply NetParser.init_sound|]. cbn. do 2 eexists. split; [done|]. split; [|split; [done|by apply Forall_singleton]].
  unfold NetParser.get_error. destruct He as [-> | ->]; repeat constructor.
Qed.

Lemma arp_parser : typed_parser ARPMessage.parse ARPMessage.wf [NoError; PacketTooShort; Unsupported].
Proof.
  intros buffer m Hb Hm. destruct (ARPMessage.arp_message_parse_total buffer m Hb Hm) as (r & m' & E & Hm' & _ & Hr). by exists r, m'.
Qed.

Lemma datagram_parser : typed_parser IPv4Datagram.parse datagram_typed [NoError; PacketTooShort].
Proof.
  intros buffer d Hb [Hh _]. destruct (IPv4Datagram.ipv4_datagram_parse_any buffer d Hb Hh) as (r & d' & E & Hr & Hh' & _).
  destruct (IPv4Datagram.ipv4_datagram_parse_ok buffer d Hb Hh) as (r2 & d2 & E2 & Hp). rewrite E in E2. injection E2 as <- <-.
  exists r, d'. split; [exact E|]. split; [destruct Hr as [-> | ->]; repeat constructor|by split].
Qed.

Lemma segment_parser ck : is_u32 ck ->
  typed_parser (fun buffer => TCPSegment.parse buffer ck) TCPSegment.wf [NoError; PacketTooShort; BadChecksum].
Proof.
  intros Hck buffer s Hb Hs. destruct (TCPSegment.tcp_segment_parse_any buffer ck s Hb Hck) as (r & s' & E & H).
  exists r, s'. split; [exact E|]. destruct H as [[-> ->]|[[-> | ->] Hs']]; (split; [repeat constructor|done]).
Qed.

(** C23: the types of the packets.  On any bytes, each of the four parsers
    returns, with one of the results that it can have and no exception, and
    every field of the object is within its width on the wire, and stays so
    when the object is used again: 4-bit lengths, a 13-bit offset, 6-byte
    addresses, 16-bit ports, 32-bit numbers, payloads whose offset is within
    their storage. *)
Theorem packets_typed data ck f m d s :
  is_u64 (zlen data) -> is_u32 ck -> frame_typed f -> ARPMessage.wf m -> datagram_typed d -> TCPSegment.wf s ->
  let buffer := Buffer.of_string data in
  (exists r f', EthernetFrame.parse buffer f = Ok (r, f') /\ r ∈ [NoError; PacketTooShort] /\ frame_typed f') /\
  (exists r m', ARPMessage.parse buffer m = Ok (r, m') /\ r ∈ [NoError; PacketTooShort; Unsupported] /\ ARPMessage.wf m') /\
  (exists r d', IPv4Datagram.parse buffer d = Ok (r, d') /\ r ∈ [NoError; PacketTooShort] /\ datagram_typed d') /\
  (exists r s', TCPSegment.parse buffer ck s = Ok (r, s') /\ r ∈ [NoError; PacketTooShort; BadChecksum] /\ TCPSegment.wf s').
Proof.
  intros Hz Hck Hf Hm Hd Hs buffer. assert (Buffer.wf buffer) as Hb by (by apply Buffer.of_string_wf).
  split; [by apply frame_parser|]. split; [by apply arp_parser|]. split; [by apply datagram_parser|by apply segment_parser].
Qed.

(** New objects, and bytes that are too few for any of them. *)
Lemma packets_typed_witness :
  exists r s', TCPSegment.parse (Buffer.of_string [x45; x00; xff]) 7 TCPSegment.init = Ok (r, s') /\
    r ∈ [NoError; PacketTooShort; BadChecksum] /\ TCPSegment.wf s'.
Proof.
  apply (packets_typed [x45; x00; xff] 7 EthernetFrame.init ARPMessage.init IPv4Datagram.init TCPSegment.init).
  - by vm_compute.
  - by vm_compute.
  - split; [split; [done|done|by vm_compute]|constructor].
  - apply ARPMessage.arp_init_wf.
  - split; [apply IPv4Datagram.ipv4_init_wf|constructor].
  - split; [apply TCPHeader.init_header_wf|by vm_compute].
Defined.

End WireFormats.
