(* ===== verification/address.v ===== *)
(** * [libsponge/util/address.*]

    An [Address] is a [sockaddr_storage] of 128 bytes and the length that is
    in use.  The layout of a [sockaddr_in] is Linux's: the family in host
    (little-endian) order, then port and address in network order, then eight
    bytes of padding.  The constructors that resolve a name call
    [getaddrinfo], whose answer is an argument ([resolve]); for a dotted quad
    and a numeric port it is the [sockaddr_in] with that address and port, which
    is what [of_ip_port] builds from the number that the quad denotes. *)

From S2P Require Import Prelude.
From S2P Require Import parser.

Module Address.

Record t : Type := mk { _size : Z; _address : bytes }.

#[global] Instance t_eq_dec : EqDecision t.
Proof. solve_decision. Defined.

Definition sizeof_storage : Z := 128.
Definition sizeof_sockaddr_in : Z := 16.
Definition AF_INET : bytes := [x02; x00].

(** A [sockaddr_in] with [htobe16(port)] and [htobe32(ip)]. *)
Definition sockaddr_in (ip port : Z) : bytes := AF_INET ++ be 2 port ++ be 4 ip ++ replicate 8 x00.

Definition of_sockaddr (addr : bytes) (size : Z) : result t :=
  if sizeof_storage <? size then Throw (RuntimeError "invalid sockaddr size")
  else Ok (mk size (take (Z.to_nat size) addr ++ drop (Z.to_nat size) (replicate 128 x00))).

Definition family (a : t) : bytes := take 2 (_address a).

Definition ipv4_numeric (a : t) : result Z :=
  if negb (bool_decide (family a = AF_INET)) || negb (_size a =? sizeof_sockaddr_in)
  then Throw (RuntimeError "ipv4_numeric called on non-IPV4 address")
  else
    let ipv4_addr := take (Z.to_nat (_size a)) (_address a) in
    Ok (be_val (take 4 (drop 4 ipv4_addr))).

Definition from_ipv4_numeric (ip_address : Z) : result t :=
  of_sockaddr (sockaddr_in ip_address 0) sizeof_sockaddr_in.

Definition of_ip_port (ip port : Z) : result t := of_sockaddr (sockaddr_in ip port) sizeof_sockaddr_in.

(** [ip_port().second]: [getnameinfo] prints the port of an IPv4 address in
    decimal and [stoi] reads it back.  Addresses of other families do not
    occur in the program and are an error here. *)
Definition port (a : t) : result Z :=
  if bool_decide (family a = AF_INET) && (sizeof_sockaddr_in <=? _size a)
  then Ok (be_val (take 2 (drop 2 (_address a))))
  else Throw (RuntimeError "getnameinfo").

Definition eqb (a other : t) : bool :=
  if negb (_size a =? _size other) then false
  else bool_decide (take (Z.to_nat (_size a)) (_address a) = take (Z.to_nat (_size a)) (_address other)).

Definition neqb (a other : t) : bool := negb (eqb a other).
Definition size (a : t) : Z := _size a.

(** The hints, all other fields being zero. *)
Record addrinfo : Type := mk_hints { ai_flags : Z; ai_family : Z }.
Definition make_hints (ai_flags ai_family : Z) : addrinfo := mk_hints ai_flags ai_family.

Definition AI_ALL : Z := 0x10.
Definition AI_NUMERICHOST : Z := 0x4.
Definition AI_NUMERICSERV : Z := 0x400.

(** [getaddrinfo] of the C library: its return value and the first entry of
    the list it makes, if there is one. *)
Definition resolver : Type := bytes -> bytes -> addrinfo -> Z * option (bytes * Z).

Definition resolve (getaddrinfo : resolver) (node service : bytes) (hints : addrinfo) : result t :=
  let '(gai_ret, resolved_address) := getaddrinfo node service hints in
  if negb (gai_ret =? 0) then Throw (GaiError (lit "getaddrinfo(" ++ node ++ lit ", " ++ service ++ lit ")") gai_ret) else
  match resolved_address with
  | None => Throw (RuntimeError "getaddrinfo returned successfully but with no results")
  | Some (ai_addr, ai_addrlen) => of_sockaddr ai_addr ai_addrlen
  end.

(** [Address(hostname, service)]; 2 is [AF_INET]. *)
Definition of_names (getaddrinfo : resolver) (hostname service : bytes) : result t :=
  resolve getaddrinfo hostname service (make_hints AI_ALL 2).

(** What [getaddrinfo(3)] says for [AF_INET]: an error, or at least one entry,
    which is a [sockaddr_in]. *)
Definition gai_inet (getaddrinfo : resolver) : Prop :=
  forall node service flags, let '(ret, res) := getaddrinfo node service (make_hints flags 2) in
    ret <> 0 \/ exists ip port, is_u32 ip /\ is_u16 port /\ res = Some (sockaddr_in ip port, sizeof_sockaddr_in).

#[global] Arguments ipv4_numeric : simpl never.
#[global] Arguments from_ipv4_numeric : simpl never.
#[global] Arguments port : simpl never.

(** The address that stands for an IPv4 address and a port. *)
Definition ipv4 (ip port : Z) : t := mk 16 (sockaddr_in ip port ++ replicate 112 x00).

(** A name resolves to an IPv4 address, or the constructor throws. *)
Lemma of_names_spec getaddrinfo hostname service :
  gai_inet getaddrinfo ->
  (exists ip port, is_u32 ip /\ is_u16 port /\ of_names getaddrinfo hostname service = Ok (ipv4 ip port)) \/
  (exists ret, ret <> 0 /\ of_names getaddrinfo hostname service =
     Throw (GaiError (lit "getaddrinfo(" ++ hostname ++ lit ", " ++ service ++ lit ")") ret)).
Proof.
  intros Hg. specialize (Hg hostname service AI_ALL). unfold of_names, resolve.
  destruct (getaddrinfo hostname service (make_hints AI_ALL 2)) as [ret res].
  destruct (Z.eqb_spec ret 0) as [->|Hne]; cbn [negb]; [left|right; eauto].
  destruct Hg as [?|(ip & port & Hi & Hp & ->)]; [done|]. exists ip, port. split; [done|]. split; [done|]. reflexivity.
Qed.

Lemma of_ip_port_eq ip port : of_ip_port ip port = Ok (ipv4 ip port).
Proof. reflexivity. Qed.

Lemma from_ipv4_numeric_eq ip : from_ipv4_numeric ip = Ok (ipv4 ip 0).
Proof. reflexivity. Qed.

Lemma ipv4_numeric_eq ip port : is_u32 ip -> ipv4_numeric (ipv4 ip port) = Ok ip.
Proof.
  intros Hi. transitivity (@Ok Z (be_val (be 4 ip))); [reflexivity|].
  rewrite be_val_be. f_equal. by apply Z.mod_small.
Qed.

Lemma port_eq ip p : is_u16 p -> port (ipv4 ip p) = Ok p.
Proof.
  intros Hp. transitivity (@Ok Z (be_val (be 2 p))); [reflexivity|].
  rewrite be_val_be. f_equal. by apply Z.mod_small.
Qed.

Lemma address_eqb_refl a : eqb a a = true.
Proof. unfold eqb. rewrite Z.eqb_refl. cbn. by apply bool_decide_eq_true. Qed.

(** Equality of addresses is equality of address and port. *)
Lemma eqb_ipv4 ip p ip' p' :
  is_u32 ip -> is_u16 p -> is_u32 ip' -> is_u16 p' -> eqb (ipv4 ip p) (ipv4 ip' p') = true <-> ip = ip' /\ p = p'.
Proof.
  intros Hi Hp Hi' Hp'. split.
  - unfold eqb. cbn [_size ipv4 Z.eqb negb]. intros H. change (16 =? 16) with true in H. cbn [negb] in H.
    apply bool_decide_eq_true in H.
    assert (be 4 ip = be 4 ip' /\ be 2 p = be 2 p') as [E1 E2].
    { change (AF_INET ++ be 2 p ++ be 4 ip ++ replicate 8 x00 = AF_INET ++ be 2 p' ++ be 4 ip' ++ replicate 8 x00) in H.
      apply (inj _) in H. apply app_inj_1 in H as [E1 H]; [|by rewrite !length_be].
      apply app_inj_1 in H as [E2 _]; [|by rewrite !length_be]. done. }
    apply (f_equal be_val) in E1, E2. rewrite !be_val_be in *. unfold is_u32, is_u16 in *.
    change (8 * Z.of_nat 4) with 32 in *. change (8 * Z.of_nat 2) with 16 in *.
    rewrite !Z.mod_small in * by lia. done.
  - intros [-> ->]. apply address_eqb_refl.
Qed.

End Address.
