(* ===== verification/printing.v ===== *)
(** * Text: the stream inserters, the headers' [to_string] and [hexdump]

    What the program prints, as strings of bytes.  The standard library's
    number formatting ([dec], [hex], [setw] with [setfill]) is modelled for the
    unsigned integers that the program prints.  The theorems: the
    printers of the headers lose nothing, and a hex dump shows each byte at
    its column. *)

From S2P Require Import Prelude.
From S2P Require Import wrapping_integers.
From S2P Require Import parser.
From S2P Require Import tcp_segment.
From S2P Require Import ipv4_datagram.
From S2P Require Import ethernet_frame.
From S2P Require Import address.

(** ** Formatting *)

Definition newline : bytes := [x0a].
Definition space : byte := x20.

Definition digit (d : Z) : byte := byte_of (if d <? 10 then 48 + d else 87 + d).

(** Each turn divides the number by a base that is at least two, so the number
    of its binary digits is enough. *)
Fixpoint digits (base : Z) (fuel : nat) (z : Z) (acc : bytes) : bytes :=
  match fuel with
  | O => acc
  | S fuel =>
      let acc := digit (z mod base) :: acc in
      if z / base =? 0 then acc else digits base fuel (z / base) acc
  end.

Definition show (base z : Z) : bytes := digits base (S (Z.to_nat (Z.log2 z))) z [].
Definition dec (z : Z) : bytes := show 10 z.
Definition hex (z : Z) : bytes := show 16 z.

(** [setw(n)] with the fill character [c]. *)
Definition setw (n : Z) (c : byte) (s : bytes) : bytes := replicate (Z.to_nat n - length s) c ++ s.

Definition boolalpha (b : bool) : bytes := lit (if b then "true" else "false").

(** [inet_ntoa]: an address in host order as a dotted quad. *)
Definition octet (k ip : Z) : Z := Z.land (Z.shiftr ip (8 * k)) 255.
Definition inet_ntoa (ip : Z) : bytes :=
  dec (octet 3 ip) ++ lit "." ++ dec (octet 2 ip) ++ lit "." ++ dec (octet 1 ip) ++ lit "." ++ dec (octet 0 ip).

(** ** The printers *)

(** [operator<<(ostream &, WrappingInt32)] in a stream that prints in [base]. *)
Definition show_seqno (base : Z) (a : WrappingInt32.t) : bytes := show base (WrappingInt32.raw_value a).

Module TCPHeaderText.
Import TCPHeader.

Definition to_string (h : TCPHeader.t) : bytes :=
  lit "TCP source port: " ++ hex (sport h) ++ newline ++
  lit "TCP dest port: " ++ hex (dport h) ++ newline ++
  lit "TCP seqno: " ++ show_seqno 16 (seqno h) ++ newline ++
  lit "TCP ackno: " ++ show_seqno 16 (ackno h) ++ newline ++
  lit "TCP doff: " ++ hex (doff h) ++ newline ++
  lit "Flags: urg: " ++ boolalpha (urg h) ++ lit " ack: " ++ boolalpha (ack h) ++ lit " psh: " ++ boolalpha (psh h) ++
  lit " rst: " ++ boolalpha (rst h) ++ lit " syn: " ++ boolalpha (syn h) ++
  lit " fin: " ++ boolalpha (fin h) ++ newline ++
  lit "TCP winsize: " ++ hex (win h) ++ newline ++
  lit "TCP cksum: " ++ hex (cksum h) ++ newline ++
  lit "TCP uptr: " ++ hex (uptr h) ++ newline.

Definition summary (h : TCPHeader.t) : bytes :=
  lit "Header(flags=" ++ lit (if syn h then "S" else "") ++ lit (if ack h then "A" else "") ++
  lit (if rst h then "R" else "") ++ lit (if fin h then "F" else "") ++
  lit ",seqno=" ++ show_seqno 10 (seqno h) ++ lit ",ack=" ++ show_seqno 10 (ackno h) ++ lit ",win=" ++ dec (win h) ++ lit ")".

End TCPHeaderText.

Module IPv4HeaderText.
Import IPv4Header.

Definition to_string (h : IPv4Header.t) : bytes :=
  lit "IP version: " ++ hex (ver h) ++ newline ++
  lit "IP hdr len: " ++ hex (hlen h) ++ newline ++
  lit "IP tos: " ++ hex (tos h) ++ newline ++
  lit "IP dgram len: " ++ hex (len h) ++ newline ++
  lit "IP id: " ++ hex (id h) ++ newline ++
  lit "Flags: df: " ++ boolalpha (df h) ++ lit " mf: " ++ boolalpha (mf h) ++ newline ++
  lit "Offset: " ++ hex (offset h) ++ newline ++
  lit "TTL: " ++ hex (ttl h) ++ newline ++
  lit "Protocol: " ++ hex (proto h) ++ newline ++
  lit "Checksum: " ++ hex (cksum h) ++ newline ++
  lit "Src addr: " ++ hex (src h) ++ newline ++
  lit "Dst addr: " ++ hex (dst h) ++ newline.

Definition summary (h : IPv4Header.t) : bytes :=
  lit "IPv" ++ hex (ver h) ++ lit ", " ++
  lit "len=" ++ hex (len h) ++ lit ", " ++
  lit "protocol=" ++ hex (proto h) ++ lit ", " ++
  (if 10 <=? ttl h then [] else lit "ttl=" ++ dec (ttl h) ++ lit ", ") ++
  lit "src=" ++ inet_ntoa (src h) ++ lit ", " ++
  lit "dst=" ++ inet_ntoa (dst h).

End IPv4HeaderText.

(** One byte as the two digits of [setw(2)]. *)
Definition hex2 (b : byte) : bytes := setw 2 x30 (hex (byte_val b)).

(** The loop of [to_string(EthernetAddress)]: a colon after all but the last. *)
Fixpoint ethernet_address_to_string (address : EthernetAddress) : bytes :=
  match address with
  | [] => []
  | [b] => hex2 b
  | b :: rest => hex2 b ++ lit ":" ++ ethernet_address_to_string rest
  end.

Definition ethernet_header_to_string (h : EthernetHeader.t) : bytes :=
  lit "dst=" ++ ethernet_address_to_string (EthernetHeader.dst h) ++
  lit ", src=" ++ ethernet_address_to_string (EthernetHeader.src h) ++
  lit ", type=" ++
  (if EthernetHeader.type h =? EthernetHeader.TYPE_IPv4 then lit "IPv4"
   else if EthernetHeader.type h =? EthernetHeader.TYPE_ARP then lit "ARP"
   else lit "[unknown type " ++ hex (EthernetHeader.type h) ++ lit "!]").

Definition arp_message_to_string (m : ARPMessage.t) : bytes :=
  let opcode_str := lit "(unknown type)" in
  let opcode_str := if ARPMessage.opcode m =? ARPMessage.OPCODE_REQUEST then lit "REQUEST" else opcode_str in
  let opcode_str := if ARPMessage.opcode m =? ARPMessage.OPCODE_REPLY then lit "REPLY" else opcode_str in
  lit "opcode=" ++ opcode_str ++ lit ", sender=" ++ ethernet_address_to_string (ARPMessage.sender_ethernet_address m) ++ lit "/" ++
  inet_ntoa (ARPMessage.sender_ip_address m) ++ lit ", target=" ++
  ethernet_address_to_string (ARPMessage.target_ethernet_address m) ++ lit "/" ++ inet_ntoa (ARPMessage.target_ip_address m).

(** [ip_port] for IPv4: [getnameinfo] with [NI_NUMERICHOST] prints the dotted
    quad. *)
Definition ip_port (a : Address.t) : result (bytes * Z) :=
  port ← Address.port a;
  Ok (inet_ntoa (be_val (take 4 (drop 4 (Address._address a)))), port).

Definition ip (a : Address.t) : result bytes := '(ip, _) ← ip_port a; Ok ip.

Definition address_to_string (a : Address.t) : result bytes :=
  '(ip, port) ← ip_port a;
  Ok (ip ++ lit ":" ++ dec port).

(** *** [hexdump] *)

(** A [stringstream] that was given its contents: writing starts at the first
    character. *)
Record stringstream : Type := mk_stream { contents : bytes; put : nat }.

Definition stream_of (s : bytes) : stringstream := mk_stream s 0.

Definition put_char (c : byte) (s : stringstream) : stringstream :=
  mk_stream (take (put s) (contents s) ++ [c] ++ drop (S (put s)) (contents s)) (S (put s)).

(** [isprint] of the C locale. *)
Definition isprint (b : byte) : bool := (32 <=? byte_val b) && (byte_val b <=? 126).

Definition shown (b : byte) : byte := if isprint b then b else x2e.

(** The loop: [printed], the text column and what has gone to [cout]. *)
Fixpoint dump_loop (data : bytes) (indent_string : bytes) (printed : Z) (pchars : stringstream) (cout : bytes)
    : Z * stringstream * bytes :=
  match data with
  | [] => (printed, pchars, cout)
  | b :: data =>
      let '(pchars, cout) :=
        if Z.land printed 0xf =? 0 then
          let '(pchars, cout) :=
            if negb (printed =? 0)
            then (stream_of (lit " "), cout ++ lit "    " ++ contents pchars ++ newline)
            else (pchars, cout) in
          (pchars, cout ++ indent_string ++ setw 8 x30 (hex printed) ++ lit ":    ")
        else if Z.land printed 1 =? 0 then (pchars, cout ++ [space])
        else (pchars, cout) in
      let cout := cout ++ hex2 b in
      let pchars := put_char (shown b) pchars in
      dump_loop data indent_string (printed + 1) pchars cout
  end.

(** [printed] is an [int]: the model is for fewer than [2^31] bytes. *)
Definition hexdump (data : bytes) (indent : Z) : bytes :=
  let indent_string := replicate (Z.to_nat indent) space in
  let '(printed, pchars, cout) := dump_loop data indent_string 0 (stream_of (lit " ")) [] in
  let print_rem := (16 - Z.land printed 0xf) mod 16 in
  cout ++ replicate (Z.to_nat (2 * print_rem + print_rem / 2 + 4)) space ++ contents pchars ++ newline ++ newline.

#[global] Arguments hex : simpl never.
#[global] Arguments dec : simpl never.
#[global] Arguments show : simpl never.
#[global] Arguments hex2 : simpl never.

(** ** Numbers are read back *)

Definition digit_val (b : byte) : Z := if byte_val b <? 58 then byte_val b - 48 else byte_val b - 87.
Definition is_digit (b : byte) : Prop := digit (digit_val b) = b /\ 0 <= digit_val b < 16.
Definition value (base : Z) (s : bytes) : Z := foldl (fun v b => v * base + digit_val b) 0 s.

Lemma digit_digit d : 0 <= d < 16 -> digit_val (digit d) = d /\ is_digit (digit d).
Proof.
  intros Hd. assert (digit_val (digit d) = d) as E.
  { unfold digit_val, digit. destruct (Z.ltb_spec d 10); rewrite !byte_val_of, u8_id by word_lia; case_match; lia. }
  split; [done|]. split; by rewrite E.
Qed.

Lemma digits_acc base fuel z acc : digits base fuel z acc = digits base fuel z [] ++ acc.
Proof.
  revert z acc. induction fuel as [|fuel IH]; intros z acc; [done|]. cbn [digits].
  destruct (_ =? _); [done|]. rewrite IH, (IH _ [_]), <- app_assoc. done.
Qed.

Lemma digits_value base fuel z :
  2 <= base -> 0 <= z < 2 ^ Z.of_nat fuel -> 0 < Z.of_nat fuel -> base <= 16 ->
  value base (digits base fuel z []) = z /\ Forall is_digit (digits base fuel z []) /\ digits base fuel z [] <> [].
Proof.
  intros Hb Hz Hf H16. revert z Hz. induction fuel as [|fuel IH]; intros z Hz; [lia|]. cbn [digits].
  pose proof (Z.mod_pos_bound z base ltac:(lia)) as Hm. pose proof (Z.div_mod z base ltac:(lia)) as Hdm.
  destruct (digit_digit (z mod base)) as [E1 E2]; [lia|].
  destruct (Z.eqb_spec (z / base) 0) as [E|E].
  { split; [|by split; [constructor|]]. unfold value. cbn. rewrite E1. lia. }
  assert (0 <= z / base) as Hq by (apply Z.div_pos; lia).
  assert (z / base < 2 ^ Z.of_nat fuel) as Hlt.
  { apply Z.div_lt_upper_bound; [lia|]. rewrite Nat2Z.inj_succ, Z.pow_succ_r in Hz by lia. nia. }
  destruct fuel as [|fuel]; [change (2 ^ Z.of_nat 0) with 1 in Hlt; lia|].
  destruct (IH ltac:(lia) (z / base) ltac:(lia)) as (V & D & N). rewrite digits_acc. split; [|split].
  - unfold value in *. rewrite foldl_app, V. cbn. rewrite E1. lia.
  - apply Forall_app. split; [done|by apply Forall_singleton].
  - by intros [? _]%app_nil.
Qed.

Lemma show_value base z :
  2 <= base <= 16 -> 0 <= z -> value base (show base z) = z /\ Forall is_digit (show base z) /\ show base z <> [].
Proof.
  intros Hb Hz. unfold show. apply digits_value; [lia| |lia|lia]. split; [done|]. pose proof (Z.log2_nonneg z).
  replace (Z.of_nat (S (Z.to_nat (Z.log2 z)))) with (Z.succ (Z.log2 z)) by lia.
  destruct (Z.eq_dec z 0) as [->|]; [by vm_compute|]. apply Z.log2_spec. lia.
Qed.

(** A run of digits ends where something else starts. *)
Definition stops (r : bytes) : Prop := match r with [] => True | c :: _ => ~ is_digit c end.

Lemma digits_split l l' r r' :
  Forall is_digit l -> Forall is_digit l' -> stops r -> stops r' -> l ++ r = l' ++ r' -> l = l' /\ r = r'.
Proof.
  intros Hl. revert l'. induction Hl as [|b l Hb _ IH]; intros l' Hl' Hr Hr' E.
  - destruct Hl' as [|b' l' Hb' _]; [done|]. cbn in E. subst r. by destruct Hr.
  - destruct Hl' as [|b' l' Hb' Hl']; cbn in E; [subst r'; by destruct Hr'|].
    injection E as -> E. by destruct (IH l' Hl' Hr Hr' E) as [-> ->].
Qed.

Lemma show_split base z z' r r' :
  2 <= base <= 16 -> 0 <= z -> 0 <= z' -> stops r -> stops r' -> show base z ++ r = show base z' ++ r' -> z = z' /\ r = r'.
Proof.
  intros Hb Hz Hz' Hr Hr' E. destruct (show_value base z Hb Hz) as (V & D & _), (show_value base z' Hb Hz') as (V' & D' & _).
  apply digits_split in E as [E ->]; [|done..]. split; [congruence|done].
Qed.

#[global] Instance is_digit_dec b : Decision (is_digit b).
Proof. unfold is_digit. apply _. Defined.

Lemma boolalpha_split b b' r r' : boolalpha b ++ r = boolalpha b' ++ r' -> b = b' /\ r = r'.
Proof. destruct b, b'; cbn; intros E; simplify_eq; done. Qed.

(** [peel H]: strips a literal, a number or a flag from both sides of [H]. *)
Ltac stops_tac := first [exact I | cbn [stops app]; by_decide].
Ltac peel H :=
  first
  [ apply app_inv_head in H
  | apply boolalpha_split in H as [? H]
  | apply show_split in H as [? H]; [|lia|lia|lia|stops_tac|stops_tac] ].

(** ** The headers' texts lose nothing *)

Lemma seqno_eq a b : WrappingInt32.raw_value a = WrappingInt32.raw_value b -> a = b.
Proof. destruct a, b. cbn. by intros ->. Qed.

(** Two TCP headers with the same text are the same. *)
Lemma tcp_header_text h h' :
  TCPHeader.wf h -> TCPHeader.wf h' -> TCPHeaderText.to_string h = TCPHeaderText.to_string h' -> h = h'.
Proof.
  intros [] [] E. unfold TCPHeaderText.to_string, hex, show_seqno, newline in E. unfold WrappingInt32.wf, is_u32, is_u16 in *.
  repeat peel E. destruct h, h'. cbn in *. simplify_eq.
  repeat match goal with H : WrappingInt32.raw_value ?a = WrappingInt32.raw_value ?b |- _ => apply seqno_eq in H; subst end.
  done.
Qed.

Lemma ipv4_header_text h h' :
  IPv4Header.wf h -> IPv4Header.wf h' -> IPv4HeaderText.to_string h = IPv4HeaderText.to_string h' -> h = h'.
Proof.
  intros [] [] E. unfold IPv4HeaderText.to_string, hex, newline in E. unfold is_u32, is_u16, is_u8 in *.
  repeat peel E. destruct h, h'. cbn in *. by simplify_eq.
Qed.

Lemma hex2_value b : length (hex2 b) = 2%nat /\ byte_of (value 16 (hex2 b)) = b.
Proof. destruct b; vm_compute; split; reflexivity. Qed.

Lemma hex2_split b b' r r' : hex2 b ++ r = hex2 b' ++ r' -> b = b' /\ r = r'.
Proof.
  intros E. destruct (hex2_value b) as [L V], (hex2_value b') as [L' V'].
  apply app_inj_1 in E as [E ->]; [|congruence]. split; [congruence|done].
Qed.

Lemma ethernet_address_split a a' r r' :
  length a = length a' -> ethernet_address_to_string a ++ r = ethernet_address_to_string a' ++ r' -> a = a' /\ r = r'.
Proof.
  revert a'. induction a as [|b a IH]; intros [|b' a'] Hl; [done|done|done|]. injection Hl as Hl.
  destruct a as [|c a], a' as [|c' a']; [|done|done|].
  - cbn [ethernet_address_to_string]. intros [-> ->]%hex2_split. done.
  - cbn [ethernet_address_to_string] in *. rewrite <- !app_assoc. intros [-> E]%hex2_split. apply app_inv_head in E.
    by destruct (IH (c' :: a') Hl E) as [-> ->].
Qed.

Lemma ethernet_header_text h h' :
  EthernetHeader.wf h -> EthernetHeader.wf h' -> ethernet_header_to_string h = ethernet_header_to_string h' -> h = h'.
Proof.
  intros [L1 L2 Ht] [L1' L2' Ht'] E. unfold ethernet_header_to_string in E.
  apply app_inv_head, ethernet_address_split in E as [E1 E]; [|congruence].
  apply app_inv_head, ethernet_address_split in E as [E2 E]; [|congruence]. apply app_inv_head in E.
  destruct h as [d s t], h' as [d' s' t']. cbn in *. subst d' s'. f_equal. unfold is_u16 in *.
  destruct (Z.eqb_spec t EthernetHeader.TYPE_IPv4) as [->|N4], (Z.eqb_spec t' EthernetHeader.TYPE_IPv4) as [->|N4']; try done.
  1-2: by destruct (_ =? EthernetHeader.TYPE_ARP) in E.
  destruct (Z.eqb_spec t EthernetHeader.TYPE_ARP) as [->|NA], (Z.eqb_spec t' EthernetHeader.TYPE_ARP) as [->|NA']; try done.
  unfold hex in E. repeat peel E. done.
Qed.

(** An address with its port is determined by its text. *)
Lemma octets_eq ip ip' : is_u32 ip -> is_u32 ip' -> (forall k, 0 <= k < 4 -> octet k ip = octet k ip') -> ip = ip'.
Proof.
  assert (forall x, is_u32 x -> x = octet 0 x + 256 * (octet 1 x + 256 * (octet 2 x + 256 * octet 3 x))) as Hx.
  { intros x Hu. unfold octet. change 255 with (Z.ones 8). rewrite !Z.land_ones, !Z.shiftr_div_pow2 by lia.
    change (2 ^ (8 * 0)) with 1. change (2 ^ (8 * 1)) with 256. change (2 ^ (8 * 2)) with (256 * 256).
    change (2 ^ (8 * 3)) with (256 * 256 * 256). change (2 ^ 8) with 256. rewrite <- !Z.div_div, Z.div_1_r by lia.
    pose proof (Z.div_mod x 256 ltac:(lia)). pose proof (Z.div_mod (x / 256) 256 ltac:(lia)).
    pose proof (Z.div_mod (x / 256 / 256) 256 ltac:(lia)). unfold is_u32 in Hu.
    rewrite (Z.mod_small (x / 256 / 256 / 256)); [lia|]. rewrite !Z.div_div by lia. split; [apply Z.div_pos; lia|].
    apply Z.div_lt_upper_bound; lia. }
  intros Hi Hi' H. rewrite (Hx ip Hi), (Hx ip' Hi'), !H by lia. done.
Qed.

Lemma octet_nonneg k ip : 0 <= octet k ip.
Proof. unfold octet. change 255 with (Z.ones 8). rewrite Z.land_ones by lia. apply Z.mod_pos_bound. lia. Qed.

Lemma inet_ntoa_split ip ip' r r' :
  is_u32 ip -> is_u32 ip' -> stops r -> stops r' -> inet_ntoa ip ++ r = inet_ntoa ip' ++ r' -> ip = ip' /\ r = r'.
Proof.
  intros Hi Hi' Hr Hr' E. unfold inet_ntoa, dec in E. rewrite <- !app_assoc in E.
  pose proof (fun k => octet_nonneg k ip). pose proof (fun k => octet_nonneg k ip').
  do 7 (first [apply app_inv_head in E | apply show_split in E as [? E]; [|lia|done|done|first [done|stops_tac]|first [done|stops_tac]]]).
  split; [|done]. apply octets_eq; [done|done|]. intros k Hk.
  assert (k = 0 \/ k = 1 \/ k = 2 \/ k = 3) as [-> | [-> | [-> | ->]]] by lia; done.
Qed.

Lemma address_text ip p ip' p' t :
  is_u32 ip -> is_u16 p -> is_u32 ip' -> is_u16 p' ->
  address_to_string (Address.ipv4 ip p) = Ok t -> address_to_string (Address.ipv4 ip' p') = Ok t -> ip = ip' /\ p = p'.
Proof.
  intros Hi Hp Hi' Hp'. unfold address_to_string, ip_port. rewrite !Address.port_eq by done. cbn [mbind result_bind].
  assert (forall i q, is_u32 i -> be_val (take 4 (drop 4 (Address._address (Address.ipv4 i q)))) = i) as Hv.
  { intros i q Hu. transitivity (be_val (be 4 i)); [reflexivity|]. rewrite be_val_be. by apply Z.mod_small. }
  rewrite !Hv by done. intros <- E.
  assert (forall a b : bytes, Ok a = Ok b -> a = b) as Hinj by (by intros a b [= ->]). apply Hinj in E. symmetry in E. unfold is_u16 in *. apply inet_ntoa_split in E as [-> E]; [|done|done|stops_tac|stops_tac].
  apply app_inv_head in E. rewrite <- (app_nil_r (dec p)), <- (app_nil_r (dec p')) in E. unfold dec in E.
  apply show_split in E as [-> _]; [done|lia|lia|lia|done|done].
Qed.

(** ** The layout of a hex dump *)

Lemma digits_length base fuel z n :
  2 <= base -> 0 <= z < base ^ Z.of_nat n -> (0 < n)%nat -> (length (digits base fuel z []) <= n)%nat.
Proof.
  intros Hb. revert z n. induction fuel as [|fuel IH]; intros z n Hz Hn; [cbn; lia|]. cbn [digits].
  destruct (Z.eqb_spec (z / base) 0) as [|Hq]; [cbn; lia|]. rewrite digits_acc, length_app. cbn [length].
  pose proof (Z.div_pos z base ltac:(lia) ltac:(lia)). destruct n as [|n]; [lia|].
  assert (z / base < base ^ Z.of_nat n) as Hlt.
  { apply Z.div_lt_upper_bound; [lia|]. rewrite Nat2Z.inj_succ, Z.pow_succ_r in Hz by lia. lia. }
  destruct n as [|n]; [change (base ^ Z.of_nat 0) with 1 in Hlt; lia|]. specialize (IH (z / base) (S n) ltac:(lia) ltac:(lia)). lia.
Qed.

Lemma setw8_length z : 0 <= z < 2 ^ 31 -> zlen (setw 8 x30 (hex z)) = 8.
Proof.
  intros Hz. unfold setw, zlen. rewrite length_app, length_replicate.
  assert (length (hex z) <= 8)%nat; [|lia]. apply digits_length; [lia| |lia].
  change (16 ^ Z.of_nat 8) with (2 ^ 32). lia.
Qed.

Lemma at_offset_end T s : at_offset (T ++ s) (zlen T) s.
Proof.
  split; [zlen; pose proof (zlen_nonneg T); pose proof (zlen_nonneg s); lia|]. unfold zlen. rewrite Nat2Z.id, drop_app_length. done.
Qed.

Lemma at_offset_char T a s n c : at_offset T a s -> s !! n = Some c -> at_offset T (a + Z.of_nat n) [c].
Proof.
  intros Hs Hn. apply lookup_lt_Some in Hn as Hlt. pose proof (at_offset_drop T a s (Z.of_nat n) Hs ltac:(unfold zlen; lia)) as H.
  rewrite Nat2Z.id, (drop_S _ _ _ Hn) in H. apply (at_offset_take _ _ _ 1) in H. exact H.
Qed.

(** Where the digits and the character of the byte [i] are: sixteen bytes to a
    line of [indent + 73] characters. *)
Definition hex_column (indent i : Z) : Z := i / 16 * (indent + 73) + indent + 13 + 2 * (i mod 16) + i mod 16 / 2.
Definition char_column (indent i : Z) : Z := i / 16 * (indent + 73) + indent + 56 + i mod 16.

Section dump.
Variable (indent : Z).
Hypothesis Hindent : 0 <= indent.

(** After [p > 0] bytes: the lines whose text column is out, and the length. *)
Definition flushed (p : Z) : Z := if p =? 0 then 0 else (p - 1) / 16.
Definition out_len (p : Z) : Z := if p =? 0 then 0 else hex_column indent (p - 1) + 2.

Record dumped (done : bytes) (printed : Z) (pchars : stringstream) (out : bytes) : Prop := {
  du_printed : printed = zlen done;
  du_len : zlen out = out_len printed;
  du_hex : forall i b, done !! i = Some b -> at_offset out (hex_column indent (Z.of_nat i)) (hex2 b);
  du_chars : forall i b, done !! i = Some b -> Z.of_nat i / 16 < flushed printed ->
    at_offset out (char_column indent (Z.of_nat i)) [shown b];
  du_pchars : printed <> 0 -> contents pchars = shown <$> drop (Z.to_nat (16 * flushed printed)) done;
  du_put : put pchars = (if printed =? 0 then 0%nat else length (contents pchars));
  du_empty : printed = 0 -> contents pchars = lit " "
}.

(** The next byte, [pre] being what goes out before its digits. *)
Lemma dumped_byte done p pchars out b pchars' pre :
  dumped done p pchars out -> zlen (out ++ pre) = hex_column indent p ->
  (forall i c, done !! i = Some c -> Z.of_nat i / 16 < flushed (p + 1) -> at_offset (out ++ pre) (char_column indent (Z.of_nat i)) [shown c]) ->
  contents pchars' = shown <$> drop (Z.to_nat (16 * flushed (p + 1))) (done ++ [b]) -> put pchars' = length (contents pchars') ->
  dumped (done ++ [b]) (p + 1) pchars' ((out ++ pre) ++ hex2 b).
Proof.
  intros [Hp Hl Hh Hc _ _ _] Hpre Hchars Hcon Hput. pose proof (zlen_nonneg done) as H0. pose proof (proj1 (hex2_value b)) as H2.
  split.
  - zlen. lia.
  - rewrite zlen_app, Hpre. unfold out_len. rewrite (proj2 (Z.eqb_neq _ _)) by lia. replace (p + 1 - 1) with p by lia.
    unfold zlen. rewrite H2. lia.
  - intros i c [Hi|[Hi E]]%lookup_app_Some.
    + rewrite <- app_assoc. apply at_offset_grow. by apply Hh.
    + apply list_lookup_singleton_Some in E as [Ei <-]. replace (Z.of_nat i) with p by (unfold zlen in *; lia).
      rewrite <- Hpre. apply at_offset_end.
  - intros i c [Hi|[Hi E]]%lookup_app_Some Hf.
    + apply at_offset_grow. by apply Hchars.
    + apply list_lookup_singleton_Some in E as [Ei <-]. exfalso. unfold flushed in Hf.
      rewrite (proj2 (Z.eqb_neq _ _)) in Hf by lia. replace (Z.of_nat i) with p in Hf by (unfold zlen in *; lia).
      replace (p + 1 - 1) with p in Hf by lia. lia.
  - done.
  - rewrite (proj2 (Z.eqb_neq _ _)) by lia. done.
  - lia.
Qed.

Lemma put_char_end c s : put s = length (contents s) -> put_char c s = mk_stream (contents s ++ [c]) (S (length (contents s))).
Proof. intros E. unfold put_char. rewrite E, take_ge, drop_ge by lia. by rewrite app_nil_r. Qed.

Lemma put_char_first c : put_char c (stream_of (lit " ")) = mk_stream [c] 1.
Proof. done. Qed.

Lemma land_f p : 0 <= p -> Z.land p 0xf = p mod 16.
Proof. intros. change 0xf with (Z.ones 4). by rewrite Z.land_ones by lia. Qed.
Lemma land_1 p : 0 <= p -> Z.land p 1 = p mod 2.
Proof. intros. change 1 with (Z.ones 1) at 1. by rewrite Z.land_ones by lia. Qed.

Lemma indent_len : zlen (replicate (Z.to_nat indent) space) = indent.
Proof using Hindent. unfold zlen. rewrite length_replicate. lia. Qed.

(** The first byte. *)
Lemma dumped_first pchars out b :
  dumped [] 0 pchars out ->
  dumped [b] 1 (put_char (shown b) pchars)
    ((out ++ replicate (Z.to_nat indent) space ++ setw 8 x30 (hex 0) ++ lit ":    ") ++ hex2 b).
Proof using Hindent.
  intros Hd. pose proof (du_len _ _ _ _ Hd) as Hl. change (zlen out = 0) in Hl. apply zlen_0_nil in Hl as ->.
  apply (dumped_byte [] 0 pchars); [done| | | |].
  - rewrite app_nil_l, !zlen_app, indent_len, setw8_length by lia. unfold hex_column. change (zlen (lit ":    ")) with 5.
    change (0 / 16) with 0. change (0 mod 16) with 0. change (0 / 2) with 0. lia.
  - by intros i c.
  - destruct pchars as [con pt]. pose proof (du_empty _ _ _ _ Hd eq_refl) as E1. pose proof (du_put _ _ _ _ Hd) as E2. cbn in E1, E2. by subst.
  - destruct pchars as [con pt]. pose proof (du_empty _ _ _ _ Hd eq_refl) as E1. pose proof (du_put _ _ _ _ Hd) as E2. cbn in E1, E2. by subst.
Qed.

(** Within a line. *)
Lemma dumped_next done p pchars out b pre :
  dumped done p pchars out -> p mod 16 <> 0 -> zlen pre = (if p mod 2 =? 0 then 1 else 0) ->
  dumped (done ++ [b]) (p + 1) (put_char (shown b) pchars) ((out ++ pre) ++ hex2 b).
Proof.
  intros Hd Hm Hpre. pose proof Hd as [Hp Hl _ Hc Hcon Hput _]. pose proof (zlen_nonneg done).
  assert (p <> 0) as Hne by (intros ->; done). rewrite (proj2 (Z.eqb_neq p 0)) in Hput by lia.
  assert (flushed (p + 1) = flushed p /\ 0 <= flushed p /\ 16 * flushed p <= p) as (Ef & Hf0 & Hf1).
  { unfold flushed. rewrite !(proj2 (Z.eqb_neq _ _)) by lia. Z.div_mod_to_equations. lia. }
  rewrite (put_char_end _ _ Hput). apply (dumped_byte done p pchars); [done| | | |].
  - rewrite zlen_app, Hl, Hpre. unfold out_len, hex_column. rewrite (proj2 (Z.eqb_neq _ _)) by lia.
    replace ((p - 1) / 16) with (p / 16) by (Z.div_mod_to_equations; lia).
    destruct (Z.eqb_spec (p mod 2) 0); Z.div_mod_to_equations; lia.
  - rewrite Ef. intros i c Hi Hlt. by apply at_offset_grow, Hc.
  - rewrite Ef, Hcon by done. cbn. rewrite drop_app_le, fmap_app by (unfold zlen in *; lia). done.
  - cbn. rewrite length_app. cbn. lia.
Qed.

(** At the start of a further line. *)
Lemma dumped_line done p pchars out b :
  dumped done p pchars out -> p <> 0 -> p mod 16 = 0 -> p < 2 ^ 31 ->
  dumped (done ++ [b]) (p + 1) (put_char (shown b) (stream_of (lit " ")))
    ((out ++ (lit "    " ++ contents pchars ++ newline) ++ replicate (Z.to_nat indent) space ++ setw 8 x30 (hex p) ++ lit ":    ") ++ hex2 b).
Proof using Hindent.
  intros Hd Hne Hm Hlt. pose proof Hd as [Hp Hl _ Hc Hcon _ _]. pose proof (zlen_nonneg done). specialize (Hcon Hne).
  assert (flushed (p + 1) = p / 16 /\ flushed p = p / 16 - 1 /\ 1 <= p / 16 /\ 16 * (p / 16) = p) as (Ef1 & Ef & H1 & H16).
  { unfold flushed. rewrite !(proj2 (Z.eqb_neq _ _)) by lia. Z.div_mod_to_equations. lia. }
  rewrite Ef in Hcon, Hc. assert (zlen (contents pchars) = 16) as Hz.
  { rewrite Hcon. unfold zlen in *. rewrite length_fmap, length_drop. lia. }
  assert (zlen out = (p / 16 - 1) * (indent + 73) + indent + 52) as Hlo.
  { rewrite Hl. unfold out_len, hex_column. rewrite (proj2 (Z.eqb_neq _ _)) by lia.
    replace ((p - 1) / 16) with (p / 16 - 1) by (Z.div_mod_to_equations; lia).
    replace ((p - 1) mod 16) with 15 by (Z.div_mod_to_equations; lia). change (15 / 2) with 7. lia. }
  rewrite put_char_first. apply (dumped_byte done p pchars); [done| | | |done].
  - rewrite !zlen_app, indent_len, setw8_length, Hlo, Hz by lia. unfold hex_column. rewrite Hm.
    change (zlen (lit ":    ")) with 5. change (zlen (lit "    ")) with 4. change (zlen newline) with 1. change (0 / 2) with 0. lia.
  - rewrite Ef1. intros i c Hi Hil. destruct (Z.lt_ge_cases (Z.of_nat i / 16) (p / 16 - 1)) as [Hl'|Hge].
    { by apply at_offset_grow, Hc. }
    assert (char_column indent (Z.of_nat i) = zlen (out ++ lit "    ") + Z.of_nat (i - Z.to_nat (16 * (p / 16 - 1)))) as ->.
    { rewrite zlen_app, Hlo. unfold char_column. change (zlen (lit "    ")) with 4.
      assert (Z.of_nat i / 16 = p / 16 - 1) as E by lia. rewrite E. Z.div_mod_to_equations. lia. }
    apply (at_offset_char _ _ (contents pchars)).
    + rewrite <- !app_assoc, (app_assoc out), (app_assoc (out ++ _)). apply at_offset_grow, at_offset_end.
    + rewrite Hcon, list_lookup_fmap, lookup_drop.
      replace (Z.to_nat (16 * (p / 16 - 1)) + (i - Z.to_nat (16 * (p / 16 - 1))))%nat with i by (Z.div_mod_to_equations; lia).
      by rewrite Hi.
  - rewrite Ef1, H16. cbn. rewrite drop_app_ge by (unfold zlen in *; lia).
    replace (Z.to_nat p - length done)%nat with 0%nat by (unfold zlen in *; lia). done.
Qed.

Lemma dump_loop_dumped data done p pchars out :
  dumped done p pchars out -> p + zlen data < 2 ^ 31 ->
  let '(p', pchars', out') := dump_loop data (replicate (Z.to_nat indent) space) p pchars out in
  dumped (done ++ data) p' pchars' out'.
Proof using Hindent.
  revert done p pchars out. induction data as [|b data IH]; intros done p pchars out Hd Hlt; [cbn; by rewrite app_nil_r|].
  pose proof (du_printed _ _ _ _ Hd) as Hp. pose proof (zlen_nonneg done). zlen. pose proof (zlen_nonneg data).
  cbn [dump_loop]. rewrite land_f, land_1 by lia.
  replace (done ++ b :: data) with ((done ++ [b]) ++ data) by (by rewrite <- app_assoc).
  destruct (Z.eqb_spec (p mod 16) 0) as [Hm|Hm].
  - destruct (Z.eqb_spec p 0) as [->|Hne]; cbn [negb].
    + assert (done = []) as -> by (apply zlen_0_nil; lia). apply (IH [b] (0 + 1)); [by apply dumped_first|lia].
    + rewrite <- (app_assoc out). apply IH; [by apply dumped_line; [|done|done|lia]|lia].
  - destruct (Z.eqb_spec (p mod 2) 0) as [He|He].
    + apply IH; [|lia]. apply dumped_next; [done|done|]. by rewrite He.
    + pose proof (dumped_next done p pchars out b [] Hd Hm) as Hn. rewrite (proj2 (Z.eqb_neq _ _)), app_nil_r in Hn by done.
      apply IH; [by apply Hn|lia].
Qed.
End dump.

(** The whole dump: each byte's digits and character are at their columns. *)
Lemma hexdump_columns data indent i b :
  0 <= indent -> zlen data < 2 ^ 31 -> data !! i = Some b ->
  at_offset (hexdump data indent) (hex_column indent (Z.of_nat i)) (hex2 b) /\
  at_offset (hexdump data indent) (char_column indent (Z.of_nat i)) [shown b].
Proof.
  intros Hi Hlen Hb. unfold hexdump. pose proof (dump_loop_dumped indent Hi data [] 0 (stream_of (lit " ")) []) as H.
  destruct (dump_loop data _ 0 _ []) as [[p pchars] out]. destruct H as [Hp Hl Hh Hc Hcon _ _]; [by split|lia|].
  rewrite app_nil_l in *. pose proof (lookup_lt_Some _ _ _ Hb) as Hlt. assert (0 < p) as Hpos by (unfold zlen in *; lia).
  split; [apply at_offset_grow; by apply Hh|]. specialize (Hcon ltac:(lia)). rewrite land_f by lia.
  assert (flushed p = (p - 1) / 16) as Ef by (unfold flushed; rewrite (proj2 (Z.eqb_neq _ _)) by lia; done).
  destruct (Z.lt_ge_cases (Z.of_nat i / 16) (flushed p)) as [Hl'|Hge]; [apply at_offset_grow; by apply Hc|].
  assert (16 * flushed p <= Z.of_nat i) as Hline by (Z.div_mod_to_equations; lia).
  set (rem := (16 - p mod 16) mod 16). set (pad := replicate _ space).
  assert (char_column indent (Z.of_nat i) = zlen (out ++ pad) + Z.of_nat (i - Z.to_nat (16 * flushed p))) as ->.
  { rewrite zlen_app, Hl. unfold out_len, hex_column, char_column, pad, zlen at 1. rewrite length_replicate.
    rewrite (proj2 (Z.eqb_neq _ _)) by lia. assert (Z.of_nat i / 16 = flushed p) as -> by (unfold zlen in *; Z.div_mod_to_equations; lia).
    rewrite Ef. subst rem. unfold zlen in *. Z.div_mod_to_equations. lia. }
  rewrite (app_assoc out pad), (app_assoc (out ++ pad)).
  apply (at_offset_char _ _ (contents pchars)); [apply at_offset_grow, at_offset_end|].
  rewrite Hcon, list_lookup_fmap, lookup_drop.
  replace (Z.to_nat (16 * flushed p) + (i - Z.to_nat (16 * flushed p)))%nat with i by (Z.div_mod_to_equations; lia).
  by rewrite Hb.
Qed.

(** The digits show every byte. *)
Lemma hexdump_injective data data' indent :
  0 <= indent -> zlen data < 2 ^ 31 -> length data = length data' -> hexdump data indent = hexdump data' indent -> data = data'.
Proof.
  intros Hi Hlen Hl E. apply list_eq. intros i. destruct (data !! i) as [b|] eqn:Eb.
  - destruct (lookup_lt_is_Some_2 data' i) as [b' Eb']; [rewrite <- Hl; by eapply lookup_lt_Some|]. rewrite Eb'. f_equal.
    destruct (hexdump_columns data indent i b Hi Hlen Eb) as [H _].
    destruct (hexdump_columns data' indent i b' Hi ltac:(unfold zlen in *; lia) Eb') as [H' _]. rewrite <- E in H'.
    destruct (hex2_value b) as [L V], (hex2_value b') as [L' V'].
    rewrite <- V, <- V'. do 2 f_equal. symmetry. eapply at_offset_eq; [exact H'|exact H|]. unfold zlen. by rewrite L, L'.
  - symmetry. apply lookup_ge_None in Eb. apply lookup_ge_None. lia.
Qed.

(** The layout of a hex dump.  Byte number [i] is shown on line [i / 16] at
    its place among the sixteen, as two digits in the left column and as itself,
    or a dot if it cannot be printed, in the right one; so two blocks of one
    length with the same dump are the same. *)
Theorem hexdump_layout data indent :
  0 <= indent -> zlen data < 2 ^ 31 ->
  (forall i b, data !! i = Some b ->
     at_offset (hexdump data indent) (hex_column indent (Z.of_nat i)) (hex2 b) /\
     at_offset (hexdump data indent) (char_column indent (Z.of_nat i)) [shown b]) /\
  (forall data', length data = length data' -> hexdump data indent = hexdump data' indent -> data = data').
Proof.
  intros Hi Hlen. split; [intros i b; by apply hexdump_columns|intros data'; by apply hexdump_injective].
Qed.

(** The texts of the headers lose nothing.  Two TCP headers, two IPv4
    headers, two Ethernet headers or two IPv4 addresses with ports that are
    printed the same are the same. *)
Theorem headers_text_lossless :
  (forall h h', TCPHeader.wf h -> TCPHeader.wf h' -> TCPHeaderText.to_string h = TCPHeaderText.to_string h' -> h = h') /\
  (forall h h', IPv4Header.wf h -> IPv4Header.wf h' -> IPv4HeaderText.to_string h = IPv4HeaderText.to_string h' -> h = h') /\
  (forall h h', EthernetHeader.wf h -> EthernetHeader.wf h' -> ethernet_header_to_string h = ethernet_header_to_string h' -> h = h') /\
  (forall ip p ip' p' t, is_u32 ip -> is_u16 p -> is_u32 ip' -> is_u16 p' ->
     address_to_string (Address.ipv4 ip p) = Ok t -> address_to_string (Address.ipv4 ip' p') = Ok t -> ip = ip' /\ p = p').
Proof.
  split; [exact tcp_header_text|]. split; [exact ipv4_header_text|]. split; [exact ethernet_header_text|exact address_text].
Qed.
