(* ===== verification/network_interface.v ===== *)
(** * [libsponge/network_interface.*]

    A network interface: IPv4 datagrams in Ethernet frames, with ARP to find
    the Ethernet address of the next hop. *)

From stdpp Require Import relations sorting.
From S2P Require Import Prelude.
From S2P Require Import buffer.
From S2P Require Import parser.
From S2P Require Import ipv4_datagram.
From S2P Require Import ethernet_frame.
From S2P Require Import address.

Module NetworkInterface.

Record t : Type := mk {
  _ethernet_address : EthernetAddress;
  _ip_address : Address.t;
  _frames_out : list EthernetFrame.t;
  _mapping : gmap Z (EthernetAddress * Z);
  _pending_list : list (IPv4Datagram.t * Address.t);
  _current_time : Z;
  _blocking_mapping : gmap Z Z
}.

#[global] Instance eta_t : Eta t := fun s =>
  mk (_ethernet_address s) (_ip_address s) (_frames_out s) (_mapping s) (_pending_list s) (_current_time s)
     (_blocking_mapping s).

Definition ARP_VALID_TIME : Z := 30 * 1000.
Definition ARP_REQ_BLOCKING_TIME : Z := 5 * 1000.

Definition init (ethernet_address : EthernetAddress) (ip_address : Address.t) : t :=
  mk ethernet_address ip_address [] ∅ [] 0 ∅.

Definition frames_out (s : t) : list EthernetFrame.t := _frames_out s.

Definition push_frame (f : EthernetFrame.t) (s : t) : t := s <| _frames_out := _frames_out s ++ [f] |>.

(** The ARP request for [next_hop_ip], [ip] being the interface's own address. *)
Definition request_msg (s : t) (ip next_hop_ip : Z) : ARPMessage.t :=
  ARPMessage.init <| ARPMessage.opcode := ARPMessage.OPCODE_REQUEST |>
    <| ARPMessage.sender_ip_address := ip |>
    <| ARPMessage.sender_ethernet_address := _ethernet_address s |>
    <| ARPMessage.target_ip_address := next_hop_ip |>
    <| ARPMessage.target_ethernet_address := zero_address |>.

Definition send_datagram (dgram : IPv4Datagram.t) (next_hop : Address.t) (s : t) : result t :=
  next_hop_ip ← Address.ipv4_numeric next_hop;
  match _mapping s !! next_hop_ip with
  | None =>
      let s := s <| _pending_list := _pending_list s ++ [(dgram, next_hop)] |> in
      if bool_decide (is_Some (_blocking_mapping s !! next_hop_ip)) then Ok s else
      let s := s <| _blocking_mapping := <[next_hop_ip := _current_time s]> (_blocking_mapping s) |> in
      ip ← Address.ipv4_numeric (_ip_address s);
      payload ← ARPMessage.serialize (request_msg s ip next_hop_ip);
      let hdr := EthernetHeader.mk ETHERNET_BROADCAST (_ethernet_address s) EthernetHeader.TYPE_ARP in
      Ok (push_frame (EthernetFrame.mk hdr (BufferList.of_string payload)) s)
  | Some (mac, _) =>
      let hdr := EthernetHeader.mk mac (_ethernet_address s) EthernetHeader.TYPE_IPv4 in
      payload ← IPv4Datagram.serialize dgram;
      Ok (push_frame (EthernetFrame.mk hdr payload) s)
  end.

(** [_mapping.insert(...)], which leaves an entry that is there alone. *)
Definition learn (ip : Z) (mac : EthernetAddress) (s : t) : t :=
  match _mapping s !! ip with
  | Some _ => s
  | None => s <| _mapping := <[ip := (mac, _current_time s)]> (_mapping s) |>
  end.

(** The loop that moves the datagrams waiting for [ip] from [_pending_list]
    to [tmp_list]: the two lists after it. *)
Fixpoint split_pending (ip : Z) (l : list (IPv4Datagram.t * Address.t))
    : result (list (IPv4Datagram.t * Address.t) * list (IPv4Datagram.t * Address.t)) :=
  match l with
  | [] => Ok ([], [])
  | e :: l =>
      next_hop_ip ← Address.ipv4_numeric (e.2);
      '(tmp, rest) ← split_pending ip l;
      Ok (if next_hop_ip =? ip then (e :: tmp, rest) else (tmp, e :: rest))
  end.

Fixpoint send_list (tmp : list (IPv4Datagram.t * Address.t)) (s : t) : result t :=
  match tmp with
  | [] => Ok s
  | e :: tmp => s ← send_datagram (e.1) (e.2) s; send_list tmp s
  end.

Definition reply_msg (s : t) (ip : Z) (msg : ARPMessage.t) : ARPMessage.t :=
  ARPMessage.init <| ARPMessage.opcode := ARPMessage.OPCODE_REPLY |>
    <| ARPMessage.sender_ethernet_address := _ethernet_address s |>
    <| ARPMessage.sender_ip_address := ip |>
    <| ARPMessage.target_ethernet_address := ARPMessage.sender_ethernet_address msg |>
    <| ARPMessage.target_ip_address := ARPMessage.sender_ip_address msg |>.

(** The two arms on the message's opcode. *)
Definition recv_reply (msg : ARPMessage.t) (s : t) : result t :=
  '(tmp, rest) ← split_pending (ARPMessage.sender_ip_address msg) (_pending_list s);
  send_list tmp (s <| _pending_list := rest |>).

Definition recv_request (msg : ARPMessage.t) (s : t) : result t :=
  ip ← Address.ipv4_numeric (_ip_address s);
  if negb (ARPMessage.target_ip_address msg =? ip) then Ok s else
  payload ← ARPMessage.serialize (reply_msg s ip msg);
  let reply_hdr := EthernetHeader.mk (ARPMessage.sender_ethernet_address msg) (_ethernet_address s)
                                     EthernetHeader.TYPE_ARP in
  Ok (push_frame (EthernetFrame.mk reply_hdr (BufferList.of_string payload)) s).

Definition for_me (frame : EthernetFrame.t) (s : t) : bool :=
  bool_decide (EthernetHeader.dst (EthernetFrame.header frame) = _ethernet_address s) ||
  bool_decide (EthernetHeader.dst (EthernetFrame.header frame) = ETHERNET_BROADCAST).

Definition recv_frame (frame : EthernetFrame.t) (s : t) : result (option IPv4Datagram.t * t) :=
  if negb (for_me frame s) then Ok (None, s) else
  let type := EthernetHeader.type (EthernetFrame.header frame) in
  if type =? EthernetHeader.TYPE_ARP then
    b ← BufferList.to_Buffer (EthernetFrame.payload frame);
    '(res, msg) ← ARPMessage.parse b ARPMessage.init;
    if negb (bool_decide (res = NoError)) then Ok (None, s) else
    let s := learn (ARPMessage.sender_ip_address msg) (ARPMessage.sender_ethernet_address msg) s in
    if ARPMessage.opcode msg =? ARPMessage.OPCODE_REPLY then s ← recv_reply msg s; Ok (None, s)
    else if ARPMessage.opcode msg =? ARPMessage.OPCODE_REQUEST then s ← recv_request msg s; Ok (None, s)
    else Ok (None, s)
  else if type =? EthernetHeader.TYPE_IPv4 then
    b ← BufferList.to_Buffer (EthernetFrame.payload frame);
    '(res, datagram) ← IPv4Datagram.parse b IPv4Datagram.init;
    if bool_decide (res = NoError) then Ok (Some datagram, s) else Ok (None, s)
  else Ok (None, s).

Definition tick (ms_since_last_tick : Z) (s : t) : t :=
  let s := s <| _current_time := _current_time s ⊕ ms_since_last_tick |> in
  let s := s <| _mapping :=
    filter (fun e => ~ (e.2.2 ⊕ ARP_VALID_TIME <= _current_time s)) (_mapping s) |> in
  s <| _blocking_mapping :=
    filter (fun e => ~ (e.2 ⊕ ARP_REQ_BLOCKING_TIME <= _current_time s)) (_blocking_mapping s) |>.

#[global] Arguments send_datagram : simpl never.
#[global] Arguments recv_frame : simpl never.
#[global] Arguments tick : simpl never.

(** ** Traces

    A trace is a list of what the interface was given and what it queued, each
    with the interface's time.  Its owner may call every method in any order and
    pop queued frames at any time. *)
Inductive event : Type :=
| Accepted (d : IPv4Datagram.t) (next_hop : Address.t)
| Heard (ip : Z) (mac : EthernetAddress)
| Emitted (f : EthernetFrame.t).

Definition config : Type := t * list (Z * event).

(** What a received frame teaches. *)
Definition heard (frame : EthernetFrame.t) (s : t) : list event :=
  if negb (for_me frame s) then [] else
  if negb (EthernetHeader.type (EthernetFrame.header frame) =? EthernetHeader.TYPE_ARP) then [] else
  match BufferList.to_Buffer (EthernetFrame.payload frame) ≫= fun b => ARPMessage.parse b ARPMessage.init with
  | Ok (NoError, msg) => [Heard (ARPMessage.sender_ip_address msg) (ARPMessage.sender_ethernet_address msg)]
  | _ => []
  end.

Definition at_time (s : t) (l : list event) : list (Z * event) := (fun e => (_current_time s, e)) <$> l.

Inductive step : config -> config -> Prop :=
| step_send s log d next_hop s' new :
    send_datagram d next_hop s = Ok s' -> _frames_out s' = _frames_out s ++ new ->
    step (s, log) (s', log ++ at_time s (Accepted d next_hop :: (Emitted <$> new)))
| step_recv s log frame o s' new :
    BufferList.wf (EthernetFrame.payload frame) ->
    recv_frame frame s = Ok (o, s') -> _frames_out s' = _frames_out s ++ new ->
    step (s, log) (s', log ++ at_time s (heard frame s ++ (Emitted <$> new)))
| step_tick s log ms :
    0 <= ms -> _current_time s + ms + ARP_VALID_TIME < 2 ^ 64 ->
    step (s, log) (tick ms s, log)
| step_pop s log f rest :
    _frames_out s = f :: rest -> step (s, log) (s <| _frames_out := rest |>, log).

Definition reachable (mac : EthernetAddress) (ip : Address.t) (c : config) : Prop :=
  rtc step (init mac ip, []) c.

(** What a trace says: the datagrams taken, the IPv4 frames queued, and the
    addresses asked for. *)
Definition accepted (log : list (Z * event)) : list (IPv4Datagram.t * Address.t) :=
  omap (fun e => match e.2 with Accepted d nh => Some (d, nh) | _ => None end) log.

Definition is_ipv4 (f : EthernetFrame.t) : bool :=
  EthernetHeader.type (EthernetFrame.header f) =? EthernetHeader.TYPE_IPv4.

Definition sent (log : list (Z * event)) : list (Z * EthernetFrame.t) :=
  omap (fun e => match e.2 with Emitted f => if is_ipv4 f then Some (e.1, f) else None | _ => None end) log.

Definition requested (f : EthernetFrame.t) : option Z :=
  if negb (EthernetHeader.type (EthernetFrame.header f) =? EthernetHeader.TYPE_ARP) then None else
  match BufferList.to_Buffer (EthernetFrame.payload f) ≫= fun b => ARPMessage.parse b ARPMessage.init with
  | Ok (NoError, msg) =>
      if ARPMessage.opcode msg =? ARPMessage.OPCODE_REQUEST then Some (ARPMessage.target_ip_address msg) else None
  | _ => None
  end.

Definition requests (log : list (Z * event)) : list (Z * Z) :=
  omap (fun e => match e.2 with Emitted f => (fun ip => (e.1, ip)) <$> requested f | _ => None end) log.

Lemma ipv4_numeric_range a ip : Address.ipv4_numeric a = Ok ip -> is_u32 ip.
Proof.
  unfold Address.ipv4_numeric. case_match; [done|]. intros [= <-].
  match goal with |- is_u32 (be_val ?s) => pose proof (be_val_range s) as Hr; assert (zlen s <= 4) as Hl end.
  { unfold zlen. rewrite length_take. lia. }
  pose proof (Z.pow_le_mono_r 2 (8 * zlen (take 4 (drop 4 (take (Z.to_nat (Address._size a)) (Address._address a))))) 32
    ltac:(lia) ltac:(lia)). unfold is_u32. lia.
Qed.

(** What a message that the interface builds looks like to [requested]. *)
Lemma requested_arp hdr msg payload :
  EthernetHeader.type hdr = EthernetHeader.TYPE_ARP -> ARPMessage.wf msg ->
  ARPMessage.serialize msg = Ok payload ->
  requested (EthernetFrame.mk hdr (BufferList.of_string payload)) =
    if ARPMessage.opcode msg =? ARPMessage.OPCODE_REQUEST then Some (ARPMessage.target_ip_address msg) else None.
Proof.
  intros Ht Hm Hs. unfold requested. cbn [EthernetFrame.header EthernetFrame._header]. rewrite Ht. cbn [Z.eqb negb].
  change (BufferList.to_Buffer (EthernetFrame.payload (EthernetFrame.mk hdr (BufferList.of_string payload))))
    with (@Ok Buffer.t (Buffer.of_string payload)). cbn [mbind result_bind].
  assert (ARPMessage.supported msg = true) as Hsup.
  { unfold ARPMessage.serialize in Hs. by destruct (ARPMessage.supported msg). }
  destruct (ARPMessage.arp_message_read_back msg ARPMessage.init Hm Hsup) as (s & E & _ & Hp).
  rewrite Hs in E. injection E as <-. rewrite Hp. done.
Qed.

Lemma request_msg_wf s ip nip :
  length (_ethernet_address s) = 6%nat -> is_u32 ip -> is_u32 nip -> ARPMessage.wf (request_msg s ip nip).
Proof. intros ???. split; cbn; try done; word_lia. Qed.

Lemma reply_msg_wf s ip msg :
  length (_ethernet_address s) = 6%nat -> is_u32 ip -> ARPMessage.wf msg -> ARPMessage.wf (reply_msg s ip msg).
Proof. intros ?? []. split; cbn; try done; word_lia. Qed.

(** An IPv4 frame and the datagram it carries: the frame goes to the address
    that the next hop announced less than 30 seconds before. *)
Record framed (src : EthernetAddress) (log : list (Z * event)) (tf : Z * EthernetFrame.t)
    (e : IPv4Datagram.t * Address.t) : Prop := mk_framed {
  fr_next_hop : exists ip mac time,
    Address.ipv4_numeric (e.2) = Ok ip /\ (time, Heard ip mac) ∈ log /\
    time <= tf.1 < time + ARP_VALID_TIME /\
    EthernetFrame._header (tf.2) = EthernetHeader.mk mac src EthernetHeader.TYPE_IPv4;
  fr_payload : IPv4Datagram.serialize (e.1) = Ok (EthernetFrame._payload (tf.2))
}.

Lemma app_subseteq_l {A} (l k : list A) : l ⊆ l ++ k.
Proof. intros x Hx. apply elem_of_app. by left. Qed.

Lemma framed_mono src log log' tf e : log ⊆ log' -> framed src log tf e -> framed src log' tf e.
Proof. intros Hl [(ip & mac & time & ? & ? & ?) ?]. split; [exists ip, mac, time|]; auto. Qed.

(** Requests for one address are at least 5 seconds apart. *)
Definition spaced (a b : Z * Z) : Prop := a.2 = b.2 -> a.1 + ARP_REQ_BLOCKING_TIME <= b.1.

(** The invariant, [tmp] being datagrams taken from [_pending_list] and not
    yet sent again. *)
Record inv (src : EthernetAddress) (ip : Address.t) (tmp : list (IPv4Datagram.t * Address.t)) (s : t)
    (log : list (Z * event)) : Prop := {
  inv_src : _ethernet_address s = src;
  inv_ip : _ip_address s = ip;
  inv_time : 0 <= _current_time s /\ _current_time s + ARP_VALID_TIME < 2 ^ 64;
  inv_mapping : forall i mac time, _mapping s !! i = Some (mac, time) ->
    (time, Heard i mac) ∈ log /\ 0 <= time <= _current_time s /\ _current_time s < time + ARP_VALID_TIME;
  inv_conserved : exists tr, accepted log ≡ₚ tr ++ _pending_list s ++ tmp /\
    Forall2 (framed src log) (sent log) tr;
  inv_blocking : forall i time, _blocking_mapping s !! i = Some time -> 0 <= time <= _current_time s;
  inv_requests : forall time i, (time, i) ∈ requests log ->
    time + ARP_REQ_BLOCKING_TIME <= _current_time s \/
    exists time', _blocking_mapping s !! i = Some time' /\ time <= time';
  inv_spaced : StronglySorted spaced (requests log)
}.

Lemma interface_init_inv mac ip : inv mac ip [] (init mac ip) [].
Proof.
  split; [done|done|by vm_compute| | | | |]; cbn.
  - by intros i m time ?%lookup_empty_Some.
  - exists []. split; [done|constructor].
  - by intros i time ?%lookup_empty_Some.
  - by intros time i ?%elem_of_nil.
  - constructor.
Qed.

(** An event that neither asks for an address nor queues an IPv4 frame. *)
Definition quiet (e : event) : Prop :=
  match e with Emitted f => is_ipv4 f = false /\ requested f = None | _ => True end.

Lemma quiet_logs time e log :
  quiet e -> sent (log ++ [(time, e)]) = sent log /\ requests (log ++ [(time, e)]) = requests log.
Proof.
  intros Hq. unfold sent, requests. rewrite !omap_app. destruct e as [| |f]; cbn; rewrite ?app_nil_r; [done|done|].
  destruct Hq as [-> ->]. cbn. by rewrite !app_nil_r.
Qed.

Lemma inv_quiet src ip tmp s log e :
  inv src ip tmp s log -> quiet e ->
  inv src ip (tmp ++ accepted [(_current_time s, e)]) s (log ++ [(_current_time s, e)]).
Proof.
  intros [] Hq. destruct (quiet_logs (_current_time s) e log Hq) as [Es Er]. split; auto; rewrite ?Es, ?Er; auto.
  - intros i m time Hi. destruct (inv_mapping0 i m time Hi) as (? & ? & ?). by rewrite elem_of_app; eauto.
  - destruct inv_conserved0 as (tr & Hp & Hf). exists tr. unfold accepted in *. rewrite omap_app, Hp.
    split; [by rewrite <- !app_assoc|]. eapply Forall2_impl; [exact Hf|]. intros tf x. apply framed_mono, app_subseteq_l.
Qed.

Lemma inv_heard src ip tmp s log i m :
  inv src ip tmp s log -> inv src ip tmp (learn i m s) (log ++ [(_current_time s, Heard i m)]).
Proof.
  intros Hi. apply (inv_quiet _ _ _ _ _ (Heard i m)) in Hi; [|done]. cbn in Hi. rewrite app_nil_r in Hi.
  unfold learn. destruct (_mapping s !! i) eqn:E; [done|]. destruct Hi. split; auto; cbn.
  intros j m' time. rewrite lookup_insert_Some. intros [(<- & [= <- <-])|(_ & Hj)]; [|by apply inv_mapping0].
  split; [rewrite elem_of_app, list_elem_of_singleton; by right|]. unfold ARP_VALID_TIME. lia.
Qed.

(** Popping and queueing do not touch the rest of the state. *)
Lemma inv_frames src ip tmp s log q : inv src ip tmp s log -> inv src ip tmp (s <| _frames_out := q |>) log.
Proof. intros []. by split. Qed.

Lemma inv_tick src ip s log ms :
  inv src ip [] s log -> 0 <= ms -> _current_time s + ms + ARP_VALID_TIME < 2 ^ 64 -> inv src ip [] (tick ms s) log.
Proof.
  intros [] Hms Hb. assert (_current_time s ⊕ ms = _current_time s + ms) as E.
  { apply add64_id. unfold ARP_VALID_TIME in *. word_lia. }
  assert (0 < ARP_VALID_TIME) as Hv by done. assert (0 < ARP_REQ_BLOCKING_TIME < ARP_VALID_TIME) as Hr by done.
  split; unfold tick; cbn; rewrite ?E; auto; try lia.
  - intros i m time [Hi Hn]%map_lookup_filter_Some. cbn in Hn. destruct (inv_mapping0 _ _ _ Hi) as (? & ? & ?).
    rewrite add64_id in Hn by (unfold is_u64; lia). split; [done|]. lia.
  - intros i time [Hi Hn]%map_lookup_filter_Some. destruct (inv_blocking0 _ _ Hi). lia.
  - intros time i Hi. destruct (inv_requests0 _ _ Hi) as [?|(time' & Hl & Ht)]; [left; lia|].
    destruct (inv_blocking0 _ _ Hl).
    destruct (decide (time' ⊕ ARP_REQ_BLOCKING_TIME <= _current_time s + ms)) as [Hd|Hd].
    + rewrite add64_id in Hd by (unfold is_u64; lia). left. lia.
    + right. exists time'. split; [|done]. by apply map_lookup_filter_Some.
Qed.

(** ** Sending *)

(** The three outcomes of [send_datagram]. *)
Lemma send_datagram_cases d nh s s' :
  send_datagram d nh s = Ok s' ->
  exists i, Address.ipv4_numeric nh = Ok i /\
  ((exists mac time payload, _mapping s !! i = Some (mac, time) /\ IPv4Datagram.serialize d = Ok payload /\
      s' = push_frame (EthernetFrame.mk (EthernetHeader.mk mac (_ethernet_address s) EthernetHeader.TYPE_IPv4) payload) s) \/
   (_mapping s !! i = None /\ is_Some (_blocking_mapping s !! i) /\
      s' = s <| _pending_list := _pending_list s ++ [(d, nh)] |>) \/
   (exists ip payload, _mapping s !! i = None /\ _blocking_mapping s !! i = None /\
      Address.ipv4_numeric (_ip_address s) = Ok ip /\ ARPMessage.serialize (request_msg s ip i) = Ok payload /\
      s' = push_frame (EthernetFrame.mk (EthernetHeader.mk ETHERNET_BROADCAST (_ethernet_address s) EthernetHeader.TYPE_ARP)
                                        (BufferList.of_string payload))
             (s <| _pending_list := _pending_list s ++ [(d, nh)] |>
                <| _blocking_mapping := <[i := _current_time s]> (_blocking_mapping s) |>))).
Proof.
  unfold send_datagram. intros (i & Hi & H)%result_bind_Ok. exists i. split; [done|].
  destruct (_mapping s !! i) as [[mac time]|] eqn:Em.
  - apply result_bind_Ok in H as (payload & Hs & [= <-]). left. by exists mac, time, payload.
  - right. case_bool_decide as Hb; [by simplify_eq; left|]. right. cbn in Hb.
    apply result_bind_Ok in H as (ip & Hip & H). apply result_bind_Ok in H as (payload & Hs & [= <-]).
    exists ip, payload. split; [done|]. split; [by apply eq_None_not_Some|done].
Qed.

Lemma emit_known src ip tmp s log d nh i mac time payload :
  inv src ip ((d, nh) :: tmp) s log ->
  Address.ipv4_numeric nh = Ok i -> _mapping s !! i = Some (mac, time) -> IPv4Datagram.serialize d = Ok payload ->
  let f := EthernetFrame.mk (EthernetHeader.mk mac src EthernetHeader.TYPE_IPv4) payload in
  inv src ip tmp s (log ++ [(_current_time s, Emitted f)]).
Proof.
  intros [] Hi Hm Hp f.
  assert (requests (log ++ [(_current_time s, Emitted f)]) = requests log) as Er.
  { unfold requests. rewrite omap_app. cbn. by rewrite app_nil_r. }
  split; auto; rewrite ?Er; auto.
  - intros j m' time' Hj. destruct (inv_mapping0 j m' time' Hj) as (? & ? & ?). by rewrite elem_of_app; eauto.
  - destruct inv_conserved0 as (tr & Hperm & Hf). exists (tr ++ [(d, nh)]).
    unfold accepted, sent in *. rewrite !omap_app. cbn. rewrite app_nil_r. split.
    + rewrite Hperm, <- app_assoc. apply Permutation_app_head. cbn. by rewrite Permutation_middle.
    + apply Forall2_app; [eapply Forall2_impl; [exact Hf|]; intros ??; apply framed_mono, app_subseteq_l|].
      constructor; [|constructor]. split; [|done]. destruct (inv_mapping0 _ _ _ Hm) as (? & ? & ?).
      exists i, mac, time. split; [done|]. split; [rewrite elem_of_app; by left|]. split; [cbn; lia|done].
Qed.

Lemma emit_request src ip tmp s log d nh i f :
  inv src ip ((d, nh) :: tmp) s log -> _blocking_mapping s !! i = None ->
  is_ipv4 f = false -> requested f = Some i ->
  inv src ip tmp (s <| _pending_list := _pending_list s ++ [(d, nh)] |>
                    <| _blocking_mapping := <[i := _current_time s]> (_blocking_mapping s) |>)
    (log ++ [(_current_time s, Emitted f)]).
Proof.
  intros [] Hb Hf Hr.
  assert (requests (log ++ [(_current_time s, Emitted f)]) = requests log ++ [(_current_time s, i)]) as Er.
  { unfold requests. rewrite omap_app. cbn. by rewrite Hr. }
  assert (sent (log ++ [(_current_time s, Emitted f)]) = sent log) as Es.
  { unfold sent. rewrite omap_app. cbn. rewrite Hf. by rewrite app_nil_r. }
  split; auto; rewrite ?Er, ?Es; cbn.
  - intros j m' time' Hj. destruct (inv_mapping0 j m' time' Hj) as (? & ? & ?). by rewrite elem_of_app; eauto.
  - destruct inv_conserved0 as (tr & Hperm & Hfr). exists tr. unfold accepted in *. rewrite omap_app. cbn.
    rewrite app_nil_r, Hperm. split; [by rewrite <- (app_assoc (_pending_list s))|].
    eapply Forall2_impl; [exact Hfr|]; intros ??; apply framed_mono, app_subseteq_l.
  - intros j time. rewrite lookup_insert_Some. intros [(<- & <-)|(_ & Hj)]; [lia|by apply inv_blocking0 in Hj].
  - intros time j. rewrite elem_of_app, list_elem_of_singleton. intros [Hin|[= -> ->]].
    + destruct (inv_requests0 _ _ Hin) as [?|(time' & Hl & ?)]; [by left|]. right.
      assert (i <> j) by congruence. exists time'. by rewrite lookup_insert_ne.
    + right. exists (_current_time s). by rewrite lookup_insert_eq.
  - apply StronglySorted_app. split; [|split; [done|]]; [|by repeat constructor].
    intros [time j] x2 Hin ->%list_elem_of_singleton Hj. cbn in Hj. subst j.
    destruct (inv_requests0 _ _ Hin) as [?|(time' & Hl & ?)]; [done|congruence].
Qed.

Lemma send_inv src ip tmp s log d nh s' :
  length src = 6%nat -> inv src ip ((d, nh) :: tmp) s log -> send_datagram d nh s = Ok s' ->
  exists new, _frames_out s' = _frames_out s ++ new /\ _current_time s' = _current_time s /\
    inv src ip tmp s' (log ++ at_time s (Emitted <$> new)).
Proof.
  intros Hlen Hinv (i & Hi & [(mac & time & payload & Hm & Hp & ->)|[(Hm & Hb & ->)|(own & payload & Hm & Hb & Hown & Hp & ->)]])%send_datagram_cases;
    pose proof (inv_src _ _ _ _ _ Hinv) as Hsrc.
  - eexists [_]. split; [done|]. split; [done|]. apply inv_frames. rewrite Hsrc. by eapply emit_known.
  - exists []. split; [by rewrite app_nil_r|]. split; [done|]. cbn. rewrite app_nil_r. destruct Hinv. split; auto.
    destruct inv_conserved0 as (tr & Hperm & Hf). exists tr. split; [|done]. rewrite Hperm. cbn.
    by rewrite <- (app_assoc (_pending_list s)).
  - eexists [_]. split; [done|]. split; [done|]. apply inv_frames. apply emit_request; [done|done|done|].
    erewrite requested_arp; [|done| |done]; [done|].
    apply request_msg_wf; [congruence|by eapply ipv4_numeric_range..].
Qed.

Lemma split_pending_perm ip l tmp rest : split_pending ip l = Ok (tmp, rest) -> l ≡ₚ tmp ++ rest.
Proof.
  revert tmp rest. induction l as [|e l IH]; cbn; intros tmp rest.
  - by intros [= <- <-].
  - intros (i & _ & ([t' r'] & Hl & H)%result_bind_Ok)%result_bind_Ok. pose proof (IH _ _ Hl) as Hp.
    destruct (i =? ip); simplify_eq/=; rewrite Hp; [done|]. by rewrite Permutation_middle.
Qed.

Lemma send_list_inv src ip tmp s log s' :
  length src = 6%nat -> inv src ip tmp s log -> send_list tmp s = Ok s' ->
  exists new, _frames_out s' = _frames_out s ++ new /\ _current_time s' = _current_time s /\
    inv src ip [] s' (log ++ at_time s (Emitted <$> new)).
Proof.
  intros Hlen. revert s log. induction tmp as [|[d nh] tmp IH]; intros s log Hinv; cbn.
  - intros [= <-]. exists []. cbn. by rewrite !app_nil_r.
  - intros (s1 & Hs & Hl)%result_bind_Ok.
    destruct (send_inv _ _ _ _ _ _ _ _ Hlen Hinv Hs) as (n1 & F1 & T1 & I1).
    destruct (IH _ _ I1 Hl) as (n2 & F2 & T2 & I2). exists (n1 ++ n2).
    rewrite F2, F1, T2, T1, <- app_assoc. split; [done|]. split; [done|].
    unfold at_time in *. rewrite T1 in I2. rewrite !fmap_app, app_assoc. exact I2.
Qed.

(** ** Receiving *)

Lemma to_Buffer_wf l b : BufferList.wf l -> BufferList.to_Buffer l = Ok b -> Buffer.wf b.
Proof.
  intros Hl. destruct l as [|x [|y l]]; cbn; intros [= <-]; [done|]. by apply Forall_cons in Hl as [? _].
Qed.

(** A frame with a well-formed ARP message for us. *)
Definition arp_frame (frame : EthernetFrame.t) (s : t) (msg : ARPMessage.t) : Prop :=
  for_me frame s = true /\ EthernetHeader.type (EthernetFrame.header frame) = EthernetHeader.TYPE_ARP /\
  exists b, BufferList.to_Buffer (EthernetFrame.payload frame) = Ok b /\
    ARPMessage.parse b ARPMessage.init = Ok (NoError, msg).

Lemma arp_frame_wf frame s msg :
  BufferList.wf (EthernetFrame.payload frame) -> arp_frame frame s msg ->
  ARPMessage.wf msg /\ ARPMessage.supported msg = true.
Proof.
  intros Hw (_ & _ & b & Hb & Hp).
  destruct (ARPMessage.arp_message_parse_total b ARPMessage.init) as (r & m & E & Hm & Hs & _);
    [by eapply to_Buffer_wf|apply ARPMessage.arp_init_wf|]. rewrite Hp in E. simplify_eq. auto.
Qed.

Lemma supported_opcode msg :
  ARPMessage.supported msg = true ->
  ARPMessage.opcode msg = ARPMessage.OPCODE_REPLY \/ ARPMessage.opcode msg = ARPMessage.OPCODE_REQUEST.
Proof.
  unfold ARPMessage.supported. rewrite !andb_true_iff, orb_true_iff, !Z.eqb_eq. tauto.
Qed.

(** What [recv_frame] does with an ARP message. *)
Definition recv_arp (msg : ARPMessage.t) (s : t) : result t :=
  let s := learn (ARPMessage.sender_ip_address msg) (ARPMessage.sender_ethernet_address msg) s in
  if ARPMessage.opcode msg =? ARPMessage.OPCODE_REPLY then recv_reply msg s
  else if ARPMessage.opcode msg =? ARPMessage.OPCODE_REQUEST then recv_request msg s else Ok s.

Lemma recv_frame_arp frame s msg :
  arp_frame frame s msg ->
  recv_frame frame s = (s ← recv_arp msg s; Ok (None, s)) /\
  heard frame s = [Heard (ARPMessage.sender_ip_address msg) (ARPMessage.sender_ethernet_address msg)].
Proof.
  intros (Hme & Ht & b & Hb & Hp). unfold recv_frame, heard, recv_arp. rewrite Hme, Ht, Hb. cbn. rewrite Hp. cbn.
  split; [|done]. destruct (ARPMessage.opcode msg =? ARPMessage.OPCODE_REPLY); [done|].
  by destruct (ARPMessage.opcode msg =? ARPMessage.OPCODE_REQUEST).
Qed.

Lemma recv_frame_other frame s o s' :
  recv_frame frame s = Ok (o, s') -> (forall msg, ~ arp_frame frame s msg) -> s' = s /\ heard frame s = [].
Proof.
  unfold recv_frame, heard. intros H Hn. destruct (for_me frame s) eqn:Hme; cbn in *; [|by simplify_eq].
  destruct (Z.eqb_spec (EthernetHeader.type (EthernetFrame.header frame)) EthernetHeader.TYPE_ARP) as [Ht|Ht]; cbn in *.
  - apply result_bind_Ok in H as (b & Hb & ([r m] & Hp & H)%result_bind_Ok). rewrite Hb. cbn. rewrite Hp.
    destruct r; simplify_eq/=; try done. exfalso. apply (Hn m). split; [done|]. eauto.
  - split; [|done]. destruct (_ =? EthernetHeader.TYPE_IPv4); [|by simplify_eq].
    apply result_bind_Ok in H as (b & _ & ([r d] & _ & H)%result_bind_Ok). case_bool_decide; by simplify_eq.
Qed.

Lemma arp_frame_dec frame s : {msg | arp_frame frame s msg} + {forall msg, ~ arp_frame frame s msg}.
Proof.
  unfold arp_frame. destruct (for_me frame s); [|by right; intros m []].
  destruct (decide (EthernetHeader.type (EthernetFrame.header frame) = EthernetHeader.TYPE_ARP)); [|by right; intros m (_ & ? & _)].
  destruct (BufferList.to_Buffer (EthernetFrame.payload frame)) as [b| |];
    [|right; intros m (_ & _ & ? & ? & _); done..].
  destruct (ARPMessage.parse b ARPMessage.init) as [[r m]| |] eqn:E;
    [|right; intros m (_ & _ & ? & [= <-] & ?); congruence..].
  destruct (decide (r = NoError)) as [->|]; [left; eauto 10|right]. intros m' (_ & _ & ? & [= <-] & ?). congruence.
Qed.

Lemma learn_time i m s : _current_time (learn i m s) = _current_time s.
Proof. unfold learn. by case_match. Qed.
Lemma learn_frames i m s : _frames_out (learn i m s) = _frames_out s.
Proof. unfold learn. by case_match. Qed.

Lemma recv_reply_inv src ip s log msg s' :
  length src = 6%nat -> inv src ip [] s log -> recv_reply msg s = Ok s' ->
  exists new, _frames_out s' = _frames_out s ++ new /\ inv src ip [] s' (log ++ at_time s (Emitted <$> new)).
Proof.
  intros Hlen Hinv ([tmp rest] & Hs & Hl)%result_bind_Ok. apply split_pending_perm in Hs.
  assert (inv src ip tmp (s <| _pending_list := rest |>) log) as Hi.
  { destruct Hinv. split; auto. destruct inv_conserved0 as (tr & Hp & Hf). exists tr. split; [|done].
    rewrite Hp, app_nil_r, Hs. cbn. apply Permutation_app_head, Permutation_app_comm. }
  destruct (send_list_inv _ _ _ _ _ _ Hlen Hi Hl) as (new & Hf & _ & Hi'). by exists new.
Qed.

Lemma recv_request_inv src ip s log msg s' :
  length src = 6%nat -> ARPMessage.wf msg -> inv src ip [] s log -> recv_request msg s = Ok s' ->
  exists new, _frames_out s' = _frames_out s ++ new /\ inv src ip [] s' (log ++ at_time s (Emitted <$> new)).
Proof.
  intros Hlen Hw Hinv (own & Hown & H)%result_bind_Ok. destruct (_ =? own); cbn [negb] in H.
  - apply result_bind_Ok in H as (payload & Hp & [= <-]). unfold push_frame.
    match goal with |- context [_frames_out s ++ [?f]] => exists [f]; assert (quiet (Emitted f)) as Hq end.
    2:{ split; [done|]. apply inv_frames, (inv_quiet _ _ _ _ _ _ Hinv Hq). }
    split; [done|]. erewrite requested_arp; [|done| |done]; [done|].
    apply reply_msg_wf; [by rewrite (inv_src _ _ _ _ _ Hinv)|by eapply ipv4_numeric_range|done].
  - injection H as <-. exists []. cbn. by rewrite !app_nil_r.
Qed.

Lemma recv_inv src ip s log frame o s' :
  length src = 6%nat -> inv src ip [] s log -> BufferList.wf (EthernetFrame.payload frame) ->
  recv_frame frame s = Ok (o, s') ->
  exists new, _frames_out s' = _frames_out s ++ new /\
    inv src ip [] s' (log ++ at_time s (heard frame s ++ (Emitted <$> new))).
Proof.
  intros Hlen Hinv Hw Hr. destruct (arp_frame_dec frame s) as [[msg Ha]|Hn].
  2:{ destruct (recv_frame_other _ _ _ _ Hr Hn) as [-> ->]. exists []. cbn. by rewrite !app_nil_r. }
  destruct (recv_frame_arp _ _ _ Ha) as [E ->]. rewrite E in Hr. apply result_bind_Ok in Hr as (s1 & Hr & [= _ <-]).
  destruct (arp_frame_wf _ _ _ Hw Ha) as [Hm Hs]. unfold recv_arp in Hr. cbn zeta in Hr.
  set (l := learn _ _ _) in *.
  apply (inv_heard _ _ _ _ _ (ARPMessage.sender_ip_address msg) (ARPMessage.sender_ethernet_address msg)) in Hinv.
  fold l in Hinv.
  assert (exists new, _frames_out s1 = _frames_out l ++ new /\
    inv src ip [] s1 ((log ++ [(_current_time s, Heard (ARPMessage.sender_ip_address msg) (ARPMessage.sender_ethernet_address msg))])
       ++ at_time l (Emitted <$> new))) as (new & Hf & Hi).
  { destruct (supported_opcode _ Hs) as [Ho|Ho]; rewrite Ho in Hr; cbn in Hr;
      [by apply (recv_reply_inv _ _ _ _ msg)|by apply (recv_request_inv _ _ _ _ msg)]. }
  exists new. unfold l in Hf. rewrite learn_frames in Hf. split; [done|].
  unfold at_time in *. unfold l in Hi. rewrite learn_time, <- app_assoc in Hi. exact Hi.
Qed.

Lemma reachable_inv mac ip c : length mac = 6%nat -> reachable mac ip c -> inv mac ip [] (c.1) (c.2).
Proof.
  intros Hlen. revert c. refine (rtc_ind_r _ _ _ _); [apply interface_init_inv|].
  intros c c' _ Hs Hinv. destruct Hs as [s log d nh s' new Hd Hf|s log frame o s' new Hw Hr Hf|s log ms ? ?|s log f rest Hf];
    cbn in *.
  - apply (inv_quiet _ _ _ _ _ (Accepted d nh)) in Hinv; [|done].
    destruct (send_inv _ _ _ _ _ _ _ _ Hlen Hinv Hd) as (n & Hn & _ & Hi). rewrite Hn in Hf. apply app_inv_head in Hf as ->.
    rewrite <- app_assoc in Hi. exact Hi.
  - destruct (recv_inv _ _ _ _ _ _ _ Hlen Hinv Hw Hr) as (n & Hn & Hi). rewrite Hn in Hf.
    by apply app_inv_head in Hf as ->.
  - by apply inv_tick.
  - by apply inv_frames.
Qed.

(** ** What the interface promises *)

(** C29: no datagram is lost, duplicated or misaddressed.  The datagrams
    accepted so far are, up to order, those waiting for an ARP reply and those
    in the IPv4 frames queued so far; each such frame is addressed to the
    Ethernet address that the datagram's next hop announced by ARP less than 30
    seconds before. *)
Theorem interface_delivers mac ip c :
  length mac = 6%nat -> reachable mac ip c ->
  exists tr, accepted (c.2) ≡ₚ tr ++ _pending_list (c.1) /\ Forall2 (framed mac (c.2)) (sent (c.2)) tr.
Proof.
  intros Hlen Hr. destruct (inv_conserved _ _ _ _ _ (reachable_inv _ _ _ Hlen Hr)) as (tr & Hp & Hf).
  exists tr. by rewrite app_nil_r in Hp.
Qed.

(** C30: no ARP flood.  Two ARP requests for the same address are never less
    than 5 seconds apart. *)
Theorem interface_no_flood mac ip c :
  length mac = 6%nat -> reachable mac ip c -> StronglySorted spaced (requests (c.2)).
Proof. intros Hlen Hr. apply (inv_spaced _ _ _ _ _ (reachable_inv _ _ _ Hlen Hr)). Qed.

(** A datagram that can be sent to an IPv4 next hop. *)
Definition deliverable (e : IPv4Datagram.t * Address.t) : Prop :=
  IPv4Datagram.sendable (e.1) /\ exists i, Address.ipv4_numeric (e.2) = Ok i.

Lemma request_supported s ip i : ARPMessage.supported (request_msg s ip i) = true.
Proof. done. Qed.
Lemma reply_supported s ip msg : ARPMessage.supported (reply_msg s ip msg) = true.
Proof. done. Qed.

Lemma send_total s e own :
  deliverable e -> Address.ipv4_numeric (_ip_address s) = Ok own -> exists s', send_datagram (e.1) (e.2) s = Ok s'.
Proof.
  intros [Hd [i Hi]] Ho. unfold send_datagram. rewrite Hi. cbn [mbind result_bind].
  destruct (_mapping s !! i) as [[m time]|].
  - destruct (IPv4Datagram.ipv4_datagram_wire _ Hd) as (l & v & -> & _). by eexists.
  - case_bool_decide; [by eexists|]. cbn [_ip_address upd]. rewrite Ho. cbn [mbind result_bind].
    rewrite ARPMessage.arp_message_wire by apply request_supported. by eexists.
Qed.

Lemma send_datagram_ip d nh s s' : send_datagram d nh s = Ok s' -> _ip_address s' = _ip_address s.
Proof. intros (i & _ & [(?&?&?&?&?&->)|[(?&?&->)|(?&?&?&?&?&?&->)]])%send_datagram_cases; done. Qed.

Lemma send_list_total l s own :
  Forall deliverable l -> Address.ipv4_numeric (_ip_address s) = Ok own -> exists s', send_list l s = Ok s'.
Proof.
  intros Hl. revert s. induction Hl as [|e l He Hl IH]; intros s Ho; cbn; [by eexists|].
  destruct (send_total s e own He Ho) as [s1 Hs]. rewrite Hs. cbn [mbind result_bind]. apply IH.
  by rewrite (send_datagram_ip _ _ _ _ Hs).
Qed.

(** The loop over [_pending_list] separates it, keeping the order. *)
Lemma split_pending_eq ip l :
  Forall deliverable l ->
  split_pending ip l = Ok (filter (fun e => Address.ipv4_numeric (e.2) = Ok ip) l,
                           filter (fun e => Address.ipv4_numeric (e.2) <> Ok ip) l).
Proof.
  induction 1 as [|e l [_ [i Hi]] Hl IH]; cbn [split_pending]; [done|]. rewrite Hi. cbn [mbind result_bind]. rewrite IH. cbn [mbind result_bind].
  destruct (Z.eqb_spec i ip) as [->|Hne].
  - rewrite filter_cons_True by done. by rewrite filter_cons_False by tauto.
  - rewrite filter_cons_False by congruence. by rewrite filter_cons_True by congruence.
Qed.

Lemma learn_ip i m s : _ip_address (learn i m s) = _ip_address s.
Proof. unfold learn. by case_match. Qed.
Lemma learn_pending i m s : _pending_list (learn i m s) = _pending_list s.
Proof. unfold learn. by case_match. Qed.

Lemma recv_arp_total s msg own :
  Forall deliverable (_pending_list s) -> Address.ipv4_numeric (_ip_address s) = Ok own ->
  exists s', recv_arp msg s = Ok s'.
Proof.
  intros Hd Ho. unfold recv_arp. cbn zeta. set (l := learn _ _ _).
  assert (_ip_address l = _ip_address s /\ _pending_list l = _pending_list s) as [E1 E2]
    by (split; [apply learn_ip|apply learn_pending]).
  repeat case_match; [| |by eexists].
  - unfold recv_reply. rewrite E2, split_pending_eq by done. cbn [mbind result_bind].
    apply (send_list_total _ _ own); [|by cbn; rewrite E1].
    rewrite Forall_forall in *. intros e [_ He]%list_elem_of_filter. auto.
  - unfold recv_request. rewrite E1, Ho. cbn [mbind result_bind]. case_match; [by eexists|].
    rewrite ARPMessage.arp_message_wire by apply reply_supported. by eexists.
Qed.

(** C31: nothing the interface is given makes it throw.  If every datagram
    accepted so far had a length field that fits its payload and an IPv4 next
    hop, then [send_datagram] returns on every such datagram, and [recv_frame]
    returns on every frame whose payload is one buffer, whatever its bytes. *)
Theorem interface_total mac ip own c :
  length mac = 6%nat -> Address.ipv4_numeric ip = Ok own -> reachable mac ip c ->
  Forall deliverable (accepted (c.2)) ->
  (forall e, deliverable e -> exists s', send_datagram (e.1) (e.2) (c.1) = Ok s') /\
  (forall hdr b, Buffer.wf b -> exists o s', recv_frame (EthernetFrame.mk hdr [b]) (c.1) = Ok (o, s')).
Proof.
  intros Hlen Ho Hr Hd. pose proof (reachable_inv _ _ _ Hlen Hr) as Hinv. destruct c as [s log]. cbn in *.
  assert (Address.ipv4_numeric (_ip_address s) = Ok own) as Hown by (by rewrite (inv_ip _ _ _ _ _ Hinv)).
  assert (Forall deliverable (_pending_list s)) as Hp.
  { destruct (inv_conserved _ _ _ _ _ Hinv) as (tr & Hperm & _). rewrite Hperm, app_nil_r in Hd.
    by apply Forall_app in Hd as [_ ?]. }
  split; [by intros e He; apply (send_total s e own)|]. intros hdr b Hb.
  destruct (arp_frame_dec (EthernetFrame.mk hdr [b]) s) as [[msg Ha]|Hn].
  - rewrite (proj1 (recv_frame_arp _ _ _ Ha)). destruct (recv_arp_total s msg own Hp Hown) as [s' ->]. cbn. eauto.
  - unfold recv_frame. cbn [EthernetFrame.header EthernetFrame._header EthernetFrame.payload EthernetFrame._payload
      BufferList.to_Buffer mbind result_bind] in *.
    destruct (for_me _ s) eqn:Hme; cbn [negb]; [|by eauto].
    destruct (ARPMessage.arp_message_parse_total b ARPMessage.init Hb ARPMessage.arp_init_wf) as (r & m & E & _).
    destruct (IPv4Datagram.ipv4_datagram_parse_ok b IPv4Datagram.init Hb) as (r' & d' & E' & _).
    { split; vm_compute; split; congruence. }
    rewrite E, E'. cbn [mbind result_bind].
    destruct (Z.eqb_spec (EthernetHeader.type hdr) EthernetHeader.TYPE_ARP) as [Ht|Ht]; [|by repeat case_match; eauto].
    case_bool_decide; cbn [negb]; [|by eauto]. subst r. exfalso. apply (Hn m). split; [done|]. split; [done|].
    by exists b.
Qed.

(** The frame that carries [e] to the Ethernet address [mac]. *)
Definition carried (src mac : EthernetAddress) (e : IPv4Datagram.t * Address.t) (f : EthernetFrame.t) : Prop :=
  EthernetFrame._header f = EthernetHeader.mk mac src EthernetHeader.TYPE_IPv4 /\
  IPv4Datagram.serialize (e.1) = Ok (EthernetFrame._payload f).

Lemma send_list_known l s i mac time :
  Forall deliverable l -> Forall (fun e => Address.ipv4_numeric (e.2) = Ok i) l ->
  _mapping s !! i = Some (mac, time) ->
  exists new, send_list l s = Ok (s <| _frames_out := _frames_out s ++ new |>) /\
    Forall2 (carried (_ethernet_address s) mac) l new.
Proof.
  intros Hd Hi. revert s. induction l as [|e l IH]; intros s Hm.
  { exists []. split; [|constructor]. cbn. rewrite app_nil_r. by destruct s. }
  apply Forall_cons in Hd as [[Hs _] Hd]. apply Forall_cons in Hi as [He Hi].
  destruct (IPv4Datagram.ipv4_datagram_wire _ Hs) as (payload & v & Hser & _).
  cbn [send_list]. unfold send_datagram. rewrite He. cbn [mbind result_bind]. rewrite Hm, Hser. cbn [mbind result_bind].
  match goal with |- context [push_frame ?f s] =>
    destruct (IH Hd Hi (push_frame f s) Hm) as (new & E & Hf); exists (f :: new) end.
  rewrite E. cbn. rewrite <- app_assoc. split; [done|]. constructor; [done|exact Hf].
Qed.

(** An ARP reply releases every datagram that was waiting for its sender,
    in order, each in one frame to the sender's Ethernet address, and leaves
    the others waiting. *)
Theorem interface_flush frame s msg :
  BufferList.wf (EthernetFrame.payload frame) -> arp_frame frame s msg ->
  ARPMessage.opcode msg = ARPMessage.OPCODE_REPLY -> Forall deliverable (_pending_list s) ->
  exists s' new mac time,
    recv_frame frame s = Ok (None, s') /\
    _mapping s' !! ARPMessage.sender_ip_address msg = Some (mac, time) /\
    (_mapping s !! ARPMessage.sender_ip_address msg = None -> mac = ARPMessage.sender_ethernet_address msg) /\
    _frames_out s' = _frames_out s ++ new /\
    Forall2 (carried (_ethernet_address s) mac)
      (filter (fun e => Address.ipv4_numeric (e.2) = Ok (ARPMessage.sender_ip_address msg)) (_pending_list s)) new /\
    _pending_list s' = filter (fun e => Address.ipv4_numeric (e.2) <> Ok (ARPMessage.sender_ip_address msg)) (_pending_list s).
Proof.
  intros Hw Ha Ho Hd. rewrite (proj1 (recv_frame_arp _ _ _ Ha)). unfold recv_arp. rewrite Ho. cbn zeta.
  change (ARPMessage.OPCODE_REPLY =? ARPMessage.OPCODE_REPLY) with true.
  set (ip := ARPMessage.sender_ip_address msg). set (mac := ARPMessage.sender_ethernet_address msg).
  assert (exists m time, _mapping (learn ip mac s) !! ip = Some (m, time) /\ (_mapping s !! ip = None -> m = mac))
    as (m & time & Hm & Hmac).
  { unfold learn. destruct (_mapping s !! ip) as [[m time]|] eqn:E; [by exists m, time|].
    exists mac, (_current_time s). cbn. by rewrite lookup_insert_eq. }
  unfold recv_reply. fold ip. rewrite learn_pending, split_pending_eq by done. cbn [mbind result_bind].
  destruct (send_list_known (filter (fun e => Address.ipv4_numeric (e.2) = Ok ip) (_pending_list s))
    ((learn ip mac s) <| _pending_list := filter (fun e => Address.ipv4_numeric (e.2) <> Ok ip) (_pending_list s) |>)
    ip m time) as (new & -> & Hf); [| |exact Hm|].
  - rewrite Forall_forall in *. intros e [_ He]%list_elem_of_filter. auto.
  - rewrite Forall_forall. by intros e [He _]%list_elem_of_filter.
  - cbn [mbind result_bind]. do 2 eexists. exists m, time. split; [done|]. split; [exact Hm|]. split; [done|].
    split; [cbn; by rewrite learn_frames|]. split; [|done].
    assert (_ethernet_address (learn ip mac s) = _ethernet_address s) as <- by (unfold learn; by case_match).
    exact Hf.
Qed.

(** An ARP request for the interface's own address is answered with one
    reply, addressed to the asker and naming the interface's addresses; one
    for another address is not answered.  Either way the asker's mapping is
    known afterwards. *)
Theorem interface_answers frame s msg own :
  BufferList.wf (EthernetFrame.payload frame) -> arp_frame frame s msg ->
  ARPMessage.opcode msg = ARPMessage.OPCODE_REQUEST -> Address.ipv4_numeric (_ip_address s) = Ok own ->
  length (_ethernet_address s) = 6%nat ->
  exists s' new,
    recv_frame frame s = Ok (None, s') /\ _frames_out s' = _frames_out s ++ new /\
    is_Some (_mapping s' !! ARPMessage.sender_ip_address msg) /\ _pending_list s' = _pending_list s /\
    if ARPMessage.target_ip_address msg =? own then
      exists payload, new = [EthernetFrame.mk (EthernetHeader.mk (ARPMessage.sender_ethernet_address msg)
                                              (_ethernet_address s) EthernetHeader.TYPE_ARP) (BufferList.of_string payload)] /\
        ARPMessage.parse (Buffer.of_string payload) ARPMessage.init =
          Ok (NoError, reply_msg s own msg)
    else new = [].
Proof.
  intros Hw Ha Ho Hown Hlen. destruct (arp_frame_wf _ _ _ Hw Ha) as [Hm _].
  rewrite (proj1 (recv_frame_arp _ _ _ Ha)). unfold recv_arp. rewrite Ho. cbn zeta.
  change (ARPMessage.OPCODE_REQUEST =? ARPMessage.OPCODE_REPLY) with false.
  change (ARPMessage.OPCODE_REQUEST =? ARPMessage.OPCODE_REQUEST) with true. cbn iota.
  set (l := learn _ _ _).
  assert (_ip_address l = _ip_address s /\ _pending_list l = _pending_list s /\ _frames_out l = _frames_out s /\
    _ethernet_address l = _ethernet_address s /\ is_Some (_mapping l !! ARPMessage.sender_ip_address msg))
    as (E1 & E2 & E3 & E4 & E5).
  { unfold l, learn. case_match eqn:E; cbn; [by rewrite E|]. by rewrite lookup_insert_eq. }
  unfold recv_request. rewrite E1, Hown. cbn [mbind result_bind].
  destruct (ARPMessage.target_ip_address msg =? own); cbn [negb mbind result_bind].
  - assert (reply_msg l own msg = reply_msg s own msg) as -> by (unfold reply_msg; by rewrite E4).
    destruct (ARPMessage.arp_message_read_back (reply_msg s own msg) ARPMessage.init) as (payload & Hs & _ & Hp);
      [apply reply_msg_wf; [done|by eapply ipv4_numeric_range|done]|apply reply_supported|].
    rewrite Hs. cbn [mbind result_bind]. do 2 eexists. split; [done|]. split; [cbn; by rewrite E3|].
    split; [done|]. split; [done|]. exists payload. rewrite E4. done.
  - exists l, []. rewrite app_nil_r. done.
Qed.

(** ** Concrete runs: the interface 10.0.0.1 and its neighbour 10.0.0.2 *)
Definition mac_a : EthernetAddress := [x02; x00; x00; x00; x00; x01].
Definition mac_b : EthernetAddress := [x02; x00; x00; x00; x00; x02].
Definition ip_a : Z := 0x0a000001.
Definition ip_b : Z := 0x0a000002.

Definition arp_from_b (opcode : Z) (dst : EthernetAddress) : EthernetFrame.t :=
  let msg := ARPMessage.init <| ARPMessage.opcode := opcode |>
    <| ARPMessage.sender_ethernet_address := mac_b |> <| ARPMessage.sender_ip_address := ip_b |>
    <| ARPMessage.target_ip_address := ip_a |> in
  match ARPMessage.serialize msg with
  | Ok payload => EthernetFrame.mk (EthernetHeader.mk dst mac_b EthernetHeader.TYPE_ARP) (BufferList.of_string payload)
  | _ => EthernetFrame.init
  end.

Definition start : t := init mac_a (Address.ipv4 ip_a 0).
Definition to_b : Address.t := Address.ipv4 ip_b 0.

(** One datagram is waiting for the address of 10.0.0.2. *)
Definition waiting : t := match send_datagram IPv4Datagram.sample to_b start with Ok s => s | _ => start end.

Lemma sample_deliverable : deliverable (IPv4Datagram.sample, to_b).
Proof.
  split; [|exists ip_b; reflexivity].
  split; [split; vm_compute; split; congruence|vm_compute; reflexivity|vm_compute; congruence|vm_compute; reflexivity].
Qed.

(** A datagram is sent, the reply arrives 100 ms later. *)
Lemma sample_trace : exists c : config,
  reachable mac_a (Address.ipv4 ip_a 0) c /\ length (sent (c.2)) = 1%nat /\ length (requests (c.2)) = 1%nat /\
  accepted (c.2) = [(IPv4Datagram.sample, to_b)].
Proof.
  eexists. split; [|shelve].
  eapply rtc_l; [eapply (step_send _ _ IPv4Datagram.sample to_b); vm_compute; reflexivity|].
  eapply rtc_l; [eapply step_pop; reflexivity|].
  eapply rtc_l; [eapply (step_tick _ _ 100); [lia|by vm_compute]|].
  eapply rtc_l; [|apply rtc_refl].
  eapply (step_recv _ _ (arp_from_b ARPMessage.OPCODE_REPLY mac_a)); [|vm_compute; reflexivity|vm_compute; reflexivity].
  apply Forall_singleton, Buffer.of_string_wf. by vm_compute.
  Unshelve. split; [|split]; vm_compute; reflexivity.
Qed.

Lemma interface_delivers_witness : exists (c : config) tr,
  length (sent (c.2)) = 1%nat /\ accepted (c.2) ≡ₚ tr ++ _pending_list (c.1) /\ Forall2 (framed mac_a (c.2)) (sent (c.2)) tr.
Proof.
  destruct sample_trace as (c & Hr & Hl & _). exists c.
  destruct (interface_delivers mac_a (Address.ipv4 ip_a 0) c eq_refl Hr) as (tr & H1 & H2).
  exists tr. split; [exact Hl|]. split; [exact H1|exact H2].
Defined.

Lemma interface_no_flood_witness : exists c : config,
  length (requests (c.2)) = 1%nat /\ StronglySorted spaced (requests (c.2)).
Proof.
  destruct sample_trace as (c & Hr & _ & Hl & _). exists c. split; [exact Hl|].
  exact (interface_no_flood mac_a (Address.ipv4 ip_a 0) c eq_refl Hr).
Defined.

Lemma interface_total_witness : exists c : config,
  accepted (c.2) = [(IPv4Datagram.sample, to_b)] /\
  exists o s', recv_frame (EthernetFrame.mk EthernetHeader.init [Buffer.of_string [x00]]) (c.1) = Ok (o, s').
Proof.
  destruct sample_trace as (c & Hr & _ & _ & Ha). exists c. split; [exact Ha|].
  destruct (interface_total mac_a (Address.ipv4 ip_a 0) ip_a c) as [_ H]; [reflexivity|reflexivity|exact Hr| |].
  - rewrite Ha. apply Forall_singleton, sample_deliverable.
  - apply H, Buffer.of_string_wf. by vm_compute.
Defined.

(** Two gaps in the use of what ARP teaches.  A request from the next hop
    teaches its address but leaves the datagrams that wait for it waiting, and
    a later datagram overtakes them.  And a mapping heard again is not
    renewed: it expires 30 seconds after it was first heard. *)
Theorem interface_arp_gaps :
  (exists s1 s2 f, recv_frame (arp_from_b ARPMessage.OPCODE_REQUEST ETHERNET_BROADCAST) waiting = Ok (None, s1) /\
     is_Some (_mapping s1 !! ip_b) /\ _pending_list s1 = [(IPv4Datagram.sample, to_b)] /\
     send_datagram IPv4Datagram.sample to_b s1 = Ok s2 /\
     _frames_out s2 = _frames_out s1 ++ [f] /\ is_ipv4 f = true /\ _pending_list s2 = [(IPv4Datagram.sample, to_b)]) /\
  (exists s1 s2, recv_frame (arp_from_b ARPMessage.OPCODE_REPLY mac_a) start = Ok (None, s1) /\
     recv_frame (arp_from_b ARPMessage.OPCODE_REPLY mac_a) (tick 29999 s1) = Ok (None, s2) /\
     is_Some (_mapping s2 !! ip_b) /\ _mapping (tick 1 s2) !! ip_b = None).
Proof.
  split.
  - eexists _, _, _. split; [vm_compute; reflexivity|]. split; [by eexists|]. split; [vm_compute; reflexivity|].
    split; [vm_compute; reflexivity|]. split; [vm_compute; reflexivity|]. split; vm_compute; reflexivity.
  - eexists _, _. split; [vm_compute; reflexivity|]. split; [vm_compute; reflexivity|]. split; [by eexists|].
    vm_compute. reflexivity.
Qed.

End NetworkInterface.
