(* ===== verification/router.v ===== *)
(** * [libsponge/router.*]

    The asynchronous network interface and the router: longest-prefix-match
    forwarding of the datagrams that its interfaces received. *)

From S2P Require Import Prelude.
From S2P Require Import buffer.
From S2P Require Import parser.
From S2P Require Import ipv4_datagram.
From S2P Require Import ethernet_frame.
From S2P Require Import address.
From S2P Require Import network_interface.

Module AsyncNetworkInterface.

Record t : Type := mk { base : NetworkInterface.t; _datagrams_out : list IPv4Datagram.t }.

#[global] Instance eta_t : Eta t := fun s => mk (base s) (_datagrams_out s).

Definition of_interface (interface : NetworkInterface.t) : t := mk interface [].

Definition recv_frame (frame : EthernetFrame.t) (s : t) : result t :=
  '(optional_dgram, b) ← NetworkInterface.recv_frame frame (base s);
  let s := s <| base := b |> in
  match optional_dgram with
  | Some dgram => Ok (s <| _datagrams_out := _datagrams_out s ++ [dgram] |>)
  | None => Ok s
  end.

Definition datagrams_out (s : t) : list IPv4Datagram.t := _datagrams_out s.

(** Inherited. *)
Definition send_datagram (dgram : IPv4Datagram.t) (next_hop : Address.t) (s : t) : result t :=
  b ← NetworkInterface.send_datagram dgram next_hop (base s);
  Ok (s <| base := b |>).

End AsyncNetworkInterface.

Module RouteRule.

Record t : Type := mk {
  route_prefix : Z;
  prefix_length : Z;
  next_hop : option Address.t;
  interface_num : Z
}.

#[global] Instance t_eq_dec : EqDecision t.
Proof. solve_decision. Defined.

Definition init : t := mk 0 0 None 0.

End RouteRule.

Module Router.

Record t : Type := mk {
  _interfaces : list AsyncNetworkInterface.t;
  _rule_list : list RouteRule.t
}.

#[global] Instance eta_t : Eta t := fun s => mk (_interfaces s) (_rule_list s).

Definition init : t := mk [] [].

Definition add_interface (interface : AsyncNetworkInterface.t) (r : t) : Z * t :=
  let r := r <| _interfaces := _interfaces r ++ [interface] |> in
  (zlen (_interfaces r) ⊖ 1, r).

(** [_interfaces.at(N)], and the assignment through the reference it returns. *)
Definition interface (N : Z) (r : t) : result AsyncNetworkInterface.t :=
  match _interfaces r !! Z.to_nat N with
  | Some i => Ok i
  | None => Throw (OutOfRange "vector::_M_range_check")
  end.

Definition set_interface (N : Z) (i : AsyncNetworkInterface.t) (r : t) : t :=
  r <| _interfaces := <[Z.to_nat N := i]> (_interfaces r) |>.

Definition add_route (route_prefix prefix_length : Z) (next_hop : option Address.t) (interface_num : Z) (r : t) : t :=
  r <| _rule_list := _rule_list r ++ [RouteRule.mk route_prefix prefix_length next_hop interface_num] |>.

(** The condition of the loop.  A [uint32_t] shifted by a negative count is
    undefined. *)
Definition matches (target : Z) (rule : RouteRule.t) : result bool :=
  if RouteRule.prefix_length rule =? 0 then Ok true else
  let shift := 32 - RouteRule.prefix_length rule in
  if shift <? 0 then Throw (UndefinedBehaviour "shift count is negative") else
  Ok (Z.shiftr (Z.lxor target (RouteRule.route_prefix rule)) shift =? 0).

(** The loop over the rules: [longest], [match_rule] and [find_match]. *)
Fixpoint match_loop (target : Z) (rules : list RouteRule.t) (longest : Z) (match_rule : RouteRule.t) (find_match : bool)
    : result (RouteRule.t * bool) :=
  match rules with
  | [] => Ok (match_rule, find_match)
  | rule :: rules =>
      m ← matches target rule;
      if m && (longest <=? RouteRule.prefix_length rule)
      then match_loop target rules (RouteRule.prefix_length rule) rule true
      else match_loop target rules longest match_rule find_match
  end.

(** The second component is the caller's datagram, whose TTL is decremented in
    place. *)
Definition route_one_datagram (dgram : IPv4Datagram.t) (r : t) : result (IPv4Datagram.t * t) :=
  let target := IPv4Header.dst (IPv4Datagram.header dgram) in
  '(match_rule, find_match) ← match_loop target (_rule_list r) 0 RouteRule.init false;
  if negb find_match then Ok (dgram, r) else
  if IPv4Header.ttl (IPv4Datagram.header dgram) =? 0 then Ok (dgram, r) else
  let dgram := dgram <| IPv4Datagram._header := (IPv4Datagram._header dgram) <| IPv4Header.ttl :=
                 u8 (IPv4Header.ttl (IPv4Datagram.header dgram) - 1) |> |> in
  if IPv4Header.ttl (IPv4Datagram.header dgram) =? 0 then Ok (dgram, r) else
  i ← interface (RouteRule.interface_num match_rule) r;
  next_hop ← match RouteRule.next_hop match_rule with
             | Some next_hop => Ok next_hop
             | None => Address.from_ipv4_numeric (IPv4Header.dst (IPv4Datagram.header dgram))
             end;
  i ← AsyncNetworkInterface.send_datagram dgram next_hop i;
  Ok (dgram, set_interface (RouteRule.interface_num match_rule) i r).

(** [while (not queue.empty()) { route_one_datagram(queue.front()); queue.pop(); }]
    for the queue of interface [N].  The fuel is the length of the queue, to
    which the body does not add. *)
Fixpoint route_queue (fuel : nat) (N : Z) (r : t) : result t :=
  i ← interface N r;
  match AsyncNetworkInterface.datagrams_out i, fuel with
  | [], _ => Ok r
  | _ :: _, O => OutOfFuel
  | front :: _, S fuel =>
      '(_, r) ← route_one_datagram front r;
      i ← interface N r;
      let i := i <| AsyncNetworkInterface._datagrams_out := tail (AsyncNetworkInterface._datagrams_out i) |> in
      route_queue fuel N (set_interface N i r)
  end.

Fixpoint route_interfaces (Ns : list Z) (r : t) : result t :=
  match Ns with
  | [] => Ok r
  | N :: Ns =>
      i ← interface N r;
      r ← route_queue (length (AsyncNetworkInterface.datagrams_out i)) N r;
      route_interfaces Ns r
  end.

Definition route (r : t) : result t := route_interfaces (seqZ 0 (zlen (_interfaces r))) r.

#[global] Arguments route_one_datagram : simpl never.
#[global] Arguments matches : simpl never.

(** ** Longest-prefix match *)

(** The destination shares the rule's [prefix_length] high-order bits. *)
Definition in_prefix (target : Z) (rule : RouteRule.t) : Prop :=
  target / 2 ^ (32 - RouteRule.prefix_length rule) =
    RouteRule.route_prefix rule / 2 ^ (32 - RouteRule.prefix_length rule).

Record wf_rule (rule : RouteRule.t) : Prop := {
  wf_prefix : is_u32 (RouteRule.route_prefix rule);
  wf_length : 0 <= RouteRule.prefix_length rule <= 32
}.

(** [rule] is the last of the longest rules that match. *)
Definition best (target : Z) (rules : list RouteRule.t) (rule : RouteRule.t) : Prop :=
  exists before after, rules = before ++ rule :: after /\ in_prefix target rule /\
    Forall (fun r => in_prefix target r -> RouteRule.prefix_length r <= RouteRule.prefix_length rule) before /\
    Forall (fun r => in_prefix target r -> RouteRule.prefix_length r < RouteRule.prefix_length rule) after.

Lemma matches_spec target rule :
  is_u32 target -> wf_rule rule -> exists b, matches target rule = Ok b /\ (b = true <-> in_prefix target rule).
Proof.
  intros Ht [Hp Hl]. unfold matches, in_prefix.
  destruct (Z.eqb_spec (RouteRule.prefix_length rule) 0) as [E|E].
  - exists true. split; [done|]. rewrite E. split; [|done]. intros _. unfold is_u32 in *.
    by rewrite !Z.div_small by lia.
  - rewrite (proj2 (Z.ltb_ge _ _)) by lia. eexists. split; [done|].
    rewrite Z.shiftr_lxor, Z.eqb_eq, Z.lxor_eq_0_iff, !Z.shiftr_div_pow2 by lia. done.
Qed.

Lemma match_loop_spec target rules longest mr fm :
  is_u32 target -> Forall wf_rule rules ->
  exists res, match_loop target rules longest mr fm = Ok res /\
  ((Forall (fun r => in_prefix target r -> RouteRule.prefix_length r < longest) rules /\ res = (mr, fm)) \/
   (exists rule, best target rules rule /\ longest <= RouteRule.prefix_length rule /\ res = (rule, true))).
Proof.
  intros Ht Hr. revert longest mr fm. induction Hr as [|rule rules Hw Hr IH]; intros longest mr fm; cbn.
  { eexists. split; [done|]. by left. }
  destruct (matches_spec target rule Ht Hw) as (b & -> & Hb). cbn [mbind result_bind].
  destruct (b && (longest <=? RouteRule.prefix_length rule)) eqn:E.
  - apply andb_true_iff in E as [Hm Hle%Z.leb_le]. apply Hb in Hm.
    destruct (IH (RouteRule.prefix_length rule) rule true) as (res & -> & [[Hf ->]|(r & (bf & af & -> & Hi & H1 & H2) & Hl & ->)]);
      eexists; (split; [done|]); right.
    + exists rule. split; [|done]. by exists [], rules.
    + exists r. split; [|split; [lia|done]]. exists (rule :: bf), af. split; [done|]. split; [done|]. split; [|done].
      by constructor.
  - assert (in_prefix target rule -> RouteRule.prefix_length rule < longest) as Hn.
    { intros Hi%Hb. rewrite Hi in E. cbn in E. lia. }
    destruct (IH longest mr fm) as (res & -> & [[Hf ->]|(r & (bf & af & -> & Hi & H1 & H2) & Hl & ->)]);
      eexists; (split; [done|]).
    + left. split; [by constructor|done].
    + right. exists r. split; [|done]. exists (rule :: bf), af. split; [done|]. split; [done|]. split; [|done].
      constructor; [|done]. intros. apply Hn in H. lia.
Qed.

(** The datagram one hop later. *)
Definition aged (d : IPv4Datagram.t) : IPv4Datagram.t :=
  d <| IPv4Datagram._header :=
    (IPv4Datagram._header d) <| IPv4Header.ttl := IPv4Header.ttl (IPv4Datagram._header d) - 1 |> |>.

(** Where a rule sends a datagram for [dst]: the rule's gateway, or the
    destination itself on a network that is directly attached. *)
Definition hop (rule : RouteRule.t) (dst : Z) : Address.t := default (Address.ipv4 dst 0) (RouteRule.next_hop rule).

(** C32: a datagram is forwarded by the longest matching prefix.  If no rule's
    prefix matches the destination, the datagram is dropped.  Otherwise, of the
    matching rules with the longest prefix, the one added last decides: a
    datagram whose time to live is 0 or 1 is dropped, any other is handed, with
    its time to live decremented, to the rule's interface for the rule's next
    hop, and nothing else changes. *)
Theorem router_forwards d r :
  is_u32 (IPv4Header.dst (IPv4Datagram._header d)) -> is_u8 (IPv4Header.ttl (IPv4Datagram._header d)) ->
  Forall wf_rule (_rule_list r) ->
  let dst := IPv4Header.dst (IPv4Datagram._header d) in
  let ttl := IPv4Header.ttl (IPv4Datagram._header d) in
  (Forall (fun rule => ~ in_prefix dst rule) (_rule_list r) /\ route_one_datagram d r = Ok (d, r)) \/
  (exists rule, best dst (_rule_list r) rule /\
    (ttl <= 1 -> exists d', route_one_datagram d r = Ok (d', r)) /\
    (1 < ttl -> forall i b, interface (RouteRule.interface_num rule) r = Ok i ->
       NetworkInterface.send_datagram (aged d) (hop rule dst) (AsyncNetworkInterface.base i) = Ok b ->
       route_one_datagram d r =
         Ok (aged d, set_interface (RouteRule.interface_num rule) (i <| AsyncNetworkInterface.base := b |>) r))).
Proof.
  intros Hd Ht Hr dst ttl. unfold route_one_datagram. cbn [IPv4Datagram.header]. fold dst ttl.
  destruct (match_loop_spec dst (_rule_list r) 0 RouteRule.init false Hd Hr) as (res & E & Hres).
  unfold IPv4Datagram.header. fold dst ttl. rewrite E. cbn [mbind result_bind].
  destruct Hres as [[Hf ->]|(rule & Hb & _ & ->)]; cbn [negb].
  - left. split; [|done]. rewrite Forall_forall in *. intros rule Hin Hi. specialize (Hf _ Hin Hi).
    destruct (Hr _ Hin) as [_ ?]. lia.
  - right. exists rule. split; [done|]. split.
    + intros Hle. destruct (Z.eqb_spec ttl 0); [by eauto|]. cbn.
      fold ttl. replace (ttl - 1) with 0 by (unfold is_u8 in Ht; lia). cbn. eauto.
    + intros Hgt i b Hi Hs. rewrite (proj2 (Z.eqb_neq ttl 0)) by lia. cbn. fold ttl.
      rewrite u8_id by (unfold is_u8 in *; lia). rewrite (proj2 (Z.eqb_neq (ttl - 1) 0)) by lia.
      rewrite Hi. cbn [mbind result_bind]. fold (aged d). fold dst. unfold AsyncNetworkInterface.send_datagram.
      rewrite Address.from_ipv4_numeric_eq. unfold hop, from_option, id in Hs.
      change (d <| IPv4Datagram._header := (IPv4Datagram._header d) <| IPv4Header.ttl := ttl - 1 |> |>) with (aged d).
      destruct (RouteRule.next_hop rule); cbn [mbind result_bind]; rewrite Hs; done.
Qed.

(** ** Draining the queues *)

(** The queue of interface [N], and its replacement. *)
Definition queue_of (r : t) (N : Z) : list IPv4Datagram.t :=
  match _interfaces r !! Z.to_nat N with Some i => AsyncNetworkInterface._datagrams_out i | None => [] end.

Definition with_queue (N : Z) (q : list IPv4Datagram.t) (r : t) : t :=
  r <| _interfaces := alter (fun i => i <| AsyncNetworkInterface._datagrams_out := q |>) (Z.to_nat N) (_interfaces r) |>.

(** The datagrams [ds] routed one after the other, outside any queue. *)
Fixpoint route_all (ds : list IPv4Datagram.t) (r : t) : result t :=
  match ds with
  | [] => Ok r
  | d :: ds => '(_, r) ← route_one_datagram d r; route_all ds r
  end.

Lemma route_all_app ds ds' r : route_all (ds ++ ds') r = (r ← route_all ds r; route_all ds' r).
Proof.
  revert r. induction ds as [|d ds IH]; intros r; cbn; [done|].
  destruct (route_one_datagram d r) as [[d1 r1]| |]; cbn; [apply IH|done..].
Qed.

(** Equality of two updated routers, interface list by interface list. *)
Ltac by_fields :=
  lazymatch goal with |- ?a = ?b => let a := eval hnf in a in let b := eval hnf in b in change (a = b) end;
  f_equal; cbn [_interfaces upd].

(** Sending replaces the base of one interface. *)
Definition with_base (N : Z) (b : NetworkInterface.t) (r : t) : t :=
  r <| _interfaces := alter (fun i => i <| AsyncNetworkInterface.base := b |>) (Z.to_nat N) (_interfaces r) |>.

Lemma set_interface_base N i b r :
  interface N r = Ok i -> set_interface N (i <| AsyncNetworkInterface.base := b |>) r = with_base N b r.
Proof.
  unfold interface, set_interface, with_base. destruct (_interfaces r !! Z.to_nat N) eqn:E; [|done].
  intros [= ->]. by_fields. rewrite list_insert_alter. apply list_alter_ext; [|done]. intros x Hx. congruence.
Qed.

(** [route_one_datagram] as a decision that the rules make, and its execution. *)
Definition verdict (d : IPv4Datagram.t) (rules : list RouteRule.t) : result (IPv4Datagram.t * option (Z * Address.t)) :=
  let dst := IPv4Header.dst (IPv4Datagram._header d) in
  let ttl := IPv4Header.ttl (IPv4Datagram._header d) in
  '(rule, found) ← match_loop dst rules 0 RouteRule.init false;
  if negb found then Ok (d, None) else
  if ttl =? 0 then Ok (d, None) else
  let d := d <| IPv4Datagram._header := (IPv4Datagram._header d) <| IPv4Header.ttl := u8 (ttl - 1) |> |> in
  Ok (d, if u8 (ttl - 1) =? 0 then None else Some (RouteRule.interface_num rule, hop rule dst)).

Definition execute (o : option (Z * Address.t)) (d : IPv4Datagram.t) (r : t) : result t :=
  match o with
  | None => Ok r
  | Some (N, nh) =>
      i ← interface N r;
      b ← NetworkInterface.send_datagram d nh (AsyncNetworkInterface.base i);
      Ok (with_base N b r)
  end.

Lemma route_one_verdict d r :
  route_one_datagram d r = ('(d, o) ← verdict d (_rule_list r); r ← execute o d r; Ok (d, r)).
Proof.
  unfold route_one_datagram, verdict, IPv4Datagram.header. cbn zeta.
  destruct (match_loop _ _ _ _ _) as [[rule found]| |]; cbn [mbind result_bind]; [|done..].
  destruct found; cbn [negb]; [|done]. destruct (_ =? 0); [done|]. cbn. destruct (_ =? 0); [done|]. cbn.
  destruct (interface _ r) as [i| |] eqn:Hi; cbn; [|done..].
  assert (match RouteRule.next_hop rule with
          | Some nh => Ok nh
          | None => Address.from_ipv4_numeric (IPv4Header.dst (IPv4Datagram._header d))
          end = Ok (hop rule (IPv4Header.dst (IPv4Datagram._header d)))) as -> by (unfold hop; by destruct (RouteRule.next_hop rule)).
  cbn [mbind result_bind]. unfold AsyncNetworkInterface.send_datagram.
  destruct (NetworkInterface.send_datagram _ _ _) as [b| |]; cbn; [|done..]. by rewrite set_interface_base.
Qed.

Lemma interface_with_queue N k q r :
  interface k (with_queue N q r) =
    (fun i => if decide (Z.to_nat N = Z.to_nat k) then i <| AsyncNetworkInterface._datagrams_out := q |> else i)
      <$> interface k r.
Proof.
  unfold interface, with_queue. cbn. rewrite list_lookup_alter. destruct (decide _) as [E|E].
  - rewrite E. by destruct (_interfaces r !! Z.to_nat k).
  - by destruct (_interfaces r !! Z.to_nat k).
Qed.

Lemma with_base_queue N k b q r : with_base k b (with_queue N q r) = with_queue N q (with_base k b r).
Proof.
  unfold with_base, with_queue. by_fields. destruct (decide (Z.to_nat k = Z.to_nat N)) as [->|E].
  - rewrite !list_alter_alter_eq. by apply list_alter_ext.
  - by rewrite list_alter_alter_ne.
Qed.

(** Routing does not look at the queues. *)
Lemma execute_with_queue o d N q r : execute o d (with_queue N q r) = with_queue N q <$> execute o d r.
Proof.
  destruct o as [[k nh]|]; [|done]. unfold execute. rewrite interface_with_queue.
  destruct (interface k r) as [i| |]; cbn; [|done..].
  assert (AsyncNetworkInterface.base (if decide (Z.to_nat N = Z.to_nat k)
    then i <| AsyncNetworkInterface._datagrams_out := q |> else i) = AsyncNetworkInterface.base i) as -> by (by case_decide).
  destruct (NetworkInterface.send_datagram _ _ _); cbn; [|done..]. by rewrite with_base_queue.
Qed.

Lemma route_all_with_queue ds N q r : route_all ds (with_queue N q r) = with_queue N q <$> route_all ds r.
Proof.
  revert r. induction ds as [|d ds IH]; intros r; cbn; [done|]. rewrite !route_one_verdict.
  change (_rule_list (with_queue N q r)) with (_rule_list r).
  destruct (verdict d (_rule_list r)) as [[d' o]| |]; cbn; [|done..].
  rewrite execute_with_queue. destruct (execute o d' r); cbn; [apply IH|done..].
Qed.

(** Nor does it change them, or the number of interfaces. *)
Lemma execute_queues o d r r' :
  execute o d r = Ok r' -> length (_interfaces r') = length (_interfaces r) /\ forall N, queue_of r' N = queue_of r N.
Proof.
  destruct o as [[k nh]|]; cbn; [|by intros [= <-]].
  intros (i & Hi & (b & Hb & [= <-])%result_bind_Ok)%result_bind_Ok. split; [apply length_alter|].
  intros N. unfold queue_of, with_base. cbn. rewrite list_lookup_alter. case_decide as E; [|done]. rewrite E.
  by destruct (_interfaces r !! Z.to_nat N).
Qed.

Lemma route_one_queues d r d' r' :
  route_one_datagram d r = Ok (d', r') ->
  length (_interfaces r') = length (_interfaces r) /\ forall N, queue_of r' N = queue_of r N.
Proof.
  rewrite route_one_verdict. intros ([d1 o] & _ & (r1 & He & [= _ <-])%result_bind_Ok)%result_bind_Ok.
  by apply execute_queues in He.
Qed.

Lemma route_all_queues ds r r' :
  route_all ds r = Ok r' -> length (_interfaces r') = length (_interfaces r) /\ forall N, queue_of r' N = queue_of r N.
Proof.
  revert r. induction ds as [|d ds IH]; intros r; cbn; [by intros [= <-]|].
  intros ([d1 r1] & H1%route_one_queues & H2%IH)%result_bind_Ok. destruct H1 as [L1 Q1], H2 as [L2 Q2].
  split; [congruence|]. intros N. by rewrite Q2, Q1.
Qed.

Lemma interface_ok N r : (Z.to_nat N < length (_interfaces r))%nat ->
  exists i, interface N r = Ok i /\ AsyncNetworkInterface._datagrams_out i = queue_of r N.
Proof. intros [i Hi]%lookup_lt_is_Some. exists i. unfold interface, queue_of. by rewrite Hi. Qed.

Lemma set_interface_queue N i q r :
  interface N r = Ok i -> set_interface N (i <| AsyncNetworkInterface._datagrams_out := q |>) r = with_queue N q r.
Proof.
  unfold interface, set_interface, with_queue. destruct (_interfaces r !! Z.to_nat N) eqn:E; [|done].
  intros [= ->]. by_fields. rewrite list_insert_alter. apply list_alter_ext; [|done]. intros x Hx. congruence.
Qed.

Lemma with_queue_twice N q q' r : with_queue N q (with_queue N q' r) = with_queue N q r.
Proof. unfold with_queue. by_fields. rewrite list_alter_alter_eq. by apply list_alter_ext. Qed.

Lemma queue_of_with_queue N k q r :
  queue_of (with_queue N q r) k =
    if decide (Z.to_nat k = Z.to_nat N /\ (Z.to_nat N < length (_interfaces r))%nat) then q else queue_of r k.
Proof.
  unfold queue_of, with_queue. cbn. rewrite list_lookup_alter. destruct (decide (Z.to_nat N = Z.to_nat k)) as [E|E].
  - rewrite <- E. destruct (_interfaces r !! Z.to_nat N) eqn:El; cbn.
    + rewrite decide_True; [done|]. split; [done|]. by eapply lookup_lt_Some.
    + rewrite decide_False; [done|]. intros [_ H]. apply lookup_lt_is_Some in H as [? ?]. congruence.
  - rewrite decide_False; [done|]. intros [? _]. congruence.
Qed.

(** The inner loop routes the queue in order and leaves it empty. *)
Lemma route_queue_eq N r :
  (Z.to_nat N < length (_interfaces r))%nat ->
  route_queue (length (queue_of r N)) N r = (r' ← route_all (queue_of r N) r; Ok (with_queue N [] r')).
Proof.
  remember (queue_of r N) as q eqn:Hq. revert r Hq. induction q as [|d q IH]; intros r Hq HN.
  - destruct (interface_ok N r HN) as (i & Hi & Hd). cbn [length route_queue]. rewrite Hi. cbn [mbind result_bind].
    unfold AsyncNetworkInterface.datagrams_out. rewrite Hd, <- Hq. cbn. f_equal. symmetry.
    rewrite <- (set_interface_queue N i) by done. rewrite <- Hq in Hd. destruct i as [b d]. cbn in Hd. subst d.
    unfold set_interface. unfold interface in Hi. destruct (_interfaces r !! Z.to_nat N) eqn:El; [|done].
    injection Hi as ->. cbn. rewrite list_insert_id by done. by destruct r.
  - destruct (interface_ok N r HN) as (i & Hi & Hd). cbn [length route_queue]. rewrite Hi. cbn [mbind result_bind].
    unfold AsyncNetworkInterface.datagrams_out. rewrite Hd, <- Hq. cbn [route_all].
    destruct (route_one_datagram d r) as [[d1 r1]| |] eqn:E1; cbn [mbind result_bind]; [|done..].
    destruct (route_one_queues _ _ _ _ E1) as [L1 Q1].
    destruct (interface_ok N r1) as (i1 & Hi1 & Hd1); [lia|]. rewrite Hi1. cbn [mbind result_bind].
    rewrite Hd1, Q1, <- Hq. cbn [tail]. rewrite set_interface_queue by done.
    rewrite IH.
    + rewrite route_all_with_queue. destruct (route_all q r1); cbn; [|done..]. by rewrite with_queue_twice.
    + rewrite queue_of_with_queue, decide_True by (split; [done|lia]). done.
    + unfold with_queue. cbn. rewrite length_alter. lia.
Qed.

Definition empty_queues (Ns : list Z) (r : t) : t := foldl (fun r N => with_queue N [] r) r Ns.

Lemma route_interfaces_eq Ns r :
  NoDup (Z.to_nat <$> Ns) -> Forall (fun N => (Z.to_nat N < length (_interfaces r))%nat) Ns ->
  route_interfaces Ns r = (r' ← route_all (concat (queue_of r <$> Ns)) r; Ok (empty_queues Ns r')).
Proof.
  revert r. induction Ns as [|N Ns IH]; intros r Hn Hl; [done|]. cbn [route_interfaces fmap list_fmap concat].
  apply Forall_cons in Hl as [HN Hl]. apply NoDup_cons in Hn as [Hnot Hn].
  destruct (interface_ok N r HN) as (i & -> & Hd). cbn [mbind result_bind].
  unfold AsyncNetworkInterface.datagrams_out. rewrite Hd, route_queue_eq by done.
  rewrite route_all_app. destruct (route_all (queue_of r N) r) as [r1| |] eqn:E1; cbn [mbind result_bind]; [|done..].
  destruct (route_all_queues _ _ _ E1) as [L1 Q1].
  rewrite IH; [|done|unfold with_queue; cbn; rewrite length_alter, L1; done].
  replace (queue_of (with_queue N [] r1) <$> Ns) with (queue_of r <$> Ns).
  2:{ apply list_fmap_ext. intros k x Hk. rewrite queue_of_with_queue, decide_False, Q1; [done|].
      intros [E _]. apply Hnot. rewrite <- E. apply list_elem_of_fmap_2. by eapply list_elem_of_lookup_2. }
  rewrite route_all_with_queue. destruct (route_all _ r1); cbn; done.
Qed.

Definition clear_queue (i : AsyncNetworkInterface.t) : AsyncNetworkInterface.t :=
  i <| AsyncNetworkInterface._datagrams_out := [] |>.

(** All queues emptied. *)
Definition drained (r : t) : t := r <| _interfaces := clear_queue <$> _interfaces r |>.

Lemma empty_queues_lookup Ns r k :
  _interfaces (empty_queues Ns r) !! k =
    (if decide (k ∈ Z.to_nat <$> Ns) then clear_queue <$> _interfaces r !! k else _interfaces r !! k).
Proof.
  revert r. induction Ns as [|N Ns IH]; intros r; [done|]. cbn [empty_queues foldl].
  change (foldl _ (with_queue N [] r) Ns) with (empty_queues Ns (with_queue N [] r)). rewrite IH.
  unfold with_queue. cbn [_interfaces upd]. rewrite list_lookup_alter, fmap_cons.
  destruct (decide (Z.to_nat N = k)) as [<-|E].
  - rewrite (decide_True (P := Z.to_nat N ∈ Z.to_nat N :: _)) by (by left).
    case_decide; [|done]. by destruct (_interfaces r !! Z.to_nat N).
  - destruct (decide (k ∈ Z.to_nat <$> Ns)).
    + by rewrite decide_True by (by right).
    + rewrite decide_False; [done|]. by intros [?|?]%elem_of_cons.
Qed.

Lemma seqZ_to_nat n : Z.to_nat <$> seqZ 0 (Z.of_nat n) = seq 0 n.
Proof.
  apply list_eq. intros k. rewrite list_lookup_fmap. destruct (decide (k < n)%nat) as [H|H].
  - rewrite lookup_seqZ_lt by lia. cbn. rewrite lookup_seq_lt by lia. f_equal. lia.
  - rewrite lookup_seqZ_ge by lia. by rewrite lookup_seq_ge by lia.
Qed.

Lemma empty_queues_all r : empty_queues (seqZ 0 (zlen (_interfaces r))) r = drained r.
Proof.
  assert (forall Ns s, _rule_list (empty_queues Ns s) = _rule_list s) as Hrl.
  { induction Ns as [|N Ns IH]; intros s; [done|]. cbn. apply (IH (with_queue N [] s)). }
  pose proof (Hrl (seqZ 0 (zlen (_interfaces r))) r) as E.
  assert (_interfaces (empty_queues (seqZ 0 (zlen (_interfaces r))) r) = clear_queue <$> _interfaces r) as E'.
  { apply list_eq. intros k. rewrite empty_queues_lookup, list_lookup_fmap. unfold zlen. rewrite seqZ_to_nat.
    case_decide as Hk; [done|]. rewrite elem_of_seq in Hk. rewrite lookup_ge_None_2 by lia. done. }
  destruct (empty_queues _ r) as [ifs rl]. cbn in E, E'. subst. done.
Qed.

Lemma queues_all r :
  queue_of r <$> seqZ 0 (zlen (_interfaces r)) = AsyncNetworkInterface._datagrams_out <$> _interfaces r.
Proof.
  apply list_eq. intros k. rewrite !list_lookup_fmap. unfold zlen.
  destruct (decide (k < length (_interfaces r))%nat) as [H|H].
  - rewrite lookup_seqZ_lt by lia. apply lookup_lt_is_Some in H as [i Hi]. rewrite Hi. cbn. unfold queue_of.
    replace (Z.to_nat (0 + Z.of_nat k)) with k by lia. by rewrite Hi.
  - rewrite lookup_seqZ_ge by lia. by rewrite lookup_ge_None_2 by lia.
Qed.

Lemma route_eq r :
  route r = (r' ← route_all (concat (AsyncNetworkInterface._datagrams_out <$> _interfaces r)) r; Ok (drained r')).
Proof.
  unfold route. rewrite route_interfaces_eq, queues_all.
  - destruct (route_all _ r) as [r'| |] eqn:E; cbn; [|done..]. apply route_all_queues in E as [E _].
    assert (zlen (_interfaces r) = zlen (_interfaces r')) as -> by (unfold zlen; lia). by rewrite empty_queues_all.
  - unfold zlen. rewrite seqZ_to_nat. apply NoDup_seq.
  - rewrite Forall_forall. intros N. rewrite elem_of_seqZ. unfold zlen. lia.
Qed.

(** [route] routes every received datagram exactly once, the interfaces in
    order and each queue in order, as if [route_one_datagram] were called on
    them one after the other, and leaves all queues empty; it ends with an
    exception exactly when one of these calls does. *)
Theorem router_route r :
  route r = (r' ← route_all (concat (AsyncNetworkInterface._datagrams_out <$> _interfaces r)) r; Ok (drained r')).
Proof. apply route_eq. Qed.

(** A router whose rules can be followed. *)
Record wf (r : t) : Prop := {
  wf_rules : Forall (fun rule => wf_rule rule /\ 0 <= RouteRule.interface_num rule < zlen (_interfaces r) /\
    (forall a, RouteRule.next_hop rule = Some a -> exists i, Address.ipv4_numeric a = Ok i)) (_rule_list r);
  wf_interfaces : Forall (fun i => exists ip,
    Address.ipv4_numeric (NetworkInterface._ip_address (AsyncNetworkInterface.base i)) = Ok ip) (_interfaces r)
}.

Lemma aged_sendable d : IPv4Datagram.sendable d -> 1 < IPv4Header.ttl (IPv4Datagram._header d) -> IPv4Datagram.sendable (aged d).
Proof. intros [[] ? ? ?] Ht. split; try done. split; cbn; try done. unfold is_u8 in *. lia. Qed.

Lemma verdict_ok d r :
  IPv4Datagram.sendable d -> wf r ->
  exists d' o, verdict d (_rule_list r) = Ok (d', o) /\
    forall N nh, o = Some (N, nh) -> 0 <= N < zlen (_interfaces r) /\ NetworkInterface.deliverable (d', nh).
Proof.
  intros Hs [Hr Hi]. pose proof Hs as [Hh _ _ _]. unfold verdict.
  destruct (match_loop_spec (IPv4Header.dst (IPv4Datagram._header d)) (_rule_list r) 0 RouteRule.init false) as (res & -> & Hres).
  { apply Hh. }
  { eapply Forall_impl; [exact Hr|]. by intros rule [? _]. }
  cbn [mbind result_bind]. destruct Hres as [[_ ->]|(rule & (bf & af & E & _) & _ & ->)]; cbn [negb]; [by do 2 eexists|].
  destruct (Z.eqb_spec (IPv4Header.ttl (IPv4Datagram._header d)) 0) as [E0|E0]; [by do 2 eexists|].
  do 2 eexists. split; [done|]. intros N nh. case_match eqn:E1; [done|]. intros [= <- <-].
  assert (is_u8 (IPv4Header.ttl (IPv4Datagram._header d))) as Ht by apply Hh.
  rewrite u8_id in * by (unfold is_u8 in *; lia). apply Z.eqb_neq in E1.
  rewrite E in Hr. apply Forall_app in Hr as [_ [(_ & HN & Hn) _]%Forall_cons]. split; [done|]. split.
  - apply (aged_sendable d Hs). unfold is_u8 in Ht. lia.
  - unfold hop. cbn [snd]. destruct (RouteRule.next_hop rule) as [a|]; cbn; [by apply Hn|].
    exists (IPv4Header.dst (IPv4Datagram._header d)). apply Address.ipv4_numeric_eq, Hh.
Qed.

Lemma route_one_total d r :
  IPv4Datagram.sendable d -> wf r -> exists d' r', route_one_datagram d r = Ok (d', r') /\ wf r'.
Proof.
  intros Hs Hw. rewrite route_one_verdict. destruct (verdict_ok d r Hs Hw) as (d' & o & -> & Ho). cbn [mbind result_bind].
  destruct o as [[N nh]|]; cbn [execute]; [|by eauto]. destruct (Ho N nh eq_refl) as [HN Hd].
  destruct (interface_ok N r) as (i & Hi & _); [unfold zlen in HN; lia|]. rewrite Hi. cbn [mbind result_bind].
  destruct Hw as [Hr Hif]. assert (_interfaces r !! Z.to_nat N = Some i) as Hl.
  { unfold interface in Hi. destruct (_interfaces r !! Z.to_nat N); congruence. }
  destruct (proj1 (Forall_lookup _ _) Hif _ _ Hl) as [ip Hip].
  destruct (NetworkInterface.send_total (AsyncNetworkInterface.base i) (d', nh) ip Hd Hip) as [b Hb].
  cbn [fst snd] in Hb. rewrite Hb. cbn [mbind result_bind]. do 2 eexists. split; [done|]. unfold with_base. split.
  - cbn [_interfaces _rule_list upd]. unfold zlen in *. rewrite length_alter. exact Hr.
  - cbn [_interfaces upd]. apply Forall_lookup. intros k x. rewrite list_lookup_alter.
    destruct (decide _) as [<-|E]; [|by apply (proj1 (Forall_lookup _ _) Hif)].
    rewrite Hl. intros [= <-]. exists ip. cbn. by rewrite (NetworkInterface.send_datagram_ip _ _ _ _ Hb).
Qed.

Lemma route_all_total ds r : Forall IPv4Datagram.sendable ds -> wf r -> exists r', route_all ds r = Ok r'.
Proof.
  intros Hd. revert r. induction Hd as [|d ds Hs Hd IH]; intros r Hw; cbn; [by eexists|].
  destruct (route_one_total d r Hs Hw) as (d' & r1 & -> & Hw1). cbn. by apply IH.
Qed.

(** C37: routing is total.  A router whose rules name existing interfaces,
    prefixes of at most 32 bits and IPv4 gateways, and whose interfaces have
    IPv4 addresses, never throws while routing well-formed datagrams, and
    afterwards no received datagram is left. *)
Theorem router_total r :
  wf r -> Forall (fun i => Forall IPv4Datagram.sendable (AsyncNetworkInterface._datagrams_out i)) (_interfaces r) ->
  exists r', route r = Ok r' /\ Forall (fun i => AsyncNetworkInterface._datagrams_out i = []) (_interfaces r').
Proof.
  intros Hw Hd. destruct (route_all_total (concat (AsyncNetworkInterface._datagrams_out <$> _interfaces r)) r) as [r' Hr]; [|done|].
  - rewrite Forall_concat. apply Forall_fmap. exact Hd.
  - exists (drained r'). rewrite route_eq, Hr. split; [done|]. unfold drained. cbn [_interfaces upd].
    apply Forall_fmap, Forall_true. done.
Qed.

(** ** A router between 10.0.0.0/8 and a default gateway *)
Definition iface (last : byte) (ip : Z) : AsyncNetworkInterface.t :=
  AsyncNetworkInterface.of_interface (NetworkInterface.init [x02; x00; x00; x00; x00; last] (Address.ipv4 ip 0)).

Definition received : IPv4Datagram.t :=
  IPv4Datagram.sample <| IPv4Datagram._header :=
    (IPv4Datagram._header IPv4Datagram.sample) <| IPv4Header.dst := 0x0a010203 |> |>.

Definition sample_router : t :=
  mk [iface x01 0x0a000001; (iface x02 0xab434c2e) <| AsyncNetworkInterface._datagrams_out := [received] |>]
     [RouteRule.mk 0 0 (Some (Address.ipv4 0xab434c01 0)) 1; RouteRule.mk 0x0a000000 8 None 0].

Lemma received_sendable : IPv4Datagram.sendable received.
Proof.
  split; [split; vm_compute; split; congruence|vm_compute; reflexivity|vm_compute; congruence|vm_compute; reflexivity].
Qed.

Lemma sample_router_wf : wf sample_router.
Proof.
  split.
  - apply Forall_cons; split; [|apply Forall_singleton]; (split; [split; by vm_compute|]); (split; [by vm_compute|]).
    + intros a [= <-]. exists 0xab434c01. reflexivity.
    + done.
  - apply Forall_cons; split; [|apply Forall_singleton]; cbn; [exists 0x0a000001|exists 0xab434c2e]; reflexivity.
Qed.

Lemma router_total_witness :
  exists r', route sample_router = Ok r' /\ Forall (fun i => AsyncNetworkInterface._datagrams_out i = []) (_interfaces r').
Proof.
  apply (router_total sample_router sample_router_wf).
  apply Forall_cons; split; [constructor|]. apply Forall_singleton, Forall_singleton, received_sendable.
Defined.

(** The rule 10.0.0.0/8 wins over the default route. *)
Lemma router_forwards_witness : exists r',
  route_one_datagram received sample_router = Ok (aged received, r').
Proof.
  destruct (router_forwards received sample_router) as [[Hf _]|(rule & Hb & _ & H)].
  - by vm_compute.
  - by vm_compute.
  - destruct sample_router_wf as [Hr _]. eapply Forall_impl; [exact Hr|]. by intros ? [? _].
  - apply Forall_cons in Hf as [Hf _]. exfalso. apply Hf. reflexivity.
  - assert (RouteRule.prefix_length rule = 8) as El.
    { destruct Hb as (bf & af & E & _ & H1 & H2). cbn in E.
      destruct bf as [|x [|y bf]]; injection E as; [|by subst|destruct bf; discriminate].
      subst. exfalso. apply Forall_cons in H2 as [H2 _]. specialize (H2 eq_refl). by vm_compute in H2. }
    assert (rule = RouteRule.mk 0x0a000000 8 None 0) as ->.
    { destruct Hb as (bf & af & E & _). cbn in E. assert (rule ∈ _rule_list sample_router) as Hin.
      { cbn. rewrite E. apply elem_of_app. right. by left. }
      apply elem_of_cons in Hin as [->|Hin]; [discriminate El|]. by apply list_elem_of_singleton in Hin. }
    eexists. apply H; [by vm_compute|vm_compute; reflexivity|vm_compute; reflexivity].
Defined.

End Router.
