(* ===== verification/tcp_receiver.v ===== *)
(** * [libsponge/tcp_receiver.hh], [libsponge/tcp_receiver.cc]

    The receiver translates segments into [push_substring] calls on its
    reassembler.  [carries T w seg i] says that [seg] is a segment of the
    peer's stream [T] numbered from the initial sequence number [w], whose
    payload starts at stream index [i].  The theorems: such a segment is
    pushed at exactly its index, the delivered bytes are a prefix of [T], and
    the acknowledgment number and window delimit what is still wanted. *)

From stdpp Require Import relations.
From S2P Require Import Prelude.
From S2P Require Import wrapping_integers.
From S2P Require Import byte_stream.
From S2P Require Import stream_reassembler.
From S2P Require Import buffer.
From S2P Require Import tcp_segment.

Module TCPReceiver.

Record t : Type := mk {
  _reassembler : StreamReassembler.t;
  _isn : option WrappingInt32.t;
  _capacity : Z
}.

#[global] Instance eta_t : Eta t := fun r => mk (_reassembler r) (_isn r) (_capacity r).

#[global] Instance t_eq_dec : EqDecision t.
Proof. solve_decision. Defined.

Definition init (capacity : Z) : t := mk (StreamReassembler.init capacity) None capacity.

Definition stream_out (r : t) : ByteStream.t := StreamReassembler.stream_out (_reassembler r).
Definition unassembled_bytes (r : t) : Z := StreamReassembler.unassembled_bytes (_reassembler r).

(** The mutable [stream_out()]: its owner's update of the stream. *)
Definition with_stream_out (o : ByteStream.t) (r : t) : t :=
  r <| _reassembler := (_reassembler r) <| StreamReassembler._output := o |> |>.

Definition segment_received (seg : TCPSegment.t) (r : t) : result t :=
  let data_start := TCPHeader.seqno (TCPSegment.header seg) in
  let '(r, data_start) :=
    if TCPHeader.syn (TCPSegment.header seg)
    then (r <| _isn := Some (TCPHeader.seqno (TCPSegment.header seg)) |>, WrappingInt32.add data_start 1)
    else (r, data_start) in
  match _isn r with
  | Some isn =>
      if WrappingInt32.eqb isn data_start then Ok r else
      reassembler ← StreamReassembler.push_substring (Buffer.copy (TCPSegment.payload seg))
        (WrappingInt32.unwrap data_start isn (StreamReassembler.cur_index (_reassembler r)) ⊖ 1)
        (TCPHeader.fin (TCPSegment.header seg)) (_reassembler r);
      Ok (r <| _reassembler := reassembler |>)
  | None => Ok r
  end.

Definition ackno (r : t) : option WrappingInt32.t :=
  match _isn r with
  | Some isn =>
      let asn := StreamReassembler.cur_index (_reassembler r) ⊕ 1 in
      let asn := if ByteStream.input_ended (stream_out r) then asn ⊕ 1 else asn in
      Some (WrappingInt32.wrap asn isn)
  | None => None
  end.

Definition window_size (r : t) : Z := _capacity r ⊖ ByteStream.buffer_size (stream_out r).

#[global] Arguments segment_received : simpl never.

Lemma segment_received_error seg r r' :
  segment_received seg r = Ok r' -> ByteStream.error (stream_out r') = ByteStream.error (stream_out r).
Proof.
  unfold segment_received. destruct (TCPHeader.syn _); cbn.
  all: repeat case_match; try (by intros [= <-]).
  all: intros (ra & Hp & [= <-])%result_bind_Ok; by apply StreamReassembler.push_substring_error in Hp.
Qed.

(** With a SYN, now or before, there is an acknowledgment number. *)
Lemma segment_received_ackno seg r r' :
  TCPHeader.syn (TCPSegment.header seg) = true \/ ackno r <> None ->
  segment_received seg r = Ok r' -> ackno r' <> None.
Proof.
  intros Hor. assert (forall x, ackno x <> None <-> _isn x <> None) as Ha by (intros x; unfold ackno; by destruct (_isn x)).
  rewrite Ha in *. unfold segment_received. destruct (TCPHeader.syn _); cbn; repeat case_match.
  all: try (intros [= <-]; cbn; (congruence || by destruct Hor)).
  all: intros (ra & _ & [= <-])%result_bind_Ok; cbn; congruence.
Qed.

Lemma segment_received_fuel seg r : segment_received seg r <> OutOfFuel.
Proof.
  unfold segment_received. destruct (TCPHeader.syn _); cbn; repeat case_match; try done.
  all: intros Hf; destruct (StreamReassembler.push_substring _ _ _ _) eqn:E; cbn in Hf; try done.
  all: by apply StreamReassembler.push_substring_fuel in E.
Qed.

(** ** Segments of the peer's stream *)

Record carries (T : bytes) (w : WrappingInt32.t) (seg : TCPSegment.t) (i : Z) : Prop := {
  ca_data : at_offset T i (Buffer.copy (TCPSegment.payload seg));
  ca_syn : TCPHeader.syn (TCPSegment.header seg) = true ->
           i = 0 /\ TCPHeader.seqno (TCPSegment.header seg) = w;
  ca_seqno : TCPHeader.syn (TCPSegment.header seg) = false ->
             TCPHeader.seqno (TCPSegment.header seg) = WrappingInt32.wrap (i + 1) w;
  ca_fin : TCPHeader.fin (TCPSegment.header seg) = true ->
           i + zlen (Buffer.copy (TCPSegment.payload seg)) = zlen T
}.

(** The same without the FIN: where the payload belongs. *)
Record placed (T : bytes) (w : WrappingInt32.t) (seg : TCPSegment.t) (i : Z) : Prop := {
  pl_data : at_offset T i (Buffer.copy (TCPSegment.payload seg));
  pl_syn : TCPHeader.syn (TCPSegment.header seg) = true ->
           i = 0 /\ TCPHeader.seqno (TCPSegment.header seg) = w;
  pl_seqno : TCPHeader.syn (TCPSegment.header seg) = false ->
             TCPHeader.seqno (TCPSegment.header seg) = WrappingInt32.wrap (i + 1) w
}.

Lemma carries_placed T w seg i : carries T w seg i -> placed T w seg i.
Proof. intros []. by split. Qed.

(** The index is near enough to what has been assembled for 32 bits to
    identify it. *)
Definition near (r : t) (i : Z) : Prop :=
  Z.abs (i + 1 - StreamReassembler.cur_index (_reassembler r)) < 2 ^ 31.

(** What the receiver does with a segment of the stream. *)
Lemma segment_received_eq T w seg i r :
  WrappingInt32.wf w -> placed T w seg i -> zlen T + 1 < 2 ^ 64 ->
  is_u64 (StreamReassembler.cur_index (_reassembler r)) -> near r i ->
  _isn r = Some w \/ TCPHeader.syn (TCPSegment.header seg) = true ->
  segment_received seg r =
    if (i + 1) mod 2 ^ 32 =? 0 then Ok (r <| _isn := Some w |>) else
    (fun reassembler => mk reassembler (Some w) (_capacity r)) <$>
      StreamReassembler.push_substring (Buffer.copy (TCPSegment.payload seg)) i
        (TCPHeader.fin (TCPSegment.header seg)) (_reassembler r).
Proof.
  intros Hw [Hd Hsyn Hseq] HT Hcur Hnear Hisn. unfold segment_received, near in *.
  pose proof (proj1 Hd) as Hi.
  assert (forall r', _isn r' = Some w -> _reassembler r' = _reassembler r -> _capacity r' = _capacity r ->
    match _isn r' with
    | Some isn =>
        if WrappingInt32.eqb isn (WrappingInt32.wrap (i + 1) w) then Ok r' else
        reassembler ← StreamReassembler.push_substring (Buffer.copy (TCPSegment.payload seg))
          (WrappingInt32.unwrap (WrappingInt32.wrap (i + 1) w) isn
             (StreamReassembler.cur_index (_reassembler r')) ⊖ 1)
          (TCPHeader.fin (TCPSegment.header seg)) (_reassembler r');
        Ok (r' <| _reassembler := reassembler |>)
    | None => Ok r'
    end =
    if (i + 1) mod 2 ^ 32 =? 0 then Ok (r <| _isn := Some w |>) else
    (fun reassembler => mk reassembler (Some w) (_capacity r)) <$>
      StreamReassembler.push_substring (Buffer.copy (TCPSegment.payload seg)) i
        (TCPHeader.fin (TCPSegment.header seg)) (_reassembler r)) as H.
  { intros r' E1 E2 E3. rewrite E1, E2. destruct (Z.eqb_spec ((i + 1) mod 2 ^ 32) 0) as [Hm|Hm].
    - apply (proj2 (WrappingInt32.eqb_wrap (i + 1) w Hw)) in Hm. rewrite Hm. destruct r', r. cbn in *. by subst.
    - destruct (WrappingInt32.eqb w (WrappingInt32.wrap (i + 1) w)) eqn:E.
      { by apply (WrappingInt32.eqb_wrap (i + 1) w Hw) in E. }
      rewrite WrappingInt32.unwrap_wrap by (done || word_lia). rewrite sub64_id by word_lia.
      replace (i + 1 - 1) with i by lia.
      destruct (StreamReassembler.push_substring _ _ _ _); cbn; [|done..].
      destruct r'. cbn in *. by subst. }
  destruct (TCPHeader.syn (TCPSegment.header seg)) eqn:Es.
  - destruct (Hsyn eq_refl) as [-> Hseq0]. cbn [fst snd]. rewrite Hseq0.
    replace (WrappingInt32.add w 1) with (WrappingInt32.wrap (0 + 1) w); [by apply H|].
    rewrite <- WrappingInt32.wrap_add by done. f_equal. destruct w as [w].
    apply (WrappingInt32.wrap_eq_iff 0 _ _ Hw Hw). cbn. by rewrite Z.sub_diag.
  - destruct Hisn as [Hisn|?]; [|done]. rewrite (Hseq eq_refl). by apply H.
Qed.

(** ** Traces

    A configuration is the receiver and the bytes its reader has taken.  A step
    is a segment of the peer's stream, under the policy [ok], or a read. *)
Definition config : Type := t * bytes.
Definition policy : Type := t -> Z -> Prop.

Inductive step (T : bytes) (w : WrappingInt32.t) (ok : policy) : config -> config -> Prop :=
| step_segment r o seg i r' :
    carries T w seg i -> near r i -> ok r i -> segment_received seg r = Ok r' ->
    step T w ok (r, o) (r', o)
| step_read r o len d out' :
    is_u64 len -> ByteStream.read len (stream_out r) = Ok (d, out') ->
    step T w ok (r, o) (with_stream_out out' r, o ++ d).

Definition reachable (T : bytes) (w : WrappingInt32.t) (ok : policy) (capacity : Z) (c : config) : Prop :=
  rtc (step T w ok) (init capacity, []) c.

(** No assumption; no payload starts past the window. *)
Definition any_segment : policy := fun _ _ => True.
Definition window_segment : policy := fun r i => i <= StreamReassembler.window_end (_reassembler r).

Record good (T : bytes) (w : WrappingInt32.t) (capacity : Z) (c : config) : Prop := {
  good_reassembler : StreamReassembler.good T capacity (_reassembler (c.1), c.2, []);
  good_isn : _isn (c.1) = None \/ _isn (c.1) = Some w;
  good_capacity : _capacity (c.1) = capacity
}.

Lemma good_cur_u64 T w capacity c :
  good T w capacity c -> 0 <= StreamReassembler.cur_index (_reassembler (c.1)) <= zlen T.
Proof.
  intros [[Hwf _ _ _] _ _]. apply (StreamReassembler.wf_cur_bounds _ _ Hwf).
Qed.

Lemma segment_received_good T w capacity r o seg i r' :
  WrappingInt32.wf w -> zlen T + capacity + 1 < 2 ^ 64 -> is_u64 capacity ->
  good T w capacity (r, o) -> placed T w seg i -> near r i -> segment_received seg r = Ok r' ->
  good T w capacity (r', o) /\
  (StreamReassembler.in_window (_reassembler r) -> window_segment r i ->
   StreamReassembler.in_window (_reassembler r')).
Proof.
  intros Hw HT Hcap Hg Hc Hn Hs. pose proof (good_cur_u64 _ _ _ _ Hg) as Hcur.
  destruct Hg as [Hg Hisn Hcp]. cbn in *.
  destruct (decide (_isn r = Some w \/ TCPHeader.syn (TCPSegment.header seg) = true)) as [Hor|Hno].
  - rewrite (segment_received_eq T w seg i) in Hs by (done || word_lia).
    destruct ((i + 1) mod 2 ^ 32 =? 0).
    { injection Hs as <-. split; [|done]. split; cbn; [done|by right|done]. }
    apply result_fmap_Ok in Hs as (ra & Hp & <-). destruct Hg as [Hwf Ho Hrd Hc']. cbn in *.
    destruct (StreamReassembler.push_substring_wf _ _ _ _ _ _ Hwf (pl_data _ _ _ _ Hc) Hp)
      as (Hw' & Er & Ec & _ & Hin).
    split; [|done]. split; cbn; [split; cbn; congruence|by right|done].
  - assert (TCPHeader.syn (TCPSegment.header seg) = false) as Es
      by (destruct (TCPHeader.syn _); tauto).
    destruct Hisn as [Hisn|?]; [|tauto]. unfold segment_received in Hs. rewrite Es, Hisn in Hs.
    injection Hs as <-. split; [|done]. by split; [|left|].
Qed.

(** Invariants of the traces: [good] always, and the memory bound under
    [window_segment]. *)
Lemma receiver_reachable T w ok capacity c :
  WrappingInt32.wf w -> zlen T + capacity + 1 < 2 ^ 64 -> is_u64 capacity ->
  reachable T w ok capacity c ->
  good T w capacity c /\
  ((forall r i, ok r i -> window_segment r i) -> StreamReassembler.in_window (_reassembler (c.1))).
Proof.
  intros Hw HT Hcap Hr.
  pose (I := fun c : config => good T w capacity c /\
    ((forall r i, ok r i -> window_segment r i) -> StreamReassembler.in_window (_reassembler (c.1)))).
  assert (I (init capacity, [])) as H0.
  { split; [split; cbn; [by apply StreamReassembler.init_good|by left|done]|].
    intros _ n Hn. by apply not_elem_of_nil in Hn. }
  unfold reachable in Hr. change (I c). revert H0.
  induction Hr as [|c1 c2 c3 Hs _ IH]; [done|]. intros [Hg Hin]. apply IH. clear IH. unfold I.
  destruct Hs as [r o seg i r' Hc Hn Hok Hs|r o len d out' Hl Hr]; cbn in *.
  - destruct (segment_received_good _ _ _ _ _ _ _ _ Hw HT Hcap Hg (carries_placed _ _ _ _ Hc) Hn Hs) as [Hg' Hin']. auto.
  - destruct Hg as [Hg Hisn Hcp]. cbn in *.
    destruct (StreamReassembler.read_good _ _ _ _ _ _ _ _ Hg Hl Hr) as (Hg' & Hwe & _).
    split; [by split|]. intros Hp n Hn. specialize (Hin Hp n Hn). cbn in *. lia.
Qed.

(** The acknowledgment number and the window are those of the reassembler. *)
Lemma ackno_eq T w capacity c :
  zlen T + 2 < 2 ^ 64 -> good T w capacity c -> _isn (c.1) = Some w ->
  ackno (c.1) = Some (WrappingInt32.wrap (StreamReassembler.cur_index (_reassembler (c.1)) + 1 +
    (if ByteStream.input_ended (stream_out (c.1)) then 1 else 0)) w).
Proof.
  intros HT Hg Hisn. pose proof (good_cur_u64 _ _ _ _ Hg). unfold ackno. rewrite Hisn.
  rewrite (add64_id (StreamReassembler.cur_index _)) by word_lia. do 2 f_equal. case_match; [|lia].
  rewrite add64_id by word_lia. lia.
Qed.

Lemma window_size_eq T w capacity c :
  good T w capacity c -> is_u64 capacity ->
  window_size (c.1) = capacity - zlen (ByteStream._str (stream_out (c.1))).
Proof.
  intros [[Hwf _ _ Hc] _ Hcp] Hcap. destruct Hwf as [[Hlen Hle _ _ _] _ _ _ _]. cbn in *.
  unfold window_size, stream_out, StreamReassembler.stream_out, ByteStream.buffer_size. rewrite Hcp, Hlen.
  pose proof (zlen_nonneg (ByteStream._str (StreamReassembler._output (_reassembler c.1)))).
  rewrite sub64_id; [done|]. unfold is_u64 in *. lia.
Qed.

Lemma stream_out_prefix T w capacity c :
  good T w capacity c ->
  c.2 ++ ByteStream._str (stream_out (c.1)) =
    take (Z.to_nat (StreamReassembler.cur_index (_reassembler (c.1)))) T.
Proof.
  intros [[Hwf Ho Hrd Hcap] _ _]. cbn in *. pose proof (StreamReassembler.wf_cur_bounds _ _ Hwf) as [Hb _].
  apply (at_offset_eq T 0).
  - apply at_offset_app; [done|]. rewrite Z.add_0_l, Hrd. apply Hwf.
  - apply at_offset_take. split; [pose proof (zlen_nonneg T); lia|done].
  - pose proof (StreamReassembler.wf_cur _ _ Hwf). unfold StreamReassembler.cur_index, stream_out, StreamReassembler.stream_out in *. zlen. lia.
Qed.

(** C13: whatever segments of the peer's stream arrive, in whatever order, each
    within [2^31] of the next byte wanted when it comes, the application reads a
    prefix of that stream, and the advertised window is the free space of the
    buffer.  Once the SYN has been seen the acknowledgment number is that of the
    first byte not yet assembled while the inbound stream is open, and the one
    past the FIN when it has ended with the whole stream.  (An empty FIN that
    overtakes data ends the inbound stream before that: then the statement
    leaves the number open.) *)
Theorem receiver_in_order T w capacity c :
  WrappingInt32.wf w -> zlen T + capacity + 2 < 2 ^ 64 -> is_u64 capacity ->
  reachable T w any_segment capacity c ->
  exists k, 0 <= k <= zlen T /\
    c.2 ++ ByteStream._str (stream_out (c.1)) = take (Z.to_nat k) T /\
    (forall a, ackno (c.1) = Some a ->
       if ByteStream.input_ended (stream_out (c.1))
       then k = zlen T -> a = WrappingInt32.wrap (zlen T + 2) w
       else a = WrappingInt32.wrap (k + 1) w) /\
    window_size (c.1) = capacity - zlen (ByteStream._str (stream_out (c.1))).
Proof.
  intros Hw HT Hcap Hr. destruct (receiver_reachable T w any_segment capacity c Hw) as [Hg _]; [lia|done|done|].
  exists (StreamReassembler.cur_index (_reassembler (c.1))). split; [by eapply good_cur_u64|].
  split; [by eapply stream_out_prefix|]. split; [|by eapply window_size_eq].
  intros a Ha. destruct (good_isn _ _ _ _ Hg) as [Hn|Hs].
  - unfold ackno in Ha. by rewrite Hn in Ha.
  - rewrite (ackno_eq T w capacity c) in Ha by (done || (unfold is_u64 in *; lia)). injection Ha as <-.
    case_match; [intros ->|]; f_equal; lia.
Qed.

Definition sample_segment (seqno : Z) (syn fin : bool) (data : bytes) : TCPSegment.t :=
  TCPSegment.mk
    (TCPHeader.init <| TCPHeader.seqno := WrappingInt32.mk seqno |> <| TCPHeader.syn := syn |> <| TCPHeader.fin := fin |>)
    (Buffer.of_string data).

Lemma receiver_in_order_witness :
  exists c : config, c.2 = [x61] /\ ackno (c.1) = Some (WrappingInt32.mk 9) /\
    exists k, c.2 ++ ByteStream._str (stream_out (c.1)) = take (Z.to_nat k) [x61; x62; x63].
Proof.
  assert (exists c : config, reachable [x61; x62; x63] (WrappingInt32.mk 6) any_segment 8 c /\
    c.2 = [x61] /\ ackno (c.1) = Some (WrappingInt32.mk 9)) as (c & Hr & Ho & Ha).
  { eexists. split; [|split].
    - eapply rtc_l; [apply (step_segment _ _ _ _ _ (sample_segment 6 true false []) 0); [|by vm_compute..]|].
      { split; cbn; try done. by_decide. }
      eapply rtc_l; [apply (step_segment _ _ _ _ _ (sample_segment 7 false false [x61; x62]) 0); [|by vm_compute..]|].
      { split; cbn; try done. by_decide. }
      eapply rtc_l; [apply (step_read _ _ _ _ _ 1); [word_lia|reflexivity]|]. apply rtc_refl.
    - reflexivity.
    - reflexivity. }
  exists c. split; [exact Ho|]. split; [exact Ha|].
  destruct (receiver_in_order [x61; x62; x63] (WrappingInt32.mk 6) 8 c) as (k & _ & H & _);
    [vm_compute; split; congruence|vm_compute; reflexivity|word_lia|exact Hr|]. exists k. exact H.
Defined.

(** C14: progress. While no segment starts past the window (or [2^31] away
    from the next byte wanted), a segment that starts at or before the next
    index wanted, ends past it and lies within the window is accepted
    without an exception; the bytes up to its end are then assembled, and
    the acknowledgment number is past them. The segment's own sequence
    number must not be the initial one, that is, its absolute sequence
    number no multiple of [2^32]: such a segment is refused
    ([receiver_drops_wrapped]). *)
Theorem receiver_progress T w capacity c seg i :
  WrappingInt32.wf w -> zlen T + capacity + 2 < 2 ^ 64 -> is_u64 capacity ->
  reachable T w window_segment capacity c -> _isn (c.1) = Some w ->
  carries T w seg i -> near (c.1) i -> (i + 1) mod 2 ^ 32 <> 0 ->
  let next := i + zlen (Buffer.copy (TCPSegment.payload seg)) in
  i <= StreamReassembler.cur_index (_reassembler (c.1)) < next ->
  next <= StreamReassembler.window_end (_reassembler (c.1)) ->
  exists r' n, segment_received seg (c.1) = Ok r' /\
    next <= StreamReassembler.cur_index (_reassembler r') /\
    ackno r' = Some (WrappingInt32.wrap n w) /\ next + 1 <= n <= zlen T + 2.
Proof.
  intros Hw HT Hcap Hr Hisn Hc Hn Hm next Hi Hnext.
  destruct (receiver_reachable T w window_segment capacity c Hw) as [Hg Hin]; [lia|done|done|].
  specialize (Hin (fun _ _ H => H)). pose proof (good_cur_u64 _ _ _ _ Hg).
  pose proof (segment_received_eq T w seg i (c.1) Hw (carries_placed _ _ _ _ Hc) ltac:(unfold is_u64 in *; lia)
    ltac:(unfold is_u64 in *; lia) Hn ltac:(by left)) as Eq.
  rewrite (proj2 (Z.eqb_neq _ _)) in Eq by done. pose proof Hg as [[Hwf _ _ _] _ _]. cbn in Hwf.
  destruct (StreamReassembler.push_total T (_reassembler c.1) (Buffer.copy (TCPSegment.payload seg)) i
    (TCPHeader.fin (TCPSegment.header seg)) Hwf (ca_data _ _ _ _ Hc) Hin ltac:(lia)) as [ra Hp].
  rewrite Hp in Eq. cbn in Eq.
  assert (next <= StreamReassembler.cur_index ra) as Hcov.
  { destruct (StreamReassembler.push_substring_wf _ _ _ _ _ _ Hwf (ca_data _ _ _ _ Hc) Hp) as (Hwf' & _ & _ & Hk & _).
    apply (StreamReassembler.known_prefix T); [done|]. intros j Hj. apply Hk.
    unfold StreamReassembler.known, StreamReassembler.accepted, StreamReassembler.cur_index in *.
    destruct (decide (j < StreamReassembler._cur_index (_reassembler c.1))); [left; left; lia|right; lia]. }
  assert (good T w capacity (c.1, c.2)) as Hg2 by (by destruct c).
  destruct (segment_received_good T w capacity (c.1) (c.2) seg i _ Hw ltac:(lia) Hcap Hg2
    (carries_placed _ _ _ _ Hc) Hn Eq) as [Hg' _].
  pose proof (good_cur_u64 _ _ _ _ Hg') as Hc'. cbn in Hc'.
  do 2 eexists. split; [exact Eq|]. split; [exact Hcov|]. split.
  - apply (ackno_eq T w capacity (_, c.2)); [unfold is_u64 in *; lia|exact Hg'|done].
  - cbn. case_match; lia.
Qed.

Lemma receiver_progress_witness :
  let r := (init 8) <| _isn := Some (WrappingInt32.mk 6) |> in
  let seg := sample_segment 7 false false [x61; x62] in
  exists r' n, segment_received seg r = Ok r' /\
    0 + zlen (Buffer.copy (TCPSegment.payload seg)) <= StreamReassembler.cur_index (_reassembler r') /\
    ackno r' = Some (WrappingInt32.wrap n (WrappingInt32.mk 6)) /\
    0 + zlen (Buffer.copy (TCPSegment.payload seg)) + 1 <= n <= zlen [x61; x62; x63] + 2.
Proof.
  intros r seg.
  apply (receiver_progress [x61; x62; x63] (WrappingInt32.mk 6) 8 (r, []) seg 0); try by vm_compute.
  - eapply rtc_l; [apply (step_segment _ _ _ _ _ (sample_segment 6 true false []) 0); [|by vm_compute..]|apply rtc_refl].
    split; cbn; try done. by_decide.
  - split; cbn; try done. by_decide.
Defined.

(** The guard on an invalid sequence number also refuses valid ones: when
    the next absolute sequence number wanted is a multiple of [2^32], the
    acknowledgment number equals the initial sequence number, and a data
    segment with exactly the sequence number asked for is dropped. *)
Theorem receiver_drops_wrapped w r seg :
  WrappingInt32.wf w -> _isn r = Some w -> is_u64 (StreamReassembler.cur_index (_reassembler r) + 1) ->
  (StreamReassembler.cur_index (_reassembler r) + 1) mod 2 ^ 32 = 0 ->
  ByteStream.input_ended (stream_out r) = false ->
  TCPHeader.syn (TCPSegment.header seg) = false ->
  Some (TCPHeader.seqno (TCPSegment.header seg)) = ackno r ->
  segment_received seg r = Ok r.
Proof.
  intros Hw Hisn Hu Hm Hend Hsyn Hseq. unfold ackno in Hseq. rewrite Hisn, Hend, add64_id in Hseq by done.
  injection Hseq as Hseq. unfold segment_received. rewrite Hsyn, Hisn, Hseq.
  apply (proj2 (WrappingInt32.eqb_wrap _ w Hw)) in Hm. by rewrite Hm.
Qed.

End TCPReceiver.
