(* ===== verification/tcp_sender.v ===== *)
(** * [libsponge/tcp_sender.hh], [libsponge/tcp_sender.cc], [tcp_helpers/tcp_config.hh]

    The sender cuts its outgoing stream into segments, keeps the outstanding
    ones and retransmits the oldest when its timer expires.

    [W] is the stream written so far.  [segment_at W w seg a] says that [seg]
    is the segment of [W] at absolute sequence number [a]; [covers] chains such
    segments.  [inv] is the invariant: the outstanding segments cover exactly
    the sequence numbers in flight. *)

From stdpp Require Import relations.
From S2P Require Import Prelude.
From S2P Require Import wrapping_integers.
From S2P Require Import byte_stream.
From S2P Require Import buffer.
From S2P Require Import tcp_segment.
Import (hints) ByteStream.

Module TCPConfig.

Definition DEFAULT_CAPACITY : Z := 64000.
Definition MAX_PAYLOAD_SIZE : Z := 1000.
Definition TIMEOUT_DFLT : Z := 1000.
Definition MAX_RETX_ATTEMPTS : Z := 8.

Record t : Type := mk {
  rt_timeout : Z;
  recv_capacity : Z;
  send_capacity : Z;
  fixed_isn : option WrappingInt32.t
}.

#[global] Instance eta_t : Eta t := fun c =>
  mk (rt_timeout c) (recv_capacity c) (send_capacity c) (fixed_isn c).

Definition init : t := mk TIMEOUT_DFLT DEFAULT_CAPACITY DEFAULT_CAPACITY None.

End TCPConfig.

Module RetransmissionTimer.

Record t : Type := mk { _ddl : Z; _cur : Z; _is_start : bool }.

#[global] Instance eta_t : Eta t := fun s => mk (_ddl s) (_cur s) (_is_start s).

Definition init : t := mk 0 0 false.

Definition expired (s : t) : bool := if _is_start s then _ddl s <=? _cur s else false.

Definition start (ddl : Z) (s : t) : t := if _is_start s then s else mk ddl 0 true.

Definition stop (s : t) : t := mk 0 0 false.

Definition tick (time : Z) (s : t) : t :=
  if negb (_is_start s) then s else s <| _cur := _cur s ⊕ time |>.

Lemma start_is_start ddl s : _is_start (start ddl s) = true.
Proof. unfold start. by destruct (_is_start s) eqn:E. Qed.

Lemma tick_is_start time s : _is_start (tick time s) = _is_start s.
Proof. unfold tick. by destruct (_is_start s) eqn:E. Qed.

End RetransmissionTimer.

Module TCPSender.

Record t : Type := mk {
  _isn : WrappingInt32.t;
  _segments_out : list TCPSegment.t;
  _initial_retransmission_timeout : Z;
  _stream : ByteStream.t;
  _next_seqno : Z;
  _window_size : Z;
  _bytes_in_flight : Z;
  _una_seqno : Z;
  _outstanding_segments : list TCPSegment.t;
  _timer : RetransmissionTimer.t;
  _cur_time : Z;
  _cur_rto : Z;
  _consecutive_retrans_times : Z;
  _is_transmission_ended : bool
}.

#[global] Instance eta_t : Eta t := fun s =>
  mk (_isn s) (_segments_out s) (_initial_retransmission_timeout s) (_stream s) (_next_seqno s)
     (_window_size s) (_bytes_in_flight s) (_una_seqno s) (_outstanding_segments s) (_timer s)
     (_cur_time s) (_cur_rto s) (_consecutive_retrans_times s) (_is_transmission_ended s).

(** The constructor; [random] is what [random_device()()] returns. *)
Definition init (capacity retx_timeout : Z) (fixed_isn : option WrappingInt32.t) (random : Z) : t :=
  mk (default (WrappingInt32.mk random) fixed_isn) [] retx_timeout (ByteStream.init capacity)
     0 1 0 0 [] RetransmissionTimer.init 0 retx_timeout 0 false.

Definition bytes_in_flight (s : t) : Z := _bytes_in_flight s.
Definition stream_in (s : t) : ByteStream.t := _stream s.
Definition with_stream_in (o : ByteStream.t) (s : t) : t := s <| _stream := o |>.
Definition consecutive_retransmissions (s : t) : Z := _consecutive_retrans_times s.
Definition segments_out (s : t) : list TCPSegment.t := _segments_out s.
Definition next_seqno_absolute (s : t) : Z := _next_seqno s.
Definition next_seqno (s : t) : WrappingInt32.t := WrappingInt32.wrap (_next_seqno s) (_isn s).

(** Assignments through [seg.header()] and [seg.payload()]. *)
Definition set_header (f : TCPHeader.t -> TCPHeader.t) (seg : TCPSegment.t) : TCPSegment.t :=
  seg <| TCPSegment._header := f (TCPSegment._header seg) |>.
Definition set_payload (b : Buffer.t) (seg : TCPSegment.t) : TCPSegment.t :=
  seg <| TCPSegment._payload := b |>.

(** The loop of [fill_window], past the test of [_is_transmission_ended].
    [seg] is the variable declared before the loop: a turn starts from the
    segment the previous one left.  First the sequence number and the SYN. *)
Definition fill_syn (seg : TCPSegment.t) (s : t) : TCPSegment.t * t :=
  let seg := set_header (fun h => h <| TCPHeader.seqno := WrappingInt32.wrap (_next_seqno s) (_isn s) |>) seg in
  if _next_seqno s =? 0 then
    (set_header (fun h => h <| TCPHeader.syn := true |>) seg,
     s <| _next_seqno := _next_seqno s ⊕ 1 |> <| _bytes_in_flight := _bytes_in_flight s ⊕ 1 |>)
  else (seg, s).

(** The payload, the FIN, and the queues. *)
Definition fill_data (actual_window_size : Z) (seg : TCPSegment.t) (s : t) : result (TCPSegment.t * t) :=
  let read_size := Z.min (actual_window_size ⊖ _bytes_in_flight s) TCPConfig.MAX_PAYLOAD_SIZE in
  '(data, stream) ← ByteStream.read read_size (_stream s);
  let s := s <| _stream := stream |> in
  let seg := set_payload (Buffer.of_string data) seg in
  let read_size := Buffer.size (TCPSegment.payload seg) in
  let s := s <| _bytes_in_flight := _bytes_in_flight s ⊕ read_size |> in
  let s := s <| _next_seqno := _next_seqno s ⊕ read_size |> in
  let '(seg, s) :=
    if ByteStream.input_ended (_stream s) && ByteStream.eof (_stream s) &&
       negb (actual_window_size ⊖ _bytes_in_flight s =? 0) then
      (set_header (fun h => h <| TCPHeader.fin := true |>) seg,
       s <| _next_seqno := _next_seqno s ⊕ 1 |> <| _bytes_in_flight := _bytes_in_flight s ⊕ 1 |>
         <| _is_transmission_ended := true |>)
    else (seg, s) in
  let s :=
    if negb (read_size =? 0) || TCPHeader.syn (TCPSegment.header seg) || TCPHeader.fin (TCPSegment.header seg)
    then s <| _segments_out := _segments_out s ++ [seg] |>
           <| _outstanding_segments := _outstanding_segments s ++ [seg] |>
           <| _timer := RetransmissionTimer.start (_cur_rto s) (_timer s) |>
    else s in
  Ok (seg, s).

Definition fill_body (actual_window_size : Z) (seg : TCPSegment.t) (s : t) : result (TCPSegment.t * t) :=
  let '(seg, s) := fill_syn seg s in fill_data actual_window_size seg s.

Fixpoint fill_loop (fuel : nat) (actual_window_size : Z) (seg : TCPSegment.t) (s : t) : result t :=
  match fuel with
  | O => OutOfFuel
  | S fuel =>
      if _is_transmission_ended s then Ok s else
      '(seg, s) ← fill_body actual_window_size seg s;
      if negb (ByteStream.buffer_empty (_stream s)) && negb (actual_window_size ⊖ _bytes_in_flight s =? 0)
      then fill_loop fuel actual_window_size seg s
      else Ok s
  end.

(** A turn that is followed by another reads at least one byte, so one more
    turn than there are bytes buffered is enough. *)
Definition fill_window (s : t) : result t :=
  let actual_window_size := _window_size s in
  let actual_window_size := if actual_window_size =? 0 then 1 else actual_window_size in
  if actual_window_size <=? _bytes_in_flight s then Ok s else
  fill_loop (S (length (ByteStream._str (_stream s)))) actual_window_size TCPSegment.init s.

(** The loop of [ack_received] over the outstanding segments: what is left of
    the queue, and the bytes in flight. *)
Fixpoint ack_loop (isn : WrappingInt32.t) (next_seqno ackno_abs : Z)
    (outstanding : list TCPSegment.t) (in_flight : Z) : list TCPSegment.t * Z :=
  match outstanding with
  | [] => ([], in_flight)
  | seg :: rest =>
      if WrappingInt32.unwrap (TCPHeader.seqno (TCPSegment.header seg)) isn next_seqno
           ⊕ TCPSegment.length_in_sequence_space seg <=? ackno_abs
      then ack_loop isn next_seqno ackno_abs rest (in_flight ⊖ TCPSegment.length_in_sequence_space seg)
      else (outstanding, in_flight)
  end.

Definition ack_received (ackno : WrappingInt32.t) (window_size : Z) (s : t) : t :=
  let ackno_abs := WrappingInt32.unwrap ackno (_isn s) (_next_seqno s) in
  let s := s <| _window_size := window_size |> in
  if (ackno_abs <=? _una_seqno s) || (_next_seqno s <? ackno_abs) then s else
  let s := s <| _una_seqno := ackno_abs |> in
  let '(outstanding, in_flight) :=
    ack_loop (_isn s) (_next_seqno s) ackno_abs (_outstanding_segments s) (_bytes_in_flight s) in
  let s := s <| _outstanding_segments := outstanding |> <| _bytes_in_flight := in_flight |> in
  let s := s <| _cur_rto := _initial_retransmission_timeout s |> <| _consecutive_retrans_times := 0 |> in
  match _outstanding_segments s with
  | [] => s <| _timer := RetransmissionTimer.stop (_timer s) |>
  | _ => s <| _timer := RetransmissionTimer.start (_cur_rto s) (RetransmissionTimer.stop (_timer s)) |>
  end.

Definition tick (ms_since_last_tick : Z) (s : t) : t :=
  let s := s <| _cur_time := _cur_time s ⊕ ms_since_last_tick |> in
  let s := s <| _timer := RetransmissionTimer.tick ms_since_last_tick (_timer s) |> in
  match RetransmissionTimer.expired (_timer s), _outstanding_segments s with
  | true, front :: _ =>
      let s := s <| _segments_out := _segments_out s ++ [front] |> in
      let s :=
        if negb (_window_size s =? 0)
        then s <| _consecutive_retrans_times := u32 (_consecutive_retrans_times s + 1) |>
               <| _cur_rto := u64 (Z.shiftl (_cur_rto s) 1) |>
        else s in
      s <| _timer := RetransmissionTimer.start (_cur_rto s) (RetransmissionTimer.stop (_timer s)) |>
  | _, _ => s
  end.

Definition send_empty_segment (s : t) : t :=
  let seg := set_header (fun h => h <| TCPHeader.seqno := WrappingInt32.wrap (_next_seqno s) (_isn s) |>)
               TCPSegment.init in
  s <| _segments_out := _segments_out s ++ [seg] |>.

#[global] Arguments fill_window : simpl never.
#[global] Arguments fill_syn : simpl never.
#[global] Arguments fill_data : simpl never.
#[global] Arguments fill_body : simpl never.
#[global] Arguments ack_received : simpl never.
#[global] Arguments tick : simpl never.
#[global] Arguments send_empty_segment : simpl never.

(** ** Segments of the outgoing stream *)

Definition flag_len (b : bool) : Z := if b then 1 else 0.

Definition seqlen (seg : TCPSegment.t) : Z :=
  zlen (Buffer.str (TCPSegment._payload seg)) + flag_len (TCPHeader.syn (TCPSegment._header seg))
    + flag_len (TCPHeader.fin (TCPSegment._header seg)).

(** The stream index of the payload of a segment at absolute number [a]. *)
Definition data_index (a : Z) : Z := Z.max 0 (a - 1).

Record segment_at (W : bytes) (w : WrappingInt32.t) (seg : TCPSegment.t) (a : Z) : Prop := {
  sa_nonneg : 0 <= a;
  sa_seqno : TCPHeader.seqno (TCPSegment._header seg) = WrappingInt32.wrap a w;
  sa_syn : TCPHeader.syn (TCPSegment._header seg) = true <-> a = 0;
  sa_data : at_offset W (data_index a) (Buffer.str (TCPSegment._payload seg));
  sa_fin : TCPHeader.fin (TCPSegment._header seg) = true ->
           data_index a + zlen (Buffer.str (TCPSegment._payload seg)) = zlen W;
  sa_size : zlen (Buffer.str (TCPSegment._payload seg)) <= TCPConfig.MAX_PAYLOAD_SIZE;
  sa_win : TCPHeader.win (TCPSegment._header seg) = 0;
  sa_pos : 0 < seqlen seg
}.

Fixpoint covers (W : bytes) (w : WrappingInt32.t) (a : Z) (l : list TCPSegment.t) (b : Z) : Prop :=
  match l with
  | [] => a = b
  | seg :: l => segment_at W w seg a /\ covers W w (a + seqlen seg) l b
  end.

Lemma length_in_sequence_space_eq W w seg a :
  segment_at W w seg a -> TCPSegment.length_in_sequence_space seg = seqlen seg /\ 0 < seqlen seg <= 1002.
Proof.
  intros []. unfold TCPSegment.length_in_sequence_space, TCPSegment.payload, TCPSegment.header, seqlen, flag_len,
    TCPConfig.MAX_PAYLOAD_SIZE in *.
  pose proof (zlen_nonneg (Buffer.str (TCPSegment._payload seg))).
  split; [|repeat case_match; lia]. rewrite (add64_id (zlen _)) by (case_match; word_lia).
  rewrite add64_id; [done|]. repeat case_match; word_lia.
Qed.

Lemma covers_app W w a l1 m l2 b : covers W w a l1 m -> covers W w m l2 b -> covers W w a (l1 ++ l2) b.
Proof.
  revert a. induction l1 as [|seg l1 IH]; intros a H1 H2; cbn in *; [by subst|].
  destruct H1 as [? ?]. split; [done|]. by apply IH.
Qed.

Lemma covers_le W w a l b : covers W w a l b -> a <= b /\ (l = [] <-> a = b).
Proof.
  revert a. induction l as [|seg l IH]; intros a; cbn; [by intros ->|].
  intros [[] H]. apply IH in H as [? _]. split; [lia|]. split; [done|lia].
Qed.

Lemma covers_elem W w a l b seg :
  covers W w a l b -> seg ∈ l -> exists c, a <= c /\ c + seqlen seg <= b /\ segment_at W w seg c.
Proof.
  revert a. induction l as [|x l IH]; intros a Hc Hin; [by apply not_elem_of_nil in Hin|].
  destruct Hc as [Hx Hl]. pose proof (covers_le _ _ _ _ _ Hl) as [? _]. pose proof (sa_pos _ _ _ _ Hx).
  apply elem_of_cons in Hin as [->|Hin]; [by exists a; split; [|split]|].
  destruct (IH _ Hl Hin) as (c & ? & ? & ?). exists c. split; [lia|done].
Qed.

(** A segment without FIN stays one when the stream grows. *)
Lemma segment_at_grow W w seg a d :
  segment_at W w seg a -> TCPHeader.fin (TCPSegment._header seg) = false -> segment_at (W ++ d) w seg a.
Proof. intros [] Hf. split; try done; [by apply at_offset_grow|by rewrite Hf]. Qed.

Lemma covers_grow W w a l b d :
  covers W w a l b -> (forall seg, seg ∈ l -> TCPHeader.fin (TCPSegment._header seg) = false) ->
  covers (W ++ d) w a l b.
Proof.
  revert a. induction l as [|seg l IH]; intros a; cbn; [done|]. intros [Hs Hl] Hf. split.
  - apply segment_at_grow; [done|]. apply Hf. left.
  - apply IH; [done|]. intros seg' ?. apply Hf. by right.
Qed.

(** [fill_window] leaves the stream's error flag alone. *)
Lemma read_error len s d s' : ByteStream.read len s = Ok (d, s') -> ByteStream.error s' = ByteStream.error s.
Proof.
  unfold ByteStream.read, ByteStream.pop_output. intros (s1 & (str & _ & E)%result_bind_Ok & Heq)%result_bind_Ok.
  by simplify_eq.
Qed.

Lemma fill_body_error aws seg s seg' s' :
  fill_body aws seg s = Ok (seg', s') -> ByteStream.error (_stream s') = ByteStream.error (_stream s).
Proof.
  unfold fill_body, fill_syn, fill_data. intros H.
  assert (forall seg1 s1, _stream s1 = _stream s -> fill_data aws seg1 s1 = Ok (seg', s') ->
    ByteStream.error (_stream s') = ByteStream.error (_stream s)) as Hd.
  { intros seg1 s1 E. unfold fill_data. intros ([d st] & Hr & Heq)%result_bind_Ok.
    apply read_error in Hr. rewrite <- E, <- Hr. by repeat case_match; simplify_eq. }
  destruct (_next_seqno s =? 0); by eapply Hd in H.
Qed.

Lemma fill_window_error s s' :
  fill_window s = Ok s' -> ByteStream.error (_stream s') = ByteStream.error (_stream s).
Proof.
  assert (forall fuel aws seg s, fill_loop fuel aws seg s = Ok s' ->
    ByteStream.error (_stream s') = ByteStream.error (_stream s)) as Hloop.
  { induction fuel as [|fuel IH]; intros aws seg s0; cbn [fill_loop]; [done|].
    destruct (_is_transmission_ended s0); [by intros [= ->]|].
    intros ([seg1 s1] & Hb & Hl)%result_bind_Ok. apply fill_body_error in Hb. rewrite <- Hb.
    destruct (_ && _); [by eapply IH|by injection Hl as ->]. }
  unfold fill_window. destruct (_ <=? _); [by intros [= ->]|apply Hloop].
Qed.

(** ** The invariant *)

Record inv (W : bytes) (s : t) : Prop := {
  inv_isn : WrappingInt32.wf (_isn s);
  inv_stream : ByteStream.wf (_stream s);
  inv_len : zlen W + 2 + 2 ^ 16 < 2 ^ 64;
  inv_buf : at_offset W (ByteStream.bytes_read (_stream s)) (ByteStream._str (_stream s));
  inv_total : ByteStream.bytes_read (_stream s) + zlen (ByteStream._str (_stream s)) = zlen W;
  inv_next : (_next_seqno s = 0 /\ ByteStream.bytes_read (_stream s) = 0 /\ _is_transmission_ended s = false) \/
             _next_seqno s = 1 + ByteStream.bytes_read (_stream s) + flag_len (_is_transmission_ended s);
  inv_ended : _is_transmission_ended s = true ->
              ByteStream.input_ended (_stream s) = true /\ ByteStream._str (_stream s) = [];
  inv_window : is_u16 (_window_size s);
  inv_fresh : _next_seqno s = 0 -> ByteStream._str (_stream s) = [] \/ _window_size s <= 1;
  inv_flight : 0 <= _bytes_in_flight s <= 65535 /\ _bytes_in_flight s <= _next_seqno s;
  inv_out : covers W (_isn s) (_next_seqno s - _bytes_in_flight s) (_outstanding_segments s) (_next_seqno s);
  inv_una : _next_seqno s - _bytes_in_flight s <= _una_seqno s <= _next_seqno s;
  inv_timer : RetransmissionTimer._is_start (_timer s) = true <-> _outstanding_segments s <> []
}.

(** The FIN is outstanding only once the stream has been closed. *)
Lemma inv_no_fin W s seg :
  inv W s -> seg ∈ _outstanding_segments s -> TCPHeader.fin (TCPSegment._header seg) = true ->
  _is_transmission_ended s = true.
Proof.
  intros [] Hin Hf. destruct (covers_elem _ _ _ _ _ _ inv_out0 Hin) as (c & Hc & Hle & []).
  specialize (sa_fin0 Hf). unfold seqlen, flag_len, data_index in *. rewrite Hf in *.
  pose proof (zlen_nonneg (ByteStream._str (_stream s))). pose proof (proj1 inv_buf0).
  destruct (_is_transmission_ended s); [done|].
  destruct (TCPHeader.syn (TCPSegment._header seg)), inv_next0 as [(?&?&?)|?];
    pose proof (proj1 sa_syn0); pose proof (proj2 sa_syn0); lia.
Qed.

(** ** [fill_window] *)

(** [fill_data] in closed form: how many bytes go out, whether the FIN does. *)
Definition fill_count (aws : Z) (s : t) : Z :=
  Z.min (Z.min (aws - _bytes_in_flight s) TCPConfig.MAX_PAYLOAD_SIZE) (zlen (ByteStream._str (_stream s))).
Definition fill_fin (aws : Z) (s : t) : bool :=
  ByteStream.input_ended (_stream s) && (fill_count aws s =? zlen (ByteStream._str (_stream s))) &&
  negb (aws - _bytes_in_flight s - fill_count aws s =? 0).
Definition fill_segment (aws : Z) (seg : TCPSegment.t) (s : t) : TCPSegment.t :=
  TCPSegment.mk ((TCPSegment._header seg) <| TCPHeader.fin := fill_fin aws s |>)
    (Buffer.of_string (take (Z.to_nat (fill_count aws s)) (ByteStream._str (_stream s)))).
Definition fill_new (aws : Z) (seg : TCPSegment.t) (s : t) : list TCPSegment.t :=
  if decide (0 < seqlen (fill_segment aws seg s)) then [fill_segment aws seg s] else [].

Record filled (s : t) (new : list TCPSegment.t) (s' : t) : Prop := {
  fi_isn : _isn s' = _isn s;
  fi_out : _segments_out s' = _segments_out s ++ new;
  fi_outstanding : _outstanding_segments s' = _outstanding_segments s ++ new;
  fi_window : _window_size s' = _window_size s;
  fi_una : _una_seqno s' = _una_seqno s;
  fi_rto : _cur_rto s' = _cur_rto s;
  fi_time : _cur_time s' = _cur_time s;
  fi_initial : _initial_retransmission_timeout s' = _initial_retransmission_timeout s;
  fi_retrans : _consecutive_retrans_times s' = _consecutive_retrans_times s;
  fi_timer : _timer s' = if decide (new = []) then _timer s else RetransmissionTimer.start (_cur_rto s) (_timer s)
}.

Lemma fill_data_eq aws seg s :
  ByteStream.wf (_stream s) -> 0 <= _bytes_in_flight s <= aws -> aws <= 65535 ->
  0 <= _next_seqno s < 2 ^ 64 - 2 ^ 16 -> ByteStream.bytes_read (_stream s) < 2 ^ 64 - 2 ^ 16 ->
  TCPHeader.fin (TCPSegment._header seg) = false -> _is_transmission_ended s = false ->
  let n := fill_count aws s in
  let fin := fill_fin aws s in
  exists s',
    fill_data aws seg s = Ok (fill_segment aws seg s, s') /\
    filled s (fill_new aws seg s) s' /\
    ByteStream.read n (_stream s) = Ok (take (Z.to_nat n) (ByteStream._str (_stream s)), _stream s') /\
    _next_seqno s' = _next_seqno s + n + flag_len fin /\
    _bytes_in_flight s' = _bytes_in_flight s + n + flag_len fin /\
    _is_transmission_ended s' = fin.
Proof.
  intros Hwf Hb Ha Hn Hr Hf He n fin. pose proof (zlen_nonneg (ByteStream._str (_stream s))) as Hz.
  assert (0 <= n <= 1000 /\ n <= aws - _bytes_in_flight s /\ n <= zlen (ByteStream._str (_stream s))) as Hnb.
  { unfold n, fill_count, TCPConfig.MAX_PAYLOAD_SIZE. lia. }
  unfold fill_data. rewrite (sub64_id aws) by word_lia. rewrite ByteStream.read_eq.
  2: done.
  2:{ unfold TCPConfig.MAX_PAYLOAD_SIZE. lia. }
  fold (fill_count aws s). fold n. cbn [mbind result_bind].
  set (d := take (Z.to_nat n) (ByteStream._str (_stream s))).
  assert (zlen d = n) as Hd by (unfold d; zlen; lia).
  set (st := ByteStream.mk _ _ _ _ _ _ _).
  cbn [set_payload TCPSegment.payload TCPSegment._payload upd]. unfold Buffer.size. cbn.
  rewrite Buffer.str_of_string, Hd by word_lia.
  rewrite !(add64_id _ n) by word_lia.
  rewrite (sub64_id aws) by word_lia.
  assert ((ByteStream._input_is_end (_stream s) && ByteStream.eof st &&
    negb (aws - (_bytes_in_flight s + n) =? 0)) = fin) as ->.
  { unfold fin, fill_fin, ByteStream.eof, ByteStream.buffer_empty, ByteStream.buffer_size, ByteStream.input_ended.
    cbn. fold n. replace (aws - (_bytes_in_flight s + n)) with (aws - _bytes_in_flight s - n) by lia.
    destruct (ByteStream._input_is_end (_stream s)); cbn; [|done]. f_equal.
    destruct (Z.eqb_spec (zlen (ByteStream._str (_stream s)) - n) 0),
      (Z.eqb_spec n (zlen (ByteStream._str (_stream s)))); done || lia. }
  set (seg1 := fill_segment aws seg s).
  assert (set_payload (Buffer.of_string d) (if fin then set_header (fun h => h <| TCPHeader.fin := true |>) seg else seg)
    = seg1) as Hseg.
  { unfold seg1, fill_segment. fold n fin d. destruct seg as [h p]. cbn in *.
    destruct fin; [done|]. unfold set_payload. cbn. by destruct h; cbn in *; subst. }
  assert (negb (n =? 0) || TCPHeader.syn (TCPSegment._header seg) || fin = bool_decide (0 < seqlen seg1)) as Hpush.
  { unfold seqlen, seg1, fill_segment. cbn. fold n fin d. rewrite Buffer.str_of_string, Hd by word_lia.
    unfold flag_len. destruct (Z.eqb_spec n 0), (TCPHeader.syn (TCPSegment._header seg)), fin; cbn;
      symmetry; first [apply bool_decide_true; lia | apply bool_decide_false; lia]. }
  assert (ByteStream.read n (_stream s) = Ok (d, st)) as Hread.
  { rewrite ByteStream.read_eq by (done || lia). fold n.
    rewrite (Z.min_l n) by lia. done. }
  assert (TCPHeader.syn (TCPSegment.header seg1) = TCPHeader.syn (TCPSegment._header seg)) as Hs1 by done.
  assert (TCPHeader.fin (TCPSegment.header seg1) = fin) as Hf1 by done.
  unfold fill_new. fold seg1. clearbody fin seg1. rewrite (add64_id (_next_seqno s + n)), (add64_id (_bytes_in_flight s + n)) by word_lia.
  destruct fin.
  - assert (set_header (fun h => h <| TCPHeader.fin := true |>) (set_payload (Buffer.of_string d) seg) = seg1) as ->
      by exact Hseg.
    rewrite Hs1, Hf1, Hpush. destruct (decide (0 < seqlen seg1)) as [Hp|Hp];
      [rewrite bool_decide_true by done|rewrite bool_decide_false by done];
      (eexists; split; [done|]; split; [by split; cbn; rewrite ?app_nil_r|done]).
  - cbn in Hseg. rewrite Hseg, Hs1, Hf1, Hpush. destruct (decide (0 < seqlen seg1)) as [Hp|Hp];
      [rewrite bool_decide_true by done|rewrite bool_decide_false by done];
      (eexists; split; [done|]; split; [by split; cbn; rewrite ?app_nil_r|]; cbn [flag_len]; rewrite ?Z.add_0_r; done).
Qed.

Lemma flag_len_range b : 0 <= flag_len b <= 1.
Proof. destruct b; cbn; lia. Qed.

Definition clean (seg : TCPSegment.t) : Prop :=
  TCPHeader.syn (TCPSegment._header seg) = false /\ TCPHeader.fin (TCPSegment._header seg) = false /\
  TCPHeader.win (TCPSegment._header seg) = 0.

Definition syn_segment (seg : TCPSegment.t) (s : t) : TCPSegment.t :=
  TCPSegment.mk ((TCPSegment._header seg) <| TCPHeader.seqno := WrappingInt32.wrap (_next_seqno s) (_isn s) |>
      <| TCPHeader.syn := (_next_seqno s =? 0) |>) (TCPSegment._payload seg).
Definition syn_state (s : t) : t :=
  s <| _next_seqno := _next_seqno s + flag_len (_next_seqno s =? 0) |>
    <| _bytes_in_flight := _bytes_in_flight s + flag_len (_next_seqno s =? 0) |>.

Lemma fill_syn_eq seg s :
  TCPHeader.syn (TCPSegment._header seg) = false -> 0 <= _bytes_in_flight s < 2 ^ 64 - 1 ->
  fill_syn seg s = (syn_segment seg s, syn_state s).
Proof.
  intros Hs Hb. unfold fill_syn, syn_segment, syn_state. destruct (Z.eqb_spec (_next_seqno s) 0) as [E|E]; cbn [flag_len].
  - rewrite E. rewrite (add64_id (_bytes_in_flight s)) by word_lia. done.
  - rewrite !Z.add_0_r. destruct s, seg as [h p]. destruct h. cbn in *. by subst.
Qed.

(** The segment that a turn makes is the next one of the stream. *)
Lemma fill_segment_at W aws seg s :
  inv W s -> _is_transmission_ended s = false -> TCPHeader.win (TCPSegment._header seg) = 0 ->
  _bytes_in_flight s < aws -> aws <= 65535 ->
  let seg1 := fill_segment aws (syn_segment seg s) (syn_state s) in
  seqlen seg1 = fill_count aws (syn_state s) + flag_len (_next_seqno s =? 0) + flag_len (fill_fin aws (syn_state s)) /\
  (0 < seqlen seg1 -> segment_at W (_isn s) seg1 (_next_seqno s)).
Proof.
  intros Hinv He Hwn Hlt Ha seg1. pose proof (inv_flight _ _ Hinv) as [Hfl _].
  pose proof (inv_next _ _ Hinv) as Hnx. rewrite He in Hnx. cbn [flag_len] in Hnx.
  pose proof (inv_buf _ _ Hinv) as Hbuf. pose proof (proj1 Hbuf). pose proof (inv_total _ _ Hinv) as Htot.
  pose proof (zlen_nonneg (ByteStream._str (_stream s))).
  assert (data_index (_next_seqno s) = ByteStream.bytes_read (_stream s)) as Hdi
    by (unfold data_index; destruct Hnx as [(?&?&_)|?]; lia).
  set (n := fill_count aws (syn_state s)) in *.
  assert (0 <= n <= 1000 /\ n <= zlen (ByteStream._str (_stream s))) as Hn.
  { unfold n, fill_count, TCPConfig.MAX_PAYLOAD_SIZE. cbn. pose proof (flag_len_range (_next_seqno s =? 0)). lia. }
  assert (Buffer.str (TCPSegment._payload seg1) = take (Z.to_nat n) (ByteStream._str (_stream s))) as Hpl.
  { cbn. rewrite Buffer.str_of_string; [done|]. zlen. fold n. word_lia. }
  assert (zlen (take (Z.to_nat n) (ByteStream._str (_stream s))) = n) as Hz by (zlen; lia).
  split; [unfold seqlen; rewrite Hpl, Hz; done|].
  intros Hpos. split; rewrite ?Hpl, ?Hdi, ?Hz; try done.
  - destruct Hnx as [(-> & _)|?]; lia.
  - cbn. apply Z.eqb_eq.
  - by apply at_offset_take.
  - cbn. unfold fill_fin. fold n. intros [[_ Hall%Z.eqb_eq]%andb_true_iff _]%andb_true_iff. cbn in Hall. lia.
  - unfold TCPConfig.MAX_PAYLOAD_SIZE. lia.
Qed.

(** What a sequence of turns does: [new] are the segments it sends. *)
Record sent (W : bytes) (aws : Z) (s : t) (new : list TCPSegment.t) (s' : t) : Prop := {
  se_inv : inv W s';
  se_fields : filled s new s';
  se_covers : covers W (_isn s) (_next_seqno s) new (_next_seqno s');
  se_flight : _bytes_in_flight s' <= aws;
  se_syn : _next_seqno s' <> 0;
  se_ended : ByteStream.input_ended (_stream s') = ByteStream.input_ended (_stream s)
}.

Lemma fill_body_spec W aws seg s :
  inv W s -> _is_transmission_ended s = false -> clean seg -> _bytes_in_flight s < aws -> aws <= 65535 ->
  let seg' := fill_segment aws (syn_segment seg s) (syn_state s) in
  exists s' new, fill_body aws seg s = Ok (seg', s') /\ sent W aws s new s' /\
    let n := fill_count aws (syn_state s) in
    ByteStream._str (_stream s') = drop (Z.to_nat n) (ByteStream._str (_stream s)) /\
    _bytes_in_flight s' = _bytes_in_flight s + flag_len (_next_seqno s =? 0) + n
                          + flag_len (fill_fin aws (syn_state s)) /\
    _is_transmission_ended s' = fill_fin aws (syn_state s).
Proof.
  intros Hinv He (Hcs & Hcf & Hcw) Hlt Ha seg'. pose proof Hinv as [Hisn Hwf Hlen Hbuf Htot Hnx _ Hwin _ Hfl Hout Huna Htm].
  rewrite He in Hnx. cbn [flag_len] in Hnx. pose proof (proj1 Hbuf).
  pose proof (zlen_nonneg (ByteStream._str (_stream s))).
  destruct (fill_segment_at W aws seg s Hinv He Hcw Hlt Ha) as [Hsl Hat]. fold seg' in Hsl, Hat.
  unfold fill_body. rewrite fill_syn_eq by (done || word_lia).
  set (n := fill_count aws (syn_state s)) in *. set (fin := fill_fin aws (syn_state s)) in *.
  assert (flag_len (_next_seqno s =? 0) = 1 /\ _next_seqno s = 0 \/
          flag_len (_next_seqno s =? 0) = 0 /\ _next_seqno s = 1 + ByteStream.bytes_read (_stream s)) as Hsyn.
  { destruct Hnx as [(-> & _)| -> ]; [by left|right]. split; [|lia]. by rewrite (proj2 (Z.eqb_neq _ _)) by lia. }
  assert (0 <= n <= zlen (ByteStream._str (_stream s)) /\
    _bytes_in_flight s + flag_len (_next_seqno s =? 0) + n + flag_len fin <= aws /\
    (fin = true -> ByteStream.input_ended (_stream s) = true /\ n = zlen (ByteStream._str (_stream s)))) as (Hn & Hfit & Hfin).
  { pose proof (flag_len_range (_next_seqno s =? 0)) as Hf.
    assert (0 <= n <= zlen (ByteStream._str (_stream s)) /\
      n <= aws - (_bytes_in_flight s + flag_len (_next_seqno s =? 0))) as [Hn1 Hn2].
    { unfold n, fill_count, TCPConfig.MAX_PAYLOAD_SIZE. cbn. lia. }
    split; [done|]. destruct fin eqn:E; cbn [flag_len]; [|split; [lia|done]].
    unfold fin, fill_fin in E. fold n in E.
    apply andb_true_iff in E as [[Hie Hall%Z.eqb_eq]%andb_true_iff Hne%negb_true_iff%Z.eqb_neq].
    cbn in Hie, Hall, Hne. split; [lia|done]. }
  destruct (fill_data_eq aws (syn_segment seg s) (syn_state s)) as (s' & Hfd & Hfi & Hrd & Hn' & Hb' & He');
    [done|cbn; pose proof (flag_len_range (_next_seqno s =? 0)); lia|done| |cbn; lia|done|done|].
  { cbn. destruct Hnx as [(-> & _)|E]; [cbn; lia|]. pose proof (flag_len_range (_next_seqno s =? 0)). lia. }
  fold n fin in Hrd, Hn', Hb', He'. cbn [syn_state _next_seqno _bytes_in_flight _stream upd] in *. cbn in Hrd, Hn', Hb'.
  set (new := fill_new aws (syn_segment seg s) (syn_state s)) in *.
  assert (covers W (_isn s) (_next_seqno s) new (_next_seqno s')) as Hnew.
  { unfold new, fill_new. fold seg'. destruct (decide (0 < seqlen seg')) as [Hp|Hp]; cbn.
    - split; [by apply Hat|lia].
    - pose proof (flag_len_range fin). lia. }
  assert (filled s new s') as Hfi' by (destruct Hfi; by split).
  pose proof (ByteStream.read_wf _ _ _ _ Hwf (proj1 Hn) Hrd) as Hwf'.
  rewrite ByteStream.read_eq in Hrd by (done || lia). rewrite (Z.min_l n) in Hrd by lia.
  injection Hrd as Hst. symmetry in Hst.
  assert (ByteStream.bytes_read (_stream s') = ByteStream.bytes_read (_stream s) + n) as Hbr.
  { rewrite Hst. unfold ByteStream.bytes_read in *. cbn. apply add64_id. word_lia. }
  assert (ByteStream._str (_stream s') = drop (Z.to_nat n) (ByteStream._str (_stream s))) as Hstr by (by rewrite Hst).
  assert (ByteStream.input_ended (_stream s') = ByteStream.input_ended (_stream s)) as Hie by (by rewrite Hst).
  exists s', new. split; [done|]. split; [|done]. clear Hst Hfd Hat Hsl.
  pose proof (flag_len_range fin). split; [|done|done|lia|lia|done].
  destruct Hfi' as [Ei Eo Eos Ew Eu Er Et Eit Ere Etm].
  split; rewrite ?Ei, ?Eos, ?Ew, ?Eu, ?Hbr, ?Hstr, ?Hie; try assumption.
  - by apply at_offset_drop.
  - zlen. lia.
  - right. rewrite He', Hn'. lia.
  - rewrite He'. intros Hf. destruct (Hfin Hf) as [? Hall]. split; [done|]. apply drop_ge. unfold zlen in *. lia.
  - lia.
  - lia.
  - eapply covers_app; [|exact Hnew]. replace (_next_seqno s' - _bytes_in_flight s') with (_next_seqno s - _bytes_in_flight s) by lia. done.
  - lia.
  - rewrite Etm. case_decide as Hd; [by rewrite Hd, app_nil_r|].
    split; [|intros _; apply RetransmissionTimer.start_is_start]. intros _ [_ ?]%app_eq_nil. done.
Qed.

Lemma start_start ddl s : RetransmissionTimer.start ddl (RetransmissionTimer.start ddl s) = RetransmissionTimer.start ddl s.
Proof. unfold RetransmissionTimer.start. by destruct (RetransmissionTimer._is_start s) eqn:E; rewrite ?E. Qed.

Lemma filled_trans s1 n1 s2 n2 s3 : filled s1 n1 s2 -> filled s2 n2 s3 -> filled s1 (n1 ++ n2) s3.
Proof.
  intros [] []. split; try congruence.
  - by rewrite fi_out1, fi_out0, app_assoc.
  - by rewrite fi_outstanding1, fi_outstanding0, app_assoc.
  - rewrite fi_timer1, fi_timer0, fi_rto0. destruct (decide (n1 = [])) as [->|H1]; [by rewrite app_nil_l|].
    rewrite (decide_False (P := n1 ++ n2 = [])) by (by intros [??]%app_eq_nil).
    case_decide; [done|]. by rewrite start_start.
Qed.

Lemma sent_trans W aws s1 n1 s2 n2 s3 : sent W aws s1 n1 s2 -> sent W aws s2 n2 s3 -> sent W aws s1 (n1 ++ n2) s3.
Proof.
  intros [] []. split; try done; [by eapply filled_trans| |congruence].
  eapply covers_app; [done|]. destruct se_fields0 as [Ei _ _ _ _ _ _ _ _ _]. by rewrite <- Ei.
Qed.

(** Nothing more can be sent: the buffer is empty or the window is used up,
    and the FIN has gone out if the stream is closed and there was room. *)
Definition filled_up (aws : Z) (s : t) : Prop :=
  (ByteStream._str (_stream s) = [] \/ _bytes_in_flight s = aws) /\
  (ByteStream.input_ended (_stream s) = true -> ByteStream._str (_stream s) = [] ->
   _bytes_in_flight s < aws -> _is_transmission_ended s = true).

Lemma fill_loop_spec W aws fuel seg s :
  inv W s -> _is_transmission_ended s = false -> clean seg -> _bytes_in_flight s < aws -> aws <= 65535 ->
  (_next_seqno s = 0 -> ByteStream._str (_stream s) = [] \/ aws <= 1) ->
  (length (ByteStream._str (_stream s)) < fuel)%nat ->
  exists s' new, fill_loop fuel aws seg s = Ok s' /\ sent W aws s new s' /\ filled_up aws s'.
Proof.
  revert seg s. induction fuel as [|fuel IH]; intros seg s Hinv He Hcl Hlt Ha Hfresh Hfuel; [lia|].
  destruct (fill_body_spec W aws seg s Hinv He Hcl Hlt Ha) as (s1 & new & Hb & Hsent & Hstr & Hbif & Hend).
  set (n := fill_count aws (syn_state s)) in *.
  cbn [fill_loop]. rewrite He, Hb. cbn [mbind result_bind].
  pose proof (se_inv _ _ _ _ _ Hsent) as Hinv1. pose proof (se_flight _ _ _ _ _ Hsent) as Hfl1.
  pose proof (inv_flight _ _ Hinv) as [Hfl _]. pose proof (inv_flight _ _ Hinv1) as [Hfl1' _].
  rewrite (sub64_id aws) by word_lia. pose proof (zlen_nonneg (ByteStream._str (_stream s))).
  assert (n = Z.min (Z.min (aws - (_bytes_in_flight s + flag_len (_next_seqno s =? 0))) 1000)
                    (zlen (ByteStream._str (_stream s)))) as Hn by done.
  pose proof (flag_len_range (_next_seqno s =? 0)) as Hfr.
  destruct (ByteStream.buffer_empty (_stream s1)) eqn:Hem; cbn [negb andb].
  - apply ByteStream.buffer_empty_nil in Hem; [|apply Hinv1].
    exists s1, new. split; [done|]. split; [done|]. split; [by left|]. intros Hie _ Hroom. rewrite Hend.
    unfold fill_fin. fold n. cbn. rewrite <- (se_ended _ _ _ _ _ Hsent), Hie. cbn. apply andb_true_iff. split.
    + apply Z.eqb_eq. rewrite Hem in Hstr. symmetry in Hstr. apply (f_equal zlen) in Hstr. zlen. lia.
    + apply negb_true_iff, Z.eqb_neq. pose proof (flag_len_range (fill_fin aws (syn_state s))). lia.
  - assert (ByteStream._str (_stream s1) <> []) as Hne.
    { intros E. apply ByteStream.buffer_empty_nil in E; [congruence|apply Hinv1]. }
    destruct (Z.eqb_spec (aws - _bytes_in_flight s1) 0) as [Hz|Hz]; cbn [negb].
    + exists s1, new. split; [done|]. split; [done|]. split; [right; lia|]. done.
    + assert (fill_fin aws (syn_state s) = false) as Hff.
      { destruct (fill_fin aws (syn_state s)) eqn:E; [|done].
        destruct (inv_ended _ _ Hinv1) as [_ ?]; [congruence|done]. }
      rewrite Hff in *. cbn [flag_len] in Hbif.
      assert (_next_seqno s <> 0) as Hnz.
      { intros E. destruct (Hfresh E) as [Hs|Hw].
        - apply Hne. rewrite Hstr, Hs. apply drop_nil.
        - rewrite E in *. cbn in *. lia. }
      rewrite (proj2 (Z.eqb_neq _ 0)) in * by done. cbn [flag_len] in *.
      destruct (IH (fill_segment aws (syn_segment seg s) (syn_state s)) s1) as (s2 & new2 & Hl & Hsent2 & Hup);
        [done|by rewrite Hend| |lia|done| | |].
      * split; cbn; [by apply Z.eqb_neq|by destruct Hcl as (_ & _ & ?)].
      * intros E. by destruct (se_syn _ _ _ _ _ Hsent).
      * assert (0 < zlen (ByteStream._str (_stream s))) as Hpos.
        { destruct (Z.eq_dec (zlen (ByteStream._str (_stream s))) 0) as [E%zlen_0_nil|]; [|lia].
          exfalso. apply Hne. rewrite Hstr, E. apply drop_nil. }
        rewrite Hstr, length_drop. unfold zlen in *. lia.
      * exists s2, (new ++ new2). split; [done|]. split; [by eapply sent_trans|done].
Qed.

(** The window the sender acts on: a window of 0 counts as 1. *)
Definition actual_window (s : t) : Z := if _window_size s =? 0 then 1 else _window_size s.

Lemma actual_window_bounds W s : inv W s -> 1 <= actual_window s <= 65535 /\ (_window_size s <= 1 -> actual_window s = 1).
Proof.
  intros Hinv. pose proof (inv_window _ _ Hinv). unfold actual_window. destruct (Z.eqb_spec (_window_size s) 0); word_lia.
Qed.

Lemma fill_window_spec W s :
  inv W s ->
  (fill_window s = Ok s /\ (actual_window s <= _bytes_in_flight s \/ _is_transmission_ended s = true)) \/
  (exists s' new, fill_window s = Ok s' /\ sent W (actual_window s) s new s' /\ filled_up (actual_window s) s').
Proof.
  intros Hinv. destruct (actual_window_bounds _ _ Hinv) as [Hw Hw1].
  unfold fill_window. fold (actual_window s).
  destruct (Z.leb_spec (actual_window s) (_bytes_in_flight s)); [by left; split; [|left]|].
  destruct (_is_transmission_ended s) eqn:He.
  { left. cbn [fill_loop]. rewrite He. by split; [|right]. }
  right. apply fill_loop_spec; try done; [lia| |lia].
  intros Hz. destruct (inv_fresh _ _ Hinv Hz); [by left|right]. rewrite Hw1 by done. lia.
Qed.

(** ** The other operations keep the invariant *)

Lemma init_inv capacity retx isn random :
  is_u64 capacity -> WrappingInt32.wf (default (WrappingInt32.mk random) isn) -> inv [] (init capacity retx isn random).
Proof.
  intros Hc Hw. split; cbn; try done; try lia; first [by auto with stream | by apply at_offset_nil | by left | idtac].
Qed.

(** A write to the outgoing stream, before it is closed; when the SYN has not
    been sent, only while the window is the initial one. *)
Lemma write_inv W s data n stream :
  inv W s -> ByteStream.input_ended (_stream s) = false -> _next_seqno s <> 0 \/ _window_size s <= 1 ->
  ByteStream.write data (_stream s) = (n, stream) ->
  zlen (W ++ substr0 data n) + 2 + 2 ^ 16 < 2 ^ 64 ->
  inv (W ++ substr0 data n) (with_stream_in stream s).
Proof.
  intros Hinv Hie Hw Hwr Hlen. pose proof (inv_no_fin W s) as Hnf. pose proof Hinv as [].
  assert (_is_transmission_ended s = false) as He.
  { destruct (_is_transmission_ended s) eqn:E; [|done]. destruct (inv_ended0 eq_refl). congruence. }
  pose proof (ByteStream.write_wf data _ inv_stream0) as Hwf. rewrite Hwr in Hwf. cbn in Hwf.
  rewrite ByteStream.write_eq in Hwr by done. injection Hwr as Hn Hst. subst stream.
  unfold ByteStream.bytes_read in *. rewrite Hn in *.
  split; cbn; try done; unfold ByteStream.bytes_read; cbn.
  - apply at_offset_app; [by apply at_offset_grow|]. rewrite inv_total0. split.
    + rewrite zlen_app. pose proof (zlen_nonneg W). pose proof (zlen_nonneg (substr0 data n)). lia.
    + unfold zlen. rewrite Nat2Z.id, drop_app_length, substr0_eq. done.
  - rewrite !substr0_eq, !zlen_app. lia.
  - by rewrite He.
  - intros E. right. destruct Hw; [done|lia].
  - apply covers_grow; [done|]. intros seg Hin. destruct (TCPHeader.fin _) eqn:E; [|done].
    specialize (Hnf seg Hinv Hin E). congruence.
Qed.

Lemma end_input_inv W s : inv W s -> inv W (with_stream_in (ByteStream.end_input (_stream s)) s).
Proof.
  intros []. split; cbn; try done; [by auto with stream|]. intros He. destruct (inv_ended0 He). done.
Qed.

Lemma set_error_inv W s : inv W s -> inv W (with_stream_in (ByteStream.set_error (_stream s)) s).
Proof. intros []. split; cbn; try done. by auto with stream. Qed.

Lemma empty_segment_inv W s : inv W s -> inv W (send_empty_segment s).
Proof. intros []. by split. Qed.

(** Taking a segment off the outbound queue is invisible to the invariant. *)
Lemma segments_out_inv W s q : inv W s -> inv W (s <| _segments_out := q |>).
Proof. intros []. by split. Qed.

(** The loop of [ack_received] removes the longest prefix of segments that the
    acknowledgment covers. *)
Lemma ack_loop_spec W w ackno b l a :
  WrappingInt32.wf w -> 0 <= a -> b < 2 ^ 64 -> b - a <= 65535 -> covers W w a l b ->
  exists acked l' a',
    ack_loop w b ackno l (b - a) = (l', b - a') /\ l = acked ++ l' /\
    covers W w a acked a' /\ covers W w a' l' b /\
    (acked = [] \/ a' <= ackno) /\
    (forall seg rest, l' = seg :: rest -> ackno < a' + seqlen seg).
Proof.
  intros Hw. revert a. induction l as [|seg l IH]; intros a Ha Hb Hab Hc.
  { cbn in Hc. subst b. exists [], [], a. cbn. split_and!; try done. by left. }
  destruct Hc as [Hs Hc]. pose proof (covers_le _ _ _ _ _ Hc) as [Hle _].
  destruct (length_in_sequence_space_eq _ _ _ _ Hs) as [El Hl]. cbn [ack_loop]. rewrite El.
  unfold TCPSegment.header. rewrite (sa_seqno _ _ _ _ Hs), WrappingInt32.unwrap_wrap by (done || word_lia).
  rewrite add64_id by word_lia. destruct (Z.leb_spec (a + seqlen seg) ackno) as [Hk|Hk].
  - rewrite sub64_id by word_lia. replace (b - a - seqlen seg) with (b - (a + seqlen seg)) by lia.
    destruct (IH (a + seqlen seg)) as (acked & l' & a' & Hr & -> & H1 & H2 & H3 & H4); [lia|lia|lia|done|].
    exists (seg :: acked), l', a'. split_and!; try done. right.
    destruct H3 as [->|?]; [|done]. cbn in H1. lia.
  - exists [], (seg :: l), a. split_and!; try done; [by left|]. intros seg' rest [= <- <-]. lia.
Qed.

Lemma ack_received_inv W s ackno win :
  inv W s -> is_u16 win -> (_next_seqno s = 0 -> ByteStream._str (_stream s) = [] \/ win <= 1) ->
  inv W (ack_received ackno win s).
Proof.
  intros Hinv Hwin Hfresh. unfold ack_received. cbn.
  set (k := WrappingInt32.unwrap ackno (_isn s) (_next_seqno s)).
  destruct (Z.leb_spec k (_una_seqno s)), (Z.ltb_spec (_next_seqno s) k); cbn [orb];
    [by destruct Hinv; split..|]. pose proof Hinv as [].
  assert (0 <= _next_seqno s < 2 ^ 64) as Hnb.
  { pose proof (proj1 inv_buf0). pose proof (flag_len_range (_is_transmission_ended s)).
    pose proof (zlen_nonneg (ByteStream._str (_stream s))). destruct inv_next0 as [(?&?&?)|?]; lia. }
  destruct (ack_loop_spec W (_isn s) k (_next_seqno s) (_outstanding_segments s)
    (_next_seqno s - _bytes_in_flight s)) as (acked & l' & a' & Hl & Ho & H1 & H2 & H3 & H4);
    [done|lia|lia|lia|done|].
  replace (_next_seqno s - (_next_seqno s - _bytes_in_flight s)) with (_bytes_in_flight s) in Hl by lia.
  rewrite Hl. pose proof (covers_le _ _ _ _ _ H1) as [Hle1 _]. pose proof (covers_le _ _ _ _ _ H2) as [Hle2 _].
  assert (a' <= k) as Hak.
  { destruct H3 as [->|?]; [|done]. cbn in H1. lia. }
  cbn. destruct l' as [|seg l']; split; cbn; try done; try lia;
    replace (_next_seqno s - (_next_seqno s - a')) with a' by lia; done.
Qed.

Lemma tick_inv W s ms : inv W s -> inv W (tick ms s).
Proof.
  intros []. unfold tick. cbn.
  destruct (RetransmissionTimer.expired _), (_outstanding_segments s) as [|seg l] eqn:E;
    repeat case_match; split; cbn; rewrite ?E, ?RetransmissionTimer.tick_is_start in *; done.
Qed.

(** Nothing more can be sent now: the window is used up, the FIN has gone out,
    or an open stream has nothing buffered. *)
Definition saturated (s : t) : Prop :=
  actual_window s <= _bytes_in_flight s \/ _is_transmission_ended s = true \/
  (ByteStream._str (_stream s) = [] /\ ByteStream.input_ended (_stream s) = false).

Lemma fill_window_saturates W s :
  inv W s -> exists s', fill_window s = Ok s' /\ inv W s' /\ saturated s' /\ _next_seqno s' <> 0 /\
    _bytes_in_flight s' <= Z.max (_bytes_in_flight s) (actual_window s) /\ _window_size s' = _window_size s.
Proof.
  intros Hinv. destruct (actual_window_bounds _ _ Hinv) as [Hw _].
  pose proof (inv_flight _ _ Hinv) as [Hfl Hfn].
  destruct (fill_window_spec W s Hinv) as [[E Hor]|(s' & new & E & Hs & [Hup Hfin])].
  - exists s. split; [done|]. split; [done|]. split; [destruct Hor; [by left|right; by left]|].
    split; [|by split; [lia|]]. destruct Hor as [?|He]; [lia|].
    destruct (inv_next _ _ Hinv) as [(_&_&?)|Hn]; [congruence|].
    pose proof (proj1 (inv_buf _ _ Hinv)). pose proof (flag_len_range (_is_transmission_ended s)). lia.
  - exists s'. pose proof (se_flight _ _ _ _ _ Hs). destruct Hs as [Hi' Hfi _ _ Hsyn _]. split; [done|]. split; [done|].
    assert (actual_window s' = actual_window s) as Ea by (unfold actual_window; by rewrite (fi_window _ _ _ Hfi)).
    split; [|split; [done|split; [lia|apply Hfi]]]. unfold saturated. rewrite Ea.
    destruct (Z.le_gt_cases (actual_window s) (_bytes_in_flight s')) as [|Hlt]; [by left|right].
    destruct Hup as [Hemp|?]; [|lia].
    destruct (ByteStream.input_ended (_stream s')) eqn:Hie; [left; by apply Hfin|by right].
Qed.

(** ** Traces

    A configuration is the sender, the stream written so far, and every
    segment the sender has put on its outbound queue.  The steps are the calls
    of its owner.  The owner's part of the contract: it does not write to a
    closed stream, and while the SYN has not been sent it does not combine
    buffered data with a window of more than one (see [sender_stale_syn] for
    what the code does then).  [TCPConnection], the only owner a sender has in
    the program, keeps the second part by itself: it fills the window in the same
    call that writes or takes an acknowledgment, and so sends the SYN there. *)
Definition config : Type := t * bytes * list TCPSegment.t.

Inductive step : config -> config -> Prop :=
| step_write s W log data n stream :
    ByteStream.input_ended (stream_in s) = false -> _next_seqno s <> 0 \/ _window_size s <= 1 ->
    ByteStream.write data (stream_in s) = (n, stream) ->
    zlen (W ++ substr0 data n) + 2 + 2 ^ 16 < 2 ^ 64 ->
    step (s, W, log) (with_stream_in stream s, W ++ substr0 data n, log)
| step_end_input s W log :
    step (s, W, log) (with_stream_in (ByteStream.end_input (stream_in s)) s, W, log)
| step_fill s W log s' new :
    fill_window s = Ok s' -> segments_out s' = segments_out s ++ new ->
    step (s, W, log) (s', W, log ++ new)
| step_ack s W log ackno win :
    is_u16 win -> (_next_seqno s = 0 -> ByteStream._str (stream_in s) = [] \/ win <= 1) ->
    step (s, W, log) (ack_received ackno win s, W, log)
| step_tick s W log ms new :
    segments_out (tick ms s) = segments_out s ++ new -> step (s, W, log) (tick ms s, W, log ++ new)
| step_empty s W log new :
    segments_out (send_empty_segment s) = segments_out s ++ new ->
    step (s, W, log) (send_empty_segment s, W, log ++ new)
| step_drain s W log q : step (s, W, log) (s <| _segments_out := q |>, W, log).

Definition reachable (s0 : t) (c : config) : Prop := rtc step (s0, [], []) c.

(** A segment that carries nothing, as [send_empty_segment] makes when the next
    absolute sequence number is at most [next]. *)
Definition empty_segment (w : WrappingInt32.t) (next : Z) (seg : TCPSegment.t) : Prop :=
  exists a, 0 <= a <= next /\
    seg = TCPSegment.mk (TCPHeader.init <| TCPHeader.seqno := WrappingInt32.wrap a w |>) Buffer.empty.

Definition sound_segment (W : bytes) (w : WrappingInt32.t) (next : Z) (seg : TCPSegment.t) : Prop :=
  empty_segment w next seg \/ exists a, segment_at W w seg a /\ a + seqlen seg <= next.

Record sender_ok (c : config) : Prop := {
  ok_inv : inv (c.1.2) (c.1.1);
  ok_log : Forall (sound_segment (c.1.2) (_isn (c.1.1)) (_next_seqno (c.1.1))) c.2
}.

Lemma sound_segment_mono W w next next' seg :
  sound_segment W w next seg -> next <= next' -> sound_segment W w next' seg.
Proof.
  intros [(a & ? & ->)|(a & ? & ?)] Hle; [left|right]; exists a; (split; [|done || lia]); [lia|done].
Qed.

(** The log survives a write: no segment in it carries the FIN. *)
Lemma sound_segment_write W s seg d :
  inv W s -> _is_transmission_ended s = false -> sound_segment W (_isn s) (_next_seqno s) seg ->
  sound_segment (W ++ d) (_isn s) (_next_seqno s) seg.
Proof.
  intros Hinv He [?|(a & Ha & Hle)]; [by left|right]. exists a. split; [|done].
  apply segment_at_grow; [done|]. destruct (TCPHeader.fin (TCPSegment._header seg)) eqn:Hf; [exfalso|done].
  destruct Ha, Hinv. specialize (sa_fin0 Hf). unfold seqlen, flag_len, data_index in *. rewrite Hf, He in *.
  pose proof (zlen_nonneg (ByteStream._str (_stream s))). pose proof (proj1 inv_buf0).
  destruct (TCPHeader.syn (TCPSegment._header seg)), inv_next0 as [(?&?&?)|?];
    pose proof (proj1 sa_syn0); pose proof (proj2 sa_syn0); lia.
Qed.

Lemma covers_sound W w a l b : covers W w a l b -> Forall (sound_segment W w b) l.
Proof.
  intros Hc. apply Forall_forall. intros seg Hin.
  destruct (covers_elem _ _ _ _ _ _ Hc Hin) as (c & _ & Hle & Hs). right. by exists c.
Qed.

Lemma ack_received_frame ackno win s :
  _isn (ack_received ackno win s) = _isn s /\ _next_seqno (ack_received ackno win s) = _next_seqno s.
Proof. unfold ack_received. repeat case_match; done. Qed.

Lemma tick_frame ms s :
  _stream (tick ms s) = _stream s /\ _window_size (tick ms s) = _window_size s /\
  _bytes_in_flight (tick ms s) = _bytes_in_flight s /\ _next_seqno (tick ms s) = _next_seqno s /\
  _is_transmission_ended (tick ms s) = _is_transmission_ended s.
Proof. unfold tick. by repeat case_match. Qed.

(** What a tick appends to the outbound queue. *)
Lemma tick_out ms s :
  _isn (tick ms s) = _isn s /\ _next_seqno (tick ms s) = _next_seqno s /\
  exists new, segments_out (tick ms s) = segments_out s ++ new /\
    (new = [] \/ exists front rest, _outstanding_segments s = front :: rest /\ new = [front]).
Proof.
  unfold tick, segments_out. cbn.
  destruct (RetransmissionTimer.expired _), (_outstanding_segments s) as [|seg l]; repeat case_match; cbn;
    (split; [done|]); (split; [done|]);
    first [exists []; rewrite app_nil_r; by split; [|left] | exists [seg]; split; [done|right; eauto]].
Qed.

Lemma step_ok c c' : sender_ok c -> step c c' -> sender_ok c'.
Proof.
  intros Hok Hs. destruct Hs as [s W log data n stream Hie Hw Hwr Hlen|s W log|s W log s' new Hf Ho
    |s W log ackno win Hwin Hfr|s W log ms new Ho|s W log new Ho|s W log q]; destruct Hok as [Hinv Hlog]; cbn in *.
  - assert (_is_transmission_ended s = false) as He.
    { destruct (_is_transmission_ended s) eqn:E; [|done]. destruct (inv_ended _ _ Hinv E).
      unfold stream_in in Hie. congruence. }
    split; cbn; [by eapply write_inv|]. eapply Forall_impl; [done|]. intros seg. by apply sound_segment_write.
  - split; cbn; [by apply end_input_inv|done].
  - destruct (fill_window_spec W s Hinv) as [[E _]|(s1 & new1 & E & Hsent & _)]; rewrite E in Hf; injection Hf as ->.
    + assert (new = []) as -> by (by apply (app_inv_head (segments_out s')); rewrite <- Ho, app_nil_r).
      rewrite app_nil_r. by split.
    + destruct Hsent as [Hi' Hfi Hc _ _ _]. destruct Hfi.
      assert (new = new1) as -> by (apply (app_inv_head (segments_out s)); unfold segments_out in *; congruence).
      split; cbn; [done|]. rewrite fi_isn0. apply Forall_app. split.
      * eapply Forall_impl; [done|]. intros seg ?. eapply sound_segment_mono; [done|].
        apply (covers_le _ _ _ _ _ Hc).
      * by eapply covers_sound.
  - split; cbn; [by apply ack_received_inv|]. destruct (ack_received_frame ackno win s) as [-> ->]. done.
  - destruct (tick_out ms s) as (E1 & E2 & new1 & E3 & E4). split; cbn; [by apply tick_inv|]. rewrite E1, E2.
    assert (new = new1) as -> by (apply (app_inv_head (segments_out s)); congruence).
    apply Forall_app. split; [done|]. destruct E4 as [->|(front & rest & Hout & ->)]; [constructor|].
    apply Forall_singleton. pose proof (covers_sound _ _ _ _ _ (inv_out _ _ Hinv)) as Hall.
    rewrite Hout in Hall. by inversion Hall.
  - split; cbn; [by apply empty_segment_inv|]. apply Forall_app. split; [done|].
    unfold send_empty_segment, segments_out in Ho. cbn in Ho. apply app_inv_head in Ho. subst new.
    apply Forall_singleton. left. exists (_next_seqno s). split; [|done]. pose proof (inv_flight _ _ Hinv).
    change (0 <= _next_seqno s <= _next_seqno s). lia.
  - split; cbn; [by apply segments_out_inv|done].
Qed.

Lemma reachable_ok s0 c : inv [] s0 -> reachable s0 c -> sender_ok c.
Proof.
  intros H0 Hr. assert (sender_ok (s0, [], [])) as Hok by (split; [done|constructor]).
  unfold reachable in Hr. revert Hok. clear H0. induction Hr; eauto using step_ok.
Qed.

(** ** The properties of the class *)

(** Under its owner's contract, every segment the sender ever emits,
    retransmissions included, is either an empty one or a segment of the outgoing stream with the sequence
    number of its first byte, SYN exactly at the start, FIN only at the end,
    and at most [MAX_PAYLOAD_SIZE] bytes; the outstanding segments are
    contiguous and cover exactly the [bytes_in_flight()] numbers below the
    next one.  For the sender of a connection the contract holds
    ([connection_sends_stream]). *)
Theorem sender_sound capacity retx isn random c :
  is_u64 capacity -> WrappingInt32.wf (default (WrappingInt32.mk random) isn) ->
  reachable (init capacity retx isn random) c ->
  Forall (fun seg => empty_segment (_isn (c.1.1)) (_next_seqno (c.1.1)) seg \/
                     exists a, segment_at (c.1.2) (_isn (c.1.1)) seg a) c.2 /\
  covers (c.1.2) (_isn (c.1.1)) (_next_seqno (c.1.1) - bytes_in_flight (c.1.1))
    (_outstanding_segments (c.1.1)) (_next_seqno (c.1.1)) /\
  0 <= bytes_in_flight (c.1.1) <= 65535.
Proof.
  intros Hc Hw Hr. destruct (reachable_ok _ _ (init_inv capacity retx isn random Hc Hw) Hr) as [Hinv Hlog].
  split; [|split; [apply Hinv|apply (inv_flight _ _ Hinv)]].
  eapply Forall_impl; [exact Hlog|]. intros seg [?|(a & ? & _)]; eauto.
Qed.

(** An owner that writes three bytes, opens, is acknowledged, and fills again. *)
Definition sample_run : config :=
  let s := init 10 1000 (Some (WrappingInt32.mk 7)) 0 in
  let s := with_stream_in (snd (ByteStream.write [x61; x62; x63] (stream_in s))) s in
  let s := match fill_window s with Ok s => s | _ => s end in
  let s := ack_received (WrappingInt32.mk 8) 2 s in
  let s := match fill_window s with Ok s => s | _ => s end in
  (s, [x61; x62; x63], segments_out s).

Lemma sample_run_reachable : reachable (init 10 1000 (Some (WrappingInt32.mk 7)) 0) sample_run.
Proof.
  eapply rtc_l; [apply (step_write _ _ _ [x61; x62; x63] 3); [reflexivity|right; vm_compute; discriminate|reflexivity|by vm_compute]|].
  eapply rtc_l; [eapply step_fill; [vm_compute; reflexivity|reflexivity]|].
  eapply rtc_l; [apply (step_ack _ _ _ (WrappingInt32.mk 8) 2); [word_lia|vm_compute; discriminate]|].
  eapply rtc_l; [eapply step_fill; [vm_compute; reflexivity|reflexivity]|].
  apply rtc_refl.
Qed.

(** C10: [fill_window] terminates and fills the window: it never puts more
    sequence numbers in flight than the window (counted as one when it is
    zero) allows, and it stops only when the window is used up, when the FIN
    has been sent, or when an open stream has nothing buffered. *)
Theorem sender_fills capacity retx isn random c :
  is_u64 capacity -> WrappingInt32.wf (default (WrappingInt32.mk random) isn) ->
  reachable (init capacity retx isn random) c ->
  exists s', fill_window (c.1.1) = Ok s' /\
    bytes_in_flight s' <= Z.max (bytes_in_flight (c.1.1)) (actual_window (c.1.1)) /\
    (actual_window (c.1.1) <= bytes_in_flight s' \/ _is_transmission_ended s' = true \/
     (ByteStream._str (stream_in s') = [] /\ ByteStream.input_ended (stream_in s') = false)).
Proof.
  intros Hc Hw Hr. destruct (reachable_ok _ _ (init_inv capacity retx isn random Hc Hw) Hr) as [Hinv _].
  destruct (fill_window_saturates _ _ Hinv) as (s' & E & _ & Hsat & _ & Hle & Ew).
  exists s'. split; [done|]. split; [done|]. unfold saturated, actual_window in *. rewrite Ew in Hsat. done.
Qed.

Lemma sender_fills_witness :
  exists s', fill_window (sample_run.1.1) = Ok s' /\ bytes_in_flight s' <= 2.
Proof.
  destruct (sender_fills 10 1000 (Some (WrappingInt32.mk 7)) 0 sample_run) as (s' & H1 & H2 & _);
    [word_lia|unfold WrappingInt32.wf; cbn; word_lia|exact sample_run_reachable|].
  exists s'. split; [exact H1|]. exact H2.
Defined.

(** C11: an acknowledgment, with a number within [2^31] of the next one to send.
    One that is old, repeated or beyond what was sent changes nothing of the
    sender, except perhaps the window it knows of, which the statement leaves
    open.  A new one removes exactly the outstanding segments it covers
    entirely, and resets the retransmission timeout, the count of
    retransmissions and the timer, which then runs exactly if something is still
    outstanding. *)
Theorem sender_ack capacity retx isn random c k win :
  is_u64 capacity -> WrappingInt32.wf (default (WrappingInt32.mk random) isn) ->
  reachable (init capacity retx isn random) c -> is_u64 k ->
  let s := c.1.1 in
  Z.abs (k - next_seqno_absolute s) < 2 ^ 31 ->
  let s' := ack_received (WrappingInt32.wrap k (_isn s)) win s in
  if decide (_una_seqno s < k <= next_seqno_absolute s) then
    exists acked a,
      _outstanding_segments s = acked ++ _outstanding_segments s' /\
      covers (c.1.2) (_isn s) (next_seqno_absolute s - bytes_in_flight s) acked a /\ a <= k /\
      bytes_in_flight s' = next_seqno_absolute s - a /\
      (forall seg rest, _outstanding_segments s' = seg :: rest -> k < a + seqlen seg) /\
      _una_seqno s' = k /\ _window_size s' = win /\
      _cur_rto s' = _initial_retransmission_timeout s /\ consecutive_retransmissions s' = 0 /\
      _timer s' = (if decide (_outstanding_segments s' = []) then RetransmissionTimer.init
                   else RetransmissionTimer.mk (_initial_retransmission_timeout s) 0 true)
  else s' <| _window_size := _window_size s |> = s.
Proof.
  intros Hc Hw Hr Hk s Hnear s'. destruct (reachable_ok _ _ (init_inv capacity retx isn random Hc Hw) Hr) as [Hinv _].
  fold s in Hinv. pose proof Hinv as []. unfold next_seqno_absolute, bytes_in_flight, consecutive_retransmissions in *.
  assert (0 <= _next_seqno s < 2 ^ 64) as Hnb.
  { pose proof (proj1 inv_buf0). pose proof (flag_len_range (_is_transmission_ended s)).
    pose proof (zlen_nonneg (ByteStream._str (_stream s))). destruct inv_next0 as [(?&?&?)|?]; lia. }
  unfold s', ack_received. cbn. rewrite WrappingInt32.unwrap_wrap by done. case_decide as Hd.
  - rewrite (proj2 (Z.leb_gt _ _)), (proj2 (Z.ltb_ge _ _)) by lia. cbn [orb].
    destruct (ack_loop_spec (c.1.2) (_isn s) k (_next_seqno s) (_outstanding_segments s)
      (_next_seqno s - _bytes_in_flight s)) as (acked & l' & a' & Hl & Ho & H1 & H2 & H3 & H4);
      [done|lia|lia|lia|done|].
    replace (_next_seqno s - (_next_seqno s - _bytes_in_flight s)) with (_bytes_in_flight s) in Hl by lia.
    rewrite Hl. exists acked, a'.
    assert (a' <= k) by (destruct H3 as [->|?]; [cbn in H1; lia|done]).
    destruct l' as [|seg l']; cbn; split_and!; done.
  - destruct (Z.leb_spec k (_una_seqno s)), (Z.ltb_spec (_next_seqno s) k); cbn [orb];
      first [lia | clear; by destruct s].
Qed.

Lemma sender_ack_witness :
  let s := sample_run.1.1 in
  let s' := ack_received (WrappingInt32.wrap 3 (_isn s)) 5 s in
  _una_seqno s' = 3 /\ _window_size s' = 5.
Proof.
  intros s s'.
  pose proof (sender_ack 10 1000 (Some (WrappingInt32.mk 7)) 0 sample_run 3 5) as H. cbv zeta in H.
  rewrite decide_True in H by (vm_compute; split; [reflexivity|discriminate]).
  destruct H as (acked & a & _ & _ & _ & _ & _ & H1 & H2 & _);
    [word_lia|unfold WrappingInt32.wf; cbn; word_lia|exact sample_run_reachable|word_lia|by vm_compute|].
  split; [exact H1|exact H2].
Defined.

(** The window of an acknowledgment is taken over before its number is looked at,
    also when that is old or beyond what was sent. *)
Theorem sender_takes_any_window s ackno win : _window_size (ack_received ackno win s) = win.
Proof. unfold ack_received. by repeat case_match. Qed.

(** C12: the passage of time.  When something is outstanding and the running
    timer reaches its deadline, exactly the oldest outstanding segment is
    queued again; if the window is not zero the timeout doubles and the
    retransmission is counted; the timer restarts from zero.  Otherwise
    nothing is queued. *)
Theorem sender_retransmits capacity retx isn random c ms :
  is_u64 capacity -> WrappingInt32.wf (default (WrappingInt32.mk random) isn) ->
  reachable (init capacity retx isn random) c ->
  let s := c.1.1 in
  let s' := tick ms s in
  match _outstanding_segments s with
  | seg :: rest =>
      if RetransmissionTimer._ddl (_timer s) <=? RetransmissionTimer._cur (_timer s) ⊕ ms then
        segments_out s' = segments_out s ++ [seg] /\
        segment_at (c.1.2) (_isn s) seg (next_seqno_absolute s - bytes_in_flight s) /\
        (if _window_size s =? 0
         then _cur_rto s' = _cur_rto s /\ consecutive_retransmissions s' = consecutive_retransmissions s
         else _cur_rto s' = u64 (2 * _cur_rto s) /\
              consecutive_retransmissions s' = u32 (consecutive_retransmissions s + 1)) /\
        _timer s' = RetransmissionTimer.mk (_cur_rto s') 0 true
      else segments_out s' = segments_out s
  | [] => segments_out s' = segments_out s
  end.
Proof.
  intros Hc Hw Hr s s'. destruct (reachable_ok _ _ (init_inv capacity retx isn random Hc Hw) Hr) as [Hinv _].
  fold s in Hinv. pose proof (inv_out _ _ Hinv) as Hout. pose proof (inv_timer _ _ Hinv) as Htm.
  unfold s', tick. cbn. unfold segments_out, bytes_in_flight, next_seqno_absolute, consecutive_retransmissions.
  destruct (_outstanding_segments s) as [|seg rest] eqn:E; [by destruct (RetransmissionTimer.expired _)|].
  destruct Hout as [Hat _].
  assert (RetransmissionTimer._is_start (_timer s) = true) as Hst by (by apply Htm).
  unfold RetransmissionTimer.expired, RetransmissionTimer.tick. rewrite Hst. cbn. rewrite Hst.
  destruct (RetransmissionTimer._ddl (_timer s) <=? RetransmissionTimer._cur (_timer s) ⊕ ms); [|done].
  rewrite Z.shiftl_mul_pow2 by lia. change (2 ^ 1) with 2. rewrite (Z.mul_comm _ 2).
  destruct (_window_size s =? 0); cbn; done.
Qed.

Lemma sender_retransmits_witness :
  exists seg, segments_out (tick 1000 (sample_run.1.1)) = segments_out (sample_run.1.1) ++ [seg] /\
    _cur_rto (tick 1000 (sample_run.1.1)) = 2000.
Proof.
  pose proof (sender_retransmits 10 1000 (Some (WrappingInt32.mk 7)) 0 sample_run 1000
    ltac:(word_lia) ltac:(unfold WrappingInt32.wf; cbn; word_lia) sample_run_reachable) as H. cbv zeta in H.
  destruct (_outstanding_segments (sample_run.1.1)) as [|seg rest] eqn:E; [vm_compute in E; discriminate E|].
  assert ((RetransmissionTimer._ddl (_timer (sample_run.1.1)) <=?
    RetransmissionTimer._cur (_timer (sample_run.1.1)) ⊕ 1000) = true) as Ed by (vm_compute; reflexivity).
  rewrite Ed in H. destruct H as [H _]. exists seg. split; [exact H|vm_compute; reflexivity].
Defined.

(** The segment variable of [fill_window] is declared outside the loop, so
    its SYN flag survives into the next turn: an owner that receives a window
    and writes before the SYN has been sent gets a second segment that also
    carries SYN, at sequence number 1001, past the start of the stream. *)
Theorem sender_stale_syn :
  let s := init 2000 1000 (Some (WrappingInt32.mk 0)) 0 in
  let s := ack_received (WrappingInt32.mk 0) 3000 s in
  let s := with_stream_in (snd (ByteStream.write (replicate 1500 x61) (stream_in s))) s in
  exists s' seg1 seg2, fill_window s = Ok s' /\ segments_out s' = [seg1; seg2] /\
    TCPHeader.syn (TCPSegment.header seg1) = true /\
    TCPHeader.syn (TCPSegment.header seg2) = true /\
    TCPHeader.seqno (TCPSegment.header seg2) = WrappingInt32.mk 1001.
Proof. do 3 eexists. split; [vm_compute; reflexivity|]. repeat split; vm_compute; reflexivity. Qed.

End TCPSender.
