(* ===== verification/tcp_state.v ===== *)
(** * [libsponge/tcp_helpers/tcp_state.hh], [libsponge/tcp_helpers/tcp_state.cc]

    The summary of a connection's state as the strings the program compares,
    and the official state names of the TCP specification. *)

From S2P Require Import Prelude.
From S2P Require Import byte_stream.
From S2P Require Import tcp_receiver.
From S2P Require Import tcp_sender.

Module TCPReceiverStateSummary.
Definition ERROR : string := "error (connection was reset)".
Definition LISTEN : string := "waiting for SYN: ackno is empty".
Definition SYN_RECV : string := "SYN received (ackno exists), and input to stream hasn't ended".
Definition FIN_RECV : string := "input to stream has ended".
End TCPReceiverStateSummary.

Module TCPSenderStateSummary.
Definition ERROR : string := "error (connection was reset)".
Definition CLOSED : string := "waiting for stream to begin (no SYN sent)".
Definition SYN_SENT : string := "stream started but nothing acknowledged".
Definition SYN_ACKED : string := "stream ongoing".
Definition FIN_SENT : string := "stream finished (FIN sent) but not fully acknowledged".
Definition FIN_ACKED : string := "stream finished and fully acknowledged".
End TCPSenderStateSummary.

Module TCPState.

Record t : Type := mk {
  _sender : string;
  _receiver : string;
  _active : bool;
  _linger_after_streams_finish : bool
}.

#[global] Instance t_eq_dec : EqDecision t.
Proof. solve_decision. Defined.

Inductive State : Type :=
| LISTEN | SYN_RCVD | SYN_SENT | ESTABLISHED | CLOSE_WAIT | LAST_ACK
| FIN_WAIT_1 | FIN_WAIT_2 | CLOSING | TIME_WAIT | CLOSED | RESET.

#[global] Instance State_eq_dec : EqDecision State.
Proof. solve_decision. Defined.

Definition eqb (a b : t) : bool :=
  Bool.eqb (_active a) (_active b) &&
  Bool.eqb (_linger_after_streams_finish a) (_linger_after_streams_finish b) &&
  String.eqb (_sender a) (_sender b) && String.eqb (_receiver a) (_receiver b).
Definition neqb (a b : t) : bool := negb (eqb a b).

(** [std::to_string] of a [bool]. *)
Definition bool_to_string (b : bool) : string := if b then "1" else "0".

Definition name (s : t) : string :=
  ("sender=`" +:+ _sender s +:+ "`, receiver=`" +:+ _receiver s +:+ "`, active=" +:+
   bool_to_string (_active s) +:+ ", linger_after_streams_finish=" +:+
   bool_to_string (_linger_after_streams_finish s))%string.

Definition of_state (state : State) : t :=
  match state with
  | LISTEN => mk TCPSenderStateSummary.CLOSED TCPReceiverStateSummary.LISTEN true true
  | SYN_RCVD => mk TCPSenderStateSummary.SYN_SENT TCPReceiverStateSummary.SYN_RECV true true
  | SYN_SENT => mk TCPSenderStateSummary.SYN_SENT TCPReceiverStateSummary.LISTEN true true
  | ESTABLISHED => mk TCPSenderStateSummary.SYN_ACKED TCPReceiverStateSummary.SYN_RECV true true
  | CLOSE_WAIT => mk TCPSenderStateSummary.SYN_ACKED TCPReceiverStateSummary.FIN_RECV true false
  | LAST_ACK => mk TCPSenderStateSummary.FIN_SENT TCPReceiverStateSummary.FIN_RECV true false
  | CLOSING => mk TCPSenderStateSummary.FIN_SENT TCPReceiverStateSummary.FIN_RECV true true
  | FIN_WAIT_1 => mk TCPSenderStateSummary.FIN_SENT TCPReceiverStateSummary.SYN_RECV true true
  | FIN_WAIT_2 => mk TCPSenderStateSummary.FIN_ACKED TCPReceiverStateSummary.SYN_RECV true true
  | TIME_WAIT => mk TCPSenderStateSummary.FIN_ACKED TCPReceiverStateSummary.FIN_RECV true true
  | RESET => mk TCPSenderStateSummary.ERROR TCPReceiverStateSummary.ERROR false false
  | CLOSED => mk TCPSenderStateSummary.FIN_ACKED TCPReceiverStateSummary.FIN_RECV false false
  end.

Definition receiver_summary (receiver : TCPReceiver.t) : string :=
  if ByteStream.error (TCPReceiver.stream_out receiver) then TCPReceiverStateSummary.ERROR
  else if bool_decide (TCPReceiver.ackno receiver = None) then TCPReceiverStateSummary.LISTEN
  else if ByteStream.input_ended (TCPReceiver.stream_out receiver) then TCPReceiverStateSummary.FIN_RECV
  else TCPReceiverStateSummary.SYN_RECV.

Definition sender_summary (sender : TCPSender.t) : string :=
  if ByteStream.error (TCPSender.stream_in sender) then TCPSenderStateSummary.ERROR
  else if TCPSender.next_seqno_absolute sender =? 0 then TCPSenderStateSummary.CLOSED
  else if TCPSender.next_seqno_absolute sender =? TCPSender.bytes_in_flight sender
       then TCPSenderStateSummary.SYN_SENT
  else if negb (ByteStream.eof (TCPSender.stream_in sender)) then TCPSenderStateSummary.SYN_ACKED
  else if TCPSender.next_seqno_absolute sender <? ByteStream.bytes_written (TCPSender.stream_in sender) ⊕ 2
       then TCPSenderStateSummary.SYN_ACKED
  else if negb (TCPSender.bytes_in_flight sender =? 0) then TCPSenderStateSummary.FIN_SENT
  else TCPSenderStateSummary.FIN_ACKED.

(** The summary of a connection. *)
Definition of_parts (sender : TCPSender.t) (receiver : TCPReceiver.t) (active linger : bool) : t :=
  mk (sender_summary sender) (receiver_summary receiver) active (if active then linger else false).

Lemma eqb_eq a b : eqb a b = true <-> a = b.
Proof.
  unfold eqb. rewrite !andb_true_iff, !eqb_true_iff, !String.eqb_eq. destruct a, b; cbn.
  split; [intros [[[-> ->] ->] ->]; done|by intros [= -> -> -> ->]].
Qed.

(** The official states are told apart. *)
Lemma of_state_inj a b : of_state a = of_state b -> a = b.
Proof. destruct a, b; first [done | intros H; vm_compute in H; discriminate H]. Qed.

(** A summary is that of [LISTEN] exactly for a connection that is neither
    reset nor inactive, has sent no SYN and has received none. *)
Lemma listen_iff sender receiver active linger :
  of_parts sender receiver active linger = of_state LISTEN <->
  ByteStream.error (TCPSender.stream_in sender) = false /\
  ByteStream.error (TCPReceiver.stream_out receiver) = false /\
  TCPSender.next_seqno_absolute sender = 0 /\ TCPReceiver.ackno receiver = None /\
  active = true /\ linger = true.
Proof.
  unfold of_parts, of_state, sender_summary, receiver_summary. split.
  - intros [= Hs Hr Ha Hl]. subst active. subst linger.
    destruct (ByteStream.error (TCPSender.stream_in sender)); [done|].
    destruct (ByteStream.error (TCPReceiver.stream_out receiver)); [done|].
    destruct (Z.eqb_spec (TCPSender.next_seqno_absolute sender) 0); [|by repeat case_match].
    case_bool_decide; [done|]. by repeat case_match.
  - intros (-> & -> & -> & -> & -> & ->). done.
Qed.

End TCPState.
