(* ===== verification/tcp_connection.v ===== *)
(** * [libsponge/tcp_connection.hh], [libsponge/tcp_connection.cc]

    A connection is a receiver, a sender and the rules that tie them together:
    what a segment does to each, when to acknowledge, when to reset, and when
    the connection is over.  The invariant [conn_inv] holds between calls: the
    sender's own invariant, and that the sender has nothing left to send that
    the window allows. *)

From stdpp Require Import relations.
From S2P Require Import Prelude.
From S2P Require Import wrapping_integers.
From S2P Require Import byte_stream.
From S2P Require Import buffer.
From S2P Require Import tcp_segment.
From S2P Require Import tcp_receiver.
From S2P Require Import tcp_sender.
From S2P Require Import tcp_state.

Module TCPConnection.

Record t : Type := mk {
  _cfg : TCPConfig.t;
  _receiver : TCPReceiver.t;
  _sender : TCPSender.t;
  _segments_out : list TCPSegment.t;
  _linger_after_streams_finish : bool;
  _time_since_last_seg_received : Z
}.

#[global] Instance eta_t : Eta t := fun c =>
  mk (_cfg c) (_receiver c) (_sender c) (_segments_out c) (_linger_after_streams_finish c)
     (_time_since_last_seg_received c).

(** The constructor; [random] is the sender's. *)
Definition init (cfg : TCPConfig.t) (random : Z) : t :=
  mk cfg (TCPReceiver.init (TCPConfig.recv_capacity cfg))
     (TCPSender.init (TCPConfig.send_capacity cfg) (TCPConfig.rt_timeout cfg) (TCPConfig.fixed_isn cfg) random)
     [] true 0.

Definition remaining_outbound_capacity (c : t) : Z :=
  ByteStream.remaining_capacity (TCPSender.stream_in (_sender c)).
Definition bytes_in_flight (c : t) : Z := TCPSender.bytes_in_flight (_sender c).
Definition unassembled_bytes (c : t) : Z := TCPReceiver.unassembled_bytes (_receiver c).
Definition time_since_last_segment_received (c : t) : Z := _time_since_last_seg_received c.
Definition inbound_stream (c : t) : ByteStream.t := TCPReceiver.stream_out (_receiver c).

(** One turn of the loop of [_send_all_outbounding_segments]: the receiver's
    fields are added to a segment. *)
Definition stamp (receiver : TCPReceiver.t) (seg_out : TCPSegment.t) : TCPSegment.t :=
  let seg_out :=
    match TCPReceiver.ackno receiver with
    | Some ackno =>
        TCPSender.set_header (fun h => h <| TCPHeader.ack := true |> <| TCPHeader.ackno := ackno |>) seg_out
    | None => seg_out
    end in
  TCPSender.set_header (fun h => h <| TCPHeader.win := u16 (Z.min (TCPReceiver.window_size receiver) 65535) |>) seg_out.

Fixpoint send_loop (receiver : TCPReceiver.t) (queue out : list TCPSegment.t) : list TCPSegment.t :=
  match queue with
  | [] => out
  | seg_out :: queue => send_loop receiver queue (out ++ [stamp receiver seg_out])
  end.

Definition _send_all_outbounding_segments (c : t) : t :=
  c <| _segments_out := send_loop (_receiver c) (TCPSender.segments_out (_sender c)) (_segments_out c) |>
    <| _sender := (_sender c) <| TCPSender._segments_out := [] |> |>.

(** [front()] of the sender's queue, which [send_empty_segment] has made
    non-empty. *)
Definition _send_rst_segmenet (c : t) : t :=
  let sender := TCPSender.send_empty_segment (_sender c) in
  match TCPSender.segments_out sender with
  | seg_out :: rest =>
      let seg_out := TCPSender.set_header (fun h => h <| TCPHeader.rst := true |>) seg_out in
      c <| _sender := sender <| TCPSender._segments_out := rest |> |>
        <| _segments_out := _segments_out c ++ [seg_out] |>
  | [] => c <| _sender := sender |>
  end.

Definition active (c : t) : bool :=
  if ByteStream.error (TCPSender.stream_in (_sender c)) || ByteStream.error (TCPReceiver.stream_out (_receiver c))
  then false
  else if _linger_after_streams_finish c &&
          (_time_since_last_seg_received c <? 10 * TCPConfig.rt_timeout (_cfg c))
  then true
  else if negb (TCPSender.bytes_in_flight (_sender c) =? 0) then true
  else if ByteStream.input_ended (TCPSender.stream_in (_sender c)) &&
          ByteStream.input_ended (TCPReceiver.stream_out (_receiver c))
  then false
  else true.

Definition state (c : t) : TCPState.t :=
  TCPState.of_parts (_sender c) (_receiver c) (active c) (_linger_after_streams_finish c).

(** [set_error] on both streams. *)
Definition set_both_errors (c : t) : t :=
  c <| _sender := TCPSender.with_stream_in (ByteStream.set_error (TCPSender.stream_in (_sender c))) (_sender c) |>
    <| _receiver := TCPReceiver.with_stream_out (ByteStream.set_error (TCPReceiver.stream_out (_receiver c))) (_receiver c) |>.

(** The test for a keep-alive segment. *)
Definition is_keep_alive (seg : TCPSegment.t) (c : t) : bool :=
  match TCPReceiver.ackno (_receiver c) with
  | Some ackno =>
      (TCPSegment.length_in_sequence_space seg =? 0) &&
      WrappingInt32.eqb (TCPHeader.seqno (TCPSegment.header seg)) (WrappingInt32.sub ackno 1)
  | None => false
  end.

(** Past the receiver: the sender takes the acknowledgment, and an inbound
    stream that ends first makes lingering unnecessary. *)
Definition take_ack (seg : TCPSegment.t) (c : t) : t :=
  let c :=
    if TCPHeader.ack (TCPSegment.header seg)
    then c <| _sender := TCPSender.ack_received (TCPHeader.ackno (TCPSegment.header seg))
                           (TCPHeader.win (TCPSegment.header seg)) (_sender c) |>
    else c in
  if ByteStream.input_ended (TCPReceiver.stream_out (_receiver c)) &&
     negb (ByteStream.eof (TCPSender.stream_in (_sender c)))
  then c <| _linger_after_streams_finish := false |> else c.

(** The end of the handler: send what the window allows, or an empty segment
    if the segment received needs an acknowledgment. *)
Definition reply (seg : TCPSegment.t) (c : t) : result t :=
  sender ← TCPSender.fill_window (_sender c);
  let c := c <| _sender := sender |> in
  match TCPSender.segments_out (_sender c) with
  | [] =>
      if negb (TCPSegment.length_in_sequence_space seg =? 0)
      then Ok (_send_all_outbounding_segments (c <| _sender := TCPSender.send_empty_segment (_sender c) |>))
      else Ok c
  | _ => Ok (_send_all_outbounding_segments c)
  end.

Definition segment_received (seg : TCPSegment.t) (c : t) : result t :=
  let c := c <| _time_since_last_seg_received := 0 |> in
  if TCPHeader.rst (TCPSegment.header seg) then Ok (set_both_errors c) else
  if is_keep_alive seg c then
    Ok (_send_all_outbounding_segments (c <| _sender := TCPSender.send_empty_segment (_sender c) |>)) else
  if TCPState.eqb (state c) (TCPState.of_state TCPState.LISTEN) && negb (TCPHeader.syn (TCPSegment.header seg))
  then Ok c else
  receiver ← TCPReceiver.segment_received seg (_receiver c);
  reply seg (take_ack seg (c <| _receiver := receiver |>)).

Definition write (data : bytes) (c : t) : result (Z * t) :=
  let '(ret, stream) := ByteStream.write data (TCPSender.stream_in (_sender c)) in
  let c := c <| _sender := TCPSender.with_stream_in stream (_sender c) |> in
  sender ← TCPSender.fill_window (_sender c);
  let c := c <| _sender := sender |> in
  Ok (ret, _send_all_outbounding_segments c).

Definition tick (ms_since_last_tick : Z) (c : t) : t :=
  let c := c <| _time_since_last_seg_received := _time_since_last_seg_received c ⊕ ms_since_last_tick |> in
  let c := c <| _sender := TCPSender.tick ms_since_last_tick (_sender c) |> in
  if TCPConfig.MAX_RETX_ATTEMPTS <? TCPSender.consecutive_retransmissions (_sender c)
  then set_both_errors (_send_rst_segmenet c)
  else _send_all_outbounding_segments c.

Definition end_input_stream (c : t) : result t :=
  let c := c <| _sender := TCPSender.with_stream_in
                             (ByteStream.end_input (TCPSender.stream_in (_sender c))) (_sender c) |> in
  sender ← TCPSender.fill_window (_sender c);
  let c := c <| _sender := sender |> in
  match TCPSender.segments_out (_sender c) with
  | [] => Ok c
  | front :: _ =>
      if negb (TCPHeader.fin (TCPSegment.header front)) then Ok c
      else Ok (_send_all_outbounding_segments c)
  end.

Definition connect (c : t) : result t :=
  sender ← TCPSender.fill_window (_sender c);
  let c := c <| _sender := sender |> in
  Ok (_send_all_outbounding_segments c).

(** The destructor: what is left in the queues when it returns. *)
Definition destructor (c : t) : t := if active c then _send_rst_segmenet c else c.

#[global] Arguments segment_received : simpl never.
#[global] Arguments take_ack : simpl never.
#[global] Arguments reply : simpl never.
#[global] Arguments write : simpl never.
#[global] Arguments tick : simpl never.
#[global] Arguments end_input_stream : simpl never.
#[global] Arguments connect : simpl never.
#[global] Arguments _send_all_outbounding_segments : simpl never.
#[global] Arguments _send_rst_segmenet : simpl never.
#[global] Arguments set_both_errors : simpl never.
#[global] Arguments active : simpl never.

Lemma send_loop_eq r q out : send_loop r q out = out ++ (stamp r <$> q).
Proof.
  revert out. induction q as [|seg q IH]; intros out; cbn; [by rewrite app_nil_r|].
  by rewrite IH, <- app_assoc.
Qed.


(** ** The invariant between calls *)

Record conn_inv (W : bytes) (c : t) : Prop := {
  ci_sender : TCPSender.inv W (_sender c);
  ci_saturated : TCPSender.saturated (_sender c);
  ci_fresh : TCPSender._next_seqno (_sender c) = 0 ->
             ByteStream._str (TCPSender._stream (_sender c)) = [] /\ TCPSender._window_size (_sender c) <= 1
}.

(** What does not touch the sender's windows and streams keeps it. *)
Lemma conn_inv_queue W c c' q :
  conn_inv W c -> _sender c' = (_sender c) <| TCPSender._segments_out := q |> -> conn_inv W c'.
Proof.
  intros [Hi Hs Hf] E. split; rewrite E; [by apply TCPSender.segments_out_inv|done|done].
Qed.

Lemma send_all_sender c :
  _sender (_send_all_outbounding_segments c) = (_sender c) <| TCPSender._segments_out := [] |>.
Proof. done. Qed.

Lemma send_all_inv W c : conn_inv W c -> conn_inv W (_send_all_outbounding_segments c).
Proof. intros H. by eapply conn_inv_queue. Qed.

Lemma send_empty_conn_inv W c :
  conn_inv W c -> conn_inv W (c <| _sender := TCPSender.send_empty_segment (_sender c) |>).
Proof. intros H. by eapply conn_inv_queue. Qed.

Lemma send_rst_inv W c : conn_inv W c -> conn_inv W (_send_rst_segmenet c).
Proof.
  intros H. unfold _send_rst_segmenet. destruct (TCPSender.segments_out _) as [|seg q].
  - by apply send_empty_conn_inv.
  - eapply conn_inv_queue; [by apply (send_empty_conn_inv W c)|]. done.
Qed.

Lemma set_both_errors_inv W c : conn_inv W c -> conn_inv W (set_both_errors c).
Proof. intros [Hi Hs Hf]. split; cbn; [by apply TCPSender.set_error_inv|done|done]. Qed.

(** After [fill_window] the invariant holds again. *)
Lemma fill_conn_inv W (s : TCPSender.t) c :
  TCPSender.inv W s ->
  exists s', TCPSender.fill_window s = Ok s' /\ conn_inv W (c <| _sender := s' |>).
Proof.
  intros Hi. destruct (TCPSender.fill_window_saturates W s Hi) as (s' & E & Hi' & Hs & Hn & _).
  exists s'. split; [done|]. by split.
Qed.

(** ** Traces

    The calls of the connection's owner, with the stream it has written.  The
    owner does not write after closing. *)
Definition config : Type := t * bytes.

Inductive step : config -> config -> Prop :=
| step_connect c W c' : connect c = Ok c' -> step (c, W) (c', W)
| step_write c W data n c' :
    ByteStream.input_ended (TCPSender.stream_in (_sender c)) = false ->
    zlen W + zlen data + 2 + 2 ^ 16 < 2 ^ 64 ->
    write data c = Ok (n, c') -> step (c, W) (c', W ++ substr0 data n)
| step_segment c W seg c' :
    is_u16 (TCPHeader.win (TCPSegment.header seg)) -> segment_received seg c = Ok c' -> step (c, W) (c', W)
| step_tick c W ms : step (c, W) (tick ms c, W)
| step_end_input c W c' : end_input_stream c = Ok c' -> step (c, W) (c', W)
| step_read c W len d stream :
    is_u64 len -> ByteStream.read len (inbound_stream c) = Ok (d, stream) ->
    step (c, W) (c <| _receiver := TCPReceiver.with_stream_out stream (_receiver c) |>, W)
| step_drain c W q : step (c, W) (c <| _segments_out := q |>, W).

Definition reachable (cfg : TCPConfig.t) (random : Z) (c : config) : Prop := rtc step (init cfg random, []) c.

Lemma init_conn_inv cfg random :
  is_u64 (TCPConfig.send_capacity cfg) ->
  WrappingInt32.wf (default (WrappingInt32.mk random) (TCPConfig.fixed_isn cfg)) ->
  conn_inv [] (init cfg random).
Proof.
  intros Hc Hw. split; [by apply TCPSender.init_inv|right; by right|]. intros _. cbn. split; [done|lia].
Qed.

Lemma take_ack_sender W seg c :
  conn_inv W c -> is_u16 (TCPHeader.win (TCPSegment.header seg)) -> TCPSender.inv W (_sender (take_ack seg c)).
Proof.
  intros [Hi _ Hfr] Hwin. unfold take_ack.
  assert (TCPSender.inv W (TCPSender.ack_received (TCPHeader.ackno (TCPSegment.header seg))
    (TCPHeader.win (TCPSegment.header seg)) (_sender c))) as Ha.
  { apply TCPSender.ack_received_inv; [done|done|]. intros E. left. by apply Hfr. }
  by repeat case_match.
Qed.

Lemma reply_conn_inv W seg c :
  TCPSender.inv W (_sender c) -> exists c', reply seg c = Ok c' /\ conn_inv W c'.
Proof.
  intros Hi. destruct (fill_conn_inv W _ c Hi) as (s' & E & Hinv). unfold reply. rewrite E. cbn.
  destruct (TCPSender.segments_out s').
  - destruct (negb _); eexists; (split; [done|]); [by apply send_all_inv, send_empty_conn_inv|done].
  - eexists. split; [done|]. by apply send_all_inv.
Qed.

Lemma segment_received_conn_inv W seg c c' :
  conn_inv W c -> is_u16 (TCPHeader.win (TCPSegment.header seg)) -> segment_received seg c = Ok c' -> conn_inv W c'.
Proof.
  intros Hc Hwin. unfold segment_received. cbv zeta.
  assert (conn_inv W (c <| _time_since_last_seg_received := 0 |>)) as H0 by (destruct Hc; by split).
  set (c0 := c <| _time_since_last_seg_received := 0 |>) in *. clearbody c0.
  destruct (TCPHeader.rst _); [intros [= <-]; by apply set_both_errors_inv|].
  destruct (is_keep_alive seg c0); [intros [= <-]; by apply send_all_inv, send_empty_conn_inv|].
  destruct (_ && _); [by intros [= <-]|]. intros (r & _ & H)%result_bind_Ok.
  assert (conn_inv W (c0 <| _receiver := r |>)) as H1 by (destruct H0; by split).
  destruct (reply_conn_inv W seg _ (take_ack_sender W seg _ H1 Hwin)) as (c1 & E & Hinv). congruence.
Qed.

Lemma write_conn_inv W data c n c' :
  conn_inv W c -> ByteStream.input_ended (TCPSender.stream_in (_sender c)) = false ->
  zlen W + zlen data + 2 + 2 ^ 16 < 2 ^ 64 -> write data c = Ok (n, c') -> conn_inv (W ++ substr0 data n) c'.
Proof.
  intros Hc Hie Hlen. unfold write. destruct (ByteStream.write data _) as [ret stream] eqn:Hw.
  intros (s' & Hf & [= <- <-])%result_bind_Ok. apply send_all_inv. cbn in Hf.
  assert (TCPSender.inv (W ++ substr0 data ret) (TCPSender.with_stream_in stream (_sender c))) as Hi.
  { destruct Hc as [Hi _ Hfr]. eapply TCPSender.write_inv; [done|done| |done|].
    - destruct (Z.eq_dec (TCPSender._next_seqno (_sender c)) 0) as [E|]; [right; by apply Hfr|by left].
    - rewrite substr0_eq. zlen. pose proof (zlen_nonneg data). lia. }
  destruct (fill_conn_inv _ _ (c <| _sender := TCPSender.with_stream_in stream (_sender c) |>) Hi) as (s1 & E & Hinv).
  rewrite Hf in E. injection E as <-. exact Hinv.
Qed.

Lemma tick_conn_inv W ms c : conn_inv W c -> conn_inv W (tick ms c).
Proof.
  intros [Hi Hs Hf]. unfold tick. cbv zeta.
  match goal with |- context [TCPSender.consecutive_retransmissions (_sender ?x)] => set (c1 := x) end.
  assert (conn_inv W c1) as H1.
  { destruct (TCPSender.tick_frame ms (_sender c)) as (E1 & E2 & E3 & E4 & E5).
    split; cbn; [by apply TCPSender.tick_inv| |by rewrite E1, E2, E4].
    unfold TCPSender.saturated, TCPSender.actual_window. by rewrite E1, E2, E3, E5. }
  destruct (_ <? _); [by apply set_both_errors_inv, send_rst_inv|by apply send_all_inv].
Qed.

Lemma end_input_conn_inv W c c' : conn_inv W c -> end_input_stream c = Ok c' -> conn_inv W c'.
Proof.
  intros [Hi _ _]. unfold end_input_stream. intros (s' & Hf & H)%result_bind_Ok. cbn in Hf.
  destruct (fill_conn_inv W _ (c <| _sender := TCPSender.with_stream_in
    (ByteStream.end_input (TCPSender.stream_in (_sender c))) (_sender c) |>) (TCPSender.end_input_inv _ _ Hi))
    as (s1 & E & Hinv).
  unfold TCPSender.stream_in in *. rewrite Hf in E. injection E as <-. cbn in H.
  repeat case_match; simplify_eq; [exact Hinv|exact Hinv|apply send_all_inv; exact Hinv].
Qed.

Lemma connect_conn_inv W c c' : conn_inv W c -> connect c = Ok c' -> conn_inv W c'.
Proof.
  intros [Hi _ _]. unfold connect. intros (s' & Hf & [= <-])%result_bind_Ok.
  destruct (fill_conn_inv W _ c Hi) as (s1 & E & Hinv). rewrite Hf in E. injection E as <-. by apply send_all_inv.
Qed.

Lemma step_conn_inv c c' : conn_inv (c.2) (c.1) -> step c c' -> conn_inv (c'.2) (c'.1).
Proof.
  intros Hc Hs. destruct Hs; cbn in *;
    eauto using connect_conn_inv, write_conn_inv, segment_received_conn_inv, tick_conn_inv, end_input_conn_inv.
  all: destruct Hc; by split.
Qed.

Lemma reachable_conn_inv cfg random c :
  is_u64 (TCPConfig.send_capacity cfg) ->
  WrappingInt32.wf (default (WrappingInt32.mk random) (TCPConfig.fixed_isn cfg)) ->
  reachable cfg random c -> conn_inv (c.2) (c.1).
Proof.
  intros Hc Hw Hr. pose proof (init_conn_inv cfg random Hc Hw) as H0.
  change (conn_inv ((init cfg random, @nil byte).2) ((init cfg random, @nil byte).1)) in H0.
  unfold reachable in Hr. revert H0. induction Hr; eauto using step_conn_inv.
Qed.

(** ** Reset *)

Definition has_error (c : t) : Prop :=
  ByteStream.error (TCPSender.stream_in (_sender c)) = true \/
  ByteStream.error (TCPReceiver.stream_out (_receiver c)) = true.

Lemma has_error_inactive c : has_error c -> active c = false.
Proof. unfold active. by intros [->| ->]; rewrite ?orb_true_r. Qed.

(** An error flag that is up stays up. *)
Definition keeps_errors (c c' : t) : Prop :=
  (ByteStream.error (TCPSender.stream_in (_sender c)) = true -> ByteStream.error (TCPSender.stream_in (_sender c')) = true) /\
  (ByteStream.error (inbound_stream c) = true -> ByteStream.error (inbound_stream c') = true).

#[global] Instance keeps_errors_preorder : PreOrder keeps_errors.
Proof. split; [by split|]. intros c1 c2 c3 [] []. split; auto. Qed.

Lemma keeps_errors_same c c' :
  ByteStream.error (TCPSender._stream (_sender c')) = ByteStream.error (TCPSender._stream (_sender c)) ->
  ByteStream.error (inbound_stream c') = ByteStream.error (inbound_stream c) -> keeps_errors c c'.
Proof. unfold keeps_errors, TCPSender.stream_in. by intros -> ->. Qed.

(** A sender with the same flag. *)
Lemma keeps_errors_sender c s :
  ByteStream.error (TCPSender._stream s) = ByteStream.error (TCPSender._stream (_sender c)) ->
  keeps_errors c (c <| _sender := s |>).
Proof. intros E. by apply keeps_errors_same. Qed.

Lemma set_both_errors_keeps c : keeps_errors c (set_both_errors c).
Proof. by split. Qed.

Lemma send_all_keeps c : keeps_errors c (_send_all_outbounding_segments c).
Proof. by split. Qed.

Lemma ack_received_stream ackno win s : TCPSender._stream (TCPSender.ack_received ackno win s) = TCPSender._stream s.
Proof. unfold TCPSender.ack_received. by repeat case_match. Qed.

Lemma take_ack_keeps seg c : keeps_errors c (take_ack seg c).
Proof. unfold take_ack. repeat case_match; apply keeps_errors_same; cbn; by rewrite ?ack_received_stream. Qed.

Lemma reply_keeps seg c c' : reply seg c = Ok c' -> keeps_errors c c'.
Proof.
  unfold reply. intros (s' & Hf%TCPSender.fill_window_error & Hr)%result_bind_Ok.
  cbn in Hr. repeat case_match; simplify_eq; by apply keeps_errors_same.
Qed.

Lemma segment_received_keeps seg c c' : segment_received seg c = Ok c' -> keeps_errors c c'.
Proof.
  unfold segment_received. cbv zeta. destruct (TCPHeader.rst _); [intros [= <-]; by split|].
  destruct (is_keep_alive seg _); [intros [= <-]; by split|].
  destruct (_ && _); [intros [= <-]; by split|]. intros (r & Hs & Hr)%result_bind_Ok.
  etrans; [|by eapply reply_keeps]. etrans; [|apply take_ack_keeps]. apply keeps_errors_same; [done|].
  by apply TCPReceiver.segment_received_error in Hs.
Qed.

Lemma tick_keeps ms c : keeps_errors c (tick ms c).
Proof.
  destruct (TCPSender.tick_frame ms (_sender c)) as (E & _). unfold tick. cbv zeta.
  destruct (_ <? _); [by split|]. etrans; [|apply send_all_keeps]. apply keeps_errors_same; [cbn; by rewrite E|done].
Qed.

(** Any call of the owner, the clock or the network, in the owner's contract or
    out of it. *)
Inductive call (c : t) : t -> Prop :=
| call_connect c' : connect c = Ok c' -> call c c'
| call_write data n c' : write data c = Ok (n, c') -> call c c'
| call_segment seg c' : segment_received seg c = Ok c' -> call c c'
| call_tick ms : call c (tick ms c)
| call_end_input c' : end_input_stream c = Ok c' -> call c c'
| call_read len d stream :
    ByteStream.read len (inbound_stream c) = Ok (d, stream) ->
    call c (c <| _receiver := TCPReceiver.with_stream_out stream (_receiver c) |>)
| call_drain q : call c (c <| _segments_out := q |>).

Lemma call_keeps c c' : call c c' -> keeps_errors c c'.
Proof.
  intros [c1 E|data n c1 E|seg c1 E|ms|c1 E|len d stream E|q].
  - unfold connect in E. apply result_bind_Ok in E as (s' & Hf%TCPSender.fill_window_error & [= <-]).
    by apply keeps_errors_same.
  - unfold write in E. destruct (ByteStream.write data _) as [ret stream] eqn:Hw.
    apply result_bind_Ok in E as (s' & Hf%TCPSender.fill_window_error & [= <- <-]).
    etrans; [|apply send_all_keeps]. apply keeps_errors_same; [|done]. cbn in *. rewrite Hf. unfold ByteStream.write in Hw. by injection Hw as _ <-.
  - by eapply segment_received_keeps.
  - apply tick_keeps.
  - unfold end_input_stream in E. apply result_bind_Ok in E as (s' & Hf%TCPSender.fill_window_error & E).
    cbn in E. repeat case_match; simplify_eq; by apply keeps_errors_same.
  - apply TCPSender.read_error in E. by apply keeps_errors_same.
  - done.
Qed.

Lemma calls_keep c c' : rtc call c c' -> keeps_errors c c'.
Proof. induction 1 as [|c1 c2 c3 Hs%call_keeps _ IH]; [done|by etrans]. Qed.

(** Both flags make the official state. *)
Lemma both_errors_state c :
  ByteStream.error (TCPSender.stream_in (_sender c)) = true -> ByteStream.error (inbound_stream c) = true ->
  active c = false /\ state c = TCPState.of_state TCPState.RESET.
Proof.
  unfold inbound_stream. intros Hs Hr. assert (active c = false) as Ha by (apply has_error_inactive; by left).
  split; [done|]. unfold state, TCPState.of_parts, TCPState.sender_summary, TCPState.receiver_summary.
  by rewrite Ha, Hs, Hr.
Qed.

(** The resets that a connection has to act on: with the peer's SYN received,
    one whose sequence number is the acknowledgment number or falls in the
    window; after our SYN and before the peer's, one that acknowledges
    something in flight.  The code acts on every reset
    ([connection_resets_anywhere]). *)
Definition acceptable_reset (seg : TCPSegment.t) (c : t) : Prop :=
  TCPHeader.rst (TCPSegment.header seg) = true /\
  match TCPReceiver.ackno (_receiver c) with
  | Some ackno =>
      exists d, 0 <= d < Z.max 1 (TCPReceiver.window_size (_receiver c)) /\
        TCPHeader.seqno (TCPSegment.header seg) = WrappingInt32.add ackno d
  | None =>
      TCPHeader.ack (TCPSegment.header seg) = true /\
      exists k, TCPSender._una_seqno (_sender c) < k <= TCPSender.next_seqno_absolute (_sender c) /\
        TCPHeader.ackno (TCPSegment.header seg) = WrappingInt32.wrap k (TCPSender._isn (_sender c))
  end.

(** C18: a reset is final.  A segment with RST that the connection has to act on
    puts it into the state RESET at once, without an answer: nothing is queued
    for it, and the data received so far stays readable.  No later call of the
    owner, of the clock or of the network takes it out of that state or makes
    it active again. *)
Theorem connection_reset_final seg c0 :
  acceptable_reset seg c0 ->
  exists c1, segment_received seg c0 = Ok c1 /\
    _segments_out c1 = _segments_out c0 /\
    ByteStream._str (inbound_stream c1) = ByteStream._str (inbound_stream c0) /\
    forall c, rtc call c1 c -> active c = false /\ state c = TCPState.of_state TCPState.RESET.
Proof.
  intros [Hrst _]. unfold segment_received. rewrite Hrst. eexists. split; [done|]. split; [done|]. split; [done|].
  intros c [H1 H2]%calls_keep. apply both_errors_state; [by apply H1|by apply H2].
Qed.

Definition sample_config : TCPConfig.t :=
  TCPConfig.init <| TCPConfig.fixed_isn := Some (WrappingInt32.mk 5) |>.

Definition rst_segment : TCPSegment.t :=
  TCPSegment.mk (TCPHeader.init <| TCPHeader.rst := true |>) Buffer.empty.

Lemma clean_close_inv W c :
  conn_inv W c -> active c = false -> ~ has_error c ->
  ByteStream.input_ended (inbound_stream c) = true /\
  TCPSender._is_transmission_ended (_sender c) = true /\
  TCPSender.next_seqno_absolute (_sender c) = zlen W + 2 /\
  TCPSender._una_seqno (_sender c) = zlen W + 2 /\
  TCPSender._outstanding_segments (_sender c) = [].
Proof.
  intros [Hi Hs _] Hact Hne. unfold active in Hact. unfold has_error in Hne.
  destruct (_ || _) eqn:E; [apply orb_true_iff in E; tauto|]. destruct (_ && _); [done|].
  destruct (Z.eqb_spec (TCPSender.bytes_in_flight (_sender c)) 0) as [Hb|]; [|done]. cbn [negb] in Hact.
  destruct (_ && _) eqn:E2; [|done]. apply andb_true_iff in E2 as [Hout Hin].
  unfold TCPSender.bytes_in_flight, TCPSender.stream_in, TCPSender.next_seqno_absolute in *.
  destruct (TCPSender.actual_window_bounds _ _ Hi) as [Haw _].
  assert (TCPSender._is_transmission_ended (_sender c) = true) as He.
  { destruct Hs as [?|[?|[_ ?]]]; [lia|done|congruence]. }
  destruct (TCPSender.inv_ended _ _ Hi He) as [_ Hstr].
  pose proof (TCPSender.inv_total _ _ Hi) as Htot. rewrite Hstr, zlen_nil in Htot.
  destruct (TCPSender.inv_next _ _ Hi) as [(_&_&?)|Hn]; [congruence|]. rewrite He in Hn. cbn in Hn.
  pose proof (TCPSender.inv_una _ _ Hi) as Huna. pose proof (TCPSender.inv_out _ _ Hi) as Hcov.
  rewrite Hb, Z.sub_0_r in *. split; [done|]. split; [done|]. split; [lia|]. split; [lia|].
  by apply (TCPSender.covers_le _ _ _ _ _ Hcov).
Qed.

(** C16: a clean end.  A connection that has become inactive without a reset
    has sent its whole outgoing stream and the FIN, all of it has been
    acknowledged, and its inbound stream has ended. *)
Theorem connection_clean_close cfg random c :
  is_u64 (TCPConfig.send_capacity cfg) ->
  WrappingInt32.wf (default (WrappingInt32.mk random) (TCPConfig.fixed_isn cfg)) ->
  reachable cfg random c -> active (c.1) = false -> ~ has_error (c.1) ->
  ByteStream.input_ended (inbound_stream (c.1)) = true /\
  TCPSender._is_transmission_ended (_sender (c.1)) = true /\
  TCPSender.next_seqno_absolute (_sender (c.1)) = zlen (c.2) + 2 /\
  TCPSender._una_seqno (_sender (c.1)) = zlen (c.2) + 2 /\
  TCPSender._outstanding_segments (_sender (c.1)) = [].
Proof.
  intros Hc Hw Hr. apply clean_close_inv. by eapply reachable_conn_inv.
Qed.

(** A peer's segment. *)
Definition peer_segment (seqno ackno win : Z) (syn fin : bool) (data : bytes) : TCPSegment.t :=
  TCPSegment.mk
    (TCPHeader.init <| TCPHeader.seqno := WrappingInt32.mk seqno |> <| TCPHeader.ackno := WrappingInt32.mk ackno |>
       <| TCPHeader.ack := true |> <| TCPHeader.win := win |> <| TCPHeader.syn := syn |> <| TCPHeader.fin := fin |>)
    (Buffer.of_string data).

(** An active open that the peer has answered. *)
Definition sample_established : t :=
  match connect (init sample_config 0) ≫= segment_received (peer_segment 100 6 1000 true false []) with
  | Ok c => c
  | _ => init sample_config 0
  end.

Lemma connection_reset_final_witness :
  let seg := TCPSender.set_header (fun h => h <| TCPHeader.seqno := WrappingInt32.mk 101 |>) rst_segment in
  state sample_established = TCPState.of_state TCPState.ESTABLISHED /\
  exists c1, segment_received seg sample_established = Ok c1 /\
    state (tick 10 c1) = TCPState.of_state TCPState.RESET.
Proof.
  intros seg. split; [vm_compute; reflexivity|].
  destruct (connection_reset_final seg sample_established) as (c1 & H1 & _ & _ & H2).
  - assert (TCPReceiver.ackno (_receiver sample_established) = Some (WrappingInt32.mk 101)) as Ha by (vm_compute; reflexivity).
    split; [reflexivity|]. rewrite Ha. exists 0. split; [lia|reflexivity].
  - exists c1. split; [exact H1|]. apply (H2 (tick 10 c1)). eapply rtc_l; [apply call_tick|apply rtc_refl].
Defined.

(** The code does not ask where the connection is or what the reset says: a RST
    resets a connection that listens, and one that has sent its SYN even if the
    segment acknowledges nothing. *)
Theorem connection_resets_anywhere :
  state (init sample_config 0) = TCPState.of_state TCPState.LISTEN /\
  (exists c, segment_received rst_segment (init sample_config 0) = Ok c /\ state c = TCPState.of_state TCPState.RESET) /\
  exists c0 c, connect (init sample_config 0) = Ok c0 /\ state c0 = TCPState.of_state TCPState.SYN_SENT /\
    TCPHeader.ack (TCPSegment.header rst_segment) = false /\
    segment_received rst_segment c0 = Ok c /\ state c = TCPState.of_state TCPState.RESET.
Proof.
  split; [vm_compute; reflexivity|]. split; [eexists; split; [vm_compute; reflexivity|vm_compute; reflexivity]|].
  do 2 eexists. split; [vm_compute; reflexivity|]. split; [vm_compute; reflexivity|]. split; [reflexivity|].
  split; [vm_compute; reflexivity|vm_compute; reflexivity].
Qed.

(** An active open, the peer's close, our close, the last acknowledgment. *)
Lemma sample_close :
  exists c, reachable sample_config 0 (c, []) /\ active c = false /\
    ByteStream.error (TCPSender.stream_in (_sender c)) = false /\
    ByteStream.error (TCPReceiver.stream_out (_receiver c)) = false.
Proof.
  eexists. split.
  - eapply rtc_l; [eapply step_connect; vm_compute; reflexivity|].
    eapply rtc_l; [eapply (step_segment _ _ (peer_segment 100 6 1000 true false [])); [vm_compute; split; congruence|vm_compute; reflexivity]|].
    eapply rtc_l; [eapply (step_segment _ _ (peer_segment 101 6 1000 false true [])); [vm_compute; split; congruence|vm_compute; reflexivity]|].
    eapply rtc_l; [eapply step_end_input; vm_compute; reflexivity|].
    eapply rtc_l; [eapply (step_segment _ _ (peer_segment 102 7 1000 false false [])); [vm_compute; split; congruence|vm_compute; reflexivity]|].
    apply rtc_refl.
  - vm_compute. repeat split; reflexivity.
Qed.

Lemma connection_clean_close_witness :
  exists c : t, active c = false /\ TCPSender.next_seqno_absolute (_sender c) = 2 /\
    TCPSender._outstanding_segments (_sender c) = [].
Proof.
  destruct sample_close as (c & Hr & Ha & H1 & H2). exists c.
  destruct (connection_clean_close sample_config 0 (c, [])) as (_ & _ & H3 & _ & H4);
    [vm_compute; split; congruence|vm_compute; split; congruence|exact Hr|exact Ha| |].
  - intros [H|H]; cbn in H; congruence.
  - split; [exact Ha|]. split; [exact H3|exact H4].
Defined.

(** ** The end of the outgoing stream is the owner's to declare *)

Definition sender_ended (c : t) : bool :=
  ByteStream.input_ended (TCPSender.stream_in (_sender c)).

(** Nothing but [end_input_stream] ends the outbound stream. *)
Lemma read_ended len s d s' : ByteStream.read len s = Ok (d, s') -> ByteStream.input_ended s' = ByteStream.input_ended s.
Proof.
  unfold ByteStream.read, ByteStream.pop_output. intros (s1 & (str & _ & [= <-])%result_bind_Ok & [= _ <-])%result_bind_Ok. done.
Qed.

Lemma fill_ended s s' :
  TCPSender.fill_window s = Ok s' -> ByteStream.input_ended (TCPSender._stream s') = ByteStream.input_ended (TCPSender._stream s).
Proof.
  assert (forall aws seg s seg' s', TCPSender.fill_data aws seg s = Ok (seg', s') ->
    ByteStream.input_ended (TCPSender._stream s') = ByteStream.input_ended (TCPSender._stream s)) as Hdata.
  { intros aws seg s1 seg' s2. unfold TCPSender.fill_data. intros ([d st] & Hr%read_ended & H)%result_bind_Ok.
    rewrite <- Hr. cbn zeta in H. repeat case_match; simplify_eq; done. }
  assert (forall fuel aws seg s s', TCPSender.fill_loop fuel aws seg s = Ok s' ->
    ByteStream.input_ended (TCPSender._stream s') = ByteStream.input_ended (TCPSender._stream s)) as Hloop.
  { induction fuel as [|fuel IH]; intros aws seg s1 s2; cbn; [done|]. case_match; [by intros [= <-]|].
    intros ([seg1 s3] & Hb & H2)%result_bind_Ok. unfold TCPSender.fill_body in Hb.
    destruct (TCPSender.fill_syn seg s1) as [seg0 s0] eqn:Es. apply Hdata in Hb.
    assert (TCPSender._stream s0 = TCPSender._stream s1) as E by (unfold TCPSender.fill_syn in Es; cbn zeta in Es; destruct (_ =? 0); by injection Es as _ <-).
    rewrite E in Hb. rewrite <- Hb. case_match; [by eapply IH|by simplify_eq]. }
  unfold TCPSender.fill_window. case_match; [by intros [= <-]|apply Hloop].
Qed.

Lemma reply_ended seg c c' : reply seg c = Ok c' -> sender_ended c' = sender_ended c.
Proof.
  unfold reply, sender_ended, TCPSender.stream_in. intros (s & Hf%fill_ended & H)%result_bind_Ok.
  rewrite <- Hf. repeat case_match; by simplify_eq.
Qed.

Lemma take_ack_ended seg c : sender_ended (take_ack seg c) = sender_ended c.
Proof.
  unfold take_ack, sender_ended, TCPSender.stream_in.
  repeat case_match; cbn; rewrite ?ack_received_stream; done.
Qed.

Lemma rst_ended c : sender_ended (_send_rst_segmenet c) = sender_ended c.
Proof. unfold _send_rst_segmenet, sender_ended. by case_match. Qed.

Lemma segment_received_ended seg c c' : segment_received seg c = Ok c' -> sender_ended c' = sender_ended c.
Proof.
  unfold segment_received. cbn zeta.
  case_match; [by intros [= <-]|]. case_match; [by intros [= <-]|]. case_match; [by intros [= <-]|].
  intros (r & _ & Hr%reply_ended)%result_bind_Ok. by rewrite Hr, take_ack_ended.
Qed.

Lemma write_ended data c n c' : write data c = Ok (n, c') -> sender_ended c' = sender_ended c.
Proof.
  unfold write. destruct (ByteStream.write data _) as [ret st] eqn:E.
  intros (s & Hf%fill_ended & [= _ <-])%result_bind_Ok. 
  change (ByteStream.input_ended (TCPSender._stream s) = ByteStream.input_ended (TCPSender._stream (_sender c))).
  rewrite Hf. unfold ByteStream.write in E. by injection E as _ <-.
Qed.

Lemma conn_tick_ended ms c : sender_ended (tick ms c) = sender_ended c.
Proof.
  assert (forall c, sender_ended (set_both_errors c) = sender_ended c) as Hs by done.
  unfold tick. cbn zeta. destruct (TCPSender.tick_frame ms (_sender c)) as (E & _).
  case_match; [rewrite Hs, rst_ended|];
    change (ByteStream.input_ended (TCPSender._stream (TCPSender.tick ms (_sender c))) = sender_ended c);
    by rewrite E.
Qed.

Lemma connect_ended c c' : connect c = Ok c' -> sender_ended c' = sender_ended c.
Proof.
  unfold connect, sender_ended, TCPSender.stream_in. intros (s & Hf%fill_ended & [= <-])%result_bind_Ok.
  exact Hf.
Qed.

(** ** The calls return *)

Lemma connect_returns W c : conn_inv W c -> exists c', connect c = Ok c'.
Proof. intros [Hi _ _]. unfold connect. destruct (fill_conn_inv _ _ c Hi) as (s' & -> & _). cbn. eauto. Qed.

Lemma write_returns W c data :
  conn_inv W c -> sender_ended c = false -> zlen W + zlen data + 2 + 2 ^ 16 < 2 ^ 64 ->
  exists n c', write data c = Ok (n, c').
Proof.
  intros [Hi _ Hfr] Hie Hlen. unfold write. destruct (ByteStream.write data _) as [ret stream] eqn:E.
  assert (TCPSender.inv (W ++ substr0 data ret) (TCPSender.with_stream_in stream (_sender c))) as Hi'.
  { eapply TCPSender.write_inv; [done|done| |done|].
    - destruct (Z.eq_dec (TCPSender._next_seqno (_sender c)) 0) as [E0|]; [right; by apply Hfr|by left].
    - rewrite substr0_eq. zlen. pose proof (zlen_nonneg data). lia. }
  destruct (fill_conn_inv _ _ c Hi') as (s' & Hf & _). cbn. rewrite Hf. cbn. eauto.
Qed.

(** What the connection accepts of a write. *)
Lemma write_accepts W data c n c' :
  conn_inv W c -> write data c = Ok (n, c') ->
  zlen data <= remaining_outbound_capacity c -> n = zlen data.
Proof.
  intros [Hi _ _] Hw Hle. pose proof (TCPSender.inv_stream _ _ Hi) as Hwf.
  unfold remaining_outbound_capacity, TCPSender.stream_in in Hle.
  rewrite ByteStream.remaining_capacity_eq in Hle by done.
  unfold write, TCPSender.stream_in in Hw. rewrite ByteStream.write_eq in Hw by done.
  apply result_bind_Ok in Hw as (s & _ & [= <- _]). lia.
Qed.

Lemma end_input_returns W c : conn_inv W c -> exists c', end_input_stream c = Ok c'.
Proof.
  intros [Hi _ _]. unfold end_input_stream. destruct (fill_conn_inv _ _ c (TCPSender.end_input_inv _ _ Hi)) as (s' & Hf & _).
  unfold TCPSender.stream_in. cbn. rewrite Hf. cbn. repeat case_match; eauto.
Qed.

Lemma segment_received_returns W c seg :
  conn_inv W c -> is_u16 (TCPHeader.win (TCPSegment.header seg)) ->
  match TCPReceiver.segment_received seg (_receiver c) with
  | Throw e => segment_received seg c = Throw e \/ exists c', segment_received seg c = Ok c'
  | Ok _ => exists c', segment_received seg c = Ok c'
  | OutOfFuel => False
  end.
Proof.
  intros Hinv Hwin. unfold segment_received. cbv zeta.
  assert (conn_inv W (c <| _time_since_last_seg_received := 0 |>)) as H0 by (destruct Hinv; by split).
  change (_receiver c) with (_receiver (c <| _time_since_last_seg_received := 0 |>)).
  set (c0 := c <| _time_since_last_seg_received := 0 |>) in *. clearbody c0.
  destruct (TCPReceiver.segment_received seg (_receiver c0)) as [r|e|] eqn:E.
  - repeat (case_match; [by eauto|]). cbn.
    assert (conn_inv W (c0 <| _receiver := r |>)) as Hr' by (destruct H0; by split).
    destruct (reply_conn_inv _ seg _ (take_ack_sender _ seg _ Hr' Hwin)) as (c1 & -> & _). eauto.
  - repeat (case_match; [by eauto|]). by left.
  - by apply TCPReceiver.segment_received_fuel in E.
Qed.

(** C15: no call gets stuck.  In every connection that its owner's calls can
    reach, the outbound stream ended or not, [connect] and [end_input_stream]
    return, and [segment_received] fails only if the receiver's own
    [segment_received] throws, with the same exception; [write] returns while
    the outbound stream has not been ended and the bytes ever written are fewer
    than the 64-bit sequence numbers. *)
Theorem connection_total cfg random c seg data :
  is_u64 (TCPConfig.send_capacity cfg) ->
  WrappingInt32.wf (default (WrappingInt32.mk random) (TCPConfig.fixed_isn cfg)) ->
  reachable cfg random c -> is_u16 (TCPHeader.win (TCPSegment.header seg)) ->
  (exists c', connect (c.1) = Ok c') /\
  (exists c', end_input_stream (c.1) = Ok c') /\
  (ByteStream.input_ended (TCPSender.stream_in (_sender (c.1))) = false ->
   zlen (c.2) + zlen data + 2 + 2 ^ 16 < 2 ^ 64 -> exists n c', write data (c.1) = Ok (n, c')) /\
  (match TCPReceiver.segment_received seg (_receiver (c.1)) with
   | Throw e => segment_received seg (c.1) = Throw e \/ exists c', segment_received seg (c.1) = Ok c'
   | Ok _ => exists c', segment_received seg (c.1) = Ok c'
   | OutOfFuel => False
   end).
Proof.
  intros Hc Hw Hr Hwin. pose proof (reachable_conn_inv _ _ _ Hc Hw Hr) as Hinv.
  split; [by eapply connect_returns|]. split; [by eapply end_input_returns|]. split; [intros; by eapply write_returns|].
  by eapply segment_received_returns.
Qed.

Lemma connection_total_witness :
  (exists c', end_input_stream (init sample_config 0) = Ok c') /\
  exists n c', write [x61] (init sample_config 0) = Ok (n, c').
Proof.
  destruct (connection_total sample_config 0 (init sample_config 0, []) rst_segment [x61]) as (_ & H1 & H2 & _);
    [vm_compute; split; congruence|vm_compute; split; congruence|apply rtc_refl|vm_compute; split; congruence|].
  split; [exact H1|]. apply H2; [reflexivity|vm_compute; reflexivity].
Defined.

(** C17: a segment that occupies sequence space is acknowledged, if it is not a
    reset and it either is a SYN or comes after the peer's SYN: the connection
    queues at least one segment for it, and every segment it queues carries the
    receiver's acknowledgment number, which it has by then, and its window. *)
Theorem connection_acknowledges seg c c' :
  TCPHeader.rst (TCPSegment.header seg) = false ->
  TCPSegment.length_in_sequence_space seg <> 0 ->
  TCPHeader.syn (TCPSegment.header seg) = true \/ TCPReceiver.ackno (_receiver c) <> None ->
  segment_received seg c = Ok c' ->
  exists new ackno, new <> [] /\ _segments_out c' = _segments_out c ++ new /\
    TCPReceiver.ackno (_receiver c') = Some ackno /\
    Forall (fun out => TCPHeader.ack (TCPSegment.header out) = true /\
                       TCPHeader.ackno (TCPSegment.header out) = ackno /\
                       TCPHeader.win (TCPSegment.header out) =
                         u16 (Z.min (TCPReceiver.window_size (_receiver c')) 65535)) new.
Proof.
  intros Hrst Hlen Hsyn Hseg.
  assert (TCPReceiver.ackno (_receiver c') <> None /\
    exists q, q <> [] /\ _segments_out c' = _segments_out c ++ (stamp (_receiver c') <$> q)) as (Hack & q & Hq & Ho).
  { revert Hseg. unfold segment_received. rewrite Hrst. cbv zeta.
    assert (is_keep_alive seg (c <| _time_since_last_seg_received := 0 |>) = false) as ->.
    { unfold is_keep_alive. destruct (TCPReceiver.ackno _); [|done]. by rewrite (proj2 (Z.eqb_neq _ _)). }
    destruct (_ && _) eqn:Hlisten.
    { apply andb_true_iff in Hlisten as [Hl Hs]. apply TCPState.eqb_eq, TCPState.listen_iff in Hl.
      destruct Hl as (_ & _ & _ & Hno & _). cbn in Hno. destruct Hsyn as [Hs'|?]; [|done]. by rewrite Hs' in Hs. }
    intros (r & Hrec%TCPReceiver.segment_received_ackno & H)%result_bind_Ok; [|done]. revert H. unfold reply.
    set (c1 := take_ack seg _). assert (_segments_out c1 = _segments_out c /\ _receiver c1 = r) as [E1 E2]
      by (unfold c1, take_ack; by repeat case_match). clearbody c1. subst r.
    intros (s' & _ & H)%result_bind_Ok. cbn in H.
    rewrite (proj2 (Z.eqb_neq _ _)) in H by done. cbn in H.
    destruct (TCPSender.segments_out s') as [|x l] eqn:Es; injection H as <-;
      unfold _send_all_outbounding_segments; cbn;
      (split; [exact Hrec|]); rewrite send_loop_eq, E1.
    - exists (TCPSender.segments_out (TCPSender.send_empty_segment s')). split; [|done].
      unfold TCPSender.segments_out, TCPSender.send_empty_segment in *. cbn. by rewrite Es.
    - exists (TCPSender.segments_out s'). rewrite Es. done. }
  destruct (TCPReceiver.ackno (_receiver c')) as [ackno|] eqn:Ha; [|done]. exists (stamp (_receiver c') <$> q), ackno.
  split; [by destruct q|]. split; [done|]. split; [done|]. apply Forall_fmap, Forall_forall. intros x _.
  unfold stamp. cbn. by rewrite Ha.
Qed.

Lemma connection_acknowledges_witness :
  exists c1, segment_received (peer_segment 100 6 1000 true false []) (init sample_config 0) = Ok c1 /\
    _segments_out c1 <> [] /\ TCPReceiver.ackno (_receiver c1) = Some (WrappingInt32.mk 101) /\
    Forall (fun out => TCPHeader.ackno (TCPSegment.header out) = WrappingInt32.mk 101) (_segments_out c1).
Proof.
  eexists. split; [vm_compute; reflexivity|].
  match goal with |- _segments_out ?c <> _ /\ _ =>
    destruct (connection_acknowledges (peer_segment 100 6 1000 true false []) (init sample_config 0) c)
      as (new & ackno & Hn & Ho & Ha & Hf) end;
    [reflexivity|vm_compute; discriminate|left; reflexivity|vm_compute; reflexivity|].
  rewrite Ho. cbn [app _segments_out init]. split; [exact Hn|]. assert (ackno = WrappingInt32.mk 101) as -> by (vm_compute in Ha; congruence).
  split; [exact Ha|]. eapply Forall_impl; [exact Hf|]. intros out (_ & H & _). exact H.
Defined.

(** Giving up.  After the ninth expiry of the timer the connection is reset,
    but the segment that gets the RST flag is the front of the sender's queue,
    which is the segment just retransmitted (here the SYN), and the empty
    segment made for the purpose stays in the sender's queue. *)
Theorem connection_rst_retransmission :
  exists c0 rst empty, connect (init sample_config 0) = Ok c0 /\
    let c := foldl (fun c k => tick (1000 * 2 ^ k) c) c0 (seqZ 0 9) in
    active c = false /\ last (_segments_out c) = Some rst /\
    TCPHeader.rst (TCPSegment.header rst) = true /\ TCPHeader.syn (TCPSegment.header rst) = true /\
    TCPSender.segments_out (_sender c) = [empty] /\ TCPHeader.rst (TCPSegment.header empty) = false.
Proof. do 3 eexists. split; [vm_compute; reflexivity|]. vm_compute. repeat split; reflexivity. Qed.

(** [end_input_stream] on a connection that has not been opened makes the
    sender queue the SYN and returns without sending it, because the segment
    at the front of the queue has no FIN. *)
Theorem connection_end_input_unsent :
  exists c syn, end_input_stream (init sample_config 0) = Ok c /\ _segments_out c = [] /\
    TCPSender.segments_out (_sender c) = [syn] /\ TCPHeader.syn (TCPSegment.header syn) = true.
Proof. do 2 eexists. split; [vm_compute; reflexivity|]. vm_compute. repeat split; reflexivity. Qed.

(** ** A whole conversation

    [deliver a b]: everything in [a]'s outbound queue reaches [b], in order. *)
Definition deliver (a b : t) : result (t * t) :=
  b ← foldl (fun b seg => b ← b; segment_received seg b) (Ok b) (_segments_out a);
  Ok (a <| _segments_out := [] |>, b).

(** Open, exchange, close: the states that the two ends pass through. *)
Definition conversation : result (list (TCPState.t * TCPState.t) * bytes) :=
  let a := init sample_config 0 in
  let b := init (TCPConfig.init <| TCPConfig.fixed_isn := Some (WrappingInt32.mk 4000000000) |>) 0 in
  a ← connect a;                        let s1 := (state a, state b) in
  '(a, b) ← deliver a b;                let s2 := (state a, state b) in
  '(b, a) ← deliver b a;                let s3 := (state a, state b) in
  '(a, b) ← deliver a b;                let s4 := (state a, state b) in
  '(_, a) ← write [x68; x69] a;
  '(a, b) ← deliver a b;
  '(b, a) ← deliver b a;
  '(d, stream) ← ByteStream.read 10 (inbound_stream b);
  let b := b <| _receiver := TCPReceiver.with_stream_out stream (_receiver b) |> in
  a ← end_input_stream a;
  '(a, b) ← deliver a b;                let s5 := (state a, state b) in
  '(b, a) ← deliver b a;                let s6 := (state a, state b) in
  b ← end_input_stream b;
  '(b, a) ← deliver b a;                let s7 := (state a, state b) in
  '(a, b) ← deliver a b;                let s8 := (state a, state b) in
  let a := tick 10000 a in              let s9 := (state a, state b) in
  Ok ([s1; s2; s3; s4; s5; s6; s7; s8; s9], d).

Definition official (a b : TCPState.State) : TCPState.t * TCPState.t := (TCPState.of_state a, TCPState.of_state b).

(** Two connections over a channel that neither loses nor reorders go
    through the states of the TCP specification, from the three-way handshake
    to the last acknowledgment and the end of lingering, and the data written
    at one end is read at the other. *)
Theorem connection_conversation :
  conversation = Ok
    ([official TCPState.SYN_SENT TCPState.LISTEN; official TCPState.SYN_SENT TCPState.SYN_RCVD;
      official TCPState.ESTABLISHED TCPState.SYN_RCVD; official TCPState.ESTABLISHED TCPState.ESTABLISHED;
      official TCPState.FIN_WAIT_1 TCPState.CLOSE_WAIT; official TCPState.FIN_WAIT_2 TCPState.CLOSE_WAIT;
      official TCPState.TIME_WAIT TCPState.LAST_ACK; official TCPState.TIME_WAIT TCPState.CLOSED;
      official TCPState.CLOSED TCPState.CLOSED],
     [x68; x69]).
Proof. vm_compute. reflexivity. Qed.

End TCPConnection.
