(* ===== verification/end_to_end.v ===== *)
(** * From one end's sender to the other end's receiver

    The contract between the two: [TCPSender] promises that what it emits is
    [segment_at] of its stream, [TCPReceiver] asks that what it gets [carries]
    the peer's stream.  [delivery] is a network that loses, repeats, delays and
    reorders what was sent, and leaves sequence number, SYN, FIN and payload of
    each segment alone. *)

From stdpp Require Import relations.
From S2P Require Import Prelude.
From S2P Require Import wrapping_integers.
From S2P Require Import byte_stream.
From S2P Require Import stream_reassembler.
From S2P Require Import buffer.
From S2P Require Import tcp_segment.
From S2P Require Import tcp_receiver.
From S2P Require Import tcp_sender.

(** Two segments that differ at most in the fields the connection and the
    lower layers fill in (ports, acknowledgment, window, checksum). *)
Record same_data (a b : TCPSegment.t) : Prop := {
  sd_seqno : TCPHeader.seqno (TCPSegment.header a) = TCPHeader.seqno (TCPSegment.header b);
  sd_syn : TCPHeader.syn (TCPSegment.header a) = TCPHeader.syn (TCPSegment.header b);
  sd_fin : TCPHeader.fin (TCPSegment.header a) = TCPHeader.fin (TCPSegment.header b);
  sd_payload : Buffer.str (TCPSegment.payload a) = Buffer.str (TCPSegment.payload b)
}.

#[global] Instance same_data_equiv : Equivalence same_data.
Proof.
  split.
  - intros a. by split.
  - intros a b []. by split.
  - intros a b c [] []. split; congruence.
Qed.

(** Two segments that differ at most in what the layers below fill in (ports,
    checksum, window). *)
Record as_sent (a b : TCPSegment.t) : Prop := {
  as_data : same_data a b;
  as_ack : TCPHeader.ack (TCPSegment.header a) = TCPHeader.ack (TCPSegment.header b);
  as_ackno : TCPHeader.ackno (TCPSegment.header a) = TCPHeader.ackno (TCPSegment.header b);
  as_rst : TCPHeader.rst (TCPSegment.header a) = TCPHeader.rst (TCPSegment.header b)
}.

#[export] Instance as_sent_refl : Reflexive as_sent.
Proof. by split. Qed.

Lemma wrap_0 w : WrappingInt32.wf w -> WrappingInt32.wrap 0 w = w.
Proof.
  intros Hw. apply (WrappingInt32.wrap_eq_iff 0 _ _ Hw Hw). by rewrite Z.sub_diag.
Qed.

(** The sender's promise is what the receiver asks for. *)
Lemma segment_at_carries W w seg seg' a :
  WrappingInt32.wf w -> TCPSender.segment_at W w seg a -> same_data seg seg' ->
  TCPReceiver.carries W w seg' (TCPSender.data_index a).
Proof.
  intros Hw [] [E1 E2 E3 E4]. unfold TCPSegment.header, TCPSegment.payload in *. split; unfold Buffer.copy, TCPSegment.header, TCPSegment.payload.
  - by rewrite <- E4.
  - rewrite <- E1, <- E2. intros Hs. apply sa_syn in Hs as ->. split; [done|]. rewrite sa_seqno. by apply wrap_0.
  - rewrite <- E1, <- E2. intros Hs. assert (a <> 0) by (intros ->; rewrite (proj2 sa_syn eq_refl) in Hs; done).
    rewrite sa_seqno. f_equal. unfold TCPSender.data_index. lia.
  - by rewrite <- E3, <- E4.
Qed.

(** One step at the receiving end, given what has been sent. *)
Inductive delivery (log : list TCPSegment.t) : TCPReceiver.config -> TCPReceiver.config -> Prop :=
| deliver_segment r o seg seg' r' :
    seg ∈ log -> 0 < TCPSender.seqlen seg -> same_data seg seg' ->
    TCPReceiver.segment_received seg' r = Ok r' -> delivery log (r, o) (r', o)
| deliver_read r o len d out' :
    is_u64 len -> ByteStream.read len (TCPReceiver.stream_out r) = Ok (d, out') ->
    delivery log (r, o) (TCPReceiver.with_stream_out out' r, o ++ d).

Lemma seqlen_empty w next seg : TCPSender.empty_segment w next seg -> TCPSender.seqlen seg = 0.
Proof. by intros (a & _ & ->). Qed.

(** End to end.  Whatever a sender's owner does and whatever the network
    does with the segments sent, the bytes that the application at the other
    end reads, followed by those waiting in its buffer, are a prefix of the
    bytes that were written (for streams of less than 2 GiB). *)
Theorem end_to_end send_capacity retx isn random c recv_capacity rc :
  is_u64 send_capacity -> WrappingInt32.wf (default (WrappingInt32.mk random) isn) ->
  TCPSender.reachable (TCPSender.init send_capacity retx isn random) c ->
  zlen (c.1.2) + 2 < 2 ^ 31 -> is_u32 recv_capacity ->
  rtc (delivery c.2) (TCPReceiver.init recv_capacity, []) rc ->
  rc.2 ++ ByteStream._str (TCPReceiver.stream_out (rc.1)) `prefix_of` c.1.2.
Proof.
  intros Hc Hw Hs HW Hrc Hd.
  destruct (TCPSender.reachable_ok _ _ (TCPSender.init_inv send_capacity retx isn random Hc Hw) Hs) as [Hinv Hlog].
  set (W := c.1.2) in *. set (w := TCPSender._isn c.1.1) in *. pose proof (TCPSender.inv_isn _ _ Hinv) as Hwf.
  enough (TCPReceiver.reachable W w TCPReceiver.any_segment recv_capacity rc) as Hr.
  { destruct (TCPReceiver.receiver_reachable W w TCPReceiver.any_segment recv_capacity rc Hwf) as [Hg _];
      [word_lia|word_lia|done|].
    rewrite (TCPReceiver.stream_out_prefix _ _ _ _ Hg). apply prefix_take. }
  unfold TCPReceiver.reachable.
  revert rc Hd. refine (rtc_ind_r _ _ _ _); [apply rtc_refl|].
  intros rc1 rc2 _ Hstep IH. eapply rtc_r; [exact IH|].
  destruct (TCPReceiver.receiver_reachable W w TCPReceiver.any_segment recv_capacity rc1 Hwf) as [Hg _];
    [word_lia|word_lia|exact IH|]. pose proof (TCPReceiver.good_cur_u64 _ _ _ _ Hg) as Hcur.
  destruct Hstep as [r o seg seg' r' Hin Hpos Hsd Hseg|r o len d out' Hl Hr]; [|by apply TCPReceiver.step_read with len].
  rewrite Forall_forall in Hlog. destruct (Hlog seg Hin) as [He%seqlen_empty|(a & Ha & _)]; [lia|].
  pose proof (segment_at_carries _ _ _ _ _ Hwf Ha Hsd) as Hca.
  apply (TCPReceiver.step_segment _ _ _ _ _ seg' (TCPSender.data_index a)); [done| |done|done].
  unfold TCPReceiver.near. pose proof (proj1 (TCPReceiver.ca_data _ _ _ _ Hca)). cbn in Hcur. lia.
Qed.

