(* ===== verification/tcp_peers.v ===== *)
(** * Two connections over an unreliable network

    The composition that the library exists for: two [TCPConnection]s, each
    with its owner and its clock, joined by a network that loses, repeats,
    delays and reorders segments.  A peer is a connection with three ghost
    histories: the bytes its owner has written, the segments it has emitted,
    and the bytes its owner has read. *)

From stdpp Require Import relations.
From S2P Require Import Prelude.
From S2P Require Import wrapping_integers.
From S2P Require Import byte_stream.
From S2P Require Import stream_reassembler.
From S2P Require Import buffer.
From S2P Require Import tcp_segment.
From S2P Require Import tcp_receiver.
From S2P Require Import tcp_sender.
From S2P Require Import tcp_state.
From S2P Require Import tcp_connection.
From S2P Require Import end_to_end.

(** ** What a connection emits

    Every segment in a connection's queue carries the data of a segment that
    its sender has made. *)

(** [L] holds all that the sender has made. *)
Definition logged (W : bytes) (L : list TCPSegment.t) (s : TCPSender.t) : Prop :=
  TCPSender.sender_ok (s, W, L) /\ TCPSender.segments_out s ⊆ L.

Definition sent_as (L : list TCPSegment.t) (seg : TCPSegment.t) : Prop :=
  exists seg0, seg0 ∈ L /\ same_data seg0 seg /\ is_u16 (TCPHeader.win (TCPSegment.header seg)).

Definition out_ok (W : bytes) (L : list TCPSegment.t) (c : TCPConnection.t) : Prop :=
  logged W L (TCPConnection._sender c) /\ Forall (sent_as L) (TCPConnection._segments_out c).

Lemma sent_as_mono L L' seg : L ⊆ L' -> sent_as L seg -> sent_as L' seg.
Proof. intros HL (seg0 & Hin & ?). exists seg0. split; [by apply HL|done]. Qed.

(** The sender leaves the window to the connection. *)
Lemma logged_win W L s seg : logged W L s -> seg ∈ L -> TCPHeader.win (TCPSegment._header seg) = 0.
Proof.
  intros [[_ Hf] _] Hin. cbn in Hf. rewrite Forall_forall in Hf. by destruct (Hf seg Hin) as [(a & _ & ->)|(a & [] & _)].
Qed.

Lemma logged_step W L s W' L' s' :
  logged W L s -> TCPSender.step (s, W, L) (s', W', L') -> TCPSender.segments_out s' ⊆ L' -> logged W' L' s'.
Proof. intros [Hok _] Hs Hq. split; [by eapply TCPSender.step_ok|done]. Qed.

(** An operation that appends to the sender's queue. *)
Lemma logged_append W L s s' new :
  logged W L s -> TCPSender.segments_out s' = TCPSender.segments_out s ++ new ->
  TCPSender.step (s, W, L) (s', W, L ++ new) -> logged W (L ++ new) s'.
Proof.
  intros Hl Ho Hs. eapply logged_step; [exact Hl|exact Hs|]. rewrite Ho. intros seg [Hin|Hin]%elem_of_app.
  - apply elem_of_app. left. by apply Hl.
  - apply elem_of_app. by right.
Qed.

Lemma logged_fill W L s s' :
  logged W L s -> TCPSender.fill_window s = Ok s' -> exists L', L ⊆ L' /\ logged W L' s'.
Proof.
  intros Hl Hf. destruct (TCPSender.fill_window_spec W s (TCPSender.ok_inv _ (proj1 Hl))) as [[E _]|(s1 & new & E & Hsent & _)];
    rewrite E in Hf; injection Hf as <-; [by exists L|].
  exists (L ++ new). split; [by intros seg ?; apply elem_of_app; left|].
  pose proof (TCPSender.fi_out _ _ _ (TCPSender.se_fields _ _ _ _ _ Hsent)) as Ho.
  apply (logged_append _ _ _ _ _ Hl Ho). by apply TCPSender.step_fill.
Qed.

Lemma logged_tick W L s ms : logged W L s -> exists L', L ⊆ L' /\ logged W L' (TCPSender.tick ms s).
Proof.
  intros Hl. destruct (TCPSender.tick_out ms s) as (_ & _ & new & Ho & _). exists (L ++ new).
  split; [by intros seg ?; apply elem_of_app; left|]. apply (logged_append _ _ _ _ _ Hl Ho). by apply TCPSender.step_tick.
Qed.

Lemma logged_empty W L s : logged W L s -> exists L', L ⊆ L' /\ logged W L' (TCPSender.send_empty_segment s).
Proof.
  intros Hl. assert (exists new, TCPSender.segments_out (TCPSender.send_empty_segment s) = TCPSender.segments_out s ++ new)
    as [new Ho] by (eexists; reflexivity).
  exists (L ++ new). split; [by intros seg ?; apply elem_of_app; left|].
  apply (logged_append _ _ _ _ _ Hl Ho). by apply TCPSender.step_empty.
Qed.

Lemma logged_error W L s :
  logged W L s -> logged W L (TCPSender.with_stream_in (ByteStream.set_error (TCPSender.stream_in s)) s).
Proof. intros [[Hi Hf] Hq]. split; [|done]. split; [by apply TCPSender.set_error_inv|done]. Qed.

Lemma logged_queue W L s q : logged W L s -> q ⊆ L -> logged W L (s <| TCPSender._segments_out := q |>).
Proof. intros [[Hi Hf] _] Hq. split; [|done]. split; [by apply TCPSender.segments_out_inv|done]. Qed.

Lemma set_header_data f seg :
  (forall h, TCPHeader.seqno (f h) = TCPHeader.seqno h /\ TCPHeader.syn (f h) = TCPHeader.syn h /\
             TCPHeader.fin (f h) = TCPHeader.fin h) ->
  same_data seg (TCPSender.set_header f seg).
Proof. intros Hf. destruct (Hf (TCPSegment._header seg)) as (E1 & E2 & E3). split; [symmetry; exact E1|symmetry; exact E2|symmetry; exact E3|done]. Qed.

Lemma stamp_data r seg : same_data seg (TCPConnection.stamp r seg).
Proof.
  unfold TCPConnection.stamp. etrans; [|by apply set_header_data]. case_match; [by apply set_header_data|done].
Qed.

Lemma out_send_all W L c : out_ok W L c -> out_ok W L (TCPConnection._send_all_outbounding_segments c).
Proof.
  intros [Hl Ho]. split; [apply logged_queue; [done|by intros ? ?%not_elem_of_nil]|].
  unfold TCPConnection._send_all_outbounding_segments. cbn. rewrite TCPConnection.send_loop_eq.
  apply Forall_app. split; [done|]. apply Forall_fmap, Forall_forall. intros seg Hin. exists seg.
  split; [by apply Hl|]. split; [apply stamp_data|]. cbn. apply u16_range.
Qed.

(** A change of the sender that keeps its history. *)
Lemma out_sender W L W' L' c s :
  out_ok W L c -> L ⊆ L' -> logged W' L' s -> out_ok W' L' (c <| TCPConnection._sender := s |>).
Proof. intros [_ Ho] HL Hl. split; [done|]. eapply Forall_impl; [exact Ho|]. intros seg. by apply sent_as_mono. Qed.

Lemma out_send_empty W L c :
  out_ok W L c -> exists L', L ⊆ L' /\
    out_ok W L' (c <| TCPConnection._sender := TCPSender.send_empty_segment (TCPConnection._sender c) |>).
Proof.
  intros Hc. destruct (logged_empty _ _ _ (proj1 Hc)) as (L' & HL & Hl). exists L'. split; [done|]. by eapply out_sender.
Qed.

Lemma out_send_rst W L c :
  out_ok W L c -> exists L', L ⊆ L' /\ out_ok W L' (TCPConnection._send_rst_segmenet c).
Proof.
  intros Hc. destruct (out_send_empty _ _ _ Hc) as (L' & HL & [Hl Ho]). exists L'. split; [done|].
  unfold TCPConnection._send_rst_segmenet. cbn in Hl, Ho.
  destruct (TCPSender.segments_out (TCPSender.send_empty_segment (TCPConnection._sender c))) as [|seg rest] eqn:E; [done|].
  pose proof (proj2 Hl) as Hq. rewrite E in Hq. split; cbn.
  - apply logged_queue; [done|]. intros x Hx. apply Hq. by right.
  - apply Forall_app. split; [done|]. apply Forall_singleton. exists seg. assert (seg ∈ L') as Hin by (apply Hq; left).
    split; [done|]. split; [by apply set_header_data|]. cbn. rewrite (logged_win _ _ _ _ Hl Hin). word_lia.
Qed.

Lemma out_set_errors W L c : out_ok W L c -> out_ok W L (TCPConnection.set_both_errors c).
Proof. intros [Hl Ho]. split; [by apply logged_error|done]. Qed.

Lemma out_reply W L seg c c' :
  out_ok W L c -> TCPConnection.reply seg c = Ok c' -> exists L', L ⊆ L' /\ out_ok W L' c'.
Proof.
  intros Hc. unfold TCPConnection.reply. intros (s & Hf & H)%result_bind_Ok.
  destruct (logged_fill _ _ _ _ (proj1 Hc) Hf) as (L1 & HL1 & Hl1).
  pose proof (out_sender _ _ _ _ c s Hc HL1 Hl1) as H1. cbn zeta in H.
  repeat case_match; simplify_eq; [|by eauto|by eauto using out_send_all].
  destruct (out_send_empty _ _ _ H1) as (L2 & HL2 & Ho2). exists L2. split; [by etrans|by apply out_send_all].
Qed.

Lemma out_take_ack W L seg c :
  TCPConnection.conn_inv W c -> is_u16 (TCPHeader.win (TCPSegment.header seg)) ->
  out_ok W L c -> out_ok W L (TCPConnection.take_ack seg c).
Proof.
  intros Hi Hwin Hc. unfold TCPConnection.take_ack.
  assert (out_ok W L (c <| TCPConnection._sender := TCPSender.ack_received (TCPHeader.ackno (TCPSegment.header seg))
    (TCPHeader.win (TCPSegment.header seg)) (TCPConnection._sender c) |>)) as Ha.
  { eapply out_sender; [exact Hc|done|]. destruct Hc as [Hl _]. eapply logged_step; [exact Hl| |].
    - apply TCPSender.step_ack; [done|]. intros E. left. by apply (TCPConnection.ci_fresh _ _ Hi).
    - destruct Hl as [_ Hq]. unfold TCPSender.ack_received. by repeat case_match. }
  by repeat case_match.
Qed.

Lemma out_segment_received W L seg c c' :
  TCPConnection.conn_inv W c -> is_u16 (TCPHeader.win (TCPSegment.header seg)) -> out_ok W L c ->
  TCPConnection.segment_received seg c = Ok c' -> exists L', L ⊆ L' /\ out_ok W L' c'.
Proof.
  intros Hi Hwin Hc. unfold TCPConnection.segment_received. cbn zeta.
  destruct (TCPHeader.rst _); [intros [= <-]; exists L; split; [done|by apply out_set_errors]|].
  destruct (TCPConnection.is_keep_alive _ _).
  { intros [= <-]. destruct (out_send_empty _ _ _ Hc) as (L' & HL & H'). exists L'. split; [done|by apply out_send_all]. }
  destruct (_ && _); [by intros [= <-]; exists L|]. intros (r & _ & H)%result_bind_Ok.
  eapply out_reply; [|exact H]. apply out_take_ack; [by destruct Hi|done|done].
Qed.

Lemma out_write W L data c n c' :
  TCPConnection.conn_inv W c -> ByteStream.input_ended (TCPSender.stream_in (TCPConnection._sender c)) = false ->
  zlen W + zlen data + 2 + 2 ^ 16 < 2 ^ 64 -> out_ok W L c ->
  TCPConnection.write data c = Ok (n, c') -> exists L', L ⊆ L' /\ out_ok (W ++ substr0 data n) L' c'.
Proof.
  intros Hi Hie Hlen Hc. unfold TCPConnection.write. destruct (ByteStream.write data _) as [ret stream] eqn:E.
  intros (s & Hf & [= <- <-])%result_bind_Ok. cbn in Hf.
  assert (logged (W ++ substr0 data ret) L (TCPSender.with_stream_in stream (TCPConnection._sender c))) as Hl.
  { eapply logged_step; [apply Hc| |apply (proj1 Hc)]. apply TCPSender.step_write; [done| |done|].
    - destruct (Z.eq_dec (TCPSender._next_seqno (TCPConnection._sender c)) 0) as [E0|]; [right|by left].
      by apply (TCPConnection.ci_fresh _ _ Hi).
    - rewrite substr0_eq. zlen. pose proof (zlen_nonneg data). lia. }
  destruct (logged_fill _ _ _ _ Hl Hf) as (L' & HL & Hl'). exists L'. split; [done|].
  apply out_send_all. exact (out_sender W L _ L' c s Hc HL Hl').
Qed.

Lemma out_tick W L ms c : out_ok W L c -> exists L', L ⊆ L' /\ out_ok W L' (TCPConnection.tick ms c).
Proof.
  intros Hc. destruct (logged_tick _ _ _ ms (proj1 Hc)) as (L1 & HL1 & Hl1). unfold TCPConnection.tick. cbn zeta.
  match goal with |- context [TCPSender.consecutive_retransmissions (TCPConnection._sender ?x)] => set (c1 := x) end.
  assert (out_ok W L1 c1) as H1 by (by apply (out_sender W L _ _ c)).
  destruct (_ <? _); [|exists L1; split; [done|by apply out_send_all]].
  destruct (out_send_rst _ _ _ H1) as (L2 & HL2 & H2). exists L2. split; [by etrans|by apply out_set_errors].
Qed.

Lemma out_end_input W L c c' :
  out_ok W L c -> TCPConnection.end_input_stream c = Ok c' -> exists L', L ⊆ L' /\ out_ok W L' c'.
Proof.
  intros Hc. unfold TCPConnection.end_input_stream. intros (s & Hf & H)%result_bind_Ok. cbn in Hf, H.
  assert (logged W L (TCPSender.with_stream_in (ByteStream.end_input (TCPSender.stream_in (TCPConnection._sender c)))
    (TCPConnection._sender c))) as Hl.
  { eapply logged_step; [apply Hc|apply TCPSender.step_end_input|apply (proj1 Hc)]. }
  destruct (logged_fill _ _ _ _ Hl Hf) as (L' & HL & Hl'). exists L'. split; [done|].
  pose proof (out_sender W L W L' c s Hc HL Hl') as H1.
  repeat case_match; simplify_eq; [exact H1|exact H1|apply out_send_all; exact H1].
Qed.

Lemma out_connect W L c c' :
  out_ok W L c -> TCPConnection.connect c = Ok c' -> exists L', L ⊆ L' /\ out_ok W L' c'.
Proof.
  intros Hc. unfold TCPConnection.connect. intros (s & Hf & [= <-])%result_bind_Ok.
  destruct (logged_fill _ _ _ _ (proj1 Hc) Hf) as (L' & HL & Hl'). exists L'. split; [done|].
  apply out_send_all. by eapply out_sender.
Qed.

(** ** Peers *)

Record peer : Type := mk_peer {
  conn : TCPConnection.t;
  written : bytes;
  emitted : list TCPSegment.t;
  taken : bytes
}.

#[global] Instance eta_peer : Eta peer := fun p => mk_peer (conn p) (written p) (emitted p) (taken p).

Definition new_peer (cfg : TCPConfig.t) (random : Z) : peer := mk_peer (TCPConnection.init cfg random) [] [] [].

(** After a call: what is in the queue has been emitted. *)
Definition after (c : TCPConnection.t) (p : peer) : peer :=
  p <| conn := c |> <| emitted := emitted p ++ TCPConnection._segments_out c |>.

(** One call of a peer's owner, of its clock, or of the network, which delivers
    some segment that has been on the [wire]; [passes] says what may have
    happened to it there: with [same_data] all but its place and content in the
    stream, with [as_sent] only what the lower layers fill in. *)
Inductive peer_step (passes : TCPSegment.t -> TCPSegment.t -> Prop) (wire : list TCPSegment.t) : peer -> peer -> Prop :=
| peer_connect p c : TCPConnection.connect (conn p) = Ok c -> peer_step passes wire p (after c p)
| peer_write p data n c :
    ByteStream.input_ended (TCPSender.stream_in (TCPConnection._sender (conn p))) = false ->
    zlen (written p) + zlen data + 2 + 2 ^ 16 < 2 ^ 64 ->
    TCPConnection.write data (conn p) = Ok (n, c) ->
    peer_step passes wire p ((after c p) <| written := written p ++ substr0 data n |>)
| peer_segment p seg seg' c :
    seg ∈ wire -> passes seg seg' -> is_u16 (TCPHeader.win (TCPSegment.header seg')) ->
    TCPConnection.segment_received seg' (conn p) = Ok c -> peer_step passes wire p (after c p)
| peer_tick p ms : peer_step passes wire p (after (TCPConnection.tick ms (conn p)) p)
| peer_end_input p c : TCPConnection.end_input_stream (conn p) = Ok c -> peer_step passes wire p (after c p)
| peer_read p len d stream :
    is_u64 len -> ByteStream.read len (TCPConnection.inbound_stream (conn p)) = Ok (d, stream) ->
    peer_step passes wire p
      (p <| conn := (conn p) <| TCPConnection._receiver :=
              TCPReceiver.with_stream_out stream (TCPConnection._receiver (conn p)) |> |>
         <| taken := taken p ++ d |>)
| peer_drain p n :
    peer_step passes wire p (p <| conn := (conn p) <| TCPConnection._segments_out :=
                             drop n (TCPConnection._segments_out (conn p)) |> |>).

#[global] Arguments peer_connect {passes}.
#[global] Arguments peer_write {passes}.
#[global] Arguments peer_segment {passes}.
#[global] Arguments peer_tick {passes}.
#[global] Arguments peer_end_input {passes}.
#[global] Arguments peer_read {passes}.
#[global] Arguments peer_drain {passes}.

Definition peer_ok (p : peer) : Prop :=
  TCPConnection.conn_inv (written p) (conn p) /\
  exists L, out_ok (written p) L (conn p) /\ Forall (sent_as L) (emitted p).

Lemma after_ok W p c L L' :
  Forall (sent_as L) (emitted p) -> L ⊆ L' -> out_ok W L' c -> Forall (sent_as L') (emitted (after c p)).
Proof.
  intros He HL [_ Ho]. cbn. apply Forall_app. split; [|done]. eapply Forall_impl; [exact He|]. intros ?. by apply sent_as_mono.
Qed.

Lemma peer_step_ok {passes} wire p p' : peer_ok p -> peer_step passes wire p p' -> peer_ok p'.
Proof.
  intros [Hi (L & Ho & He)] Hs. destruct Hs as [p c E|p data n c Hie Hlen E|p seg seg' c _ _ Hwin E|p ms|p c E|p len d stream Hl E|p n].
  - split; [by eapply TCPConnection.connect_conn_inv|].
    destruct (out_connect _ _ _ _ Ho E) as (L' & HL & Ho'). exists L'. split; [done|by eapply after_ok].
  - split; [by eapply TCPConnection.write_conn_inv|].
    destruct (out_write _ _ _ _ _ _ Hi Hie Hlen Ho E) as (L' & HL & Ho'). exists L'. split; [done|by eapply (after_ok _ p)].
  - split; [by eapply TCPConnection.segment_received_conn_inv|].
    destruct (out_segment_received _ _ _ _ _ Hi Hwin Ho E) as (L' & HL & Ho'). exists L'. split; [done|by eapply after_ok].
  - split; [by apply TCPConnection.tick_conn_inv|].
    destruct (out_tick _ _ ms _ Ho) as (L' & HL & Ho'). exists L'. split; [done|by eapply after_ok].
  - split; [by eapply TCPConnection.end_input_conn_inv|].
    destruct (out_end_input _ _ _ _ Ho E) as (L' & HL & Ho'). exists L'. split; [done|by eapply after_ok].
  - split; [by destruct Hi|]. exists L. by split.
  - split; [by destruct Hi|]. exists L. split; [|done]. destruct Ho as [Hl' Ho]. split; [done|]. cbn. by apply Forall_drop.
Qed.

Lemma peer_ok_win p : peer_ok p -> Forall (fun seg => is_u16 (TCPHeader.win (TCPSegment.header seg))) (emitted p).
Proof. intros [_ (L & _ & He)]. eapply Forall_impl; [exact He|]. by intros seg (seg0 & _ & _ & ?). Qed.

Lemma new_peer_ok cfg random :
  is_u64 (TCPConfig.send_capacity cfg) ->
  WrappingInt32.wf (default (WrappingInt32.mk random) (TCPConfig.fixed_isn cfg)) ->
  peer_ok (new_peer cfg random).
Proof.
  intros Hc Hw. split; [by apply TCPConnection.init_conn_inv|]. exists []. split; [|constructor].
  split; [|constructor]. split; [|done]. split; [by apply TCPSender.init_inv|constructor].
Qed.

(** ** What a connection takes in *)

(** A segment that the receiver of the stream [T] can place, or that its guard
    on the initial sequence number drops. *)
Definition welcome (T : bytes) (w : WrappingInt32.t) (seg : TCPSegment.t) : Prop :=
  (exists i, TCPReceiver.placed T w seg i) \/
  (TCPHeader.syn (TCPSegment.header seg) = false /\ TCPHeader.seqno (TCPSegment.header seg) = w).

#[global] Instance welcome_proper T w : Proper (same_data ==> iff) (welcome T w).
Proof.
  enough (forall a b, same_data a b -> welcome T w a -> welcome T w b) as H
    by (intros a b Hab; split; [by apply H|by apply H; symmetry]).
  intros a b [E1 E2 E3 E4] [(i & [H1 H2 H3])|[H1 H2]].
  - left. exists i. unfold Buffer.copy in *. split; unfold Buffer.copy; rewrite <- ?E1, <- ?E2, <- ?E4; done.
  - right. by rewrite <- E1, <- E2.
Qed.

Lemma welcome_good T w capacity r o seg r' :
  WrappingInt32.wf w -> zlen T + 1 < 2 ^ 31 -> is_u32 capacity ->
  TCPReceiver.good T w capacity (r, o) -> welcome T w seg ->
  TCPReceiver.segment_received seg r = Ok r' -> TCPReceiver.good T w capacity (r', o).
Proof.
  intros Hw HT Hcap Hg [(i & Hpl)|[Hs Hq]] Hr.
  - pose proof (TCPReceiver.good_cur_u64 _ _ _ _ Hg) as Hcur. cbn in Hcur.
    pose proof (proj1 (TCPReceiver.pl_data _ _ _ _ Hpl)) as Hi.
    eapply TCPReceiver.segment_received_good; [exact Hw| |word_lia|exact Hg|exact Hpl| |exact Hr]; [word_lia|].
    unfold TCPReceiver.near. lia.
  - unfold TCPReceiver.segment_received in Hr. rewrite Hs, Hq in Hr.
    destruct (TCPReceiver.good_isn _ _ _ _ Hg) as [E|E]; cbn in E; rewrite E in Hr; [by injection Hr as <-|].
    assert (WrappingInt32.eqb w w = true) as Ew by (apply Z.eqb_refl). rewrite Ew in Hr. by injection Hr as <-.
Qed.

(** What happens to the receiver in each call: nothing, the error flag, or its
    own [segment_received]. *)
Definition errored (r : TCPReceiver.t) : TCPReceiver.t :=
  TCPReceiver.with_stream_out (ByteStream.set_error (TCPReceiver.stream_out r)) r.

Lemma errored_good T w capacity r o :
  TCPReceiver.good T w capacity (r, o) -> TCPReceiver.good T w capacity (errored r, o).
Proof.
  intros [[[Hw Hl Hc Hb Hch] Ho Hr Hcap] Hisn Hcp]. split; [|done|done]. split; [|done|done|done].
  split; [by apply ByteStream.set_error_wf|done|done|done|done].
Qed.

Lemma reply_receiver seg c c' :
  TCPConnection.reply seg c = Ok c' -> TCPConnection._receiver c' = TCPConnection._receiver c.
Proof. unfold TCPConnection.reply. intros (s & _ & H)%result_bind_Ok. repeat case_match; by simplify_eq. Qed.

Lemma take_ack_receiver seg c : TCPConnection._receiver (TCPConnection.take_ack seg c) = TCPConnection._receiver c.
Proof. unfold TCPConnection.take_ack. by repeat case_match. Qed.

Lemma segment_received_receiver seg c c' :
  TCPConnection.segment_received seg c = Ok c' ->
  TCPConnection._receiver c' = TCPConnection._receiver c \/
  TCPConnection._receiver c' = errored (TCPConnection._receiver c) \/
  TCPReceiver.segment_received seg (TCPConnection._receiver c) = Ok (TCPConnection._receiver c').
Proof.
  unfold TCPConnection.segment_received. cbn zeta.
  case_match; [intros [= <-]; right; by left|]. case_match; [intros [= <-]; by left|].
  case_match; [intros [= <-]; by left|]. intros (r & Hr & Hrep%reply_receiver)%result_bind_Ok.
  right. right. rewrite Hrep, take_ack_receiver. exact Hr.
Qed.

Lemma rst_receiver c : TCPConnection._receiver (TCPConnection._send_rst_segmenet c) = TCPConnection._receiver c.
Proof. unfold TCPConnection._send_rst_segmenet. by case_match. Qed.

Lemma tick_receiver ms c :
  TCPConnection._receiver (TCPConnection.tick ms c) = TCPConnection._receiver c \/
  TCPConnection._receiver (TCPConnection.tick ms c) = errored (TCPConnection._receiver c).
Proof.
  unfold TCPConnection.tick. cbn zeta. case_match; [right|by left].
  unfold TCPConnection.set_both_errors. cbn. by rewrite rst_receiver.
Qed.

(** The peer's receiver has assembled a stretch of [T]. *)
Definition hears_stream (T : bytes) (w : WrappingInt32.t) (capacity : Z) (p : peer) : Prop :=
  TCPReceiver.good T w capacity (TCPConnection._receiver (conn p), taken p).

Lemma peer_step_hears {passes} T w capacity wire p p' :
  (forall seg seg', passes seg seg' -> same_data seg seg') ->
  WrappingInt32.wf w -> zlen T + 1 < 2 ^ 31 -> is_u32 capacity -> Forall (welcome T w) wire ->
  hears_stream T w capacity p -> peer_step passes wire p p' -> hears_stream T w capacity p'.
Proof.
  unfold hears_stream. intros Hpass Hw HT Hcap Hwire Hg Hs.
  destruct Hs as [p c E|p data n c _ _ E|p seg seg' c Hin Hsd%Hpass _ E|p ms|p c E|p len d stream Hl E|p n]; cbn.
  - unfold TCPConnection.connect in E. by apply result_bind_Ok in E as (s & _ & [= <-]).
  - unfold TCPConnection.write in E. destruct (ByteStream.write _ _). by apply result_bind_Ok in E as (s & _ & [= _ <-]).
  - rewrite Forall_forall in Hwire. pose proof (Hwire seg Hin) as Hwel. rewrite Hsd in Hwel.
    destruct (segment_received_receiver _ _ _ E) as [->|[->|Er]]; [done|by apply errored_good|].
    by eapply welcome_good.
  - destruct (tick_receiver ms (conn p)) as [->| ->]; [done|by apply errored_good].
  - unfold TCPConnection.end_input_stream in E. apply result_bind_Ok in E as (s & _ & E). cbn in E.
    repeat case_match; by simplify_eq.
  - destruct Hg as [Hg Hisn Hcp]. cbn in *.
    destruct (StreamReassembler.read_good _ _ _ _ _ _ _ _ Hg Hl E) as (Hg' & _). by split.
  - done.
Qed.

(** ** The sender's promise *)

(** The extra byte gives the sequence number after the FIN an index. *)
Lemma sound_welcome W w next b seg :
  WrappingInt32.wf w -> next <= zlen W + 2 -> TCPSender.sound_segment W w next seg -> welcome (W ++ [b]) w seg.
Proof.
  intros Hw Hn [(a & Ha & ->)|(a & Ha & _)].
  - destruct (Z.eq_dec a 0) as [->|Hne]; [right; cbn; by rewrite wrap_0|]. left. exists (a - 1). split; cbn; [|done|].
    + split; [zlen; cbn; lia|]. apply prefix_nil.
    + intros _. f_equal. lia.
  - left. exists (TCPSender.data_index a). destruct (segment_at_carries _ _ _ seg _ Hw Ha ltac:(reflexivity)).
    split; [by apply at_offset_grow|done|done].
Qed.

Lemma peer_ok_welcome p b :
  peer_ok p -> Forall (welcome (written p ++ [b]) (TCPSender._isn (TCPConnection._sender (conn p)))) (emitted p).
Proof.
  intros [Hi (L & [[[Hs Hlog] _] _] & He)]. cbn in *. eapply Forall_impl; [exact He|]. cbn. intros seg (seg0 & Hin & Hsd & _).
  rewrite <- Hsd. rewrite Forall_forall in Hlog. eapply sound_welcome; [apply Hs| |by apply Hlog].
  destruct Hs. pose proof (zlen_nonneg (ByteStream._str (TCPSender._stream (TCPConnection._sender (conn p))))).
  pose proof (TCPSender.flag_len_range (TCPSender._is_transmission_ended (TCPConnection._sender (conn p)))).
  pose proof (zlen_nonneg (written p)). destruct inv_next as [(E & _)|E]; rewrite E; lia.
Qed.

(** Heard with two different extra bytes: only the stream itself is heard. *)
Lemma hears_prefix T w capacity p :
  (forall b, hears_stream (T ++ [b]) w capacity p) ->
  taken p ++ ByteStream._str (TCPConnection.inbound_stream (conn p)) `prefix_of` T.
Proof.
  intros H. pose proof (TCPReceiver.stream_out_prefix _ _ _ _ (H x00)) as H0.
  pose proof (TCPReceiver.stream_out_prefix _ _ _ _ (H x01)) as H1. cbn in H0, H1.
  unfold TCPConnection.inbound_stream. rewrite H0 in H1 |- *.
  set (k := Z.to_nat _) in *. clearbody k. rewrite !take_app in *. apply app_inv_head in H1.
  destruct (k - length T)%nat as [|m]; cbn in *; [|by destruct m].
  rewrite app_nil_r. apply prefix_take.
Qed.

(** ** The system *)

Inductive system_step (passes : TCPSegment.t -> TCPSegment.t -> Prop) : peer * peer -> peer * peer -> Prop :=
| step_left a a' b : peer_step passes (emitted b) a a' -> system_step passes (a, b) (a', b)
| step_right a b b' : peer_step passes (emitted a) b b' -> system_step passes (a, b) (a, b').

#[global] Arguments step_left {passes}.
#[global] Arguments step_right {passes}.

Definition system (cfg_a cfg_b : TCPConfig.t) (random_a random_b : Z) : peer * peer :=
  (new_peer cfg_a random_a, new_peer cfg_b random_b).

Lemma peer_step_wire {passes} wire wire' p p' : wire ⊆ wire' -> peer_step passes wire p p' -> peer_step passes wire' p p'.
Proof.
  intros Hw []; [by eapply peer_connect|by eapply peer_write|eapply peer_segment; eauto|by eapply peer_tick
    |by eapply peer_end_input|by eapply peer_read|by eapply peer_drain].
Qed.

Lemma peer_step_emitted {passes} wire p p' : peer_step passes wire p p' -> emitted p ⊆ emitted p'.
Proof. intros []; cbn; try done; intros ? ?; apply elem_of_app; by left. Qed.

(** Each peer's part of a run, with all that the other has emitted by its end. *)
Lemma system_project {passes} s s' :
  rtc (system_step passes) s s' ->
  rtc (peer_step passes (emitted (s'.2))) (s.1) (s'.1) /\ rtc (peer_step passes (emitted (s'.1))) (s.2) (s'.2).
Proof.
  revert s'. refine (rtc_ind_r _ _ _ _); [by split|]. intros s1 s2 _ Hs [H1 H2].
  assert (forall wire wire' p p', wire ⊆ wire' -> rtc (peer_step passes wire) p p' -> rtc (peer_step passes wire') p p') as Hmono.
  { intros wire wire' p p' Hw. apply rtc_subrel. intros x y. by apply peer_step_wire. }
  destruct Hs as [a a' b Hp|a b b' Hp]; cbn in *; split.
  - eapply rtc_r; [exact H1|exact Hp].
  - eapply Hmono; [by eapply peer_step_emitted|exact H2].
  - eapply Hmono; [by eapply peer_step_emitted|exact H1].
  - eapply rtc_r; [exact H2|exact Hp].
Qed.

Lemma peer_run_ok {passes} wire p p' : peer_ok p -> rtc (peer_step passes wire) p p' -> peer_ok p'.
Proof. intros Hp Hr. revert Hp. induction Hr; eauto using peer_step_ok. Qed.

(** One direction. *)
Lemma one_direction_hears {passes} wire wire' cfg_a random_a cfg_b random_b a b x :
  (forall seg seg', passes seg seg' -> same_data seg seg') ->
  is_u64 (TCPConfig.send_capacity cfg_a) ->
  WrappingInt32.wf (default (WrappingInt32.mk random_a) (TCPConfig.fixed_isn cfg_a)) ->
  is_u32 (TCPConfig.recv_capacity cfg_b) -> zlen (written a) + 2 < 2 ^ 31 ->
  rtc (peer_step passes wire) (new_peer cfg_a random_a) a -> wire' = emitted a ->
  rtc (peer_step passes wire') (new_peer cfg_b random_b) b ->
  hears_stream (written a ++ [x]) (TCPSender._isn (TCPConnection._sender (conn a))) (TCPConfig.recv_capacity cfg_b) b.
Proof.
  intros Hpass Hc Hw Hr Hlen Ha -> Hb. pose proof (peer_run_ok _ _ _ (new_peer_ok _ _ Hc Hw) Ha) as Hok.
  set (w := TCPSender._isn (TCPConnection._sender (conn a))).
  assert (WrappingInt32.wf w) as Hwf by apply (TCPConnection.ci_sender _ _ (proj1 Hok)).
  assert (zlen (written a ++ [x]) + 1 < 2 ^ 31) as HT by (zlen; cbn; lia).
  assert (hears_stream (written a ++ [x]) w (TCPConfig.recv_capacity cfg_b) (new_peer cfg_b random_b)) as H0.
  { split; cbn; [|by left|done]. apply StreamReassembler.init_good; [word_lia|]. pose proof (zlen_nonneg (written a ++ [x])). word_lia. }
  revert H0. induction Hb as [|p1 p2 p3 Hs _ IH]; [done|]. intros Hh. apply IH.
  eapply peer_step_hears; [exact Hpass|exact Hwf|exact HT|exact Hr|by apply peer_ok_welcome|exact Hh|exact Hs].
Qed.

Lemma one_direction {passes} wire wire' cfg_a random_a cfg_b random_b a b :
  (forall seg seg', passes seg seg' -> same_data seg seg') ->
  is_u64 (TCPConfig.send_capacity cfg_a) ->
  WrappingInt32.wf (default (WrappingInt32.mk random_a) (TCPConfig.fixed_isn cfg_a)) ->
  is_u32 (TCPConfig.recv_capacity cfg_b) -> zlen (written a) + 2 < 2 ^ 31 ->
  rtc (peer_step passes wire) (new_peer cfg_a random_a) a -> wire' = emitted a ->
  rtc (peer_step passes wire') (new_peer cfg_b random_b) b ->
  taken b ++ ByteStream._str (TCPConnection.inbound_stream (conn b)) `prefix_of` written a.
Proof. intros. eapply hears_prefix. intros x. by eapply one_direction_hears. Qed.

(** C3: reliable delivery, in both directions at once.  Two connections, whose
    owners call [connect], [write], [end_input_stream] and read in any order,
    whose clocks tick at any rate, over a network that loses, repeats, delays
    and reorders: at every moment, what either owner has read, followed by what
    waits in its inbound stream, is a prefix of what the other has written. *)
Theorem peers_reliable cfg_a cfg_b random_a random_b a b :
  is_u64 (TCPConfig.send_capacity cfg_a) -> is_u64 (TCPConfig.send_capacity cfg_b) ->
  is_u32 (TCPConfig.recv_capacity cfg_a) -> is_u32 (TCPConfig.recv_capacity cfg_b) ->
  WrappingInt32.wf (default (WrappingInt32.mk random_a) (TCPConfig.fixed_isn cfg_a)) ->
  WrappingInt32.wf (default (WrappingInt32.mk random_b) (TCPConfig.fixed_isn cfg_b)) ->
  rtc (system_step same_data) (system cfg_a cfg_b random_a random_b) (a, b) ->
  zlen (written a) + 2 < 2 ^ 31 -> zlen (written b) + 2 < 2 ^ 31 ->
  taken b ++ ByteStream._str (TCPConnection.inbound_stream (conn b)) `prefix_of` written a /\
  taken a ++ ByteStream._str (TCPConnection.inbound_stream (conn a)) `prefix_of` written b.
Proof.
  intros Hsa Hsb Hra Hrb Hwa Hwb Hr Hla Hlb. apply system_project in Hr as [Ha Hb]. cbn in Ha, Hb.
  split.
  - eapply (one_direction _ _ cfg_a random_a cfg_b random_b); [done|done|done|done|done|exact Ha|reflexivity|exact Hb].
  - eapply (one_direction _ _ cfg_b random_b cfg_a random_a); [done|done|done|done|done|exact Hb|reflexivity|exact Ha].
Qed.

(** ** Runs that compute *)

Inductive action : Type :=
| Connect
| Write (data : bytes)
| Deliver (k : nat)
| Tick (ms : Z)
| EndInput
| Read (len : Z).

(** The peer after an action; [Deliver k] delivers the [k]-th segment of the
    other peer's history, in which each call lists the whole queue again. *)
Definition act (wire : list TCPSegment.t) (x : action) (p : peer) : option peer :=
  match x with
  | Connect => match TCPConnection.connect (conn p) with Ok c => Some (after c p) | _ => None end
  | Write data =>
      if negb (ByteStream.input_ended (TCPSender.stream_in (TCPConnection._sender (conn p)))) &&
         (zlen (written p) + zlen data + 2 + 2 ^ 16 <? 2 ^ 64)
      then match TCPConnection.write data (conn p) with
           | Ok (n, c) => Some ((after c p) <| written := written p ++ substr0 data n |>)
           | _ => None
           end
      else None
  | Deliver k =>
      match wire !! k with
      | Some seg =>
          if (0 <=? TCPHeader.win (TCPSegment.header seg)) && (TCPHeader.win (TCPSegment.header seg) <? 2 ^ 16)
          then match TCPConnection.segment_received seg (conn p) with Ok c => Some (after c p) | _ => None end
          else None
      | None => None
      end
  | Tick ms => Some (after (TCPConnection.tick ms (conn p)) p)
  | EndInput => match TCPConnection.end_input_stream (conn p) with Ok c => Some (after c p) | _ => None end
  | Read len =>
      if (0 <=? len) && (len <? 2 ^ 64) then
        match ByteStream.read len (TCPConnection.inbound_stream (conn p)) with
        | Ok (d, stream) =>
            Some (p <| conn := (conn p) <| TCPConnection._receiver :=
                         TCPReceiver.with_stream_out stream (TCPConnection._receiver (conn p)) |> |>
                    <| taken := taken p ++ d |>)
        | _ => None
        end
      else None
  end.

Lemma act_step {passes} `{!Reflexive passes} wire x p p' : act wire x p = Some p' -> peer_step passes wire p p'.
Proof.
  destruct x as [|data|k|ms| |len]; cbn [act]; intros H.
  - destruct (TCPConnection.connect _) as [c| |] eqn:E; [|done..]. injection H as <-. by apply peer_connect.
  - destruct (_ && _) eqn:Eb; [|done]. apply andb_prop in Eb as [E1%negb_true_iff E2%Z.ltb_lt].
    destruct (TCPConnection.write _ _) as [[n c]| |] eqn:E; [|done..]. injection H as <-. by apply peer_write.
  - destruct (wire !! k) as [seg|] eqn:Ek; [|done]. destruct (_ && _) eqn:Eb; [|done].
    apply andb_prop in Eb as [E1%Z.leb_le E2%Z.ltb_lt].
    destruct (TCPConnection.segment_received _ _) as [c| |] eqn:E; [|done..]. injection H as <-.
    eapply peer_segment; [by eapply list_elem_of_lookup_2|reflexivity|by split|done].
  - injection H as <-. apply peer_tick.
  - destruct (TCPConnection.end_input_stream _) as [c| |] eqn:E; [|done..]. injection H as <-. by apply peer_end_input.
  - destruct (_ && _) eqn:Eb; [|done]. apply andb_prop in Eb as [E1%Z.leb_le E2%Z.ltb_lt].
    destruct (ByteStream.read _ _) as [[d stream]| |] eqn:E; [|done..]. injection H as <-. by apply (peer_read _ _ len).
Qed.

(** A schedule: who acts ([true] for the first peer), and how. *)
Fixpoint run (schedule : list (bool * action)) (s : peer * peer) : option (peer * peer) :=
  match schedule with
  | [] => Some s
  | (true, x) :: rest => a ← act (emitted (s.2)) x (s.1); run rest (a, s.2)
  | (false, x) :: rest => b ← act (emitted (s.1)) x (s.2); run rest (s.1, b)
  end.

Lemma run_steps {passes} `{!Reflexive passes} schedule s s' : run schedule s = Some s' -> rtc (system_step passes) s s'.
Proof.
  revert s. induction schedule as [|[[] x] rest IH]; intros [a b]; cbn; [by intros [= <-]|..];
    intros (p & Ha%(act_step (passes := passes)) & Hr)%bind_Some; (eapply rtc_l; [|by apply IH]).
  - by apply step_left.
  - by apply step_right.
Qed.

Definition config_a : TCPConfig.t := TCPConfig.init <| TCPConfig.fixed_isn := Some (WrappingInt32.mk 7) |>.
Definition config_b : TCPConfig.t := TCPConfig.init <| TCPConfig.fixed_isn := Some (WrappingInt32.mk 4000000000) |>.

(** The handshake, then data that arrives twice and out of order. *)
Definition handshake : list (bool * action) := [(true, Connect); (false, Deliver 0); (true, Deliver 0); (false, Deliver 2)].
Definition exchange : list (bool * action) :=
  handshake ++ [(true, Write [x68; x69]); (true, Write [x21]); (false, Deliver 9); (false, Deliver 5); (false, Deliver 9);
                (false, Read 2)].

Lemma peers_reliable_witness :
  exists a b, rtc (system_step same_data) (system config_a config_b 0 0) (a, b) /\ taken b = [x68; x69] /\
    written a = [x68; x69; x21] /\ ByteStream._str (TCPConnection.inbound_stream (conn b)) = [x21] /\
    taken b ++ ByteStream._str (TCPConnection.inbound_stream (conn b)) `prefix_of` written a.
Proof.
  destruct (run exchange (system config_a config_b 0 0)) as [[a b]|] eqn:E; [|vm_compute in E; discriminate E].
  pose proof (run_steps (passes := same_data) exchange (system config_a config_b 0 0) (a, b) E) as Hr. exists a, b.
  assert (taken b = [x68; x69] /\ written a = [x68; x69; x21] /\ written b = [] /\
    ByteStream._str (TCPConnection.inbound_stream (conn b)) = [x21]) as (E1 & E2 & E3 & E4).
  { vm_compute in E. injection E as <- <-. repeat split. }
  destruct (peers_reliable config_a config_b 0 0 a b) as [H _];
    [vm_compute; split; congruence..|exact Hr|rewrite E2; reflexivity|rewrite E3; reflexivity|].
  split; [exact Hr|]. split; [exact E1|]. split; [exact E2|]. split; [exact E4|exact H].
Defined.

(** C9: what a connection sends.  Whatever its owner calls (it does not write
    after [end_input_stream], and writes fewer bytes than there are 64-bit
    sequence numbers), however its clock ticks and whatever segments reach it,
    every segment the connection ever emits, retransmissions included, carries
    at its sequence number either nothing or a stretch of the stream written:
    SYN exactly at the start, FIN only at the end, at most [MAX_PAYLOAD_SIZE]
    bytes.  The outstanding segments are contiguous and cover exactly the
    [bytes_in_flight()] numbers below the next one, at most 65535 of them. *)
Theorem connection_sends_stream passes wire cfg random p :
  is_u64 (TCPConfig.send_capacity cfg) ->
  WrappingInt32.wf (default (WrappingInt32.mk random) (TCPConfig.fixed_isn cfg)) ->
  rtc (peer_step passes wire) (new_peer cfg random) p ->
  let s := TCPConnection._sender (conn p) in
  Forall (fun seg => exists seg0, same_data seg0 seg /\
            (TCPSender.empty_segment (TCPSender._isn s) (TCPSender.next_seqno_absolute s) seg0 \/
             exists a, TCPSender.segment_at (written p) (TCPSender._isn s) seg0 a)) (emitted p) /\
  TCPSender.covers (written p) (TCPSender._isn s)
    (TCPSender.next_seqno_absolute s - TCPSender.bytes_in_flight s) (TCPSender._outstanding_segments s)
    (TCPSender.next_seqno_absolute s) /\
  0 <= TCPSender.bytes_in_flight s <= 65535.
Proof.
  intros Hc Hw Hr s. destruct (peer_run_ok _ _ _ (new_peer_ok _ _ Hc Hw) Hr) as [[Hinv _ _] (L & [[[_ HL] _] _] & He)].
  split; [|split; [apply Hinv|apply (TCPSender.inv_flight _ _ Hinv)]].
  eapply Forall_impl; [exact He|]. intros seg (seg0 & Hin & Hsd & _). exists seg0. split; [done|].
  cbn in HL. rewrite Forall_forall in HL. destruct (HL _ Hin) as [?|(a & ? & _)]; eauto.
Qed.

(** An owner that opens, writes and sees a retransmission; the wire is empty. *)
Lemma connection_sends_stream_witness :
  exists p, written p = [x68; x69] /\ TCPSender.bytes_in_flight (TCPConnection._sender (conn p)) = 1 /\
    length (emitted p) = 4%nat /\ Forall (fun seg => exists seg0, same_data seg0 seg /\
      (TCPSender.empty_segment (TCPSender._isn (TCPConnection._sender (conn p)))
         (TCPSender.next_seqno_absolute (TCPConnection._sender (conn p))) seg0 \/
       exists a, TCPSender.segment_at (written p) (TCPSender._isn (TCPConnection._sender (conn p))) seg0 a)) (emitted p).
Proof.
  assert (exists p, rtc (peer_step eq []) (new_peer config_a 0) p /\ written p = [x68; x69] /\
    TCPSender.bytes_in_flight (TCPConnection._sender (conn p)) = 1 /\ length (emitted p) = 4%nat)
    as (p & Hr & E1 & E2 & E3).
  { eexists. split; [|repeat split].
    - eapply rtc_l; [apply (act_step _ Connect); vm_compute; reflexivity|].
      eapply rtc_l; [apply (act_step _ (Write [x68; x69])); vm_compute; reflexivity|].
      eapply rtc_l; [apply (act_step _ (Tick 1000)); vm_compute; reflexivity|]. apply rtc_refl.
    - vm_compute; reflexivity.
    - vm_compute; reflexivity.
    - vm_compute; reflexivity. }
  exists p. split; [exact E1|]. split; [exact E2|]. split; [exact E3|].
  apply (connection_sends_stream eq [] config_a 0 p); [vm_compute; split; congruence..|exact Hr].
Defined.

(** A stream can be cut short without an error.  The owner of one peer
    writes two bytes and closes; the segment with the bytes is lost and the
    segment with the FIN arrives.  The owner of the other peer then sees the
    end of the stream, no error, and none of the bytes. *)
Theorem peers_truncated :
  exists a b, rtc (system_step eq) (system config_a config_b 0 0) (a, b) /\
    written a = [x68; x69] /\ ByteStream.input_ended (TCPSender.stream_in (TCPConnection._sender (conn a))) = true /\
    ByteStream.eof (TCPConnection.inbound_stream (conn b)) = true /\
    ByteStream.error (TCPConnection.inbound_stream (conn b)) = false /\ taken b = [].
Proof.
  destruct (run (handshake ++ [(true, Write [x68; x69]); (true, EndInput); (false, Deliver 9)]) (system config_a config_b 0 0))
    as [[a b]|] eqn:E; [|vm_compute in E; discriminate E].
  exists a, b. split; [by eapply run_steps|]. vm_compute in E. injection E as <- <-. repeat split.
Qed.

(** A peer with room for four bytes, whose two acknowledgments arrive in the
    wrong order. *)
Definition small_b : TCPConfig.t := config_b <| TCPConfig.recv_capacity := 4 |>.
Definition overrun : list (bool * action) :=
  handshake ++ [(true, Write [x61]); (true, Write [x62; x63; x64]); (false, Deliver 5); (false, Deliver 9);
                (true, Deliver 6); (true, Deliver 5); (true, Write [x65]); (true, Write [x66]); (true, Write [x67]);
                (false, Read 1); (false, Deliver 35); (false, Read 1); (false, Deliver 33)].

(** What the second peer throws at the [k]-th segment of the first. *)
Definition fate (k : nat) (s : option (peer * peer)) : option exn :=
  '(a, b) ← s;
  seg ← emitted a !! k;
  match TCPConnection.segment_received seg (conn b) with Throw e => Some e | _ => None end.

Lemma fate_spec k s e :
  fate k s = Some e ->
  exists a b seg, s = Some (a, b) /\ emitted a !! k = Some seg /\ TCPConnection.segment_received seg (conn b) = Throw e.
Proof.
  intros ([a b] & Hs & (seg & Hk & H)%bind_Some)%bind_Some. exists a, b, seg. split; [done|]. split; [done|].
  case_match; simplify_eq. done.
Qed.

Lemma overrun_fate : fate 34 (run overrun (system config_a small_b 0 0)) = Some StreamReassembler.write_refused.
Proof. vm_compute. reflexivity. Qed.

(** Acknowledgments that arrive out of order can make the other end throw.
    A late acknowledgment does not move the sender's window back but its window
    size is taken over, so the sender sends past what the receiver offered; a
    segment that starts past the receiver's window is stored, and when the gap
    before it is filled [segment_received] throws, with both ends correct
    clients of this library and no segment altered. *)
Theorem peers_overrun :
  exists a b seg, rtc (system_step eq) (system config_a small_b 0 0) (a, b) /\ seg ∈ emitted a /\
    TCPConnection.segment_received seg (conn b) = Throw StreamReassembler.write_refused.
Proof.
  destruct (fate_spec _ _ _ overrun_fate) as (a & b & seg & Hr%(run_steps (passes := eq)) & Hs & Ht).
  exists a, b, seg. split; [done|]. split; [by eapply list_elem_of_lookup_2|done].
Qed.
