(* ===== verification/segments_made.v ===== *)
(** * What holds of every segment a connection makes

    A property of the segments in a sender's queues, one of the segments a
    connection emits, and one of its receiver, kept by every call: the
    induction over [TCPSender] and [TCPConnection] behind any statement about
    what is on the wire. *)

From stdpp Require Import relations.
From S2P Require Import Prelude.
From S2P Require Import wrapping_integers.
From S2P Require Import byte_stream.
From S2P Require Import buffer.
From S2P Require Import tcp_segment.
From S2P Require Import tcp_receiver.
From S2P Require Import tcp_sender.
From S2P Require Import tcp_state.
From S2P Require Import tcp_connection.
From S2P Require Import end_to_end.
From S2P Require Import tcp_peers.

(** [U] holds of a fresh segment and survives what [fill_window] and
    [send_empty_segment] write to it; a segment with [U] that is stamped by a
    receiver with [R], or made a reset, has [K]. *)
Class MadeFrom (U K : TCPSegment.t -> Prop) (R : TCPReceiver.t -> Prop) : Prop := {
  made_init : U TCPSegment.init;
  made_seqno a w seg : U seg -> U (TCPSender.set_header (fun h => h <| TCPHeader.seqno := WrappingInt32.wrap a w |>) seg);
  made_syn seg : U seg -> U (TCPSender.set_header (fun h => h <| TCPHeader.syn := true |>) seg);
  made_fin seg : U seg -> U (TCPSender.set_header (fun h => h <| TCPHeader.fin := true |>) seg);
  made_payload data seg :
    U seg -> zlen data <= TCPConfig.MAX_PAYLOAD_SIZE -> U (TCPSender.set_payload (Buffer.of_string data) seg);
  made_stamp r seg : R r -> U seg -> K (TCPConnection.stamp r seg);
  made_rst seg : U seg -> K (TCPSender.set_header (fun h => h <| TCPHeader.rst := true |>) seg)
}.

Definition sender_made (U : TCPSegment.t -> Prop) (s : TCPSender.t) : Prop :=
  Forall U (TCPSender._segments_out s) /\ Forall U (TCPSender._outstanding_segments s).

Definition conn_made (U K : TCPSegment.t -> Prop) (c : TCPConnection.t) : Prop :=
  sender_made U (TCPConnection._sender c) /\ Forall K (TCPConnection._segments_out c).

Lemma read_len len s d s' : ByteStream.read len s = Ok (d, s') -> zlen d <= Z.max 0 len.
Proof.
  unfold ByteStream.read, ByteStream.peek_output. intros (s1 & _ & [= <- _])%result_bind_Ok. rewrite substr0_eq. zlen. lia.
Qed.

Lemma ack_loop_suffix isn next a out fl : exists pre, out = pre ++ (TCPSender.ack_loop isn next a out fl).1.
Proof.
  revert fl. induction out as [|seg out IH]; intros fl; cbn [TCPSender.ack_loop]; [by exists []|].
  destruct (_ <=? _); [|by exists []]. destruct (IH (fl ⊖ TCPSegment.length_in_sequence_space seg)) as [pre E].
  exists (seg :: pre). cbn. by f_equal.
Qed.

Section made.
Context {U K : TCPSegment.t -> Prop} {R : TCPReceiver.t -> Prop} `{!MadeFrom U K R}.

(** ** The sender *)

Lemma fill_body_made aws seg s seg' s' :
  U seg -> sender_made U s -> TCPSender.fill_body aws seg s = Ok (seg', s') -> U seg' /\ sender_made U s'.
Proof.
  intros Hseg Hs. unfold TCPSender.fill_body.
  assert (U (TCPSender.fill_syn seg s).1 /\ sender_made U (TCPSender.fill_syn seg s).2) as [H1 H2].
  { unfold TCPSender.fill_syn. destruct (_ =? 0); (split; [|done]); [apply made_syn|]; by apply made_seqno. }
  destruct (TCPSender.fill_syn seg s) as [seg1 s1]. cbn in H1, H2. unfold TCPSender.fill_data.
  intros ([data stream] & Hr & H)%result_bind_Ok. apply read_len in Hr. cbn zeta in H.
  assert (zlen data <= TCPConfig.MAX_PAYLOAD_SIZE) as Hz by (unfold TCPConfig.MAX_PAYLOAD_SIZE in *; lia).
  pose proof (made_payload data seg1 H1 Hz) as H3. set (seg2 := TCPSender.set_payload _ _) in *.
  pose proof (made_fin seg2 H3) as H4. destruct H2 as [Ho Hu].
  match type of H with context [if ?b then (TCPSender.set_header _ _, _) else _] => destruct b end;
  match type of H with context [if ?b then _ else _] => destruct b end; injection H as <- <-;
    (split; [done|]); split; cbn; try done; apply Forall_app; (split; [done|]); apply Forall_singleton; first [apply H4|apply H3].
Qed.

Lemma fill_loop_made fuel aws seg s s' :
  U seg -> sender_made U s -> TCPSender.fill_loop fuel aws seg s = Ok s' -> sender_made U s'.
Proof.
  revert seg s. induction fuel as [|fuel IH]; intros seg s Hseg Hs; cbn [TCPSender.fill_loop]; [done|].
  destruct (TCPSender._is_transmission_ended s); [by intros [= <-]|].
  intros ([seg1 s1] & Hb & H)%result_bind_Ok. destruct (fill_body_made _ _ _ _ _ Hseg Hs Hb) as [H1 H2].
  match type of H with (if ?b then _ else _) = _ => destruct b end; [by eapply IH|by simplify_eq].
Qed.

Lemma fill_window_made s s' : sender_made U s -> TCPSender.fill_window s = Ok s' -> sender_made U s'.
Proof.
  intros Hs. unfold TCPSender.fill_window. cbn zeta. match goal with |- (if ?b then _ else _) = _ -> _ => destruct b end; [by intros [= <-]|].
  apply fill_loop_made; [apply made_init|done].
Qed.

Lemma ack_received_made ackno win s : sender_made U s -> sender_made U (TCPSender.ack_received ackno win s).
Proof.
  intros [Ho Hu]. unfold TCPSender.ack_received. cbn zeta. match goal with |- context [if ?b then _ else _] => destruct b end; [done|].
  destruct (TCPSender.ack_loop _ _ _ _ _) as [out fl] eqn:E.
  match type of E with TCPSender.ack_loop ?i ?n ?a ?o ?f = _ => destruct (ack_loop_suffix i n a o f) as [pre Ep] end.
  rewrite E in Ep. cbn in Ep. rewrite Ep in Hu. apply Forall_app in Hu as [_ Hu]. cbn. by destruct out.
Qed.

Lemma sender_tick_made ms s : sender_made U s -> sender_made U (TCPSender.tick ms s).
Proof.
  intros [Ho Hu]. unfold TCPSender.tick. cbn zeta. destruct (RetransmissionTimer.expired _); [|done].
  cbn. destruct (TCPSender._outstanding_segments s) as [|front rest] eqn:E; [split; cbn; rewrite ?E; done|].
  assert (U front) as Hf by (by inversion Hu).
  destruct (negb _); (split; cbn; rewrite ?E; [apply Forall_app; split; [done|by apply Forall_singleton]|done]).
Qed.

Lemma send_empty_made s : sender_made U s -> sender_made U (TCPSender.send_empty_segment s).
Proof.
  intros [Ho Hu]. split; [|done]. cbn. apply Forall_app. split; [done|]. apply Forall_singleton, made_seqno, made_init.
Qed.

(** ** The connection

    [R] is asked of the receiver that stamps: the one the call leaves. *)

Lemma conn_sender_made c s : conn_made U K c -> sender_made U s -> conn_made U K (c <| TCPConnection._sender := s |>).
Proof. by intros [_ ?] ?. Qed.

Lemma send_all_made c :
  R (TCPConnection._receiver c) -> conn_made U K c -> conn_made U K (TCPConnection._send_all_outbounding_segments c).
Proof.
  intros Hr [[Ho Hu] Hq]. unfold TCPConnection._send_all_outbounding_segments. split; cbn; [by split|].
  rewrite TCPConnection.send_loop_eq. apply Forall_app. split; [done|]. apply Forall_fmap. eapply Forall_impl; [exact Ho|].
  intros seg. by apply made_stamp.
Qed.

Lemma send_rst_made c : conn_made U K c -> conn_made U K (TCPConnection._send_rst_segmenet c).
Proof.
  intros Hc. unfold TCPConnection._send_rst_segmenet. cbn zeta.
  pose proof (send_empty_made _ (proj1 Hc)) as He. destruct (TCPSender.segments_out _) as [|seg rest] eqn:E;
    [by apply conn_sender_made|]. destruct He as [Ho Hu]. unfold TCPSender.segments_out in E. rewrite E in Ho.
  apply Forall_cons in Ho as [Hseg Hrest]. split; cbn; [by split|]. apply Forall_app. split; [apply Hc|].
  by apply Forall_singleton, made_rst.
Qed.

Lemma connect_made c c' :
  R (TCPConnection._receiver c) -> conn_made U K c -> TCPConnection.connect c = Ok c' -> conn_made U K c'.
Proof.
  intros Hr Hc. unfold TCPConnection.connect. intros (s & Hf%fill_window_made & [= <-])%result_bind_Ok; [|apply Hc].
  apply send_all_made; [done|]. by apply conn_sender_made.
Qed.

Lemma conn_write_made data c n c' :
  R (TCPConnection._receiver c) -> conn_made U K c -> TCPConnection.write data c = Ok (n, c') -> conn_made U K c'.
Proof.
  intros Hr Hc. unfold TCPConnection.write. destruct (ByteStream.write _ _) as [ret st].
  intros (s & Hf%fill_window_made & [= _ <-])%result_bind_Ok; [|apply Hc]. apply send_all_made; [done|]. by split; [|apply Hc].
Qed.

Lemma end_input_made c c' :
  R (TCPConnection._receiver c) -> conn_made U K c -> TCPConnection.end_input_stream c = Ok c' -> conn_made U K c'.
Proof.
  intros Hr Hc. unfold TCPConnection.end_input_stream. intros (s & Hf%fill_window_made & H)%result_bind_Ok; [|apply Hc].
  cbn in H. assert (conn_made U K (c <| TCPConnection._sender := s |>)) as H1 by (by apply conn_sender_made).
  repeat case_match; simplify_eq; [exact H1|exact H1|]. by apply send_all_made.
Qed.

Lemma conn_tick_made ms c : R (TCPConnection._receiver c) -> conn_made U K c -> conn_made U K (TCPConnection.tick ms c).
Proof.
  intros Hr Hc. unfold TCPConnection.tick. cbn zeta.
  match goal with |- context [TCPSender.consecutive_retransmissions (TCPConnection._sender ?x)] =>
    assert (conn_made U K x) as H1 by (apply conn_sender_made; [done|apply sender_tick_made, Hc]) end.
  destruct (_ <? _); [|by apply send_all_made]. apply send_rst_made in H1. by destruct H1.
Qed.

Lemma reply_made seg c c' :
  R (TCPConnection._receiver c) -> conn_made U K c -> TCPConnection.reply seg c = Ok c' -> conn_made U K c'.
Proof.
  intros Hr Hc. unfold TCPConnection.reply. intros (s & Hf%fill_window_made & H)%result_bind_Ok; [|apply Hc]. cbn zeta in H.
  assert (conn_made U K (c <| TCPConnection._sender := s |>)) as H1 by (by apply conn_sender_made).
  repeat case_match; simplify_eq; [|exact H1|by apply send_all_made].
  apply send_all_made; [done|]. apply conn_sender_made; [done|]. by apply send_empty_made.
Qed.

Lemma conn_segment_made seg c c' :
  R (TCPConnection._receiver c) -> R (TCPConnection._receiver c') -> conn_made U K c ->
  TCPConnection.segment_received seg c = Ok c' -> conn_made U K c'.
Proof.
  intros Hr Hr' Hc. unfold TCPConnection.segment_received. cbn zeta. destruct (TCPHeader.rst _); [by intros [= <-]; destruct Hc|].
  destruct (TCPConnection.is_keep_alive _ _).
  { intros [= <-]. apply send_all_made; [done|]. apply conn_sender_made; [done|]. apply send_empty_made, Hc. }
  destruct (_ && _); [by intros [= <-]|]. intros (r & _ & H)%result_bind_Ok.
  pose proof (reply_receiver _ _ _ H) as Er. rewrite Er in Hr'. eapply reply_made; [exact Hr'| |exact H].
  unfold TCPConnection.take_ack. destruct (TCPHeader.ack _); cbn zeta; destruct (_ && _); try done.
  all: split; [cbn; apply ack_received_made, Hc|apply Hc].
Qed.

(** ** The peer *)

(** Its queue has been counted as emitted. *)
Record peer_made (p : peer) : Prop := {
  pm_conn : conn_made U K (conn p);
  pm_emitted : Forall K (emitted p);
  pm_queue : TCPConnection._segments_out (conn p) ⊆ emitted p
}.

Lemma new_peer_made cfg random : peer_made (new_peer cfg random).
Proof. split; [split; [split|]; constructor|constructor|done]. Qed.

Lemma after_made c p : peer_made p -> conn_made U K c -> peer_made (after c p).
Proof.
  intros [_ He _] Hc. split; cbn; [done|apply Forall_app; split; [done|apply Hc]|]. intros seg ?. apply elem_of_app. by right.
Qed.

Lemma peer_step_made {passes} wire p p' :
  R (TCPConnection._receiver (conn p)) -> R (TCPConnection._receiver (conn p')) ->
  peer_made p -> peer_step passes wire p p' -> peer_made p'.
Proof.
  intros Hr Hr' Hp Hs. pose proof (pm_conn _ Hp) as Hc.
  destruct Hs as [p c E|p data n c _ _ E|p seg seg' c _ _ _ E|p ms|p c E|p len d stream _ _|p n].
  - apply after_made; [done|eapply connect_made; [exact Hr|done|exact E]].
  - assert (peer_made (after c p)) as [] by (apply after_made; [done|eapply conn_write_made; [exact Hr|done|exact E]]). by split.
  - apply after_made; [done|eapply conn_segment_made; [exact Hr|exact Hr'|done|exact E]].
  - apply after_made; [done|apply conn_tick_made; [exact Hr|done]].
  - apply after_made; [done|eapply end_input_made; [exact Hr|done|exact E]].
  - by destruct Hp.
  - destruct Hp as [_ He Hq], Hc as [Hsf Ho]. split; cbn; [split; [done|by apply Forall_drop]|done|].
    intros seg Hin. apply Hq. apply list_elem_of_In. apply list_elem_of_In in Hin. rewrite <- (take_drop n). apply in_or_app. by right.
Qed.

End made.

#[global] Arguments peer_made U K p : clear implicits.
