(* ===== verification/clean_close.v ===== *)
(** * What a clean close means to the other end

    The acknowledgment numbers that a connection emits are those of what its
    receiver has assembled, and a sender believes no more than they say.  So a
    connection that has become inactive without a reset has had its whole
    stream, and the end of it, assembled by the other end. *)

From stdpp Require Import relations.
From S2P Require Import Prelude.
From S2P Require Import wrapping_integers.
From S2P Require Import byte_stream.
From S2P Require Import stream_reassembler.
From S2P Require Import buffer.
From S2P Require Import tcp_segment.
From S2P Require Import tcp_receiver.
From S2P Require Import tcp_sender.
From S2P Require Import tcp_state.
From S2P Require Import tcp_connection.
From S2P Require Import end_to_end.
From S2P Require Import tcp_peers.
From S2P Require Import segments_made.

(** ** What a receiver acknowledges *)

(** The absolute sequence number that [ackno] wraps. *)
Definition promised (r : TCPReceiver.t) : Z :=
  StreamReassembler.cur_index (TCPReceiver._reassembler r) + 1 +
  (if ByteStream.input_ended (TCPReceiver.stream_out r) then 1 else 0).

Definition acks_upto (N : Z) (w : WrappingInt32.t) (ackno : WrappingInt32.t) : Prop :=
  exists n, 0 <= n <= N /\ ackno = WrappingInt32.wrap n w.

Definition unstamped (seg : TCPSegment.t) : Prop := TCPHeader.ack (TCPSegment._header seg) = false.

Definition stamped_upto (N : Z) (w : WrappingInt32.t) (seg : TCPSegment.t) : Prop :=
  TCPHeader.ack (TCPSegment.header seg) = true -> acks_upto N w (TCPHeader.ackno (TCPSegment.header seg)).

Definition receiver_upto (N : Z) (w : WrappingInt32.t) (r : TCPReceiver.t) : Prop :=
  forall ackno, TCPReceiver.ackno r = Some ackno -> acks_upto N w ackno.

#[export] Instance acks_made N w : MadeFrom unstamped (stamped_upto N w) (receiver_upto N w).
Proof.
  split; try done.
  - intros r seg Hr Hu. unfold stamped_upto, TCPConnection.stamp. destruct (TCPReceiver.ackno r) as [a|] eqn:E; cbn.
    + intros _. by apply Hr.
    + by rewrite Hu.
  - intros seg Hu. unfold stamped_upto. cbn. by rewrite Hu.
Qed.

Lemma receiver_good_upto T w capacity r o N :
  zlen T + 2 < 2 ^ 64 -> TCPReceiver.good T w capacity (r, o) -> promised r <= N -> receiver_upto N w r.
Proof.
  intros HT Hg Hp ackno Ha. pose proof (TCPReceiver.good_cur_u64 _ _ _ _ Hg) as Hc. cbn in Hc.
  destruct (TCPReceiver.good_isn _ _ _ _ Hg) as [E|E]; cbn in E; [unfold TCPReceiver.ackno in Ha; by rewrite E in Ha|].
  pose proof (TCPReceiver.ackno_eq _ _ _ _ HT Hg E) as Hn. cbn in Hn. rewrite Hn in Ha. injection Ha as <-.
  exists (promised r). split; [|done]. unfold promised in *. case_match; lia.
Qed.

(** What has been acknowledged stays so. *)
Lemma promised_errored r : promised (errored r) = promised r.
Proof. done. Qed.

Lemma segment_received_promised T w capacity r o seg r' :
  WrappingInt32.wf w -> zlen T + 1 < 2 ^ 31 -> TCPReceiver.good T w capacity (r, o) -> welcome T w seg ->
  TCPReceiver.segment_received seg r = Ok r' -> promised r <= promised r'.
Proof.
  intros Hw HT Hg Hwel Hr. pose proof (TCPReceiver.good_cur_u64 _ _ _ _ Hg) as Hcur. cbn in Hcur.
  destruct Hwel as [(i & Hpl)|[Hs Hq]].
  - pose proof (proj1 (TCPReceiver.pl_data _ _ _ _ Hpl)) as Hi.
    destruct (decide (TCPReceiver._isn r = Some w \/ TCPHeader.syn (TCPSegment.header seg) = true)) as [Hor|Hno].
    + rewrite (TCPReceiver.segment_received_eq T w seg i) in Hr; [|done|done|word_lia|word_lia|unfold TCPReceiver.near; lia|done].
      destruct (_ =? 0); [by injection Hr as <-|]. apply result_fmap_Ok in Hr as (ra & Hp & <-).
      destruct (StreamReassembler.push_progress _ _ _ _ _ _ (StreamReassembler.good_wf _ _ _ (TCPReceiver.good_reassembler _ _ _ _ Hg))
        (TCPReceiver.pl_data _ _ _ _ Hpl) Hp) as [H1 H2].
      cbn in *. unfold promised, StreamReassembler.cur_index, TCPReceiver.stream_out, StreamReassembler.stream_out in *. cbn.
      destruct (ByteStream.input_ended (StreamReassembler._output (TCPReceiver._reassembler r))); [rewrite H2 by done; lia|].
      case_match; lia.
    + destruct (TCPReceiver.good_isn _ _ _ _ Hg) as [E|E]; cbn in E; [|tauto]. unfold TCPReceiver.segment_received in Hr.
      destruct (TCPHeader.syn (TCPSegment.header seg)); [tauto|]. rewrite E in Hr. by injection Hr as <-.
  - unfold TCPReceiver.segment_received in Hr. rewrite Hs, Hq in Hr.
    destruct (TCPReceiver.good_isn _ _ _ _ Hg) as [E|E]; cbn in E; rewrite E in Hr; [by injection Hr as <-|].
    assert (WrappingInt32.eqb w w = true) as Ew by (apply Z.eqb_refl). rewrite Ew in Hr. by injection Hr as <-.
Qed.

(** ** The peer that acknowledges *)

Section acknowledging.
Context {passes : TCPSegment.t -> TCPSegment.t -> Prop} (Hpass : forall seg seg', passes seg seg' -> same_data seg seg').
Context (T : bytes) (w : WrappingInt32.t) (capacity : Z) (wire : list TCPSegment.t).
Context (Hw : WrappingInt32.wf w) (HT : zlen T + 1 < 2 ^ 31) (Hcap : is_u32 capacity) (Hwire : Forall (welcome T w) wire).

Lemma peer_step_promised p p' :
  hears_stream T w capacity p -> peer_step passes wire p p' -> promised (TCPConnection._receiver (conn p)) <= promised (TCPConnection._receiver (conn p')).
Proof using Hpass Hw HT Hwire.
  unfold hears_stream. intros Hg Hs.
  destruct Hs as [p c E|p data n c _ _ E|p seg seg' c Hin Hsd%Hpass _ E|p ms|p c E|p len d stream Hl E|p n]; cbn.
  - unfold TCPConnection.connect in E. by apply result_bind_Ok in E as (s & _ & [= <-]).
  - unfold TCPConnection.write in E. destruct (ByteStream.write _ _). by apply result_bind_Ok in E as (s & _ & [= _ <-]).
  - rewrite Forall_forall in Hwire. pose proof (Hwire seg Hin) as Hwel. rewrite Hsd in Hwel.
    destruct (segment_received_receiver _ _ _ E) as [->|[->|Er]]; [done|by rewrite promised_errored|].
    by eapply segment_received_promised.
  - destruct (tick_receiver ms (conn p)) as [->| ->]; [done|by rewrite promised_errored].
  - unfold TCPConnection.end_input_stream in E. apply result_bind_Ok in E as (s & _ & E). cbn in E.
    repeat case_match; by simplify_eq.
  - unfold promised. cbn. by rewrite (TCPConnection.read_ended _ _ _ _ E).
  - done.
Qed.

Lemma peer_run_promised p p' :
  hears_stream T w capacity p -> rtc (peer_step passes wire) p p' -> promised (TCPConnection._receiver (conn p)) <= promised (TCPConnection._receiver (conn p')).
Proof using Hpass Hw HT Hcap Hwire.
  intros Hh Hr. revert Hh. induction Hr as [|p1 p2 p3 Hs _ IH]; [done|]. intros Hh.
  etrans; [by eapply peer_step_promised|]. apply IH. by eapply peer_step_hears.
Qed.

(** Nothing it has emitted acknowledges more than it has assembled by the end. *)
Lemma peer_run_stamps p p' :
  hears_stream T w capacity p -> peer_made unstamped (stamped_upto (promised (TCPConnection._receiver (conn p'))) w) p ->
  rtc (peer_step passes wire) p p' -> peer_made unstamped (stamped_upto (promised (TCPConnection._receiver (conn p'))) w) p'.
Proof using Hpass Hw HT Hcap Hwire.
  intros Hh Hm Hr. revert Hh Hm. induction Hr as [|p1 p2 p3 Hs Hr IH]; [done|]. intros Hh Hm.
  assert (hears_stream T w capacity p2) as Hh2 by (by eapply peer_step_hears).
  pose proof (peer_step_promised _ _ Hh Hs). pose proof (peer_run_promised _ _ Hh2 Hr). apply IH; [done|].
  eapply (peer_step_made (R := receiver_upto (promised (TCPConnection._receiver (conn p3))) w)); [| |exact Hm|exact Hs].
  - eapply receiver_good_upto; [|exact Hh|lia]. word_lia.
  - eapply receiver_good_upto; [|exact Hh2|lia]. word_lia.
Qed.
End acknowledging.

(** ** The peer that is acknowledged *)

Lemma fill_body_frame aws seg s seg' s' :
  TCPSender.fill_body aws seg s = Ok (seg', s') ->
  TCPSender._isn s' = TCPSender._isn s /\ TCPSender._una_seqno s' = TCPSender._una_seqno s.
Proof.
  unfold TCPSender.fill_body, TCPSender.fill_syn. destruct (_ =? 0); cbn zeta beta iota; unfold TCPSender.fill_data;
    intros ([d st] & _ & H)%result_bind_Ok; repeat case_match; by simplify_eq.
Qed.

Lemma fill_window_frame s s' :
  TCPSender.fill_window s = Ok s' ->
  TCPSender._isn s' = TCPSender._isn s /\ TCPSender._una_seqno s' = TCPSender._una_seqno s.
Proof.
  assert (forall fuel aws seg s, TCPSender.fill_loop fuel aws seg s = Ok s' ->
    TCPSender._isn s' = TCPSender._isn s /\ TCPSender._una_seqno s' = TCPSender._una_seqno s) as Hloop.
  { induction fuel as [|fuel IH]; intros aws seg s0; cbn [TCPSender.fill_loop]; [done|].
    destruct (TCPSender._is_transmission_ended s0); [by intros [= ->]|].
    intros ([seg1 s1] & [<- <-]%fill_body_frame & Hl)%result_bind_Ok.
    destruct (_ && _); [by eapply IH|by injection Hl as ->]. }
  unfold TCPSender.fill_window. destruct (_ <=? _); [by intros [= ->]|apply Hloop].
Qed.

(** A fact about a sender's initial sequence number and the highest
    acknowledgment it has seen; only an acknowledgment can change it. *)
Section acknowledged.
Context (P : WrappingInt32.t -> Z -> Prop) (wire : list TCPSegment.t).

Definition sender_has (s : TCPSender.t) : Prop := P (TCPSender._isn s) (TCPSender._una_seqno s).

Context (Hack : forall W s seg, TCPSender.inv W s -> zlen W + 2 < 2 ^ 31 -> seg ∈ wire ->
  TCPHeader.ack (TCPSegment.header seg) = true -> sender_has s ->
  forall win, sender_has (TCPSender.ack_received (TCPHeader.ackno (TCPSegment.header seg)) win s)).

Lemma fill_has s s' : TCPSender.fill_window s = Ok s' -> sender_has s -> sender_has s'.
Proof using. intros [F1 F2]%fill_window_frame. unfold sender_has. by rewrite F1, F2. Qed.

Lemma tick_has ms s : sender_has s -> sender_has (TCPSender.tick ms s).
Proof using. unfold sender_has, TCPSender.tick. by repeat case_match. Qed.

Lemma reply_has seg c c' :
  TCPConnection.reply seg c = Ok c' -> sender_has (TCPConnection._sender c) -> sender_has (TCPConnection._sender c').
Proof using.
  unfold TCPConnection.reply. intros (s & Hf & H)%result_bind_Ok Hb. apply (fill_has _ _ Hf) in Hb.
  repeat case_match; by simplify_eq.
Qed.

Lemma segment_has W seg seg' c c' :
  TCPConnection.conn_inv W c -> zlen W + 2 < 2 ^ 31 -> seg ∈ wire -> as_sent seg seg' -> TCPConnection.segment_received seg' c = Ok c' ->
  sender_has (TCPConnection._sender c) -> sender_has (TCPConnection._sender c').
Proof using Hack.
  intros [Hi _ _] HW Hin [_ Ea En _]. unfold TCPConnection.segment_received. cbn zeta.
  destruct (TCPHeader.rst _); [by intros [= <-]|]. destruct (TCPConnection.is_keep_alive _ _); [by intros [= <-]|].
  destruct (_ && _); [by intros [= <-]|]. intros (r & _ & H)%result_bind_Ok Hb. apply (reply_has _ _ _ H).
  unfold TCPConnection.take_ack. rewrite <- Ea, <- En. destruct (TCPHeader.ack _) eqn:E; cbn zeta; destruct (_ && _); cbn; try done.
  all: by apply (Hack W).
Qed.

Lemma peer_step_has p p' :
  peer_ok p -> zlen (written p) + 2 < 2 ^ 31 -> peer_step as_sent wire p p' ->
  sender_has (TCPConnection._sender (conn p)) -> sender_has (TCPConnection._sender (conn p')).
Proof using Hack.
  intros [Hi _] HW Hs Hb. destruct Hs as [p c E|p data n c _ _ E|p seg seg' c Hin Has _ E|p ms|p c E|p len d stream _ _|p n]; cbn; try done.
  - unfold TCPConnection.connect in E. apply result_bind_Ok in E as (s & Hf & [= <-]). by apply (fill_has _ _ Hf).
  - unfold TCPConnection.write in E. destruct (ByteStream.write _ _). apply result_bind_Ok in E as (s & Hf & [= _ <-]).
    by apply (fill_has _ _ Hf).
  - by eapply segment_has.
  - apply (tick_has ms) in Hb. unfold TCPConnection.tick. cbn zeta. case_match; [|done].
    unfold TCPConnection._send_rst_segmenet. cbn zeta. by case_match.
  - unfold TCPConnection.end_input_stream in E. apply result_bind_Ok in E as (s & Hf & E).
    assert (sender_has s) as Hs by (by apply (fill_has _ _ Hf)). cbn in E. repeat case_match; by simplify_eq.
Qed.

Lemma peer_step_written passes p p' : peer_step passes wire p p' -> zlen (written p) <= zlen (written p').
Proof using. intros []; cbn; try done. zlen. pose proof (zlen_nonneg (substr0 data n)). lia. Qed.

Lemma peer_run_written passes p p' : rtc (peer_step passes wire) p p' -> zlen (written p) <= zlen (written p').
Proof using. induction 1; [done|]. etrans; [by eapply peer_step_written|done]. Qed.

Lemma peer_run_has p p' :
  peer_ok p -> rtc (peer_step as_sent wire) p p' -> zlen (written p') + 2 < 2 ^ 31 ->
  sender_has (TCPConnection._sender (conn p)) -> sender_has (TCPConnection._sender (conn p')).
Proof using Hack.
  intros Hok Hr HW. revert Hok. induction Hr as [|p1 p2 p3 Hs Hr IH]; [done|]. intros Hok Hb.
  pose proof (peer_step_written _ _ _ Hs). pose proof (peer_run_written _ _ _ Hr).
  apply IH; [done|by eapply peer_step_ok|]. eapply peer_step_has; [done| |done|done]. lia.
Qed.
End acknowledged.

Lemma peer_run_isn wire p p' :
  peer_ok p -> rtc (peer_step as_sent wire) p p' -> zlen (written p') + 2 < 2 ^ 31 ->
  TCPSender._isn (TCPConnection._sender (conn p')) = TCPSender._isn (TCPConnection._sender (conn p)).
Proof.
  intros Hok Hr HW. apply (peer_run_has (fun isn _ => isn = TCPSender._isn (TCPConnection._sender (conn p))) wire) with (p := p); [|done..].
  intros W s seg _ _ _ _ E win. unfold sender_has in *. by rewrite (proj1 (TCPSender.ack_received_frame _ _ _)).
Qed.

(** The sender of the stream has heard of no more than [N]. *)
Definition believes (N : Z) (w isn : WrappingInt32.t) (una : Z) : Prop := isn = w /\ una <= N.

Lemma ack_believes N w W s ackno win :
  N < 2 ^ 31 -> TCPSender.inv W s -> zlen W + 2 < 2 ^ 31 -> acks_upto N w ackno ->
  sender_has (believes N w) s -> sender_has (believes N w) (TCPSender.ack_received ackno win s).
Proof.
  intros HN Hi HW (n & Hn & ->) [E1 E2].
  assert (0 <= TCPSender._next_seqno s <= zlen W + 2) as Hnext.
  { destruct Hi. pose proof (zlen_nonneg (ByteStream._str (TCPSender._stream s))). pose proof (proj1 inv_buf).
    pose proof (TCPSender.flag_len_range (TCPSender._is_transmission_ended s)). destruct inv_next as [(?&?&?)|?]; lia. }
  assert (WrappingInt32.unwrap (WrappingInt32.wrap n w) (TCPSender._isn s) (TCPSender._next_seqno s) = n) as Eu.
  { rewrite E1. apply WrappingInt32.unwrap_wrap; [rewrite <- E1; apply Hi|word_lia|word_lia|lia]. }
  unfold TCPSender.ack_received. cbn zeta. rewrite Eu. destruct (_ || _); [by split|].
  destruct (TCPSender.ack_loop _ _ _ _ _) as [out fl]. cbn. destruct out; (split; cbn; [done|lia]).
Qed.

Lemma peer_run_believes N w wire p p' :
  N < 2 ^ 31 -> Forall (stamped_upto N w) wire ->
  peer_ok p -> rtc (peer_step as_sent wire) p p' -> zlen (written p') + 2 < 2 ^ 31 ->
  sender_has (believes N w) (TCPConnection._sender (conn p)) -> sender_has (believes N w) (TCPConnection._sender (conn p')).
Proof.
  intros HN Hwire. apply peer_run_has. intros W s seg Hi HW Hin Ha Hb win. rewrite Forall_forall in Hwire.
  eapply ack_believes; [done|exact Hi|done|by apply Hwire|done].
Qed.

(** ** The two together *)

Lemma one_direction_complete cfg_a random_a cfg_b random_b a b :
  is_u64 (TCPConfig.send_capacity cfg_a) ->
  WrappingInt32.wf (default (WrappingInt32.mk random_a) (TCPConfig.fixed_isn cfg_a)) ->
  is_u32 (TCPConfig.recv_capacity cfg_b) -> zlen (written a) + 2 < 2 ^ 31 ->
  rtc (peer_step as_sent (emitted b)) (new_peer cfg_a random_a) a ->
  rtc (peer_step as_sent (emitted a)) (new_peer cfg_b random_b) b ->
  TCPConnection.active (conn a) = false -> ~ TCPConnection.has_error (conn a) ->
  taken b ++ ByteStream._str (TCPConnection.inbound_stream (conn b)) = written a /\
  ByteStream.input_ended (TCPConnection.inbound_stream (conn b)) = true.
Proof.
  intros Hc Hw Hcap Hlen Ha Hb Hact Hne. pose proof (new_peer_ok _ _ Hc Hw) as Hnew. pose proof (peer_run_ok _ _ _ Hnew Ha) as Hok.
  destruct (TCPConnection.clean_close_inv _ _ (proj1 Hok) Hact Hne) as (_ & _ & _ & Huna & _).
  set (w0 := TCPSender._isn (TCPConnection._sender (conn (new_peer cfg_a random_a)))).
  set (w := TCPSender._isn (TCPConnection._sender (conn a))).
  assert (forall x, hears_stream (written a ++ [x]) w (TCPConfig.recv_capacity cfg_b) b) as Hh.
  { intros x. eapply (one_direction_hears _ _ cfg_a random_a cfg_b random_b); [apply as_data|done|done|done|done|exact Ha|reflexivity|exact Hb]. }
  pose proof (hears_prefix _ _ _ _ Hh) as Hpre. pose proof (TCPReceiver.stream_out_prefix _ _ _ _ (Hh x00)) as Hstr.
  pose proof (TCPReceiver.good_cur_u64 _ _ _ _ (Hh x00)) as Hcur. cbn [fst snd] in Hstr, Hcur.
  set (r := TCPConnection._receiver (conn b)) in *. set (k := StreamReassembler.cur_index (TCPReceiver._reassembler r)) in *.
  assert (zlen (taken b ++ ByteStream._str (TCPConnection.inbound_stream (conn b))) = k) as Ek.
  { unfold TCPConnection.inbound_stream. fold r. rewrite Hstr. zlen. revert Hcur. zlen. cbn. lia. }
  assert (k <= zlen (written a)) as Hk by (rewrite <- Ek; apply prefix_length in Hpre; unfold zlen; lia).
  assert (promised r < 2 ^ 31) as HN by (unfold promised; fold k; case_match; lia).
  assert (WrappingInt32.wf w) as Hwf by apply (TCPConnection.ci_sender _ _ (proj1 Hok)).
  assert (Forall (stamped_upto (promised r) w) (emitted b)) as Hst.
  { assert (hears_stream (written a ++ [x00]) w (TCPConfig.recv_capacity cfg_b) (new_peer cfg_b random_b)) as H0.
    { eapply (one_direction_hears _ _ cfg_a random_a cfg_b random_b); [apply as_data|done|done|done|done|exact Ha|reflexivity|apply rtc_refl]. }
    apply (pm_emitted (U := unstamped)).
    eapply (peer_run_stamps as_data (written a ++ [x00])); [exact Hwf| |exact Hcap|by apply peer_ok_welcome|exact H0|apply new_peer_made|exact Hb].
    zlen. cbn. lia. }
  assert (w0 = w) as Ew.
  { symmetry. by eapply peer_run_isn. }
  assert (sender_has (believes (promised r) w) (TCPConnection._sender (conn a))) as [_ Hle].
  { eapply peer_run_believes; [exact HN|exact Hst|exact Hnew|exact Ha|done|]. rewrite <- Ew. split; [done|]. cbn. unfold promised. fold k. case_match; lia. }
  unfold promised in *. fold k in Hle, HN. rewrite Huna in Hle. unfold TCPConnection.inbound_stream in *. fold r in Ek, Hpre |- *.
  destruct (ByteStream.input_ended (TCPReceiver.stream_out r)); [|lia]. split; [|done].
  apply prefix_length_eq; [done|]. unfold zlen in *. lia.
Qed.
