(* ===== verification/tcp_benchmark.v ===== *)
(** * [apps/tcp_benchmark.cc]

    Two connections in one process, the segments of the first handed to the
    second in order or in reverse, and the second's to the first in order.  The
    string to send and the two random initial sequence numbers are arguments;
    the measured time is not modelled. *)

From stdpp Require Import relations.
From S2P Require Import Prelude.
From S2P Require Import wrapping_integers.
From S2P Require Import byte_stream.
From S2P Require Import stream_reassembler.
From S2P Require Import buffer.
From S2P Require Import tcp_segment.
From S2P Require Import tcp_receiver.
From S2P Require Import tcp_sender.
From S2P Require Import tcp_state.
From S2P Require Import tcp_connection.
From S2P Require Import end_to_end.
From S2P Require Import tcp_peers.

Module TCPBenchmark.

(** The local variables of [main_loop]. *)
Record t : Type := mk {
  x : TCPConnection.t;
  y : TCPConnection.t;
  bytes_to_send : Buffer.t;
  x_closed : bool;
  string_received : bytes
}.

#[global] Instance eta_t : Eta t := fun b => mk (x b) (y b) (bytes_to_send b) (x_closed b) (string_received b).

Fixpoint receive_all (segments : list TCPSegment.t) (c : TCPConnection.t) : result TCPConnection.t :=
  match segments with
  | [] => Ok c
  | seg :: segments => c ← TCPConnection.segment_received seg c; receive_all segments c
  end.

(** The queue of [from] is emptied into the vector [segments], which is empty
    before and after. *)
Definition move_segments (from to : TCPConnection.t) (reorder : bool) : result (TCPConnection.t * TCPConnection.t) :=
  let segments := TCPConnection._segments_out from in
  let from := from <| TCPConnection._segments_out := [] |> in
  to ← receive_all (if reorder then reverse segments else segments) to;
  Ok (from, to).

(** Every turn removes at least one byte of [bytes_to_send]. *)
Fixpoint write_loop (fuel : nat) (b : t) : result t :=
  if (Buffer.size (bytes_to_send b) =? 0) || (TCPConnection.remaining_outbound_capacity (x b) =? 0) then Ok b else
  match fuel with
  | O => OutOfFuel
  | S fuel =>
      let want := Z.min (TCPConnection.remaining_outbound_capacity (x b)) (Buffer.size (bytes_to_send b)) in
      '(written, c) ← TCPConnection.write (substr0 (Buffer.str (bytes_to_send b)) want) (x b);
      if negb (want =? written) then Throw (RuntimeError "want, written") else
      rest ← Buffer.remove_prefix written (bytes_to_send b);
      write_loop fuel (b <| x := c |> <| bytes_to_send := rest |>)
  end.

Definition close_x (b : t) : result t :=
  if (Buffer.size (bytes_to_send b) =? 0) && negb (x_closed b) then
    c ← TCPConnection.end_input_stream (x b);
    Ok (b <| x := c |> <| x_closed := true |>)
  else Ok b.

Definition exchange (reorder : bool) (b : t) : result t :=
  '(cx, cy) ← move_segments (x b) (y b) reorder;
  '(cy, cx) ← move_segments cy cx false;
  Ok (b <| x := cx |> <| y := cy |>).

Definition read_y (b : t) : result t :=
  let available_output := ByteStream.buffer_size (TCPConnection.inbound_stream (y b)) in
  if 0 <? available_output then
    '(data, stream) ← ByteStream.read available_output (TCPConnection.inbound_stream (y b));
    Ok (b <| y := (y b) <| TCPConnection._receiver := TCPReceiver.with_stream_out stream (TCPConnection._receiver (y b)) |> |>
          <| string_received := string_received b ++ data |>)
  else Ok b.

Definition loop (reorder : bool) (b : t) : result t :=
  b ← write_loop (length (Buffer.str (bytes_to_send b))) b;
  b ← close_x b;
  b ← exchange reorder b;
  b ← read_y b;
  Ok (b <| x := TCPConnection.tick 1000 (x b) |> <| y := TCPConnection.tick 1000 (y b) |>).

Definition start (string_to_send : bytes) (random_x random_y : Z) : result t :=
  let cx := TCPConnection.init TCPConfig.init random_x in
  let cy := TCPConnection.init TCPConfig.init random_y in
  cx ← TCPConnection.connect cx;
  cy ← TCPConnection.end_input_stream cy;
  Ok (mk cx cy (Buffer.of_string string_to_send) false []).

(** [while (not stop) loop()]. *)
Fixpoint run_until (stop : t -> bool) (fuel : nat) (reorder : bool) (b : t) : result t :=
  if stop b then Ok b else
  match fuel with
  | O => OutOfFuel
  | S fuel => b ← loop reorder b; run_until stop fuel reorder b
  end.

Definition main_loop (fuel : nat) (reorder : bool) (string_to_send : bytes) (random_x random_y : Z) : result t :=
  b ← start string_to_send random_x random_y;
  b ← run_until (fun b => ByteStream.eof (TCPConnection.inbound_stream (y b))) fuel reorder b;
  if negb (bool_decide (string_received b = string_to_send)) then Throw (RuntimeError "strings sent vs. received don't match") else
  run_until (fun b => negb (TCPConnection.active (x b) || TCPConnection.active (y b))) fuel reorder b.

#[global] Arguments loop : simpl never.

(** ** The run as a run of the two-peer system *)

(** The peers [p] and [q] of a reachable system are in step with the
    variables: [p] has written what is no longer to be sent and [q] has taken
    what was received. *)
Section benchmark.
Variables (string_to_send : bytes) (random_x random_y : Z).
Hypothesis Hlen : zlen string_to_send + 2 < 2 ^ 31.
Hypothesis Hx : is_u32 random_x.
Hypothesis Hy : is_u32 random_y.

Record linked (b : t) (p q : peer) : Prop := {
  li_run : rtc (system_step as_sent) (system TCPConfig.init TCPConfig.init random_x random_y) (p, q);
  li_x : conn p = x b;
  li_y : conn q = y b;
  li_sent : string_to_send = written p ++ Buffer.str (bytes_to_send b);
  li_received : taken q = string_received b;
  li_queue_x : TCPConnection._segments_out (x b) ⊆ emitted p;
  li_queue_y : TCPConnection._segments_out (y b) ⊆ emitted q;
  li_buffer : Buffer.wf (bytes_to_send b);
  li_ended : TCPConnection.sender_ended (x b) = true -> x_closed b = true;
  li_closed : x_closed b = true -> Buffer.str (bytes_to_send b) = []
}.

(** An exception of the receiver's own. *)
Definition receiver_throws (e : exn) : Prop := exists seg r, TCPReceiver.segment_received seg r = Throw e.

Definition fine {A} (P : A -> Prop) (r : result A) : Prop :=
  match r with Ok a => P a | Throw e => receiver_throws e | OutOfFuel => False end.

Lemma fine_bind {A B} (P : A -> Prop) (Q : B -> Prop) (r : result A) (k : A -> result B) :
  fine P r -> (forall a, P a -> fine Q (k a)) -> fine Q (r ≫= k).
Proof. destruct r; cbn; auto. Qed.

Definition in_step (b : t) : Prop := exists p q, linked b p q.

Lemma system_ok p q :
  rtc (system_step as_sent) (system TCPConfig.init TCPConfig.init random_x random_y) (p, q) -> peer_ok p /\ peer_ok q.
Proof.
  intros Hr. apply system_project in Hr as [Hp Hq]. cbn in Hp, Hq.
  assert (forall r, is_u32 r -> peer_ok (new_peer TCPConfig.init r)) as H0 by (intros; apply new_peer_ok; [vm_compute; split; congruence|done]).
  split; [exact (peer_run_ok _ _ _ (H0 _ Hx) Hp)|exact (peer_run_ok _ _ _ (H0 _ Hy) Hq)].
Qed.

Lemma rtc_left p p' q : rtc (peer_step as_sent (emitted q)) p p' -> rtc (system_step as_sent) (p, q) (p', q).
Proof. induction 1; [apply rtc_refl|eapply rtc_l; [by apply step_left|done]]. Qed.

Lemma rtc_right p q q' : rtc (peer_step as_sent (emitted p)) q q' -> rtc (system_step as_sent) (p, q) (p, q').
Proof. induction 1; [apply rtc_refl|eapply rtc_l; [by apply step_right|done]]. Qed.

(** What a peer keeps while segments arrive. *)
Record receiving (wire : list TCPSegment.t) (q q' : peer) : Prop := {
  re_steps : rtc (peer_step as_sent wire) q q';
  re_written : written q' = written q;
  re_taken : taken q' = taken q;
  re_emitted : emitted q ⊆ emitted q';
  re_ended : TCPConnection.sender_ended (conn q') = TCPConnection.sender_ended (conn q);
  re_queue : TCPConnection._segments_out (conn q) ⊆ emitted q -> TCPConnection._segments_out (conn q') ⊆ emitted q'
}.

Lemma receiving_trans wire q q1 q2 : receiving wire q q1 -> receiving wire q1 q2 -> receiving wire q q2.
Proof. intros [] []. split; [by etrans|congruence|congruence|by etrans|congruence|auto]. Qed.

Lemma receive_all_fine wire segments q :
  peer_ok q -> segments ⊆ wire -> Forall (fun seg => is_u16 (TCPHeader.win (TCPSegment.header seg))) wire ->
  fine (fun c => exists q', receiving wire q q' /\ conn q' = c) (receive_all segments (conn q)).
Proof.
  intros Hq Hs Hw. revert q Hq. induction segments as [|seg segments IH]; intros q Hq; cbn [receive_all].
  { exists q. by split. }
  assert (seg ∈ wire) as Hin by (apply Hs; left). rewrite Forall_forall in Hw. pose proof (Hw seg Hin) as Hwin.
  pose proof (TCPConnection.segment_received_returns _ _ seg (proj1 Hq) Hwin) as Hret.
  destruct (TCPConnection.segment_received seg (conn q)) as [c|e|] eqn:E; cbn.
  - assert (receiving wire q (after c q)) as H1.
    { split; cbn; try done.
      - apply rtc_once. by eapply peer_segment.
      - intros s ?. apply elem_of_app. by left.
      - by eapply TCPConnection.segment_received_ended.
      - intros _ s ?. apply elem_of_app. by right. }
    specialize (IH ltac:(intros s ?; apply Hs; by right) (after c q) ltac:(by eapply peer_run_ok; [|apply H1])).
    destruct (receive_all segments (conn (after c q))) eqn:E2; cbn in E2, IH; rewrite E2; [|done|done].
    destruct IH as (q' & H2 & ?). exists q'. split; [by eapply receiving_trans|done].
  - destruct (TCPReceiver.segment_received seg _) as [r|e'|] eqn:Er; [by destruct Hret|destruct Hret as [[= ->]|[? ?]]; [by exists seg, (TCPConnection._receiver (conn q))|done]|done].
  - destruct (TCPReceiver.segment_received seg _) as [r|e'|] eqn:Er; [by destruct Hret|by destruct Hret as [?|[? ?]]|done].
Qed.

Lemma linked_ok b p q : linked b p q -> peer_ok p /\ peer_ok q.
Proof. intros H. apply system_ok, (li_run _ _ _ H). Qed.

Lemma linked_len b p q : linked b p q -> zlen (written p) + zlen (Buffer.str (bytes_to_send b)) = zlen string_to_send.
Proof. intros H. rewrite (li_sent _ _ _ H). by zlen. Qed.

(** *** Writing *)

Lemma linked_write b p q data n c rest :
  linked b p q -> TCPConnection.sender_ended (x b) = false -> TCPConnection.write data (x b) = Ok (n, c) ->
  n = zlen data -> Buffer.str (bytes_to_send b) = data ++ Buffer.str rest -> Buffer.wf rest ->
  linked (b <| x := c |> <| bytes_to_send := rest |>) ((after c p) <| written := written p ++ data |>) q.
Proof.
  intros H Hie Hw Hn Hsplit Hr. pose proof (linked_len _ _ _ H) as Hl. destruct H as [Hrun Ex Ey Es Er Qx Qy Hb He Hc].
  rewrite Hsplit in *. split; cbn; try done.
  - eapply rtc_r; [exact Hrun|]. apply step_left.
    assert (substr0 data n = data) as Ed by (rewrite substr0_eq, Hn; unfold zlen; rewrite take_ge; [done|lia]).
    pose proof (peer_write (passes := as_sent) (emitted q) p data n c) as Hstep. rewrite Ed, Ex in Hstep. apply Hstep; [done| |done]. zlen. pose proof (zlen_nonneg (Buffer.str rest)). lia.
  - by rewrite <- app_assoc.
  - intros s ?. apply elem_of_app. by right.
  - rewrite (TCPConnection.write_ended _ _ _ _ Hw). done.
  - intros Hx'. apply Hc in Hx'. by apply app_nil in Hx' as [_ ?].
Qed.

Lemma write_loop_fine fuel b :
  in_step b -> (length (Buffer.str (bytes_to_send b)) <= fuel)%nat -> fine in_step (write_loop fuel b).
Proof.
  revert b. induction fuel as [|fuel IH]; intros b (p & q & H) Hf; cbn [write_loop].
  { destruct (Buffer.str (bytes_to_send b)) eqn:E; [|cbn in Hf; lia]. unfold Buffer.size. rewrite E. cbn. by exists p, q. }
  set (room := TCPConnection.remaining_outbound_capacity (x b)).
  destruct (Z.eqb_spec (Buffer.size (bytes_to_send b)) 0) as [|Hne]; cbn [orb]; [by exists p, q|].
  destruct (Z.eqb_spec room 0) as [|Hroom]; [by exists p, q|]. set (want := Z.min room (Buffer.size (bytes_to_send b))).
  assert (0 <= room) as Hr0 by apply sub64_range. unfold Buffer.size in *.
  pose proof (zlen_nonneg (Buffer.str (bytes_to_send b))) as Hs0. pose proof (linked_len _ _ _ H) as Hl.
  assert (TCPConnection.sender_ended (x b) = false) as Hie.
  { destruct (TCPConnection.sender_ended (x b)) eqn:E; [|done]. apply (li_ended _ _ _ H), (li_closed _ _ _ H) in E. by rewrite E in Hne. }
  set (data := substr0 (Buffer.str (bytes_to_send b)) want).
  assert (zlen data = want) as Hd by (unfold data; rewrite substr0_eq; zlen; lia).
  pose proof (proj1 (proj1 (linked_ok _ _ _ H))) as Hinv. rewrite (li_x _ _ _ H) in Hinv.
  destruct (TCPConnection.write_returns _ _ data Hinv Hie) as (n & c & Hw); [lia|]. rewrite Hw. cbn [mbind result_bind].
  pose proof (TCPConnection.write_accepts _ _ _ _ _ Hinv Hw ltac:(fold room; lia)) as Hn. rewrite Hn, Hd, Z.eqb_refl. cbn [negb].
  destruct (Buffer.remove_prefix_ok want _ (li_buffer _ _ _ H)) as (rest & -> & Hwf & Hstr); [lia|]. cbn [mbind result_bind].
  apply IH.
  - eexists _, q. eapply linked_write; [exact H|exact Hie|exact Hw|exact Hn| |exact Hwf].
    rewrite Hstr. unfold data. by rewrite substr0_eq, take_drop.
  - cbn. rewrite Hstr, length_drop. unfold zlen in *. lia.
Qed.

Lemma close_x_fine b : in_step b -> fine in_step (close_x b).
Proof.
  intros (p & q & H). unfold close_x. destruct (Z.eqb_spec (Buffer.size (bytes_to_send b)) 0) as [E|]; cbn [andb]; [|by exists p, q].
  destruct (x_closed b) eqn:Ec; cbn [negb]; [by exists p, q|].
  pose proof (proj1 (proj1 (linked_ok _ _ _ H))) as Hinv. rewrite (li_x _ _ _ H) in Hinv.
  destruct (TCPConnection.end_input_returns _ _ Hinv) as (c & Hc). rewrite Hc. cbn [mbind result_bind fine].
  exists (after c p), q. destruct H as [Hrun Ex Ey Es Er Qx Qy Hb He Hcl]. split; cbn; try done.
  - eapply rtc_r; [exact Hrun|]. apply step_left, peer_end_input. by rewrite Ex.
  - intros s ?. apply elem_of_app. by right.
  - intros _. by apply zlen_0_nil.
Qed.

(** *** Exchanging *)

Definition drained (p : peer) : peer := p <| conn := (conn p) <| TCPConnection._segments_out := [] |> |>.

Lemma drained_step wire p : peer_step as_sent wire p (drained p).
Proof.
  pose proof (peer_drain (passes := as_sent) wire p (length (TCPConnection._segments_out (conn p)))) as H. by rewrite drop_all in H.
Qed.

(** One direction; what it leaves alone is stated of both peers. *)
Lemma move_fine wire_p p q reorder :
  peer_ok p -> peer_ok q -> TCPConnection._segments_out (conn p) ⊆ emitted p ->
  fine (fun c => exists q', receiving (emitted p) q q' /\ c = (conn (drained p), conn q') /\ peer_step as_sent wire_p p (drained p))
    (move_segments (conn p) (conn q) reorder).
Proof.
  intros Hp Hq Hs. unfold move_segments. cbn zeta.
  eapply fine_bind; [apply (receive_all_fine (emitted p) _ q Hq); [|by apply peer_ok_win]|].
  { destruct reorder; [|done]. intros s Hin. rewrite elem_of_reverse in Hin. by apply Hs. }
  intros c (q' & H & <-). exists q'. split; [exact H|]. split; [reflexivity|apply drained_step].
Qed.

Lemma exchange_fine reorder b : in_step b -> fine in_step (exchange reorder b).
Proof.
  intros (p & q & H). destruct (linked_ok _ _ _ H) as [Hp Hq]. destruct H as [Hrun Ex Ey Es Er Qx Qy Hb He Hcl].
  unfold exchange. rewrite <- Ex, <- Ey in *.
  eapply fine_bind; [by apply (move_fine (emitted q))|]. intros c1 (q1 & H1 & -> & Hd1).
  assert (rtc (system_step as_sent) (system TCPConfig.init TCPConfig.init random_x random_y) (drained p, q1)) as Hrun1.
  { eapply rtc_r with (p, q1); [etrans; [exact Hrun|apply rtc_right, H1]|]. apply step_left, drained_step. }
  destruct (system_ok _ _ Hrun1) as [Hp1 Hq1].
  eapply fine_bind; [apply (move_fine (emitted p) q1 (drained p) false); [done|done|by apply (re_queue _ _ _ H1)]|].
  intros c2 (p2 & H2 & -> & Hd2). exists p2, (drained q1). destruct H1 as [S1 W1 T1 M1 N1 G1], H2 as [S2 W2 T2 M2 N2 G2].
  split; cbn; try done.
  - eapply rtc_r with (p2, q1); [etrans; [exact Hrun1|by apply rtc_left]|]. apply step_right, drained_step.
  - by rewrite W2.
  - by rewrite T1.
  - apply G2. by intros s ?%not_elem_of_nil.
  - by intros s ?%not_elem_of_nil.
  - rewrite N2. exact He.
Qed.

(** *** Reading and the clock *)

Lemma received_prefix b p q :
  linked b p q ->
  ByteStream.wf (TCPConnection.inbound_stream (y b)) /\
  string_received b ++ ByteStream._str (TCPConnection.inbound_stream (y b)) `prefix_of` string_to_send.
Proof.
  intros H. pose proof (linked_len _ _ _ H) as Hl. pose proof (zlen_nonneg (Buffer.str (bytes_to_send b))).
  destruct H as [Hrun Ex Ey Es Er _ _ _ _ _]. apply system_project in Hrun as [Hp Hq]. cbn in Hp, Hq.
  assert (forall z, hears_stream (written p ++ [z]) (TCPSender._isn (TCPConnection._sender (conn p))) TCPConfig.DEFAULT_CAPACITY q) as Hh.
  { intros z. eapply (one_direction_hears _ _ TCPConfig.init random_x TCPConfig.init random_y p q z);
      [apply as_data|vm_compute; split; congruence|exact Hx|vm_compute; split; congruence|lia|exact Hp|reflexivity|exact Hq]. }
  rewrite <- Ey, <- Er. split.
  - destruct (Hh x00) as [[[Hwf _ _ _ _] _ _ _] _ _]. exact Hwf.
  - etrans; [by eapply hears_prefix|]. rewrite Es. by apply prefix_app_r.
Qed.

Lemma read_y_fine b : in_step b -> fine in_step (read_y b).
Proof.
  intros (p & q & H). destruct (received_prefix _ _ _ H) as [Hwf _]. unfold read_y. cbn zeta.
  destruct (Z.ltb_spec 0 (ByteStream.buffer_size (TCPConnection.inbound_stream (y b)))) as [Hav|]; [|by exists p, q].
  assert (is_u64 (ByteStream.buffer_size (TCPConnection.inbound_stream (y b)))) as Hu.
  { destruct Hwf. unfold ByteStream.buffer_size in *. word_lia. }
  destruct (ByteStream.read _ (TCPConnection.inbound_stream (y b))) as [[d st]|e|] eqn:E;
    [|rewrite ByteStream.read_eq in E by (done || lia); done..].
  cbn. destruct H as [Hrun Ex Ey Es Er Qx Qy Hb He Hcl]. rewrite <- Ey in *.
  exists p, (q <| conn := (conn q) <| TCPConnection._receiver := TCPReceiver.with_stream_out st (TCPConnection._receiver (conn q)) |> |>
      <| taken := taken q ++ d |>).
  split; cbn; try done; [|by rewrite Er].
  eapply rtc_r; [exact Hrun|]. apply step_right. by eapply peer_read.
Qed.

Lemma tick_linked b p q :
  linked b p q ->
  linked (b <| x := TCPConnection.tick 1000 (x b) |> <| y := TCPConnection.tick 1000 (y b) |>)
    (after (TCPConnection.tick 1000 (x b)) p) (after (TCPConnection.tick 1000 (y b)) q).
Proof.
  intros [Hrun Ex Ey Es Er Qx Qy Hb He Hcl]. split; cbn; try done.
  - rewrite <- Ex, <- Ey. eapply rtc_r; [eapply rtc_r; [exact Hrun|apply step_left, peer_tick]|apply step_right, peer_tick].
  - intros s ?. apply elem_of_app. by right.
  - intros s ?. apply elem_of_app. by right.
  - by rewrite TCPConnection.conn_tick_ended.
Qed.

Lemma loop_fine reorder b : in_step b -> fine in_step (loop reorder b).
Proof.
  intros Hb. unfold loop.
  eapply fine_bind; [by apply write_loop_fine|]. clear b Hb. intros b Hb.
  eapply fine_bind; [by apply close_x_fine|]. clear b Hb. intros b Hb.
  eapply fine_bind; [by apply exchange_fine|]. clear b Hb. intros b Hb.
  eapply fine_bind; [by apply read_y_fine|]. clear b Hb. intros b (p & q & H). eexists _, _. by apply tick_linked.
Qed.

Lemma start_fine : fine in_step (start string_to_send random_x random_y).
Proof.
  unfold start. cbn zeta.
  pose proof (TCPConnection.init_conn_inv TCPConfig.init random_x ltac:(vm_compute; split; congruence) Hx) as Ix.
  pose proof (TCPConnection.init_conn_inv TCPConfig.init random_y ltac:(vm_compute; split; congruence) Hy) as Iy.
  destruct (TCPConnection.connect_returns _ _ Ix) as (cx & Ecx). destruct (TCPConnection.end_input_returns _ _ Iy) as (cy & Ecy).
  rewrite Ecx, Ecy. cbn. eexists (after cx (new_peer _ _)), (after cy (new_peer _ _)). split; cbn; try done.
  - eapply rtc_l; [apply step_left; by apply peer_connect|]. eapply rtc_l; [apply step_right; by apply peer_end_input|]. apply rtc_refl.
  - pose proof (zlen_nonneg string_to_send). by rewrite Buffer.str_of_string by word_lia.
  - pose proof (zlen_nonneg string_to_send). split; word_lia.
  - by rewrite (TCPConnection.connect_ended _ _ Ecx).
Qed.

Fixpoint loops (n : nat) (reorder : bool) (b : t) : result t :=
  match n with
  | O => Ok b
  | S n => b ← loop reorder b; loops n reorder b
  end.

Lemma loops_fine n reorder b : in_step b -> fine in_step (loops n reorder b).
Proof.
  revert b. induction n as [|n IH]; intros b Hb; cbn [loops]; [done|]. eapply fine_bind; [by apply loop_fine|]. exact IH.
Qed.

End benchmark.

(** The benchmark compares what it means to compare.  After any number of
    turns of its loop, with or without reordering, the string received so far
    and what waits in the inbound stream are a prefix of the string sent: the
    two strings can differ at the end of the stream only in that bytes are
    missing.  Every loop inside a turn ends, the exception about [want] and
    [written] is never thrown, and the only exceptions are those of the
    receiver. *)
Theorem benchmark_prefix string_to_send random_x random_y reorder n :
  zlen string_to_send + 2 < 2 ^ 31 -> is_u32 random_x -> is_u32 random_y ->
  match b ← start string_to_send random_x random_y; loops n reorder b with
  | Ok b => string_received b ++ ByteStream._str (TCPConnection.inbound_stream (y b)) `prefix_of` string_to_send
  | Throw e => exists seg r, TCPReceiver.segment_received seg r = Throw e
  | OutOfFuel => False
  end.
Proof.
  intros Hlen Hx Hy. pose proof (start_fine string_to_send random_x random_y Hlen Hx Hy) as H0.
  pose proof (fine_bind _ _ _ _ H0 (loops_fine string_to_send random_x random_y Hlen Hx Hy n reorder)) as H.
  destruct (_ ≫= _) as [b| |]; [|exact H|exact H]. destruct H as (p & q & H).
  apply (received_prefix string_to_send random_x random_y Hlen Hx b p q H).
Qed.

(** Both runs of the program end with the whole string. *)
Definition short_string : bytes := concat (replicate 300 [x01; x02; x03; x04; x05]).

Definition received_of (r : result t) : option bytes := match r with Ok b => Some (string_received b) | _ => None end.

Lemma sample_main_loop reorder : received_of (main_loop 50 reorder short_string 5 77) = Some short_string.
Proof. destruct reorder; vm_compute; reflexivity. Qed.

End TCPBenchmark.
