(* ===== verification/file_descriptor.v ===== *)
(** * [libsponge/util/file_descriptor.*]

    The state that all handles to one kernel file descriptor share, and the
    methods that read and write it.  The kernel is the outside world: each
    system call's return value, [errno] and, for a read, the bytes delivered
    are arguments.  [SystemCall] takes the return value as an [int]. *)

From S2P Require Import Prelude.
From S2P Require Import buffer.
From S2P Require Import util.

Module FileDescriptor.

(** [FDWrapper]: the object behind the shared pointer. *)
Record t : Type := mk {
  _fd : Z;
  _eof : bool;
  _closed : bool;
  _read_count : Z;
  _write_count : Z
}.

#[global] Instance eta_t : Eta t := fun w => mk (_fd w) (_eof w) (_closed w) (_read_count w) (_write_count w).

Definition init (fd : Z) : result t :=
  if fd <? 0 then Throw (RuntimeError "invalid fd number") else Ok (mk fd false false 0 0).

Definition close (ret errno : Z) (w : t) : result t :=
  _ ← SystemCall "close" ret errno 0;
  Ok (w <| _eof := true |> <| _closed := true |>).

(** The counters are [unsigned]. *)
Definition register_read (w : t) : t := w <| _read_count := u32 (_read_count w + 1) |>.
Definition register_write (w : t) : t := w <| _write_count := u32 (_write_count w + 1) |>.

Definition fd_num (w : t) : Z := _fd w.
Definition eof (w : t) : bool := _eof w.
Definition closed (w : t) : bool := _closed w.
Definition read_count (w : t) : Z := _read_count w.
Definition write_count (w : t) : Z := _write_count w.

(** The kernel's answer to one call; [k_data] is what a read put at the start
    of the buffer. *)
Record kernel : Type := mk_kernel { k_ret : Z; k_errno : Z; k_data : bytes }.

Definition BUFFER_SIZE : Z := 1024 * 1024.

Definition read (limit : Z) (k : kernel) (w : t) : result (bytes * t) :=
  let size_to_read := Z.min BUFFER_SIZE limit in
  let str := resize [] size_to_read in
  bytes_read ← SystemCall "read" (i32 (k_ret k)) (k_errno k) 0;
  let str := k_data k ++ drop (length (k_data k)) str in
  let w := if (0 <? limit) && (bytes_read =? 0) then w <| _eof := true |> else w in
  if size_to_read <? bytes_read then Throw (RuntimeError "read() read more than requested") else
  Ok (resize str bytes_read, register_read w).

(** The loop of [write]: the number of bytes written, what is left of the
    buffer, and the descriptor.  Each turn consumes one answer of the kernel;
    a call that needs more answers than given has not returned. *)
Fixpoint write_loop (answers : list (Z * Z)) (buffer : BufferViewList.t) (write_all : bool) (total_bytes_written : Z)
    (w : t) : result (Z * BufferViewList.t * t) :=
  match answers with
  | [] => OutOfFuel
  | (ret, errno) :: answers =>
      bytes_written ← SystemCall "writev" (i32 ret) errno 0;
      if (bytes_written =? 0) && negb (BufferViewList.size buffer =? 0) then
        Throw (RuntimeError "write returned 0 given non-empty input buffer") else
      if BufferViewList.size buffer <? bytes_written then
        Throw (RuntimeError "write wrote more than length of input buffer") else
      let w := register_write w in
      buffer ← BufferViewList.remove_prefix (u64 bytes_written) buffer;
      let total_bytes_written := total_bytes_written ⊕ bytes_written in
      if write_all && negb (BufferViewList.size buffer =? 0)
      then write_loop answers buffer write_all total_bytes_written w
      else Ok (total_bytes_written, buffer, w)
  end.

Definition write (answers : list (Z * Z)) (buffer : BufferViewList.t) (write_all : bool) (w : t) : result (Z * t) :=
  '(total, _, w) ← write_loop answers buffer write_all 0 w;
  Ok (total, w).

Definition O_NONBLOCK : Z := 2048.

(** The flags that [set_blocking] stores, given those it reads. *)
Definition blocking_flags (blocking_state : bool) (flags : Z) : Z :=
  if blocking_state then Z.lxor flags (Z.land flags O_NONBLOCK) else Z.lor flags O_NONBLOCK.

(** [fcntl] is called twice, with [F_GETFL] and with [F_SETFL]. *)
Definition set_blocking (blocking_state : bool) (get set : Z * Z) : result Z :=
  flags ← SystemCall "fcntl" (get.1) (get.2) 0;
  let flags := blocking_flags blocking_state flags in
  _ ← SystemCall "fcntl" (set.1) (set.2) 0;
  Ok flags.

(** The destructor of [FDWrapper] keeps its exceptions to itself. *)
Definition destructor (ret errno : Z) (w : t) : t :=
  if _closed w then w else match close ret errno w with Ok w => w | _ => w end.

#[global] Arguments read : simpl never.
#[global] Arguments write : simpl never.

Lemma i32_id z : - 2 ^ 31 <= z < 2 ^ 31 -> i32 z = z.
Proof. intros H. unfold i32. rewrite Z.mod_small; lia. Qed.

(** ** Reading *)

(** A kernel that does what [read(2)] says: an error sets [errno], otherwise
    at most the requested number of bytes are delivered. *)
Definition honest_read (limit : Z) (k : kernel) : Prop :=
  (- 2 ^ 31 <= k_ret k < 0 /\ k_errno k <> 0) \/ (k_ret k = zlen (k_data k) /\ zlen (k_data k) <= Z.min BUFFER_SIZE limit).

Lemma read_spec limit k w :
  0 <= limit -> honest_read limit k ->
  if k_ret k <? 0 then read limit k w = Throw (UnixError "read" (k_errno k))
  else read limit k w = Ok (k_data k, register_read (if (0 <? limit) && (k_ret k =? 0) then w <| _eof := true |> else w)) /\
       zlen (k_data k) <= limit.
Proof.
  intros Hl Hk. unfold read, SystemCall. destruct Hk as [[Hneg He]|[Hret Hle]].
  - rewrite i32_id by lia. rewrite (proj2 (Z.ltb_lt _ _)) by lia. rewrite (proj2 (Z.leb_gt _ _)) by lia.
    rewrite (proj2 (Z.eqb_neq _ _)) by done. done.
  - pose proof (zlen_nonneg (k_data k)). rewrite (proj2 (Z.ltb_ge (k_ret k) _)) by lia. split; [|lia].
    rewrite i32_id by (unfold BUFFER_SIZE in *; lia).
    rewrite (proj2 (Z.leb_le _ _)) by lia. cbn [orb mbind result_bind].
    rewrite (proj2 (Z.ltb_ge (Z.min _ _) _)) by lia. do 2 f_equal. rewrite Hret. unfold resize.
    replace (Z.to_nat (zlen (k_data k))) with (length (k_data k)) by (unfold zlen; lia).
    rewrite take_app_length. cbn [app]. rewrite length_app.
    replace (length (k_data k) - _)%nat with 0%nat by lia. cbn. by rewrite app_nil_r.
Qed.

(** ** Writing *)

Lemma view_size l : zlen (concat l) < 2 ^ 64 -> BufferViewList.size l = zlen (concat l).
Proof.
  intros H. unfold BufferViewList.size. rewrite pieces_size_eq.
  - by rewrite list_fmap_id.
  - rewrite list_fmap_id. pose proof (zlen_nonneg (concat l)). unfold is_u64. lia.
Qed.

(** A kernel that takes at least one byte and at most those offered per call,
    until all [n] are taken. *)
Fixpoint takes_all (answers : list (Z * Z)) (n : Z) : Prop :=
  match answers with
  | [] => False
  | (ret, _) :: answers => 0 < ret <= n /\ ret < 2 ^ 31 /\ (ret = n \/ takes_all answers (n - ret))
  end.

Lemma write_loop_spec answers buffer w total :
  0 <= total -> total + zlen (concat buffer) < 2 ^ 64 -> takes_all answers (zlen (concat buffer)) ->
  exists buffer' w', write_loop answers buffer true total w = Ok (total + zlen (concat buffer), buffer', w') /\
    concat buffer' = [] /\ _eof w' = _eof w /\ _closed w' = _closed w.
Proof.
  revert buffer w total. induction answers as [|[ret errno] answers IH]; intros buffer w total Ht Hb Ha; [done|].
  destruct Ha as (Hret & Hint & Ha). cbn [write_loop]. rewrite i32_id by lia. unfold SystemCall. rewrite (proj2 (Z.leb_le _ _)) by lia.
  cbn [orb mbind result_bind]. rewrite view_size by lia. rewrite (proj2 (Z.eqb_neq ret 0)) by lia. cbn [andb].
  rewrite (proj2 (Z.ltb_ge _ _)) by lia.
  rewrite (u64_id ret) by (unfold is_u64; lia).
  destruct (BufferViewList.view_remove_prefix ret buffer) as (buffer' & -> & Hd); [lia..|]. cbn [mbind result_bind].
  assert (zlen (concat buffer') = zlen (concat buffer) - ret) as Hz by (rewrite Hd; zlen; lia).
  rewrite add64_id by (unfold is_u64; lia). rewrite view_size by lia. rewrite Hz.
  destruct (Z.eqb_spec (zlen (concat buffer) - ret) 0) as [E|E]; cbn [negb andb].
  - exists buffer'. eexists. split; [do 3 f_equal; lia|]. split; [|done]. apply zlen_0_nil. lia.
  - destruct Ha as [->|Ha]; [lia|]. destruct (IH buffer' (register_write w) (total + ret)) as (b & w' & Hw & Hc & He & Hcl);
      [lia|lia|by rewrite Hz|]. exists b, w'. rewrite Hw, Hz. split; [do 3 f_equal; lia|done].
Qed.

(** A blocking write is complete.  As long as the kernel takes at least one
    byte per call and no more than offered, [write(buffer)] returns after
    finitely many calls, reports the size of the buffer and leaves nothing
    unwritten. *)
Theorem fd_write_all answers buffer w :
  zlen (concat buffer) < 2 ^ 64 -> takes_all answers (zlen (concat buffer)) ->
  exists buffer' w', write_loop answers buffer true 0 w = Ok (zlen (concat buffer), buffer', w') /\
    concat buffer' = [] /\ write answers buffer true w = Ok (zlen (concat buffer), w').
Proof.
  intros Hb Ha. destruct (write_loop_spec answers buffer w 0) as (b & w' & Hw & Hc & _); [lia|lia|done|].
  exists b, w'. unfold write. rewrite Hw. done.
Qed.

Lemma write_range answers buffer all w n w' : write answers buffer all w = Ok (n, w') -> is_u64 n.
Proof.
  unfold write. intros ([[tot b] w1] & H & [= <- _])%result_bind_Ok. revert buffer w H. generalize 0.
  induction answers as [|[ret errno] answers IH]; intros total buffer w H; cbn [write_loop] in H; [done|].
  apply result_bind_Ok in H as (x & _ & H).
  match type of H with (if ?b then _ else _) = _ => destruct b end; [done|].
  match type of H with (if ?b then _ else _) = _ => destruct b end; [done|].
  apply result_bind_Ok in H as (b' & _ & H). cbn beta zeta in H.
  match type of H with (if ?b then _ else _) = _ => destruct b end; [by eapply IH|].
  injection H as <- _ _. apply add64_range.
Qed.

(** One non-blocking write takes what the kernel takes. *)
Lemma write_once ret errno rest buffer w :
  0 < ret <= zlen (concat buffer) -> ret < 2 ^ 31 -> zlen (concat buffer) < 2 ^ 64 ->
  write ((ret, errno) :: rest) buffer false w = Ok (ret, register_write w).
Proof.
  intros Hret Hint Hb. unfold write. cbn [write_loop]. rewrite i32_id by lia. unfold SystemCall. rewrite (proj2 (Z.leb_le _ _)) by lia.
  cbn [orb mbind result_bind]. rewrite view_size by lia. rewrite (proj2 (Z.eqb_neq ret 0)) by lia. cbn [andb].
  rewrite (proj2 (Z.ltb_ge _ _)) by lia.
  rewrite (u64_id ret) by (unfold is_u64; lia).
  destruct (BufferViewList.view_remove_prefix ret buffer) as (buffer' & -> & Hd); [lia..|]. cbn [mbind result_bind].
  rewrite add64_id by (unfold is_u64; lia). done.
Qed.

(** A kernel that does what [writev(2)] says of errors. *)
Definition honest_write (r : Z * Z) : Prop := 0 <= r.1 < 2 ^ 31 \/ (r.1 < 0 /\ r.2 <> 0).

(** One call never reports more than it was given. *)
Lemma write_bounded r buffer w n w' :
  - 2 ^ 31 <= r.1 -> honest_write r -> write [r] buffer false w = Ok (n, w') ->
  0 <= n <= BufferViewList.size buffer /\ w' = register_write w.
Proof.
  destruct r as [ret errno]. intros Hint Hr. unfold write. intros ([[tot b] w1] & H & [= <- <-])%result_bind_Ok.
  cbn [write_loop] in H. apply result_bind_Ok in H as (m & Hm & H). cbn in Hint.
  assert (0 <= m < 2 ^ 31) as Hpos.
  { unfold SystemCall in Hm. destruct Hr as [Hr|[Hr He]]; cbn in Hr; [|cbn in He]; rewrite i32_id in Hm by lia.
    - rewrite (proj2 (Z.leb_le 0 ret)) in Hm by lia. injection Hm as <-. lia.
    - rewrite (proj2 (Z.leb_gt 0 ret)), (proj2 (Z.eqb_neq errno 0)) in Hm by lia. done. }
  match type of H with (if ?c then _ else _) = _ => destruct c; [done|] end.
  destruct (Z.ltb_spec (BufferViewList.size buffer) m); [done|].
  apply result_bind_Ok in H as (buf & _ & H). cbn in H. injection H as <- _ <-. split; [|done].
  rewrite add64_id; [lia|unfold is_u64; lia].
Qed.

End FileDescriptor.
