(* ===== verification/fd_handles.v ===== *)
(** * [libsponge/util/file_descriptor.*]: the handles

    A [FileDescriptor] is a [shared_ptr] to an [FDWrapper].  [duplicate] copies
    the pointer, a move takes it from the old handle, and the wrapper dies with
    the last handle on it and closes the descriptor unless [close] has done so.
    This file has the shared store: the wrappers by number, the handles by name,
    each with the wrapper that it points to, and the calls of [close(2)] in
    order, by wrapper.  A handle that was moved from or destroyed is not in the
    map. *)

From stdpp Require Import gmap relations.
From S2P Require Import Prelude.
From S2P Require Import buffer.
From S2P Require Import util.
From S2P Require Import file_descriptor.

Module Handles.

Record store : Type := mk {
  wrappers : gmap nat FileDescriptor.t;
  handles : gmap nat nat;
  next : nat;
  closes : list nat
}.

#[global] Instance eta_store : Eta store := fun s => mk (wrappers s) (handles s) (next s) (closes s).

Definition empty : store := mk ∅ ∅ 0 [].

Definition null_pointer {A : Type} : result A := Throw (UndefinedBehaviour "FileDescriptor without an FDWrapper").

(** [_internal_fd->]. *)
Definition deref (h : nat) (s : store) : result (nat * FileDescriptor.t) :=
  match handles s !! h with
  | Some id => match wrappers s !! id with Some w => Ok (id, w) | None => null_pointer end
  | None => null_pointer
  end.

(** [FileDescriptor(fd)]. *)
Definition construct (h : nat) (fd : Z) (s : store) : result store :=
  w ← FileDescriptor.init fd;
  Ok (mk (<[next s := w]> (wrappers s)) (<[h := next s]> (handles s)) (S (next s)) (closes s)).

Definition duplicate (h h' : nat) (s : store) : result store :=
  '(id, _) ← deref h s; Ok (s <| handles := <[h' := id]> (handles s) |>).

(** The wrapper's [close], which calls [close(2)] whatever [_closed] is; and its
    destructor, which passes on no exception. *)
Definition close (h : nat) (ret errno : Z) (s : store) : result () * store :=
  match deref h s with
  | Ok (id, w) =>
      let s := s <| closes := closes s ++ [id] |> in
      match FileDescriptor.close ret errno w with
      | Ok w => (Ok (), s <| wrappers := <[id := w]> (wrappers s) |>)
      | Throw e => (Throw e, s)
      | OutOfFuel => (OutOfFuel, s)
      end
  | _ => (null_pointer, s)
  end.

Definition destroy_wrapper (id : nat) (s : store) : store :=
  match wrappers s !! id with
  | Some w =>
      let s := if FileDescriptor._closed w then s else s <| closes := closes s ++ [id] |> in
      s <| wrappers := delete id (wrappers s) |>
  | None => s
  end.

(** [~FileDescriptor]: the pointer is dropped, and with the last one the
    wrapper. *)
Definition destroy (h : nat) (s : store) : store :=
  match handles s !! h with
  | Some id =>
      let s := s <| handles := delete h (handles s) |> in
      if decide (map_Forall (fun _ id' => id' <> id) (handles s)) then destroy_wrapper id s else s
  | None => s
  end.

(** [FileDescriptor(FileDescriptor &&)] and the move assignment, which drops
    what the target pointed to. *)
Definition move_construct (h h' : nat) (s : store) : store :=
  match handles s !! h with
  | Some id => s <| handles := <[h' := id]> (delete h (handles s)) |>
  | None => s
  end.

Definition move_assign (h h' : nat) (s : store) : store :=
  if (h =? h')%nat then s else move_construct h h' (destroy h' s).

(** A method that reads or writes through the handle. *)
Definition use {A : Type} (h : nat) (f : FileDescriptor.t -> result (A * FileDescriptor.t)) (s : store) : result (A * store) :=
  '(id, w) ← deref h s;
  '(a, w) ← f w;
  Ok (a, s <| wrappers := <[id := w]> (wrappers s) |>).

Definition read (h : nat) (limit : Z) (k : FileDescriptor.kernel) : store -> result (bytes * store) :=
  use h (FileDescriptor.read limit k).

Definition write (h : nat) (answers : list (Z * Z)) (buffer : BufferViewList.t) (write_all : bool) : store -> result (Z * store) :=
  use h (FileDescriptor.write answers buffer write_all).

(** [write] of a string: all of it unless told otherwise. *)
Definition write_string (h : nat) (answers : list (Z * Z)) (str : bytes) (write_all : bool) : store -> result (Z * store) :=
  write h answers (BufferViewList.of_string str) write_all.

(** ** Runs

    A store with the history of its owner's calls of [close]: for which wrapper,
    and whether the call returned.  The owner constructs handles on fresh
    storage and uses only handles that point somewhere; it may close the same
    wrapper any number of times, and [close(2)] may fail. *)
Definition history : Type := list (nat * bool).
Definition config : Type := store * history.

Definition returned {A : Type} (r : result A) : bool := match r with Ok _ => true | _ => false end.

Inductive step : config -> config -> Prop :=
| step_construct s hist h fd s' : handles s !! h = None -> construct h fd s = Ok s' -> step (s, hist) (s', hist)
| step_duplicate s hist h h' s' : handles s !! h' = None -> duplicate h h' s = Ok s' -> step (s, hist) (s', hist)
| step_move s hist h h' : handles s !! h' = None -> step (s, hist) (move_construct h h' s, hist)
| step_assign s hist h h' : step (s, hist) (move_assign h h' s, hist)
| step_read s hist h limit k data s' : read h limit k s = Ok (data, s') -> step (s, hist) (s', hist)
| step_write s hist h answers buffer write_all n s' :
    write h answers buffer write_all s = Ok (n, s') -> step (s, hist) (s', hist)
| step_close s hist h ret errno id w :
    deref h s = Ok (id, w) ->
    step (s, hist) ((close h ret errno s).2, hist ++ [(id, returned ((close h ret errno s).1))])
| step_destroy s hist h : step (s, hist) (destroy h s, hist).

(** How often [close(2)] has been called for a wrapper; how often its owner has
    called [close], and whether one of these calls returned. *)
Definition times_closed (id : nat) (s : store) : nat := count_occ Nat.eq_dec (closes s) id.
Definition by_hand (id : nat) (hist : history) : nat := count_occ Nat.eq_dec (hist.*1) id.
Definition closed_by_hand (id : nat) (hist : history) : bool := existsb (fun x => (x.1 =? id)%nat && x.2) hist.

(** The calls of [close(2)] that are the destructor's: one for a wrapper that is
    gone without having been closed. *)
Definition by_destructor (id : nat) (s : store) (hist : history) : nat :=
  match wrappers s !! id with Some _ => 0 | None => if closed_by_hand id hist then 0 else 1 end%nat.

#[global] Arguments times_closed : simpl never.
#[global] Arguments by_hand : simpl never.
#[global] Arguments closed_by_hand : simpl never.
#[global] Arguments by_destructor : simpl never.

Record sound (c : config) : Prop := {
  so_points : forall h id, handles (c.1) !! h = Some id -> is_Some (wrappers (c.1) !! id);
  so_owned : forall id w, wrappers (c.1) !! id = Some w -> exists h, handles (c.1) !! h = Some id;
  so_fresh : forall id, (next (c.1) <= id)%nat ->
    wrappers (c.1) !! id = None /\ times_closed id (c.1) = 0%nat /\ by_hand id (c.2) = 0%nat;
  so_flag : forall id w, wrappers (c.1) !! id = Some w -> FileDescriptor._closed w = closed_by_hand id (c.2);
  so_times : forall id, (id < next (c.1))%nat ->
    times_closed id (c.1) = (by_hand id (c.2) + by_destructor id (c.1) (c.2))%nat
}.

Lemma empty_sound : sound (empty, []).
Proof. split; cbn; [done|done|done|done|lia]. Qed.

Lemma by_hand_none id hist : by_hand id hist = 0%nat -> closed_by_hand id hist = false.
Proof.
  unfold by_hand, closed_by_hand. induction hist as [|[i b] hist IH]; [done|]. cbn [fmap list_fmap count_occ existsb fst snd].
  destruct (Nat.eq_dec i id) as [|Hne]; [done|]. intros H. rewrite (proj2 (Nat.eqb_neq _ _) Hne). cbn [andb orb]. by apply IH.
Qed.

Lemma closed_by_hand_app id hist i b :
  closed_by_hand id (hist ++ [(i, b)]) = closed_by_hand id hist || (i =? id)%nat && b.
Proof. unfold closed_by_hand. rewrite existsb_app. cbn. by rewrite orb_false_r. Qed.

Lemma count_single (i id : nat) : count_occ Nat.eq_dec [i] id = if (i =? id)%nat then 1%nat else 0%nat.
Proof.
  destruct (Nat.eqb_spec i id) as [->|Hne]; [by rewrite count_occ_cons_eq|by rewrite count_occ_cons_neq].
Qed.

Lemma by_hand_app id hist i b : by_hand id (hist ++ [(i, b)]) = (by_hand id hist + if (i =? id)%nat then 1 else 0)%nat.
Proof.
  unfold by_hand. rewrite fmap_app, count_occ_app. f_equal. apply count_single.
Qed.

Lemma times_closed_app id s i :
  times_closed id (s <| closes := closes s ++ [i] |>) = (times_closed id s + if (i =? id)%nat then 1 else 0)%nat.
Proof.
  unfold times_closed. cbn. rewrite count_occ_app. f_equal. apply count_single.
Qed.

Lemma deref_Ok h s id w : deref h s = Ok (id, w) -> handles s !! h = Some id /\ wrappers s !! id = Some w.
Proof. unfold deref. repeat case_match; intros [= <- <-]; done. Qed.

(** A wrapper in use is not a fresh one. *)
Lemma sound_used s hist id w : sound (s, hist) -> wrappers s !! id = Some w -> (id < next s)%nat.
Proof.
  intros Hs Hw. destruct (decide (next s <= id)%nat) as [Hge|]; [|lia]. destruct (so_fresh _ Hs _ Hge) as [Hn _]. cbn in Hn. congruence.
Qed.

(** A wrapper that is written in place. *)
Lemma update_sound s hist id w w' :
  sound (s, hist) -> wrappers s !! id = Some w -> FileDescriptor._closed w' = FileDescriptor._closed w ->
  sound (s <| wrappers := <[id := w']> (wrappers s) |>, hist).
Proof.
  intros Hs Hw Hc. pose proof (sound_used _ _ _ _ Hs Hw) as Hid. destruct Hs as [Hp Ho Hf Hfl Ht]. cbn in *.
  assert (forall i, is_Some (<[id := w']> (wrappers s) !! i) <-> is_Some (wrappers s !! i)) as Hdom.
  { intros i. destruct (decide (i = id)) as [->|]; [rewrite lookup_insert_eq, Hw; by split; intros _|by rewrite lookup_insert_ne]. }
  split; cbn.
  - intros h i Hi. apply Hdom. by eapply Hp.
  - intros i x Hx. assert (is_Some (wrappers s !! i)) as [y Hy] by (apply Hdom; by eexists). by eapply Ho.
  - intros i Hi. rewrite lookup_insert_ne by lia. by apply Hf.
  - intros i x Hx. destruct (decide (i = id)) as [->|]; [|rewrite lookup_insert_ne in Hx by done; by apply Hfl].
    rewrite lookup_insert_eq in Hx. injection Hx as <-. rewrite Hc. by apply Hfl.
  - intros i Hi. change (times_closed i s = (by_hand i hist + by_destructor i (s <| wrappers := <[id := w']> (wrappers s) |>) hist)%nat).
    rewrite Ht by done. unfold by_destructor. cbn. destruct (decide (i = id)) as [->|]; [by rewrite lookup_insert_eq, Hw|by rewrite lookup_insert_ne].
Qed.

Lemma construct_sound h fd s hist s' :
  sound (s, hist) -> handles s !! h = None -> construct h fd s = Ok s' -> sound (s', hist).
Proof.
  intros [Hp Ho Hf Hfl Ht] Hh (w & Hw & [= <-])%result_bind_Ok. cbn in *.
  assert (FileDescriptor._closed w = false) as Hc by (unfold FileDescriptor.init in Hw; case_match; by simplify_eq).
  destruct (Hf (next s) ltac:(lia)) as (Hn0 & Ht0 & Hb0). split; cbn.
  - intros h' i Hi. destruct (decide (i = next s)) as [->|]; [rewrite lookup_insert_eq; by eexists|]. rewrite lookup_insert_ne by done.
    destruct (decide (h' = h)) as [->|]; [rewrite lookup_insert_eq in Hi; by simplify_eq|]. rewrite lookup_insert_ne in Hi by done. by eapply Hp.
  - intros i x Hx. destruct (decide (i = next s)) as [->|]; [exists h; by rewrite lookup_insert_eq|]. rewrite lookup_insert_ne in Hx by done.
    destruct (Ho i x Hx) as [h' Hh']. exists h'. rewrite lookup_insert_ne; [done|]. intros ->. by rewrite Hh in Hh'.
  - intros i Hi. rewrite lookup_insert_ne by lia. apply Hf. lia.
  - intros i x Hx. destruct (decide (i = next s)) as [->|]; [|rewrite lookup_insert_ne in Hx by done; by apply Hfl].
    rewrite lookup_insert_eq in Hx. injection Hx as <-. rewrite Hc. symmetry. by apply by_hand_none.
  - intros i Hi. unfold by_destructor, times_closed in *. cbn. destruct (decide (i = next s)) as [->|].
    + by rewrite lookup_insert_eq, Ht0, Hb0.
    + rewrite lookup_insert_ne by done. apply Ht. lia.
Qed.

(** Handles may be added and dropped as long as each wrapper keeps one. *)
Lemma handles_sound s hist hs :
  sound (s, hist) -> (forall h id, hs !! h = Some id -> is_Some (wrappers s !! id)) ->
  (forall id w, wrappers s !! id = Some w -> exists h, hs !! h = Some id) -> sound (s <| handles := hs |>, hist).
Proof. intros [_ _ Hf Hfl Ht] Hp Ho. by split. Qed.

Lemma duplicate_sound h h' s hist s' :
  sound (s, hist) -> handles s !! h' = None -> duplicate h h' s = Ok s' -> sound (s', hist).
Proof.
  intros Hs Hh ([id w] & [Hd Hw]%deref_Ok & [= <-])%result_bind_Ok. apply handles_sound; [done|..].
  - intros x i Hi. destruct (decide (x = h')) as [->|]; [rewrite lookup_insert_eq in Hi; simplify_eq; by eexists|].
    rewrite lookup_insert_ne in Hi by done. by eapply (so_points _ Hs).
  - intros i x Hx. destruct (so_owned _ Hs i x Hx) as [y Hy]. cbn in Hy. exists y. rewrite lookup_insert_ne; [done|]. intros ->. by rewrite Hh in Hy.
Qed.

Lemma move_sound h h' s hist : sound (s, hist) -> handles s !! h' = None -> sound (move_construct h h' s, hist).
Proof.
  intros Hs Hh. unfold move_construct. destruct (handles s !! h) as [id|] eqn:E; [|done].
  apply handles_sound; [done|..].
  - intros x i Hi. destruct (decide (x = h')) as [->|]; [rewrite lookup_insert_eq in Hi; simplify_eq; by eapply (so_points _ Hs)|].
    rewrite lookup_insert_ne in Hi by done. apply lookup_delete_Some in Hi as [_ Hi]. by eapply (so_points _ Hs).
  - intros i x Hx. destruct (so_owned _ Hs i x Hx) as [y Hy]. cbn in Hy. destruct (decide (y = h)) as [->|].
    + exists h'. rewrite lookup_insert_eq. congruence.
    + exists y. rewrite lookup_insert_ne by (intros ->; by rewrite Hh in Hy). by rewrite lookup_delete_ne.
Qed.

Lemma destroy_wrapper_sound s hist id w h :
  sound (s, hist) -> handles s !! h = Some id -> wrappers s !! id = Some w ->
  map_Forall (fun _ id' => id' <> id) (delete h (handles s)) ->
  sound (destroy_wrapper id (s <| handles := delete h (handles s) |>), hist).
Proof.
  intros Hs Hh Hw Hlast. pose proof (sound_used _ _ _ _ Hs Hw) as Hid. destruct Hs as [Hp Ho Hf Hfl Ht]. cbn in *.
  pose proof (Hfl id w Hw) as Hflag. unfold destroy_wrapper. cbn. rewrite Hw. set (log := if FileDescriptor._closed w then [] else [id]).
  match goal with |- sound (?x, _) => replace x with (mk (delete id (wrappers s)) (delete h (handles s)) (next s) (closes s ++ log)) end.
  2:{ unfold log. destruct (FileDescriptor._closed w); cbn; by rewrite ?app_nil_r. }
  assert (forall i, count_occ Nat.eq_dec log i = if decide (i = id) then if closed_by_hand id hist then 0 else 1 else 0)%nat as Hlog.
  { intros i. unfold log. rewrite Hflag. destruct (closed_by_hand id hist); [by case_decide|]. rewrite count_single.
    case_decide as E; [by rewrite E, Nat.eqb_refl|by rewrite (proj2 (Nat.eqb_neq _ _))]. }
  split; cbn.
  - intros x i Hi. pose proof (Hlast x i Hi). apply lookup_delete_Some in Hi as [_ Hi]. rewrite lookup_delete_ne by done. by eapply Hp.
  - intros i x [Hne Hx]%lookup_delete_Some. destruct (Ho i x Hx) as [y Hy]. exists y. apply lookup_delete_Some. split; [congruence|done].
  - intros i Hi. destruct (Hf i Hi) as (Hn & Hti & Hb). split; [apply lookup_delete_None; by right|]. split; [|done].
    unfold times_closed in *. cbn. rewrite count_occ_app, Hti, Hlog, decide_False by lia. done.
  - intros i x [_ Hx]%lookup_delete_Some. by apply Hfl.
  - intros i Hi. specialize (Ht i Hi). unfold times_closed, by_destructor in *. cbn. rewrite count_occ_app, Ht, Hlog.
    case_decide as E; [subst i; rewrite lookup_delete_eq, Hw|rewrite lookup_delete_ne by done]; lia.
Qed.

Lemma destroy_sound h s hist : sound (s, hist) -> sound (destroy h s, hist) /\ handles (destroy h s) !! h = None.
Proof.
  intros Hs. unfold destroy. destruct (handles s !! h) as [id|] eqn:Hh; [|by split]. cbn zeta.
  destruct (so_points _ Hs _ _ Hh) as [w Hw]. cbn in Hw. destruct (decide _) as [Hl|Hl].
  - split; [by eapply destroy_wrapper_sound|]. unfold destroy_wrapper. cbn. rewrite Hw. destruct (FileDescriptor._closed w); cbn; apply lookup_delete_eq.
  - split; [|cbn; apply lookup_delete_eq]. apply handles_sound; [done|..].
    + intros x i [_ Hi]%lookup_delete_Some. by eapply (so_points _ Hs).
    + intros i x Hx. destruct (so_owned _ Hs i x Hx) as [y Hy]. cbn in Hy. destruct (decide (y = h)) as [->|].
      * apply map_not_Forall in Hl as (z & j & Hz & Hj); [|solve_decision]. apply dec_stable in Hj. exists z. cbn in Hz. rewrite Hh in Hy. injection Hy as <-. by subst j.
      * exists y. by rewrite lookup_delete_ne.
Qed.

(** Reading and writing leave [_closed] alone. *)
Lemma read_closed limit k w d w' : FileDescriptor.read limit k w = Ok (d, w') -> FileDescriptor._closed w' = FileDescriptor._closed w.
Proof.
  unfold FileDescriptor.read. intros (n & _ & H)%result_bind_Ok. cbn zeta in H. repeat case_match; by simplify_eq.
Qed.

Lemma write_loop_closed answers buffer all total w tot b w' :
  FileDescriptor.write_loop answers buffer all total w = Ok (tot, b, w') -> FileDescriptor._closed w' = FileDescriptor._closed w.
Proof.
  revert buffer total w. induction answers as [|[ret errno] answers IH]; intros buffer total w; cbn [FileDescriptor.write_loop]; [done|].
  intros (n & _ & H)%result_bind_Ok. do 2 (match type of H with (if ?c then _ else _) = _ => destruct c; [done|] end).
  apply result_bind_Ok in H as (buf & _ & H). cbn zeta in H.
  match type of H with (if ?c then _ else _) = _ => destruct c end; [by apply IH in H|]. by injection H as _ _ <-.
Qed.

Lemma use_sound {A : Type} h (f : FileDescriptor.t -> result (A * FileDescriptor.t)) s hist a s' :
  (forall w a w', f w = Ok (a, w') -> FileDescriptor._closed w' = FileDescriptor._closed w) ->
  sound (s, hist) -> use h f s = Ok (a, s') -> sound (s', hist).
Proof.
  intros Hf Hs ([id w] & [_ Hw]%deref_Ok & ([a' w'] & H & [= _ <-])%result_bind_Ok)%result_bind_Ok.
  eapply update_sound; [done|done|by eapply Hf].
Qed.

Lemma fd_close_shape ret errno w :
  match FileDescriptor.close ret errno w with
  | Ok w' => FileDescriptor._closed w' = true
  | Throw _ => True
  | OutOfFuel => False
  end.
Proof. unfold FileDescriptor.close, SystemCall. by destruct (_ || _). Qed.

(** The store after a call of [close], by the wrapper that it leaves. *)
Lemma close_shape h ret errno s id w :
  deref h s = Ok (id, w) ->
  exists w', (close h ret errno s).2 = s <| closes := closes s ++ [id] |> <| wrappers := <[id := w']> (wrappers s) |> /\
    FileDescriptor._closed w' = FileDescriptor._closed w || returned ((close h ret errno s).1).
Proof.
  intros Hd. pose proof (deref_Ok _ _ _ _ Hd) as [_ Hw]. unfold close. rewrite Hd.
  pose proof (fd_close_shape ret errno w) as Hsh. destruct (FileDescriptor.close ret errno w) as [w'| |]; [|..|done]; cbn.
  - exists w'. rewrite orb_true_r. by split.
  - exists w. rewrite orb_false_r, insert_id by done. by split.
Qed.

Lemma close_sound h ret errno s hist id w :
  sound (s, hist) -> deref h s = Ok (id, w) ->
  sound ((close h ret errno s).2, hist ++ [(id, returned ((close h ret errno s).1))]).
Proof.
  intros Hs Hd. pose proof (deref_Ok _ _ _ _ Hd) as [_ Hw]. pose proof (sound_used _ _ _ _ Hs Hw) as Hid.
  destruct (close_shape h ret errno s id w Hd) as (w' & -> & Hc). set (b := returned _) in *. clearbody b.
  destruct Hs as [Hp Ho Hf Hfl Ht]. cbn in *.
  assert (forall i, by_destructor i (s <| closes := closes s ++ [id] |> <| wrappers := <[id := w']> (wrappers s) |>) (hist ++ [(id, b)])
    = by_destructor i s hist) as Hbd.
  { intros i. unfold by_destructor. cbn. rewrite closed_by_hand_app. destruct (Nat.eqb_spec id i) as [<-|].
    - by rewrite lookup_insert_eq, Hw.
    - rewrite lookup_insert_ne by done. cbn. by rewrite orb_false_r. }
  assert (forall i, times_closed i (s <| closes := closes s ++ [id] |> <| wrappers := <[id := w']> (wrappers s) |>)
    = times_closed i (s <| closes := closes s ++ [id] |>)) as Htc by done.
  split; cbn [fst snd].
  - intros h' i Hi. cbn in *. destruct (decide (i = id)) as [->|]; [rewrite lookup_insert_eq; by eexists|]. rewrite lookup_insert_ne by done. by eapply Hp.
  - intros i x Hx. cbn in *. destruct (decide (i = id)) as [->|]; [by eapply Ho|]. rewrite lookup_insert_ne in Hx by done. by eapply Ho.
  - intros i Hi. cbn in Hi. destruct (Hf i Hi) as (Hn & Hti & Hb). assert (id <> i) as Hne by lia.
    rewrite Htc, times_closed_app, by_hand_app, (proj2 (Nat.eqb_neq _ _) Hne), Hti, Hb. cbn. by rewrite lookup_insert_ne.
  - intros i x Hx. cbn in Hx. rewrite closed_by_hand_app. destruct (Nat.eqb_spec id i) as [<-|].
    + rewrite lookup_insert_eq in Hx. injection Hx as <-. by rewrite Hc, (Hfl id w Hw).
    + rewrite lookup_insert_ne in Hx by done. cbn. rewrite orb_false_r. by apply Hfl.
  - intros i Hi. cbn in Hi. rewrite Htc, times_closed_app, by_hand_app, Hbd, (Ht i Hi). lia.
Qed.

Lemma step_sound c c' : sound c -> step c c' -> sound c'.
Proof.
  intros Hs Hst. destruct Hst as [s hist h fd s1 Hh H|s hist h h' s1 Hh H|s hist h h' Hh|s hist h h'|s hist h limit k data s1 H
    |s hist h answers buffer all n s1 H|s hist h ret errno id w Hd|s hist h].
  - by eapply construct_sound.
  - by eapply duplicate_sound.
  - by apply move_sound.
  - unfold move_assign. destruct (Nat.eqb_spec h h'); [done|]. destruct (destroy_sound h' s hist Hs). by apply move_sound.
  - eapply use_sound; [|exact Hs|exact H]. intros w a w'. apply read_closed.
  - eapply use_sound; [|exact Hs|exact H]. intros w a w' ([[t b] w1] & Hl & [= _ <-])%result_bind_Ok. by eapply write_loop_closed.
  - by eapply close_sound.
  - by apply destroy_sound.
Qed.

Lemma reachable_sound c : rtc step (empty, []) c -> sound c.
Proof.
  intros Hr. assert (forall a, sound a -> rtc step a c -> sound c) as Hind by (intros a Ha Hs; induction Hs; eauto using step_sound).
  by eapply Hind; [apply empty_sound|].
Qed.

(** C33: no descriptor leaks and none is closed twice.  Whatever sequence of
    constructions, duplications, moves, reads, writes, closings and
    destructions of handles, [close] being called as often as the owner likes,
    with success or not: a handle never dangles; while a handle is left,
    [close(2)] has been called for its wrapper only by the owner's calls of
    [close]; for a wrapper whose last handle is gone [close(2)] has been called,
    and exactly once unless the owner closed it twice or a call failed; and when
    no handle is left every wrapper is gone. *)
Theorem descriptors_closed_once s hist :
  rtc step (empty, []) (s, hist) ->
  (forall h id, handles s !! h = Some id -> is_Some (wrappers s !! id)) /\
  (forall id w, wrappers s !! id = Some w ->
     times_closed id s = by_hand id hist /\ FileDescriptor.closed w = closed_by_hand id hist) /\
  (forall id, (id < next s)%nat -> wrappers s !! id = None ->
     (1 <= times_closed id s)%nat /\
     (by_hand id hist = 0%nat \/ by_hand id hist = 1%nat /\ closed_by_hand id hist = true -> times_closed id s = 1%nat)) /\
  (handles s = ∅ -> wrappers s = ∅).
Proof.
  intros Hr. pose proof (reachable_sound _ Hr) as Hs. pose proof Hs as [Hp Ho Hf Hfl Ht]. cbn in *.
  split; [exact Hp|]. split; [|split].
  - intros id w Hw. split; [|by apply Hfl]. rewrite Ht by (by eapply sound_used). unfold by_destructor. rewrite Hw. lia.
  - intros id Hid Hw. rewrite (Ht id Hid). unfold by_destructor. rewrite Hw. split.
    + destruct (closed_by_hand id hist) eqn:Ec; [|lia]. destruct (by_hand id hist) eqn:Eb; [|lia].
      by rewrite (by_hand_none _ _ Eb) in Ec.
    + intros [Hb|[-> ->]]; [by rewrite Hb, (by_hand_none _ _ Hb)|done].
  - intros He. apply map_empty. intros id. destruct (wrappers s !! id) as [w|] eqn:Ew; [|done].
    destruct (Ho id w Ew) as [h Hh]. by rewrite He in Hh.
Qed.

(** Standard output and its duplicate in an event loop: closed through one,
    the other destroyed later; a second descriptor never closed by hand; a
    third closed with an error and destroyed. *)
Definition sample_store : store :=
  destroy 3 ((close 3 (-1) 4 (match construct 3 6 (destroy 2 (destroy 1 (destroy 0 ((close 0 0 0
    (match (s ← construct 0 1 empty; s ← duplicate 0 1 s; construct 2 5 s) with Ok s => s | _ => empty end)).2)))) with
   | Ok s => s | _ => empty end)).2).

Lemma sample_steps : rtc step (empty, []) (sample_store, [(0%nat, true); (2%nat, false)]).
Proof.
  eapply rtc_l; [apply (step_construct empty [] 0 1); [done|reflexivity]|].
  eapply rtc_l; [eapply (step_duplicate _ _ 0 1); [done|reflexivity]|].
  eapply rtc_l; [eapply (step_construct _ _ 2 5); [done|reflexivity]|].
  eapply rtc_l; [eapply (step_close _ _ 0 0 0); reflexivity|].
  eapply rtc_l; [apply (step_destroy _ _ 0)|]. eapply rtc_l; [apply (step_destroy _ _ 1)|]. eapply rtc_l; [apply (step_destroy _ _ 2)|].
  eapply rtc_l; [eapply (step_construct _ _ 3 6); [done|reflexivity]|].
  eapply rtc_l; [eapply (step_close _ _ 3 (-1) 4); reflexivity|].
  eapply rtc_l; [apply (step_destroy _ _ 3)|]. apply rtc_refl.
Qed.

Lemma descriptors_closed_once_witness :
  wrappers sample_store = ∅ /\ times_closed 0 sample_store = 1%nat /\ times_closed 1 sample_store = 1%nat /\
  (1 <= times_closed 2 sample_store)%nat.
Proof.
  destruct (descriptors_closed_once sample_store _ sample_steps) as (_ & _ & H1 & H2).
  split; [apply H2; vm_compute; reflexivity|].
  split; [apply (H1 0%nat)|split; [apply (H1 1%nat)|apply (H1 2%nat)]];
    first [by vm_compute; lia | by vm_compute | by right; vm_compute | by left; vm_compute].
Defined.

(** A [close(2)] that fails leaves [_closed] unset, so the destructor calls it
    again for the same number, which on Linux is free by then. *)
Example failed_close_repeated :
  exists s e, construct 0 5 empty = Ok s /\ (close 0 (-1) 4 s).1 = Throw e /\
    times_closed 0 (destroy 0 ((close 0 (-1) 4 s).2)) = 2%nat.
Proof. do 2 eexists. split; [reflexivity|]. split; vm_compute; reflexivity. Qed.

End Handles.
