(* ===== verification/socket.v ===== *)
(** * [libsponge/util/socket.*]

    The wrappers around the socket system calls.  A socket is its
    [FileDescriptor]; the kernel's answers are arguments.  A system call that
    only succeeds or fails is a [call]: its return value and [errno]. *)

From S2P Require Import Prelude.
From S2P Require Import buffer.
From S2P Require Import util.
From S2P Require Import address.
From S2P Require Import file_descriptor.

Definition call : Type := Z * Z.

Definition run_call (attempt : string) (c : call) : result Z := SystemCall attempt (c.1) (c.2) 0.

Module Socket.

Definition AF_UNIX : Z := 1.
Definition AF_INET : Z := 2.
Definition SOCK_STREAM : Z := 1.
Definition SOCK_DGRAM : Z := 2.
Definition SHUT_RD : Z := 0.
Definition SHUT_WR : Z := 1.
Definition SHUT_RDWR : Z := 2.

Definition init (socket : call) : result FileDescriptor.t :=
  fd ← run_call "socket" socket; FileDescriptor.init fd.

(** An answer of [getsockopt]: the value and its length. *)
Record option_answer : Type := mk_option { o_call : call; o_value : Z; o_len : Z }.

Definition sizeof_int : Z := 4.

Definition of_fd (fd : FileDescriptor.t) (domain type : Z) (so_domain so_type : option_answer) : result FileDescriptor.t :=
  _ ← run_call "getsockopt" (o_call so_domain);
  if negb (o_len so_domain =? sizeof_int) || negb (o_value so_domain =? domain)
  then Throw (RuntimeError "socket domain mismatch") else
  _ ← run_call "getsockopt" (o_call so_type);
  if negb (o_len so_type =? sizeof_int) || negb (o_value so_type =? type)
  then Throw (RuntimeError "socket type mismatch") else
  Ok fd.

(** [function] has stored an address in the 128 bytes offered and its size. *)
Definition get_address (name_of_function : string) (function : call) (address : bytes) (size : Z) : result Address.t :=
  _ ← run_call name_of_function function; Address.of_sockaddr address size.

Definition local_address : call -> bytes -> Z -> result Address.t := get_address "getsockname".
Definition peer_address : call -> bytes -> Z -> result Address.t := get_address "getpeername".

Definition bind (c : call) : result unit := _ ← run_call "bind" c; Ok ().
Definition connect (c : call) : result unit := _ ← run_call "connect" c; Ok ().

Definition shutdown (how : Z) (c : call) (fd : FileDescriptor.t) : result FileDescriptor.t :=
  _ ← run_call "shutdown" c;
  if how =? SHUT_RD then Ok (FileDescriptor.register_read fd)
  else if how =? SHUT_WR then Ok (FileDescriptor.register_write fd)
  else if how =? SHUT_RDWR then Ok (FileDescriptor.register_write (FileDescriptor.register_read fd))
  else Throw (RuntimeError "Socket::shutdown() called with invalid `how`").

Definition setsockopt (c : call) : result unit := _ ← run_call "setsockopt" c; Ok ().
Definition set_reuseaddr : call -> result unit := setsockopt.

End Socket.

Module UDPSocket.

Definition init : call -> result FileDescriptor.t := Socket.init.
Definition of_fd (fd : FileDescriptor.t) : Socket.option_answer -> Socket.option_answer -> result FileDescriptor.t :=
  Socket.of_fd fd Socket.AF_INET Socket.SOCK_DGRAM.

Record received_datagram : Type := mk_received { source_address : Address.t; payload : bytes }.

(** An answer of [recvfrom] with [MSG_TRUNC]: it returns the length of the
    datagram, of which it stores at most as much as fits, and stores the
    source address and its size. *)
Record recv_answer : Type := mk_recv { r_ret : Z; r_errno : Z; r_data : bytes; r_address : bytes; r_fromlen : Z }.

Definition recv (mtu : Z) (k : recv_answer) (fd : FileDescriptor.t) : result (received_datagram * FileDescriptor.t) :=
  let payload := resize [] mtu in
  recv_len ← SystemCall "recvfrom" (i32 (r_ret k)) (r_errno k) 0;
  let payload := r_data k ++ drop (length (r_data k)) payload in
  if mtu <? recv_len then Throw (RuntimeError "recvfrom (oversized datagram)") else
  let fd := FileDescriptor.register_read fd in
  source_address ← Address.of_sockaddr (r_address k) (r_fromlen k);
  Ok (mk_received source_address (resize payload recv_len), fd).

Definition sendmsg_helper (sendmsg : Z * Z) (payload : BufferViewList.t) : result unit :=
  bytes_sent ← SystemCall "sendmsg" (i32 (sendmsg.1)) (sendmsg.2) 0;
  if negb (u64 bytes_sent =? BufferViewList.size payload)
  then Throw (RuntimeError "datagram payload too big for sendmsg()") else Ok ().

(** The destination is what the caller hands to the kernel. *)
Definition sendto (sendmsg : Z * Z) (destination : Address.t) (payload : BufferViewList.t) (fd : FileDescriptor.t) :
    result FileDescriptor.t :=
  _ ← sendmsg_helper sendmsg payload; Ok (FileDescriptor.register_write fd).

Definition send (sendmsg : Z * Z) (payload : BufferViewList.t) (fd : FileDescriptor.t) : result FileDescriptor.t :=
  _ ← sendmsg_helper sendmsg payload; Ok (FileDescriptor.register_write fd).

#[global] Arguments recv : simpl never.

(** A kernel that does what [recvfrom(2)] says of [MSG_TRUNC]. *)
Definition honest_recv (mtu : Z) (datagram : bytes) (k : recv_answer) : Prop :=
  r_ret k = zlen datagram /\ zlen datagram < 2 ^ 31 /\ r_data k = substr0 datagram mtu.

(** A datagram is received whole or refused. *)
Lemma recv_whole mtu datagram k fd src :
  0 <= mtu -> honest_recv mtu datagram k -> Address.of_sockaddr (r_address k) (r_fromlen k) = Ok src ->
  recv mtu k fd = if mtu <? zlen datagram then Throw (RuntimeError "recvfrom (oversized datagram)")
                  else Ok (mk_received src datagram, FileDescriptor.register_read fd).
Proof.
  intros Hm (Hret & Hz & Hd) Ha. pose proof (zlen_nonneg datagram). unfold recv, SystemCall. rewrite Hret.
  rewrite FileDescriptor.i32_id by lia. rewrite (proj2 (Z.leb_le _ _)) by lia. cbn [orb mbind result_bind].
  destruct (Z.ltb_spec mtu (zlen datagram)); [done|]. rewrite Ha. cbn [mbind result_bind]. do 3 f_equal.
  assert (r_data k = datagram) as -> by (rewrite Hd; rewrite substr0_eq; unfold zlen in *; rewrite take_ge; [done|lia]).
  unfold resize at 1. replace (Z.to_nat (zlen datagram)) with (length datagram) by (unfold zlen; lia).
  rewrite take_app_length, length_app. replace (length datagram - _)%nat with 0%nat by lia. by rewrite app_nil_r.
Qed.

(** A datagram is sent whole, or the call throws. *)
Lemma sendto_whole r destination payload fd fd' :
  sendto r destination payload fd = Ok fd' ->
  BufferViewList.size payload = u64 (i32 (r.1)) /\ fd' = FileDescriptor.register_write fd.
Proof.
  unfold sendto, sendmsg_helper, SystemCall. intros (u & (n & Hn & H)%result_bind_Ok & [= <-])%result_bind_Ok.
  split; [|done]. destruct (_ || _) in Hn; [|done]. injection Hn as <-.
  destruct (Z.eqb_spec (u64 (i32 (r.1))) (BufferViewList.size payload)); [done|by destruct u].
Qed.

End UDPSocket.

Module TCPSocket.

Definition init : call -> result FileDescriptor.t := Socket.init.
Definition of_fd (fd : FileDescriptor.t) : Socket.option_answer -> Socket.option_answer -> result FileDescriptor.t :=
  Socket.of_fd fd Socket.AF_INET Socket.SOCK_STREAM.

Definition listen (c : call) : result unit := _ ← run_call "listen" c; Ok ().

(** [accept] counts as a read of the listening socket. *)
Definition accept (c : call) (so_domain so_type : Socket.option_answer) (fd : FileDescriptor.t) :
    result (FileDescriptor.t * FileDescriptor.t) :=
  let fd := FileDescriptor.register_read fd in
  n ← run_call "accept" c;
  conn ← FileDescriptor.init n;
  conn ← of_fd conn so_domain so_type;
  Ok (conn, fd).

End TCPSocket.

Module LocalStreamSocket.

Definition of_fd (fd : FileDescriptor.t) : Socket.option_answer -> Socket.option_answer -> result FileDescriptor.t :=
  Socket.of_fd fd Socket.AF_UNIX Socket.SOCK_STREAM.

End LocalStreamSocket.
