(* ===== verification/tun.v ===== *)
(** * [libsponge/util/tun.*]

    The descriptors of TUN and TAP devices: what is asked of the kernel, and
    the descriptor made of its answers.  [strncpy] is the C library's. *)

From S2P Require Import Prelude.
From S2P Require Import util.
From S2P Require Import file_descriptor.
From S2P Require Import socket.

Module TunTapFD.

Definition IFNAMSIZ : Z := 16.
Definition IFF_TUN : Z := 0x0001.
Definition IFF_TAP : Z := 0x0002.
Definition IFF_NO_PI : Z := 0x1000.

(** The two fields of [struct ifreq] that are set; the others are zero. *)
Record ifreq : Type := mk_ifreq { ifr_name : bytes; ifr_flags : Z }.

#[global] Instance eta_ifreq : Eta ifreq := fun r => mk_ifreq (ifr_name r) (ifr_flags r).

(** The characters before the first null. *)
Fixpoint c_string (s : bytes) : bytes :=
  match s with
  | [] => []
  | c :: rest => if bool_decide (c = x00) then [] else c :: c_string rest
  end.

(** [strncpy(dst, src, n)]: at most [n] characters, filled up with nulls. *)
Definition strncpy (dst src : bytes) (n : Z) : bytes :=
  take (Z.to_nat n) (c_string src ++ replicate (Z.to_nat n) x00) ++ drop (Z.to_nat n) dst.

(** The request that the constructor makes. *)
Definition request (devname : bytes) (is_tun : bool) : ifreq :=
  let tun_req := mk_ifreq (replicate (Z.to_nat IFNAMSIZ) x00) 0 in
  let tun_req := tun_req <| ifr_flags := Z.lor (if is_tun then IFF_TUN else IFF_TAP) IFF_NO_PI |> in
  let tun_req := tun_req <| ifr_name := strncpy (ifr_name tun_req) devname (IFNAMSIZ - 1) |> in
  tun_req <| ifr_name := <[Z.to_nat (IFNAMSIZ - 1) := x00]> (ifr_name tun_req) |>.

(** The constructor, with the kernel's answers to [open] and [ioctl]. *)
Definition init (open : call) (ioctl : ifreq -> call) (devname : bytes) (is_tun : bool) : result FileDescriptor.t :=
  fd ← run_call "open" open;
  w ← FileDescriptor.init fd;
  _ ← run_call "ioctl" (ioctl (request devname is_tun));
  Ok w.

Definition TunFD (open : call) (ioctl : ifreq -> call) (devname : bytes) : result FileDescriptor.t := init open ioctl devname true.
Definition TapFD (open : call) (ioctl : ifreq -> call) (devname : bytes) : result FileDescriptor.t := init open ioctl devname false.

Lemma c_string_app s rest : x00 ∉ s -> c_string (s ++ x00 :: rest) = s.
Proof.
  induction s as [|c s IH]; intros Hs; [done|]. apply not_elem_of_cons in Hs as [Hc Hs]. cbn.
  rewrite bool_decide_eq_false_2 by congruence. by rewrite IH.
Qed.

Lemma c_string_no_null s : x00 ∉ c_string s.
Proof.
  induction s as [|c s IH]; cbn; [apply not_elem_of_nil|]. case_bool_decide as Hc; [apply not_elem_of_nil|].
  apply not_elem_of_cons. split; [congruence|done].
Qed.

Lemma strncpy_shape dst src :
  length dst = 16%nat ->
  exists k, strncpy dst src 15 = take 15 (c_string src) ++ replicate k x00 ++ drop 15 dst /\ (length (take 15 (c_string src)) + k = 15)%nat.
Proof.
  intros Hd. unfold strncpy. change (Z.to_nat 15) with 15%nat.
  exists (15 - length (c_string src))%nat. rewrite take_app, take_replicate, <- app_assoc. split.
  - do 3 f_equal. lia.
  - rewrite length_take. lia.
Qed.

(** The name that the kernel sees always ends within its sixteen bytes; it is
    the device's name cut to fifteen characters. *)
Lemma request_name devname is_tun :
  length (ifr_name (request devname is_tun)) = 16%nat /\
  ifr_name (request devname is_tun) !! 15%nat = Some x00 /\
  c_string (ifr_name (request devname is_tun)) = take 15 (c_string devname).
Proof.
  change (ifr_name (request devname is_tun)) with (<[15%nat:=x00]> (strncpy (replicate (Z.to_nat IFNAMSIZ) x00) devname 15)).
  destruct (strncpy_shape (replicate (Z.to_nat IFNAMSIZ) x00) devname eq_refl) as (k & -> & Hk).
  set (name := take 15 (c_string devname)) in *. change (drop 15 (replicate (Z.to_nat IFNAMSIZ) x00)) with [x00].
  assert (length (name ++ replicate k x00) = 15%nat) as Hl by (rewrite length_app, length_replicate; done).
  rewrite app_assoc. assert (<[15%nat:=x00]> ((name ++ replicate k x00) ++ [x00]) = (name ++ replicate k x00) ++ [x00]) as ->.
  { apply list_insert_id. rewrite lookup_app_r, Hl by lia. done. }
  split; [rewrite length_app, Hl; done|]. split; [rewrite lookup_app_r, Hl by lia; done|].
  assert (exists rest, replicate k x00 ++ [x00] = x00 :: rest) as [rest Er] by (destruct k; cbn; eauto).
  rewrite <- app_assoc, Er. apply c_string_app. unfold name. intros Hin. apply (c_string_no_null devname).
  rewrite <- (take_drop 15 (c_string devname)). apply elem_of_app. by left.
Qed.

(** A successful constructor has a descriptor of the kernel's and a request
    for the device with the right kind; otherwise it throws. *)
Lemma tuntap_opens open ioctl devname is_tun :
  0 <= open.1 -> 0 <= (ioctl (request devname is_tun)).1 ->
  init open ioctl devname is_tun = Ok (FileDescriptor.mk (open.1) false false 0 0).
Proof.
  intros Ho Hi. unfold init, run_call, SystemCall. rewrite (proj2 (Z.leb_le 0 (open.1))) by done. cbn [orb mbind result_bind].
  unfold FileDescriptor.init. rewrite (proj2 (Z.ltb_ge _ _)) by done. cbn [mbind result_bind].
  by rewrite (proj2 (Z.leb_le 0 _)).
Qed.

End TunTapFD.
