(* ===== verification/eventloop.v ===== *)
(** * [libsponge/util/eventloop.*]

    The event loop: rules with callbacks on a shared world [W], one round of
    polling and serving per call of [wait_next_event].  Callbacks are functions
    on the world, which may throw; the file descriptors are part of it.  The
    rules themselves are not in it: no callback of the program adds a rule. *)

From S2P Require Import Prelude.
From S2P Require Import buffer.
From S2P Require Import util.
From S2P Require Import file_descriptor.

Module EventLoop.

Definition POLLIN : Z := 1.
Definition POLLOUT : Z := 4.
Definition POLLERR : Z := 8.
Definition POLLHUP : Z := 16.
Definition POLLNVAL : Z := 32.
Definition EINTR : Z := 4.

Inductive Direction : Type := In | Out.
Definition direction_events (d : Direction) : Z := match d with In => POLLIN | Out => POLLOUT end.
#[global] Instance Direction_eq_dec : EqDecision Direction.
Proof. solve_decision. Defined.

Inductive Result : Type := Success | Timeout | Exit.

Record pollfd : Type := mk_pollfd { p_fd : Z; p_events : Z; p_revents : Z }.

(** The answer of [poll(2)]: return value, [errno], and the [revents] it
    stored. *)
Record answer : Type := mk_answer { a_ret : Z; a_errno : Z; a_revents : list Z }.

Section loop.
Context {W : Type}.

Record Rule : Type := mk_rule {
  fd : W -> FileDescriptor.t;
  direction : Direction;
  callback : W -> result W;
  interest : W -> bool;
  cancel : W -> result W
}.

Definition service_count (r : Rule) (w : W) : Z :=
  match direction r with
  | In => FileDescriptor.read_count (fd r w)
  | Out => FileDescriptor.write_count (fd r w)
  end.

Definition add_rule (r : Rule) (_rules : list Rule) : list Rule := _rules ++ [r].

(** The first loop of [wait_next_event]: the rules that stay, their [pollfd]s,
    and [something_to_poll]. *)
Fixpoint setup_loop (rules : list Rule) (w : W) : result (list Rule * list pollfd * bool * W) :=
  match rules with
  | [] => Ok ([], [], false, w)
  | this_rule :: rules =>
      if bool_decide (direction this_rule = In) && FileDescriptor.eof (fd this_rule w) then
        w ← cancel this_rule w; setup_loop rules w
      else if FileDescriptor.closed (fd this_rule w) then
        w ← cancel this_rule w; setup_loop rules w
      else
        let i := interest this_rule w in
        let p := mk_pollfd (FileDescriptor.fd_num (fd this_rule w))
                           (if i then direction_events (direction this_rule) else 0) 0 in
        '(rules, pollfds, something_to_poll, w) ← setup_loop rules w;
        Ok (this_rule :: rules, p :: pollfds, i || something_to_poll, w)
  end.

(** The body of the second loop: whether the rule stays, and the world. *)
Definition serve (this_rule : Rule) (this_pollfd : pollfd) (w : W) : result (bool * W) :=
  let poll_error := negb (Z.land (p_revents this_pollfd) (Z.lor POLLERR POLLNVAL) =? 0) in
  if poll_error then Throw (RuntimeError "EventLoop: error on polled file descriptor") else
  let poll_ready := negb (Z.land (p_revents this_pollfd) (p_events this_pollfd) =? 0) in
  let poll_hup := negb (Z.land (p_revents this_pollfd) POLLHUP =? 0) in
  if poll_hup && negb (p_events this_pollfd =? 0) && negb poll_ready then
    w ← cancel this_rule w; Ok (false, w)
  else if poll_ready then
    let count_before := service_count this_rule w in
    w ← callback this_rule w;
    if (count_before =? service_count this_rule w) && interest this_rule w
    then Throw (RuntimeError "EventLoop: busy wait detected: callback did not read/write fd and is still interested")
    else Ok (true, w)
  else Ok (true, w).

Fixpoint serve_loop (rules : list Rule) (pollfds : list pollfd) (w : W) : result (list Rule * W) :=
  match rules, pollfds with
  | [], _ => Ok ([], w)
  | _ :: _, [] => Throw (UndefinedBehaviour "pollfds[idx]")
  | this_rule :: rules, this_pollfd :: pollfds =>
      '(keep, w) ← serve this_rule this_pollfd w;
      '(rules, w) ← serve_loop rules pollfds w;
      Ok (if (keep : bool) then this_rule :: rules else rules, w)
  end.

(** [poll(2)] stores its [revents] in the array. *)
Definition store_revents (pollfds : list pollfd) (revents : list Z) : list pollfd :=
  zip_with (fun p r => mk_pollfd (p_fd p) (p_events p) r) pollfds revents.

Definition wait_next_event (a : answer) (rules : list Rule) (w : W) : result (Result * list Rule * W) :=
  '(rules, pollfds, something_to_poll, w) ← setup_loop rules w;
  if negb something_to_poll then Ok (Exit, rules, w) else
  let pollfds := store_revents pollfds (a_revents a) in
  match SystemCall "poll" (a_ret a) (a_errno a) 0 with
  | Ok ret =>
      if ret =? 0 then Ok (Timeout, rules, w) else
      '(rules, w) ← serve_loop rules pollfds w;
      Ok (Success, rules, w)
  | Throw (UnixError _ e) =>
      if e =? EINTR then Ok (Exit, rules, w) else
      '(rules, w) ← serve_loop rules pollfds w;
      Ok (Success, rules, w)
  | Throw e => Throw e
  | OutOfFuel => OutOfFuel
  end.

#[global] Arguments serve : simpl never.

(** ** What a round preserves *)

(** What the documentation asks of a rule, relative to an invariant [P] of the
    world: its functions keep [P] and do not throw, and the callback reads or
    writes its descriptor or is no longer interested. *)
Record well_behaved (P : W -> Prop) (r : Rule) : Prop := {
  wb_callback : forall w, P w -> exists w', callback r w = Ok w' /\ P w' /\
    (service_count r w' <> service_count r w \/ interest r w' = false);
  wb_cancel : forall w, P w -> exists w', cancel r w = Ok w' /\ P w'
}.

Lemma setup_safe P rules w :
  Forall (well_behaved P) rules -> P w ->
  exists rules' pollfds b w', setup_loop rules w = Ok (rules', pollfds, b, w') /\ P w' /\
    rules' `sublist_of` rules /\ length pollfds = length rules'.
Proof.
  intros Hr. revert w. induction Hr as [|r rules Hb Hr IH]; intros w Hw; cbn [setup_loop].
  { do 4 eexists. split; [done|]. done. }
  assert (forall w, P w -> exists rules' pollfds b w',
    (w ← cancel r w; setup_loop rules w) = Ok (rules', pollfds, b, w') /\ P w' /\
    rules' `sublist_of` r :: rules /\ length pollfds = length rules') as Hc.
  { intros w0 H0. destruct (wb_cancel _ _ Hb w0 H0) as (w1 & -> & H1). cbn [mbind result_bind].
    destruct (IH w1 H1) as (l & p & b & w' & -> & ? & ? & ?). do 4 eexists. split; [done|]. split; [done|].
    split; [by apply sublist_cons|done]. }
  case_match; [by apply Hc|]. case_match; [by apply Hc|].
  destruct (IH w Hw) as (l & p & b & w' & -> & ? & ? & ?). cbn [mbind result_bind]. do 4 eexists. split; [done|].
  split; [done|]. split; [by apply sublist_skip|cbn; congruence].
Qed.

(** No error condition in [revents]. *)
Definition no_error (r : Z) : Prop := Z.land r (Z.lor POLLERR POLLNVAL) = 0.

Lemma serve_safe P r p w :
  well_behaved P r -> P w -> no_error (p_revents p) -> exists keep w', serve r p w = Ok (keep, w') /\ P w'.
Proof.
  intros Hb Hw Hn. unfold serve, no_error in *. rewrite Hn. cbn [Z.eqb negb].
  case_match; [|case_match; [|by eauto]].
  - destruct (wb_cancel _ _ Hb w Hw) as (w' & -> & ?). cbn. eauto.
  - destruct (wb_callback _ _ Hb w Hw) as (w' & -> & Hw' & Hs). cbn [mbind result_bind].
    assert ((service_count r w =? service_count r w') && interest r w' = false) as ->; [|by eauto].
    apply andb_false_iff. rewrite Z.eqb_neq. destruct Hs; [left; congruence|by right].
Qed.

Lemma serve_loop_safe P rules pollfds w :
  Forall (well_behaved P) rules -> P w -> Forall (fun p => no_error (p_revents p)) pollfds ->
  (length rules <= length pollfds)%nat ->
  exists rules' w', serve_loop rules pollfds w = Ok (rules', w') /\ P w' /\ rules' `sublist_of` rules.
Proof.
  intros Hr. revert pollfds w. induction Hr as [|r rules Hb Hr IH]; intros pollfds w Hw Hp Hl; cbn [serve_loop]; [by eauto|].
  destruct pollfds as [|p pollfds]; [cbn in Hl; lia|]. apply Forall_cons in Hp as [Hp Hps].
  destruct (serve_safe P r p w Hb Hw Hp) as (keep & w1 & -> & H1). cbn [mbind result_bind].
  destruct (IH pollfds w1 H1 Hps) as (l & w' & -> & ? & ?); [cbn in Hl; lia|]. cbn [mbind result_bind].
  do 2 eexists. split; [done|]. split; [done|]. destruct keep; [by apply sublist_skip|by apply sublist_cons].
Qed.

Lemma store_revents_safe pollfds revents :
  Forall no_error revents -> Forall (fun p => no_error (p_revents p)) (store_revents pollfds revents).
Proof.
  intros Hr. revert pollfds. induction Hr as [|r revents ? ? IH]; intros [|p pollfds]; cbn; constructor; [done|apply IH].
Qed.

(** C34: the event loop is safe for rules that follow its rules.  When [poll]
    succeeds without reporting an error on a descriptor, or is interrupted by a
    signal, a round with well-behaved rules returns, does not throw its
    busy-wait exception, keeps every invariant that the callbacks keep, and only
    ever removes rules. *)
Theorem eventloop_safe P a rules w :
  Forall (well_behaved P) rules -> P w -> 0 <= a_ret a \/ a_errno a = EINTR -> Forall no_error (a_revents a) ->
  (length rules <= length (a_revents a))%nat ->
  exists res rules' w', wait_next_event a rules w = Ok (res, rules', w') /\ P w' /\ rules' `sublist_of` rules.
Proof.
  intros Hr Hw _ Hn Hl. unfold wait_next_event.
  destruct (setup_safe P rules w Hr Hw) as (rules1 & pollfds & b & w1 & -> & H1 & Hs & Hlen). cbn [mbind result_bind].
  destruct b; cbn [negb]; [|by eauto 10].
  destruct (serve_loop_safe P rules1 (store_revents pollfds (a_revents a)) w1) as (rules2 & w2 & E & H2 & Hs2).
  { by eapply Forall_sublist. }
  { done. }
  { by apply store_revents_safe. }
  { unfold store_revents. rewrite length_zip_with. apply sublist_length in Hs. lia. }
  rewrite E. assert (rules2 `sublist_of` rules) by (by etrans).
  unfold SystemCall. repeat case_match; simplify_eq; cbn; eauto 10.
Qed.

(** ** Rules that may throw *)

(** A rule that keeps [P] whenever its functions return; its callback may rely
    on [Q r], which holds when the rule is interested. *)
Record keeps (P : W -> Prop) (Q : Rule -> W -> Prop) (r : Rule) : Prop := {
  keeps_interest : forall w, interest r w = true -> Q r w;
  keeps_callback : forall w w', P w -> Q r w -> callback r w = Ok w' -> P w';
  keeps_cancel : forall w w', P w -> cancel r w = Ok w' -> P w'
}.

(** Between the moment a rule shows interest and the moment it is served, the
    functions of the rules before it and the cancellations of those after it
    may run. *)
Definition compatible (Q : Rule -> W -> Prop) (r r' : Rule) : Prop :=
  (forall w w', callback r w = Ok w' \/ cancel r w = Ok w' -> Q r' w -> Q r' w') /\
  (forall w w', cancel r' w = Ok w' -> Q r w -> Q r w').

Fixpoint all_compatible (Q : Rule -> W -> Prop) (rules : list Rule) : Prop :=
  match rules with
  | [] => True
  | r :: rules => Forall (compatible Q r) rules /\ all_compatible Q rules
  end.

Lemma all_compatible_sublist Q rules rules' :
  rules' `sublist_of` rules -> all_compatible Q rules -> all_compatible Q rules'.
Proof.
  induction 1 as [|r l k Hs IH|r l k Hs IH]; cbn; [done| |by intros [_ ?]; apply IH].
  intros [Hf Hc]. split; [by eapply Forall_sublist|by apply IH].
Qed.

(** What every cancellation keeps, the first loop keeps. *)
Lemma setup_stable (R : W -> Prop) rules w rules' pollfds b w' :
  Forall (fun r => forall w w', cancel r w = Ok w' -> R w -> R w') rules -> R w ->
  setup_loop rules w = Ok (rules', pollfds, b, w') -> R w'.
Proof.
  intros Hr. revert w rules' pollfds b. induction Hr as [|r rules Hk Hr IH]; intros w rules' pollfds b Hw; cbn [setup_loop].
  { by intros [= _ _ _ <-]. }
  case_match; [|case_match].
  1-2: intros (w1 & H1 & H2)%result_bind_Ok; by eapply IH; [eapply Hk|].
  intros ([[[l p] c] w1] & H1 & [= _ _ _ <-])%result_bind_Ok. by eapply IH.
Qed.

(** The rules polled for an event rely on what still holds. *)
Definition polled (Q : Rule -> W -> Prop) (w : W) (r : Rule) (p : pollfd) : Prop := p_events p <> 0 -> Q r w.

Lemma setup_keeps P Q rules w rules' pollfds b w' :
  Forall (keeps P Q) rules -> all_compatible Q rules -> P w -> setup_loop rules w = Ok (rules', pollfds, b, w') ->
  P w' /\ rules' `sublist_of` rules /\ Forall2 (polled Q w') rules' pollfds.
Proof.
  intros Hr. revert w rules' pollfds b. induction Hr as [|r rules Hk Hr IH]; intros w rules' pollfds b Hc Hw; cbn [setup_loop].
  { by intros [= <- <- _ <-]. }
  destruct Hc as [Hcr Hc].
  assert ((w ← cancel r w; setup_loop rules w) = Ok (rules', pollfds, b, w') ->
    P w' /\ rules' `sublist_of` r :: rules /\ Forall2 (polled Q w') rules' pollfds) as Hcan.
  { intros (w1 & H1 & H2)%result_bind_Ok. destruct (IH w1 rules' pollfds b) as (? & ? & ?);
      [done|by eapply (keeps_cancel _ _ _ Hk)|done|]. split; [done|]. split; [by apply sublist_cons|done]. }
  case_match; [done|]. case_match; [done|].
  intros ([[[l p] c] w1] & H1 & [= <- <- _ <-])%result_bind_Ok. destruct (IH w l p c Hc Hw H1) as (? & ? & ?).
  split; [done|]. split; [by apply sublist_skip|]. constructor; [|done]. unfold polled. cbn.
  destruct (interest r w) eqn:Ei; [|done]. intros _. eapply (setup_stable (Q r)); [|by apply (keeps_interest _ _ _ Hk)|exact H1].
  eapply Forall_impl; [exact Hcr|]. intros r' [_ ?]. done.
Qed.

(** Serving a rule: [P] is kept, and so is what the other rules rely on. *)
Lemma serve_keeps P Q r p w keep w' :
  keeps P Q r -> P w -> polled Q w r p -> serve r p w = Ok (keep, w') ->
  P w' /\ forall R : W -> Prop, (forall w w', callback r w = Ok w' \/ cancel r w = Ok w' -> R w -> R w') -> R w -> R w'.
Proof.
  intros Hk Hw Hp. unfold serve. case_match; [done|]. case_match.
  { intros (w1 & H1 & [= _ <-])%result_bind_Ok. split; [by eapply (keeps_cancel _ _ _ Hk)|]. intros R HR. eapply HR. by right. }
  case_match eqn:Er; [|by intros [= _ <-]]. intros (w1 & H2 & Hend)%result_bind_Ok. cbn zeta in Hend.
  case_match; [done|]. injection Hend as _ <-. split; [|intros R HR; eapply HR; by left].
  eapply (keeps_callback _ _ _ Hk); [done| |done]. apply Hp. intros E. rewrite E, Z.land_0_r in Er. done.
Qed.

Lemma serve_loop_keeps P Q rules pollfds w rules' w' :
  Forall (keeps P Q) rules -> all_compatible Q rules -> P w -> Forall2 (polled Q w) rules pollfds ->
  serve_loop rules pollfds w = Ok (rules', w') -> P w' /\ rules' `sublist_of` rules.
Proof.
  intros Hr. revert pollfds w rules'. induction Hr as [|r rules Hk Hr IH]; intros pollfds w rules' Hc Hw Hp; cbn [serve_loop].
  { by intros [= <- <-]. }
  destruct Hc as [Hcr Hc]. apply Forall2_cons_inv_l in Hp as (p & pollfds' & Hp & Hps & ->).
  intros ([keep w1] & H1 & ([l w2] & H2 & [= <- <-])%result_bind_Ok)%result_bind_Ok.
  destruct (serve_keeps _ _ _ _ _ _ _ Hk Hw Hp H1) as [Hw1 Hst].
  destruct (IH pollfds' w1 l Hc Hw1) as [? ?]; [|done|split; [done|destruct keep; [by apply sublist_skip|by apply sublist_cons]]].
  clear -Hcr Hps Hst. induction Hps as [|r' p' rules pollfds Hp' Hps IH]; [constructor|].
  apply Forall_cons in Hcr as [[Hcr _] Hcrs]. constructor; [|by apply IH]. intros Hev. eapply Hst; [exact Hcr|by apply Hp'].
Qed.

Lemma store_revents_polled Q w rules pollfds revents :
  (length pollfds <= length revents)%nat ->
  Forall2 (polled Q w) rules pollfds -> Forall2 (polled Q w) rules (store_revents pollfds revents).
Proof.
  intros Hl H. revert revents Hl. induction H as [|r p rules pollfds Hp H IH]; intros [|e revents] Hl; cbn in *;
    [constructor|constructor|lia|]. constructor; [done|]. apply IH. lia.
Qed.

(** A round that returns keeps every invariant that its rules keep. *)
Lemma eventloop_keeps P Q a rules w res rules' w' :
  Forall (keeps P Q) rules -> all_compatible Q rules -> P w -> (length rules <= length (a_revents a))%nat ->
  wait_next_event a rules w = Ok (res, rules', w') -> P w' /\ rules' `sublist_of` rules.
Proof.
  intros Hr Hc Hw Hlen. unfold wait_next_event. intros ([[[l p] b] w1] & H1 & H)%result_bind_Ok.
  destruct (setup_keeps _ _ _ _ _ _ _ _ Hr Hc Hw H1) as (Hw1 & Hs & Hp).
  destruct b; cbn [negb] in H; [|by injection H as _ <- <-].
  assert (forall res l' w2, (('(rules, w) ← serve_loop l (store_revents p (a_revents a)) w1; Ok (Success, rules, w)) = Ok (res, l', w2)) ->
    P w2 /\ l' `sublist_of` rules) as Hserve.
  { intros res1 l' w2 ([l2 w3] & H2 & [= _ <- <-])%result_bind_Ok.
    destruct (serve_loop_keeps P Q l (store_revents p (a_revents a)) w1 l2 w3) as [? ?]; [..|done|split; [done|by etrans]].
    - by eapply Forall_sublist.
    - by eapply all_compatible_sublist.
    - done.
    - apply store_revents_polled; [|done]. apply Forall2_length in Hp. apply sublist_length in Hs. lia. }
  cbn zeta in H. repeat case_match; simplify_eq; by eauto.
Qed.

(** ** The end of the loop *)

(** A rule that is not interested stays so while later rules are cancelled. *)
Fixpoint stays_quiet (rules : list Rule) : Prop :=
  match rules with
  | [] => True
  | r :: rules =>
      Forall (fun r' => forall w w', cancel r' w = Ok w' -> interest r w = false -> interest r w' = false) rules /\
      stays_quiet rules
  end.

Lemma stays_quiet_sublist rules rules' : rules' `sublist_of` rules -> stays_quiet rules -> stays_quiet rules'.
Proof.
  induction 1 as [|r l k Hs IH|r l k Hs IH]; cbn; [done| |by intros [_ ?]; apply IH].
  intros [Hf Hq]. split; [by eapply Forall_sublist|by apply IH].
Qed.

Lemma setup_quiet rules w rules' pollfds w' :
  stays_quiet rules -> setup_loop rules w = Ok (rules', pollfds, false, w') ->
  Forall (fun r => interest r w' = false) rules'.
Proof.
  revert w rules' pollfds. induction rules as [|r rules IH]; intros w rules' pollfds Hq; cbn [setup_loop].
  { by intros [= <- _ _]. }
  destruct Hq as [Hr Hq]. case_match; [|case_match].
  1-2: intros (w1 & Hw1 & Hw2)%result_bind_Ok; by eapply IH.
  intros ([[[l p] c] w1] & Hw1 & Hw)%result_bind_Ok. destruct (interest r w) eqn:Ei; [done|]. cbn in Hw. injection Hw as <- _ -> <-.
  constructor; [|by eapply IH]. by eapply (setup_stable (fun w => interest r w = false)).
Qed.

(** A round that ends the loop, unless it was interrupted by a signal, leaves
    no rule that is interested. *)
Lemma eventloop_exit a rules w rules' w' :
  stays_quiet rules -> a_errno a <> EINTR -> wait_next_event a rules w = Ok (Exit, rules', w') ->
  Forall (fun r => interest r w' = false) rules'.
Proof.
  intros Hq He. unfold wait_next_event. intros ([[[l p] b] w1] & H1 & H)%result_bind_Ok.
  destruct b; cbn [negb] in H; [|injection H as <- <-; by eapply setup_quiet]. exfalso.
  unfold SystemCall in H. destruct (_ || _); [case_match; [done|]|].
  2: rewrite (proj2 (Z.eqb_neq _ _)) in H by done.
  all: apply result_bind_Ok in H as ([l2 w2] & _ & ?); done.
Qed.

(** A callback that reads or writes its descriptor or loses interest. *)
Definition serviced (r : Rule) : Prop :=
  forall w w', callback r w = Ok w' -> service_count r w' <> service_count r w \/ interest r w' = false.

Lemma setup_sublist rules w rules' pollfds b w' :
  setup_loop rules w = Ok (rules', pollfds, b, w') -> rules' `sublist_of` rules.
Proof.
  intros H. destruct (setup_keeps (fun _ => True) (fun _ _ => True) rules w rules' pollfds b w') as (_ & ? & _);
    [by apply Forall_forall| |done|done|done]. clear. induction rules; [done|]. split; [by apply Forall_forall|done].
Qed.

(** A round with [sv] in the place of [serve]. *)
Section round.
Variable sv : Rule -> pollfd -> W -> result (bool * W).

Fixpoint serve_with (rules : list Rule) (pollfds : list pollfd) (w : W) : result (list Rule * W) :=
  match rules, pollfds with
  | [], _ => Ok ([], w)
  | _ :: _, [] => Throw (UndefinedBehaviour "pollfds[idx]")
  | this_rule :: rules, this_pollfd :: pollfds =>
      '(keep, w) ← sv this_rule this_pollfd w;
      '(rules, w) ← serve_with rules pollfds w;
      Ok (if (keep : bool) then this_rule :: rules else rules, w)
  end.

Definition round_with (a : answer) (rules : list Rule) (w : W) : result (Result * list Rule * W) :=
  '(rules, pollfds, something_to_poll, w) ← setup_loop rules w;
  if negb something_to_poll then Ok (Exit, rules, w) else
  let served :=
    '(rules, w) ← serve_with rules (store_revents pollfds (a_revents a)) w;
    Ok (Success, rules, w) in
  match SystemCall "poll" (a_ret a) (a_errno a) 0 with
  | Ok ret => if ret =? 0 then Ok (Timeout, rules, w) else served
  | Throw (UnixError _ e) => if e =? EINTR then Ok (Exit, rules, w) else served
  | Throw e => Throw e
  | OutOfFuel => OutOfFuel
  end.
End round.

Lemma round_with_serve a rules w : round_with serve a rules w = wait_next_event a rules w.
Proof. done. Qed.

(** Serving a rule without the test for a busy wait. *)
Definition serve_untested (this_rule : Rule) (this_pollfd : pollfd) (w : W) : result (bool * W) :=
  if negb (Z.land (p_revents this_pollfd) (Z.lor POLLERR POLLNVAL) =? 0)
  then Throw (RuntimeError "EventLoop: error on polled file descriptor") else
  let poll_ready := negb (Z.land (p_revents this_pollfd) (p_events this_pollfd) =? 0) in
  let poll_hup := negb (Z.land (p_revents this_pollfd) POLLHUP =? 0) in
  if poll_hup && negb (p_events this_pollfd =? 0) && negb poll_ready then w ← cancel this_rule w; Ok (false, w)
  else if poll_ready then w ← callback this_rule w; Ok (true, w)
  else Ok (true, w).

Lemma serve_untested_eq r p w : serviced r -> serve r p w = serve_untested r p w.
Proof.
  intros Hs. unfold serve, serve_untested. repeat (case_match; [done|]). case_match; [|done].
  destruct (callback r w) as [w1| |] eqn:E; cbn; [|done..].
  case_match eqn:Eb; [|done]. apply andb_prop in Eb as [E1%Z.eqb_eq E2]. destruct (Hs w w1 E); congruence.
Qed.

Lemma serve_with_untested rules pollfds w :
  Forall serviced rules -> serve_with serve rules pollfds w = serve_with serve_untested rules pollfds w.
Proof.
  intros Hr. revert pollfds w. induction Hr as [|r rules Hs Hr IH]; intros [|p pollfds] w; cbn [serve_with]; [done..|].
  rewrite (serve_untested_eq r p w Hs). destruct (serve_untested r p w) as [[keep w1]| |]; cbn [mbind result_bind]; [|done..].
  by rewrite IH.
Qed.

(** With serviced rules the test for a busy wait makes no difference. *)
Lemma round_untested a rules w : Forall serviced rules -> wait_next_event a rules w = round_with serve_untested a rules w.
Proof.
  intros Hr. rewrite <- round_with_serve. unfold round_with.
  destruct (setup_loop rules w) as [[[[l p] b] w1]| |] eqn:E; cbn [mbind result_bind]; [|done..].
  rewrite serve_with_untested; [done|]. eapply Forall_sublist; [by eapply setup_sublist|done].
Qed.

(** An error of [poll] other than an interruption is ignored: the round
    runs no callback and reports [Success], where the documentation announces
    an exception. *)
Theorem eventloop_poll_error_ignored a rules w rules' pollfds w' :
  setup_loop rules w = Ok (rules', pollfds, true, w') -> length pollfds = length rules' ->
  a_ret a < 0 -> a_errno a <> 0 -> a_errno a <> EINTR -> a_revents a = replicate (length rules') 0 ->
  wait_next_event a rules w = Ok (Success, rules', w').
Proof.
  intros Hs Hl Hret He Hi Hr. unfold wait_next_event. rewrite Hs. cbn [mbind result_bind negb].
  unfold SystemCall. rewrite (proj2 (Z.leb_gt _ _)), (proj2 (Z.eqb_neq _ 0)) by done. cbn [orb].
  rewrite (proj2 (Z.eqb_neq _ EINTR)) by done. rewrite Hr. clear Hs Hr He Hi Hret.
  enough (serve_loop rules' (store_revents pollfds (replicate (length rules') 0)) w' = Ok (rules', w')) as -> by done.
  revert pollfds Hl. induction rules' as [|r rules' IH]; intros [|p pollfds] Hl; try done.
  assert (length pollfds = length rules') as Hl' by (cbn in Hl; lia). specialize (IH _ Hl').
  assert (serve r (mk_pollfd (p_fd p) (p_events p) 0) w' = Ok (true, w')) as Hserve by done.
  change (serve_loop (r :: rules') (mk_pollfd (p_fd p) (p_events p) 0 :: store_revents pollfds (replicate (length rules') 0)) w'
    = Ok (r :: rules', w')). cbn [serve_loop]. rewrite Hserve. cbn [mbind result_bind]. by rewrite IH.
Qed.
End loop.
Arguments Rule : clear implicits.

(** ** A rule that reads one byte at a time *)
Definition reader : Rule FileDescriptor.t :=
  mk_rule id In (fun w => Ok (FileDescriptor.register_read w)) (fun w => true) (fun w => Ok w).

Lemma reader_well_behaved : well_behaved (fun w => 0 <= FileDescriptor._read_count w < 2 ^ 32) reader.
Proof.
  split; cbn.
  - intros w Hw. eexists. split; [done|]. split; [apply u32_range|]. left. unfold service_count. cbn.
    unfold FileDescriptor.read_count. cbn. word_lia.
  - by eauto.
Qed.

Lemma eventloop_safe_witness : exists res rules' w',
  wait_next_event (mk_answer 1 0 [POLLIN]) [reader] (FileDescriptor.mk 0 false false 0 0) = Ok (res, rules', w') /\
  rules' `sublist_of` [reader].
Proof.
  destruct (eventloop_safe (fun w => 0 <= FileDescriptor._read_count w < 2 ^ 32) (mk_answer 1 0 [POLLIN]) [reader]
    (FileDescriptor.mk 0 false false 0 0)) as (res & rules' & w' & H1 & _ & H2).
  - apply Forall_singleton, reader_well_behaved.
  - by vm_compute.
  - left. by vm_compute.
  - by apply Forall_singleton.
  - cbn. lia.
  - exists res, rules', w'. split; [exact H1|exact H2].
Defined.

End EventLoop.
