(* ===== verification/fd_adapter.v ===== *)
(** * [tcp_helpers/fd_adapter.*], [lossy_fd_adapter.hh], [tcp_over_ip.*], [tuntap_adapter.*]

    The adapters between a TCP connection and a datagram service: TCP in UDP,
    TCP in IPv4 on a TUN device, TCP in IPv4 in Ethernet on a TAP device, and
    the wrapper that loses packets at random.

    Sockets and devices are the outside world: a [read] is given what the
    device yields, a [write] returns what it sends. *)

From S2P Require Import Prelude.
From S2P Require Import buffer.
From S2P Require Import parser.
From S2P Require Import util.
From S2P Require Import random.
From S2P Require Import tcp_segment.
From S2P Require Import ipv4_datagram.
From S2P Require Import ethernet_frame.
From S2P Require Import address.
From S2P Require Import socket.
From S2P Require Import network_interface.

Module FdAdapterConfig.

Record t : Type := mk {
  source : Address.t;
  destination : Address.t;
  loss_rate_dn : Z;
  loss_rate_up : Z
}.

#[global] Instance eta_t : Eta t := fun c => mk (source c) (destination c) (loss_rate_dn c) (loss_rate_up c).

Definition init : t := mk (Address.ipv4 0 0) (Address.ipv4 0 0) 0 0.

End FdAdapterConfig.

(** What [LossyFdAdapter] and [TCPSpongeSocket] ask of their parameter
    [AdaptT]: [In] is what the device yields to one read, [Out] what one write
    hands to it. *)
Class Adapter (A In Out : Type) : Type := {
  ad_config : A -> FdAdapterConfig.t;
  ad_set_config : FdAdapterConfig.t -> A -> A;
  ad_set_listening : bool -> A -> A;
  ad_read : In -> A -> result (option TCPSegment.t * list Out * A);
  ad_write : TCPSegment.t -> A -> result (list Out * A);
  ad_tick : Z -> A -> list Out * A
}.

Module FdAdapterBase.

Record t : Type := mk { _cfg : FdAdapterConfig.t; _listen : bool }.

#[global] Instance eta_t : Eta t := fun a => mk (_cfg a) (_listen a).

Definition init : t := mk FdAdapterConfig.init false.
Definition set_listening (l : bool) (a : t) : t := a <| _listen := l |>.
Definition listening (a : t) : bool := _listen a.
Definition config (a : t) : FdAdapterConfig.t := _cfg a.
Definition config_mut (c : FdAdapterConfig.t) (a : t) : t := a <| _cfg := c |>.
Definition tick (ms : Z) (a : t) : t := a.

End FdAdapterBase.
Import FdAdapterBase (listening, config, config_mut, set_listening).

(** [seg.header().sport = ...; seg.header().dport = ...]. *)
Definition set_ports (sport dport : Z) (seg : TCPSegment.t) : TCPSegment.t :=
  seg <| TCPSegment._header :=
    (TCPSegment._header seg) <| TCPHeader.sport := sport |> <| TCPHeader.dport := dport |> |>.

Module TCPOverUDPSocketAdapter.

Definition read (datagram : UDPSocket.received_datagram) (a : FdAdapterBase.t)
    : result (option TCPSegment.t * FdAdapterBase.t) :=
  if negb (listening a) && negb (Address.eqb (UDPSocket.source_address datagram) (FdAdapterConfig.destination (config a)))
  then Ok (None, a) else
  '(res, seg) ← TCPSegment.parse (Buffer.of_string (UDPSocket.payload datagram)) 0 TCPSegment.init;
  if negb (bool_decide (res = NoError)) then Ok (None, a) else
  if listening a then
    if TCPHeader.syn (TCPSegment.header seg) && negb (TCPHeader.rst (TCPSegment.header seg)) then
      let a := config_mut ((config a) <| FdAdapterConfig.destination := UDPSocket.source_address datagram |>) a in
      let a := set_listening false a in
      Ok (Some seg, a)
    else Ok (None, a)
  else Ok (Some seg, a).

(** The datagram sent and where to. *)
Definition write (seg : TCPSegment.t) (a : FdAdapterBase.t) : result (Address.t * BufferList.t) :=
  sport ← Address.port (FdAdapterConfig.source (config a));
  dport ← Address.port (FdAdapterConfig.destination (config a));
  payload ← TCPSegment.serialize 0 (set_ports sport dport seg);
  Ok (FdAdapterConfig.destination (config a), payload).

End TCPOverUDPSocketAdapter.

Module TCPOverIPv4Adapter.

Definition unwrap_tcp_in_ip (ip_dgram : IPv4Datagram.t) (a : FdAdapterBase.t)
    : result (option TCPSegment.t * FdAdapterBase.t) :=
  let header := IPv4Datagram.header ip_dgram in
  for_other ← (if listening a then Ok false else
               ip ← Address.ipv4_numeric (FdAdapterConfig.source (config a));
               Ok (negb (IPv4Header.dst header =? ip)));
  if (for_other : bool) then Ok (None, a) else
  from_other ← (if listening a then Ok false else
                ip ← Address.ipv4_numeric (FdAdapterConfig.destination (config a));
                Ok (negb (IPv4Header.src header =? ip)));
  if (from_other : bool) then Ok (None, a) else
  if negb (IPv4Header.proto header =? IPv4Header.PROTO_TCP) then Ok (None, a) else
  b ← BufferList.to_Buffer (IPv4Datagram.payload ip_dgram);
  '(res, tcp_seg) ← TCPSegment.parse b (IPv4Header.pseudo_cksum header) TCPSegment.init;
  if negb (bool_decide (res = NoError)) then Ok (None, a) else
  port ← Address.port (FdAdapterConfig.source (config a));
  if negb (TCPHeader.dport (TCPSegment.header tcp_seg) =? port) then Ok (None, a) else
  let syn := TCPHeader.syn (TCPSegment.header tcp_seg) && negb (TCPHeader.rst (TCPSegment.header tcp_seg)) in
  if listening a && negb syn then Ok (None, a) else
  a ← (if listening a then
         source ← Address.of_ip_port (IPv4Header.dst header) port;
         destination ← Address.of_ip_port (IPv4Header.src header) (TCPHeader.sport (TCPSegment.header tcp_seg));
         let a := config_mut ((config a) <| FdAdapterConfig.source := source |>
                                         <| FdAdapterConfig.destination := destination |>) a in
         Ok (set_listening false a)
       else Ok a);
  port ← Address.port (FdAdapterConfig.destination (config a));
  if negb (TCPHeader.sport (TCPSegment.header tcp_seg) =? port) then Ok (None, a) else
  Ok (Some tcp_seg, a).

Definition wrap_tcp_in_ip (seg : TCPSegment.t) (a : FdAdapterBase.t) : result IPv4Datagram.t :=
  sport ← Address.port (FdAdapterConfig.source (config a));
  dport ← Address.port (FdAdapterConfig.destination (config a));
  let seg := set_ports sport dport seg in
  src ← Address.ipv4_numeric (FdAdapterConfig.source (config a));
  dst ← Address.ipv4_numeric (FdAdapterConfig.destination (config a));
  let header := IPv4Header.init <| IPv4Header.src := src |> <| IPv4Header.dst := dst |> in
  let header := header <| IPv4Header.len := u16 (IPv4Header.hlen header * 4
     + TCPHeader.doff (TCPSegment.header seg) * 4 + Buffer.size (TCPSegment.payload seg)) |> in
  payload ← TCPSegment.serialize (IPv4Header.pseudo_cksum header) seg;
  Ok (IPv4Datagram.mk header payload).

End TCPOverIPv4Adapter.
Import TCPOverIPv4Adapter (unwrap_tcp_in_ip, wrap_tcp_in_ip).

Module TCPOverIPv4OverTunFdAdapter.

Definition read (packet : bytes) (a : FdAdapterBase.t) : result (option TCPSegment.t * FdAdapterBase.t) :=
  '(res, ip_dgram) ← IPv4Datagram.parse (Buffer.of_string packet) IPv4Datagram.init;
  if negb (bool_decide (res = NoError)) then Ok (None, a) else unwrap_tcp_in_ip ip_dgram a.

Definition write (seg : TCPSegment.t) (a : FdAdapterBase.t) : result BufferList.t :=
  ip_dgram ← wrap_tcp_in_ip seg a;
  IPv4Datagram.serialize ip_dgram.

End TCPOverIPv4OverTunFdAdapter.

Module TCPOverIPv4OverEthernetAdapter.

Record t : Type := mk {
  base : FdAdapterBase.t;
  _interface : NetworkInterface.t;
  _next_hop : Address.t
}.

#[global] Instance eta_t : Eta t := fun a => mk (base a) (_interface a) (_next_hop a).

(** [while (not frames_out().empty()) { _tap.write(front().serialize()); pop(); }]. *)
Fixpoint send_loop (frames : list EthernetFrame.t) : list BufferList.t :=
  match frames with
  | [] => []
  | front :: frames => EthernetFrame.serialize front :: send_loop frames
  end.

Definition send_pending (a : t) : list BufferList.t * t :=
  (send_loop (NetworkInterface.frames_out (_interface a)),
   a <| _interface := (_interface a) <| NetworkInterface._frames_out := [] |> |>).

(** The constructor also sends an empty frame. *)
Definition init (eth_address : EthernetAddress) (ip_address next_hop : Address.t) : list BufferList.t * t :=
  ([EthernetFrame.serialize EthernetFrame.init],
   mk FdAdapterBase.init (NetworkInterface.init eth_address ip_address) next_hop).

Definition read (packet : bytes) (a : t) : result (option TCPSegment.t * list BufferList.t * t) :=
  '(res, frame) ← EthernetFrame.parse (Buffer.of_string packet) EthernetFrame.init;
  if negb (bool_decide (res = NoError)) then Ok (None, [], a) else
  '(ip_dgram, i) ← NetworkInterface.recv_frame frame (_interface a);
  let a := a <| _interface := i |> in
  let '(out, a) := send_pending a in
  match ip_dgram with
  | Some ip_dgram =>
      '(seg, b) ← unwrap_tcp_in_ip ip_dgram (base a);
      Ok (seg, out, a <| base := b |>)
  | None => Ok (None, out, a)
  end.

Definition tick (ms_since_last_tick : Z) (a : t) : list BufferList.t * t :=
  send_pending (a <| _interface := NetworkInterface.tick ms_since_last_tick (_interface a) |>).

Definition write (seg : TCPSegment.t) (a : t) : result (list BufferList.t * t) :=
  dgram ← wrap_tcp_in_ip seg (base a);
  i ← NetworkInterface.send_datagram dgram (_next_hop a) (_interface a);
  Ok (send_pending (a <| _interface := i |>)).

End TCPOverIPv4OverEthernetAdapter.

#[global] Instance udp_adapter :
    Adapter FdAdapterBase.t UDPSocket.received_datagram (Address.t * BufferList.t) := {
  ad_config := config;
  ad_set_config := config_mut;
  ad_set_listening := set_listening;
  ad_read := fun d a => '(seg, a) ← TCPOverUDPSocketAdapter.read d a; Ok (seg, [], a);
  ad_write := fun seg a => out ← TCPOverUDPSocketAdapter.write seg a; Ok ([out], a);
  ad_tick := fun ms a => ([], FdAdapterBase.tick ms a)
}.

#[global] Instance tun_adapter : Adapter FdAdapterBase.t bytes BufferList.t := {
  ad_config := config;
  ad_set_config := config_mut;
  ad_set_listening := set_listening;
  ad_read := fun d a => '(seg, a) ← TCPOverIPv4OverTunFdAdapter.read d a; Ok (seg, [], a);
  ad_write := fun seg a => out ← TCPOverIPv4OverTunFdAdapter.write seg a; Ok ([out], a);
  ad_tick := fun ms a => ([], FdAdapterBase.tick ms a)
}.

#[global] Instance ethernet_adapter : Adapter TCPOverIPv4OverEthernetAdapter.t bytes BufferList.t := {
  ad_config := fun a => config (TCPOverIPv4OverEthernetAdapter.base a);
  ad_set_config := fun c a =>
    a <| TCPOverIPv4OverEthernetAdapter.base := config_mut c (TCPOverIPv4OverEthernetAdapter.base a) |>;
  ad_set_listening := fun l a =>
    a <| TCPOverIPv4OverEthernetAdapter.base := set_listening l (TCPOverIPv4OverEthernetAdapter.base a) |>;
  ad_read := TCPOverIPv4OverEthernetAdapter.read;
  ad_write := TCPOverIPv4OverEthernetAdapter.write;
  ad_tick := TCPOverIPv4OverEthernetAdapter.tick
}.

Module LossyFdAdapter.

(** What is asked of the random number engine. *)
Class Engine (G : Type) : Type := next : G -> Z * G.

#[global] Instance mt19937_engine : Engine mt19937.t := mt19937.next.

Record t (G A : Type) : Type := mk { _rand : G; _adapter : A }.
Arguments mk {G A} _ _.
Arguments _rand {G A} _.
Arguments _adapter {G A} _.

(** The constructor: the engine is [get_random_generator()]. *)
Definition init {A : Type} (draws : list Z) (adapter : A) : t mt19937.t A := mk (get_random_generator draws) adapter.

Section lossy.
Context {G AdapterT I O : Type} `{!Engine G} `{!Adapter AdapterT I O}.

(** A number is drawn only if the loss rate is not zero. *)
Definition _should_drop (uplink : bool) (a : t G AdapterT) : bool * t G AdapterT :=
  let cfg := ad_config (_adapter a) in
  let loss := if uplink then FdAdapterConfig.loss_rate_up cfg else FdAdapterConfig.loss_rate_dn cfg in
  if loss =? 0 then (false, a) else
  let '(r, g) := next (_rand a) in
  (u16 r <? loss, mk g (_adapter a)).

Definition read (d : I) (a : t G AdapterT) : result (option TCPSegment.t * list O * t G AdapterT) :=
  '(ret, out, b) ← ad_read d (_adapter a);
  let a := mk (_rand a) b in
  let '(drop, a) := _should_drop false a in
  if (drop : bool) then Ok (None, out, a) else Ok (ret, out, a).

Definition write (seg : TCPSegment.t) (a : t G AdapterT) : result (list O * t G AdapterT) :=
  let '(drop, a) := _should_drop true a in
  if (drop : bool) then Ok ([], a) else
  '(out, b) ← ad_write seg (_adapter a);
  Ok (out, mk (_rand a) b).

Definition tick (ms_since_last_tick : Z) (a : t G AdapterT) : list O * t G AdapterT :=
  let '(out, b) := ad_tick ms_since_last_tick (_adapter a) in (out, mk (_rand a) b).

End lossy.

End LossyFdAdapter.

(** A lossy adapter is an adapter. *)
#[global] Instance lossy_adapter {G AdapterT I O} `{!LossyFdAdapter.Engine G} `{!Adapter AdapterT I O} :
    Adapter (LossyFdAdapter.t G AdapterT) I O := {
  ad_config := fun a => ad_config (LossyFdAdapter._adapter a);
  ad_set_config := fun c a => LossyFdAdapter.mk (LossyFdAdapter._rand a) (ad_set_config c (LossyFdAdapter._adapter a));
  ad_set_listening := fun l a =>
    LossyFdAdapter.mk (LossyFdAdapter._rand a) (ad_set_listening l (LossyFdAdapter._adapter a));
  ad_read := LossyFdAdapter.read;
  ad_write := LossyFdAdapter.write;
  ad_tick := LossyFdAdapter.tick
}.

(** ** What the adapters promise *)

Lemma pseudo_cksum_range h :
  is_u32 (IPv4Header.src h) -> is_u32 (IPv4Header.dst h) -> is_u8 (IPv4Header.proto h) ->
  0 <= IPv4Header.pseudo_cksum h <= 5 * 65535 + 255.
Proof.
  intros Hs Hd Hp. unfold IPv4Header.pseudo_cksum.
  pose proof (u16_range (IPv4Header.len h - 4 * IPv4Header.hlen h)) as Hl. fold (IPv4Header.payload_length h) in Hl.
  change 0xffff with (Z.ones 16). rewrite !Z.land_ones, !Z.shiftr_div_pow2 by lia.
  assert (forall x, is_u32 x -> 0 <= x / 2 ^ 16 + x mod 2 ^ 16 <= 2 * 65535) as Hx by (intros; word_lia).
  pose proof (Hx _ Hs) as Ha. pose proof (Hx _ Hd) as Hb. unfold is_u8, is_u16 in *. clear Hx Hs Hd.
  set (a := IPv4Header.src h / _ + _) in *. set (b := IPv4Header.dst h / _ + _) in *. clearbody a b.
  rewrite (u32_id a) by (unfold is_u32; lia). rewrite (u32_id (a + b)) by (unfold is_u32; lia).
  rewrite (u32_id (a + b + _)) by (unfold is_u32; lia). rewrite u32_id by (unfold is_u32; lia).
  change (Z.ones 16) with 65535. lia.
Qed.

Lemma wrap_header_wf src dst len :
  is_u32 src -> is_u32 dst -> is_u16 len ->
  IPv4Header.wf (IPv4Header.init <| IPv4Header.src := src |> <| IPv4Header.dst := dst |> <| IPv4Header.len := len |>).
Proof. intros ???. split; cbn; try done; word_lia. Qed.

(** A segment that fits in an IPv4 datagram without options. *)
Record fits_ipv4 (seg : TCPSegment.t) : Prop := {
  fi_wf : TCPSegment.wf seg;
  fi_doff : 5 <= TCPHeader.doff (TCPSegment._header seg);
  fi_len : 20 + 4 * TCPHeader.doff (TCPSegment._header seg) + zlen (Buffer.str (TCPSegment._payload seg)) < 2 ^ 16
}.

Lemma set_ports_fits sport dport seg :
  is_u16 sport -> is_u16 dport -> fits_ipv4 seg -> fits_ipv4 (set_ports sport dport seg).
Proof. intros ?? [[[] ?] ? ?]. by split. Qed.

(** The received segment: the one sent, with the ports and the checksum
    filled in. *)
Definition received_as (seg : TCPSegment.t) (sport dport : Z) (seg' : TCPSegment.t) : Prop :=
  Buffer.str (TCPSegment._payload seg') = Buffer.str (TCPSegment._payload seg) /\
  exists v, TCPSegment._header seg' =
    (TCPSegment._header seg) <| TCPHeader.sport := sport |> <| TCPHeader.dport := dport |> <| TCPHeader.cksum := v |>.

Section pair.
Context (ipa pa ipb pb : Z).
Context (Hipa : is_u32 ipa) (Hpa : is_u16 pa) (Hipb : is_u32 ipb) (Hpb : is_u16 pb).

(** An end that talks from [ipa:pa] to [ipb:pb]. *)
Definition talks (a : FdAdapterBase.t) : Prop :=
  FdAdapterConfig.source (config a) = Address.ipv4 ipa pa /\
  FdAdapterConfig.destination (config a) = Address.ipv4 ipb pb.

(** The other end: connected to [ipa:pa] from [ipb:pb], or listening on the
    port [pb] of any address. *)
Definition hears (b : FdAdapterBase.t) : Prop :=
  if listening b then exists ip, FdAdapterConfig.source (config b) = Address.ipv4 ip pb
  else FdAdapterConfig.source (config b) = Address.ipv4 ipb pb /\
       FdAdapterConfig.destination (config b) = Address.ipv4 ipa pa.

(** The other end once it has heard from this one. *)
Definition connected (b : FdAdapterBase.t) : FdAdapterBase.t :=
  if listening b then
    FdAdapterBase.mk ((config b) <| FdAdapterConfig.source := Address.ipv4 ipb pb |>
                                 <| FdAdapterConfig.destination := Address.ipv4 ipa pa |>) false
  else b.

Lemma wrap_spec a seg :
  talks a -> fits_ipv4 seg ->
  exists d, wrap_tcp_in_ip seg a = Ok d /\ IPv4Datagram.sendable d /\
    IPv4Header.src (IPv4Datagram._header d) = ipa /\ IPv4Header.dst (IPv4Datagram._header d) = ipb /\
    IPv4Header.proto (IPv4Datagram._header d) = IPv4Header.PROTO_TCP /\
    IPv4Header.len (IPv4Datagram._header d) < 2 ^ 16 /\
    forall buf, Buffer.wf buf -> Buffer.str buf = BufferList.concatenate (IPv4Datagram._payload d) ->
      exists seg', TCPSegment.parse buf (IPv4Header.pseudo_cksum (IPv4Datagram._header d)) TCPSegment.init = Ok (NoError, seg') /\
        received_as seg pa pb seg'.
Proof.
  intros [Es Ed] Hf. unfold wrap_tcp_in_ip. rewrite Es, Ed, !Address.port_eq, !Address.ipv4_numeric_eq by done.
  cbn [mbind result_bind]. pose proof (set_ports_fits pa pb seg Hpa Hpb Hf) as [Hw Hd Hl].
  set (sg := set_ports pa pb seg) in *. set (h := upd IPv4Header.len _ _).
  pose proof (Buffer.str_size _ (TCPSegment.wf_payload _ Hw)) as Hsz.
  assert (IPv4Header.len h = 20 + 4 * TCPHeader.doff (TCPSegment._header sg) + zlen (Buffer.str (TCPSegment._payload sg))) as Hlen.
  { unfold h. cbn [IPv4Header.len upd]. unfold Buffer.size, TCPSegment.header, TCPSegment.payload. cbn [IPv4Header.hlen upd IPv4Header.init].
    change (IPv4Header.LENGTH / 4) with 5. rewrite u16_id; word_lia. }
  assert (0 <= IPv4Header.pseudo_cksum h <= 5 * 65535 + 255) as Hck by (apply pseudo_cksum_range; [exact Hipa|exact Hipb|change (is_u8 6); word_lia]).
  destruct (TCPSegment.tcp_segment_read_back (IPv4Header.pseudo_cksum h) sg TCPSegment.init Hw Hd) as (l & v & Hs & Hu & Hz & Hp).
  { split; lia. }
  rewrite Hs. cbn [mbind result_bind]. eexists. split; [done|]. split.
  { split; cbn [IPv4Datagram._header IPv4Datagram._payload].
    - apply wrap_header_wf; [done|done|]. apply u16_range.
    - reflexivity.
    - change (IPv4Header.hlen h) with 5. lia.
    - rewrite Hz, Hlen. change (IPv4Header.hlen h) with 5. lia. }
  split; [done|]. split; [done|]. split; [done|]. cbn [IPv4Datagram._header IPv4Datagram._payload]. split; [lia|].
  intros buf Hb Hstr. destruct (Hp buf Hb Hstr) as (seg' & H1 & H2 & H3). exists seg'. split; [exact H1|].
  split; [exact H3|]. by exists v.
Qed.

Lemma unwrap_spec b d buf seg seg' :
  hears b -> IPv4Header.src (IPv4Datagram._header d) = ipa -> IPv4Header.dst (IPv4Datagram._header d) = ipb ->
  IPv4Header.proto (IPv4Datagram._header d) = IPv4Header.PROTO_TCP -> IPv4Datagram._payload d = [buf] ->
  TCPSegment.parse buf (IPv4Header.pseudo_cksum (IPv4Datagram._header d)) TCPSegment.init = Ok (NoError, seg') ->
  received_as seg pa pb seg' ->
  (listening b = true -> TCPHeader.syn (TCPSegment._header seg) = true /\ TCPHeader.rst (TCPSegment._header seg) = false) ->
  unwrap_tcp_in_ip d b = Ok (Some seg', connected b).
Proof.
  intros Hb Hsrc Hdst Hproto Hpl Hparse [_ [v Hh]] Hsyn. unfold unwrap_tcp_in_ip, connected, hears in *.
  unfold IPv4Datagram.header, IPv4Datagram.payload, TCPSegment.header in *. rewrite Hsrc, Hdst, Hproto, Hpl.
  destruct (listening b) eqn:Hl.
  - destruct Hb as [ip Es]. destruct (Hsyn eq_refl) as [H1 H2].
    cbn [mbind result_bind BufferList.to_Buffer]. change (IPv4Header.PROTO_TCP =? IPv4Header.PROTO_TCP) with true.
    cbn [negb]. rewrite Hparse. cbn [mbind result_bind]. rewrite bool_decide_true by done. cbn [negb].
    rewrite Es, Address.port_eq by done. cbn [mbind result_bind]. rewrite Hh.
    cbn [TCPHeader.sport TCPHeader.dport TCPHeader.syn TCPHeader.rst upd]. rewrite Z.eqb_refl, H1, H2. cbn [negb andb].
    rewrite !Address.of_ip_port_eq. cbn [mbind result_bind].
    match goal with |- context [config (set_listening false ?a)] =>
      change (FdAdapterConfig.destination (config (set_listening false a))) with (Address.ipv4 ipa pa) end.
    rewrite Address.port_eq by done. cbn [mbind result_bind]. rewrite Z.eqb_refl. reflexivity.
  - destruct Hb as [Es Ed]. rewrite Es, Ed, !Address.ipv4_numeric_eq by done.
    cbn [mbind result_bind BufferList.to_Buffer]. rewrite !Z.eqb_refl. cbn [negb].
    rewrite Hparse. cbn [mbind result_bind]. rewrite bool_decide_true by done. cbn [negb].
    rewrite Address.port_eq by done. cbn [mbind result_bind]. rewrite Hh.
    cbn [TCPHeader.sport TCPHeader.dport upd]. rewrite Z.eqb_refl. cbn [negb andb mbind result_bind].
    rewrite Ed, Address.port_eq by done. cbn [mbind result_bind]. rewrite Z.eqb_refl. reflexivity.
Qed.

(** What one end's TUN adapter writes, the other end's reads. *)
Lemma tun_read_back a b seg :
  talks a -> hears b -> fits_ipv4 seg ->
  (listening b = true -> TCPHeader.syn (TCPSegment._header seg) = true /\ TCPHeader.rst (TCPSegment._header seg) = false) ->
  exists out seg', TCPOverIPv4OverTunFdAdapter.write seg a = Ok out /\
    TCPOverIPv4OverTunFdAdapter.read (BufferList.concatenate out) b = Ok (Some seg', connected b) /\
    received_as seg pa pb seg'.
Proof.
  intros Ha Hb Hf Hsyn. destruct (wrap_spec a seg Ha Hf) as (d & Hw & Hsd & Hsrc & Hdst & Hproto & _ & Hp).
  destruct (IPv4Datagram.ipv4_datagram_read_back d IPv4Datagram.init Hsd) as (l & v & Hs & Hz & _ & Hr).
  destruct (Hr (Buffer.of_string (BufferList.concatenate l))) as (p & pl & Hpd & _ & Hwf & Hstr);
    [by apply Buffer.of_string_wf|by apply Buffer.str_of_string|].
  destruct (Hp pl Hwf Hstr) as (seg' & Hparse & Hrec). exists l, seg'. split; [|split; [|done]].
  - unfold TCPOverIPv4OverTunFdAdapter.write. rewrite Hw. exact Hs.
  - unfold TCPOverIPv4OverTunFdAdapter.read. rewrite Hpd. cbn [mbind result_bind]. rewrite bool_decide_true by done.
    cbn [negb]. by apply (unwrap_spec b _ pl seg seg').
Qed.

End pair.

(** TCP over IPv4.  A segment written by one end's adapter and read by the
    other end's arrives with every field but ports and checksum unchanged and
    its payload intact; a listening end accepts a SYN that is not a RST and is
    from then on connected to the sender. *)
Theorem tun_roundtrip ipa pa ipb pb a b seg :
  is_u32 ipa -> is_u16 pa -> is_u32 ipb -> is_u16 pb ->
  talks ipa pa ipb pb a -> hears ipa pa ipb pb b -> fits_ipv4 seg ->
  (listening b = true -> TCPHeader.syn (TCPSegment._header seg) = true /\ TCPHeader.rst (TCPSegment._header seg) = false) ->
  exists out seg', TCPOverIPv4OverTunFdAdapter.write seg a = Ok out /\
    TCPOverIPv4OverTunFdAdapter.read (BufferList.concatenate out) b = Ok (Some seg', connected ipa pa ipb pb b) /\
    received_as seg pa pb seg'.
Proof. intros. apply tun_read_back; assumption. Qed.

Definition client : FdAdapterBase.t :=
  FdAdapterBase.mk (FdAdapterConfig.mk (Address.ipv4 0x0a000001 1024) (Address.ipv4 0x0a000002 80) 0 0) false.
Definition server : FdAdapterBase.t :=
  FdAdapterBase.mk (FdAdapterConfig.mk (Address.ipv4 0 80) (Address.ipv4 0 0) 0 0) true.

(** ** Ethernet *)

(** An Ethernet adapter whose interface knows the next hop's address puts the
    same datagram in one frame to it, and the neighbour's adapter takes it out. *)
Lemma ethernet_read_back ipa pa ipb pb a b seg next_ip mac time :
  is_u32 ipa -> is_u16 pa -> is_u32 ipb -> is_u16 pb ->
  talks ipa pa ipb pb (TCPOverIPv4OverEthernetAdapter.base a) ->
  hears ipa pa ipb pb (TCPOverIPv4OverEthernetAdapter.base b) -> fits_ipv4 seg ->
  (listening (TCPOverIPv4OverEthernetAdapter.base b) = true ->
     TCPHeader.syn (TCPSegment._header seg) = true /\ TCPHeader.rst (TCPSegment._header seg) = false) ->
  Address.ipv4_numeric (TCPOverIPv4OverEthernetAdapter._next_hop a) = Ok next_ip ->
  NetworkInterface._mapping (TCPOverIPv4OverEthernetAdapter._interface a) !! next_ip = Some (mac, time) ->
  NetworkInterface._frames_out (TCPOverIPv4OverEthernetAdapter._interface a) = [] ->
  NetworkInterface._frames_out (TCPOverIPv4OverEthernetAdapter._interface b) = [] ->
  NetworkInterface._ethernet_address (TCPOverIPv4OverEthernetAdapter._interface b) = mac ->
  length (NetworkInterface._ethernet_address (TCPOverIPv4OverEthernetAdapter._interface a)) = 6%nat ->
  length mac = 6%nat ->
  exists out seg', TCPOverIPv4OverEthernetAdapter.write seg a = Ok ([out], a) /\
    TCPOverIPv4OverEthernetAdapter.read (BufferList.concatenate out) b =
      Ok (Some seg', [], b <| TCPOverIPv4OverEthernetAdapter.base :=
                              connected ipa pa ipb pb (TCPOverIPv4OverEthernetAdapter.base b) |>) /\
    received_as seg pa pb seg'.
Proof.
  intros Hipa Hpa Hipb Hpb Ha Hb Hf Hsyn Hnh Hm Hfa Hfb Hmac Hla Hlm.
  destruct (wrap_spec ipa pa ipb pb Hipa Hpa Hipb Hpb _ seg Ha Hf) as (d & Hw & Hsd & Hsrc & Hdst & Hproto & Hlen & Hp).
  destruct (IPv4Datagram.ipv4_datagram_read_back d IPv4Datagram.init Hsd) as (l & v & Hs & Hz & Hzl & Hr).
  set (src := NetworkInterface._ethernet_address (TCPOverIPv4OverEthernetAdapter._interface a)) in *.
  set (f := EthernetFrame.mk (EthernetHeader.mk mac src EthernetHeader.TYPE_IPv4) l).
  destruct (EthernetFrame.ethernet_frame_read_back f EthernetFrame.init) as [Hu Hfr].
  { split; [done|done|]. change (is_u16 0x800). word_lia. }
  { change (EthernetFrame._payload f) with l. pose proof (zlen_nonneg (BufferList.concatenate l)). word_lia. }
  destruct (Hfr (Buffer.of_string (BufferList.concatenate (EthernetFrame.serialize f)))) as (pf & Hpf & Hpfw & Hpfs);
    [by apply Buffer.of_string_wf|by apply Buffer.str_of_string|].
  destruct (Hr pf Hpfw Hpfs) as (p & pl & Hpd & _ & Hwf & Hstr).
  destruct (Hp pl Hwf Hstr) as (seg' & Hparse & Hrec). exists (EthernetFrame.serialize f), seg'. split; [|split; [|done]].
  - unfold TCPOverIPv4OverEthernetAdapter.write. rewrite Hw. cbn [mbind result_bind].
    unfold NetworkInterface.send_datagram. rewrite Hnh. cbn [mbind result_bind]. rewrite Hm, Hs. cbn [mbind result_bind].
    fold src. fold f. unfold TCPOverIPv4OverEthernetAdapter.send_pending, NetworkInterface.push_frame.
    cbn. rewrite Hfa. cbn. do 2 f_equal. destruct a as [ba [] nh]. cbn in *. by subst.
  - unfold TCPOverIPv4OverEthernetAdapter.read. rewrite Hpf. cbn [mbind result_bind]. rewrite bool_decide_true by done.
    cbn [negb]. unfold NetworkInterface.recv_frame, NetworkInterface.for_me.
    cbn [EthernetFrame.header EthernetFrame._header EthernetHeader.dst EthernetHeader.type f EthernetFrame.payload EthernetFrame._payload].
    rewrite Hmac, bool_decide_true by done. cbn [orb negb].
    change (EthernetHeader.TYPE_IPv4 =? EthernetHeader.TYPE_ARP) with false.
    change (EthernetHeader.TYPE_IPv4 =? EthernetHeader.TYPE_IPv4) with true. cbn [BufferList.to_Buffer mbind result_bind].
    rewrite Hpd. cbn [mbind result_bind]. rewrite bool_decide_true by done.
    unfold TCPOverIPv4OverEthernetAdapter.send_pending.
    cbn [TCPOverIPv4OverEthernetAdapter._interface upd NetworkInterface.frames_out TCPOverIPv4OverEthernetAdapter.base].
    unfold NetworkInterface.frames_out. cbn [mbind result_bind].
    rewrite (unwrap_spec ipa pa ipb pb Hipa Hpa Hipb Hpb _ _ pl seg seg'); try done.
    cbn. rewrite Hfb. cbn. do 2 f_equal. destruct b as [bb [] nh]. cbn in *. by subst.
Qed.

(** C27: the whole stack.  When the next hop's Ethernet address is already in
    the interface's table, a segment that fits in a datagram and is written to
    the Ethernet adapter leaves in one frame.  The next hop's adapter, if it is
    that connection's other end or listens on its port, and in the latter case
    if the segment is a SYN without RST, reads from that frame the same segment,
    ports and checksum filled in, through Ethernet, IPv4 and TCP parsing and
    both checksums. *)
Theorem ethernet_stack_roundtrip ipa pa ipb pb a b seg next_ip mac time :
  is_u32 ipa -> is_u16 pa -> is_u32 ipb -> is_u16 pb ->
  talks ipa pa ipb pb (TCPOverIPv4OverEthernetAdapter.base a) ->
  hears ipa pa ipb pb (TCPOverIPv4OverEthernetAdapter.base b) -> fits_ipv4 seg ->
  (listening (TCPOverIPv4OverEthernetAdapter.base b) = true ->
     TCPHeader.syn (TCPSegment._header seg) = true /\ TCPHeader.rst (TCPSegment._header seg) = false) ->
  Address.ipv4_numeric (TCPOverIPv4OverEthernetAdapter._next_hop a) = Ok next_ip ->
  NetworkInterface._mapping (TCPOverIPv4OverEthernetAdapter._interface a) !! next_ip = Some (mac, time) ->
  NetworkInterface._frames_out (TCPOverIPv4OverEthernetAdapter._interface a) = [] ->
  NetworkInterface._frames_out (TCPOverIPv4OverEthernetAdapter._interface b) = [] ->
  NetworkInterface._ethernet_address (TCPOverIPv4OverEthernetAdapter._interface b) = mac ->
  length (NetworkInterface._ethernet_address (TCPOverIPv4OverEthernetAdapter._interface a)) = 6%nat ->
  length mac = 6%nat ->
  exists out seg', TCPOverIPv4OverEthernetAdapter.write seg a = Ok ([out], a) /\
    TCPOverIPv4OverEthernetAdapter.read (BufferList.concatenate out) b =
      Ok (Some seg', [], b <| TCPOverIPv4OverEthernetAdapter.base :=
                              connected ipa pa ipb pb (TCPOverIPv4OverEthernetAdapter.base b) |>) /\
    received_as seg pa pb seg'.
Proof. apply ethernet_read_back. Qed.

Lemma ethernet_stack_roundtrip_witness :
  let a := TCPOverIPv4OverEthernetAdapter.mk client
    ((NetworkInterface.init NetworkInterface.mac_a (Address.ipv4 0x0a000001 0))
       <| NetworkInterface._mapping := {[ 0x0a000002 := (NetworkInterface.mac_b, 0) ]} |>) (Address.ipv4 0x0a000002 0) in
  let b := TCPOverIPv4OverEthernetAdapter.mk server
    (NetworkInterface.init NetworkInterface.mac_b (Address.ipv4 0x0a000002 0)) (Address.ipv4 0x0a000001 0) in
  exists out seg', TCPOverIPv4OverEthernetAdapter.write TCPSegment.sample a = Ok ([out], a) /\
    exists b', TCPOverIPv4OverEthernetAdapter.read (BufferList.concatenate out) b = Ok (Some seg', [], b').
Proof.
  intros a b.
  destruct (ethernet_stack_roundtrip 0x0a000001 1024 0x0a000002 80 a b TCPSegment.sample 0x0a000002 NetworkInterface.mac_b 0)
    as (out & seg' & H1 & H2 & _);
    [word_lia|word_lia|word_lia|word_lia|split; reflexivity|exists 0; reflexivity|split; [apply TCPSegment.sample_wf|by vm_compute|by vm_compute]|
     intros _; split; reflexivity|reflexivity..|].
  exists out, seg'. split; [exact H1|]. eexists. exact H2.
Defined.

(** C28: the adapter hands to TCP only what belongs to its connection.  A
    segment returned had a valid checksum, was TCP, and was addressed to the
    adapter's port; a connected adapter returns only its peer's segments and
    does not change, a listening one returns only a SYN that is not a RST and
    takes that segment's addresses and ports as its connection.  When nothing
    is returned the adapter is unchanged. *)
Theorem unwrap_filters d a o a' :
  BufferList.wf (IPv4Datagram._payload d) -> is_u32 (IPv4Header.pseudo_cksum (IPv4Datagram._header d)) ->
  unwrap_tcp_in_ip d a = Ok (o, a') ->
  match o with
  | None => a' = a
  | Some seg =>
      IPv4Header.proto (IPv4Datagram._header d) = IPv4Header.PROTO_TCP /\
      (exists b, BufferList.to_Buffer (IPv4Datagram._payload d) = Ok b /\
         TCPSegment.parse b (IPv4Header.pseudo_cksum (IPv4Datagram._header d)) TCPSegment.init = Ok (NoError, seg)) /\
      Address.port (FdAdapterConfig.source (config a)) = Ok (TCPHeader.dport (TCPSegment._header seg)) /\
      if listening a then
        TCPHeader.syn (TCPSegment._header seg) = true /\ TCPHeader.rst (TCPSegment._header seg) = false /\
        a' = connected (IPv4Header.src (IPv4Datagram._header d)) (TCPHeader.sport (TCPSegment._header seg))
                       (IPv4Header.dst (IPv4Datagram._header d)) (TCPHeader.dport (TCPSegment._header seg)) a
      else
        Address.ipv4_numeric (FdAdapterConfig.source (config a)) = Ok (IPv4Header.dst (IPv4Datagram._header d)) /\
        Address.ipv4_numeric (FdAdapterConfig.destination (config a)) = Ok (IPv4Header.src (IPv4Datagram._header d)) /\
        Address.port (FdAdapterConfig.destination (config a)) = Ok (TCPHeader.sport (TCPSegment._header seg)) /\
        a' = a
  end.
Proof.
  intros Hw Hck. unfold unwrap_tcp_in_ip, IPv4Datagram.header, IPv4Datagram.payload, TCPSegment.header, connected.
  intros (b1 & E1 & H)%result_bind_Ok. destruct b1; [by simplify_eq|].
  apply result_bind_Ok in H as (b2 & E2 & H). destruct b2; [by simplify_eq|].
  destruct (Z.eqb_spec (IPv4Header.proto (IPv4Datagram._header d)) IPv4Header.PROTO_TCP) as [Hproto|]; cbn [negb] in H;
    [|by simplify_eq].
  apply result_bind_Ok in H as (buf & Hbuf & ([res seg] & Hparse & H)%result_bind_Ok).
  case_bool_decide as Hres; cbn [negb] in H; [|by simplify_eq]. subst res.
  apply result_bind_Ok in H as (port & Hport & H).
  destruct (Z.eqb_spec (TCPHeader.dport (TCPSegment._header seg)) port) as [Hd|]; cbn [negb] in H; [|by simplify_eq].
  destruct (listening a) eqn:Hl.
  - destruct (TCPHeader.syn (TCPSegment._header seg)) eqn:Hsyn; [|by simplify_eq/=].
    destruct (TCPHeader.rst (TCPSegment._header seg)) eqn:Hrst; [by simplify_eq/=|].
    cbn [andb negb] in H. rewrite !Address.of_ip_port_eq in H. cbn [mbind result_bind] in H.
    apply result_bind_Ok in H as (port' & Hport' & H).
    assert (TCPSegment.wf seg) as Hseg.
    { destruct (TCPSegment.tcp_segment_parse_any buf (IPv4Header.pseudo_cksum (IPv4Datagram._header d)) TCPSegment.init)
        as (r & s' & E & [[-> _]|[_ ?]]); [by eapply NetworkInterface.to_Buffer_wf|done| |]; rewrite Hparse in E; by simplify_eq. }
    assert (port' = TCPHeader.sport (TCPSegment._header seg)) as ->.
    { match type of Hport' with Address.port (FdAdapterConfig.destination (config (set_listening false ?x))) = _ =>
        change (FdAdapterConfig.destination (config (set_listening false x)))
          with (Address.ipv4 (IPv4Header.src (IPv4Datagram._header d)) (TCPHeader.sport (TCPSegment._header seg))) in Hport' end.
      rewrite Address.port_eq in Hport' by apply Hseg. congruence. }
    rewrite Z.eqb_refl in H. injection H as <- <-. split; [done|]. split; [by eauto|]. split; [congruence|].
    split; [done|]. split; [done|]. by rewrite Hd.
  - cbn [andb mbind result_bind] in H. apply result_bind_Ok in H as (port' & Hport' & H).
    apply result_bind_Ok in E1 as (ip1 & Hip1 & E1). apply result_bind_Ok in E2 as (ip2 & Hip2 & E2).
    injection E1 as E1%negb_false_iff%Z.eqb_eq. injection E2 as E2%negb_false_iff%Z.eqb_eq.
    destruct (Z.eqb_spec (TCPHeader.sport (TCPSegment._header seg)) port') as [Hs|]; cbn [negb] in H; [|by simplify_eq].
    injection H as <- <-. split; [done|]. split; [by eauto|]. split; [congruence|]. split; [congruence|].
    split; [congruence|]. split; [congruence|done].
Qed.

Lemma unwrap_filters_witness : exists d seg a',
  unwrap_tcp_in_ip d server = Ok (Some seg, a') /\ listening a' = false /\ TCPHeader.syn (TCPSegment._header seg) = true.
Proof.
  assert (exists d, wrap_tcp_in_ip TCPSegment.sample client = Ok d /\
    is_u32 (IPv4Header.pseudo_cksum (IPv4Datagram._header d)) /\
    IPv4Datagram._payload d = IPv4Datagram._payload d) as (d0 & H0 & Hck & _).
  { eexists. split; [vm_compute; reflexivity|]. split; [by vm_compute|reflexivity]. }
  set (d := IPv4Datagram.mk (IPv4Datagram._header d0)
    [Buffer.of_string (BufferList.concatenate (IPv4Datagram._payload d0))]).
  assert (exists o a', unwrap_tcp_in_ip d server = Ok (Some o, a') /\ BufferList.wf (IPv4Datagram._payload d)) as (seg & a' & Hu & Hw).
  { vm_compute in H0. injection H0 as <-. do 2 eexists. split; [vm_compute; reflexivity|].
    apply Forall_singleton, Buffer.of_string_wf. by vm_compute. }
  exists d, seg, a'. split; [exact Hu|].
  destruct (unwrap_filters d server (Some seg) a' Hw Hck Hu) as (_ & _ & _ & Hsyn & _ & ->).
  split; [reflexivity|exact Hsyn].
Defined.

(** A lossy adapter either behaves as the adapter it wraps or loses the
    packet; with loss rates of zero it loses none. *)
Section loss.
Context {G AdapterT I O : Type} `{!LossyFdAdapter.Engine G} `{!Adapter AdapterT I O}.
Implicit Types a : LossyFdAdapter.t G AdapterT.

Lemma should_drop_adapter uplink a : LossyFdAdapter._adapter (LossyFdAdapter._should_drop uplink a).2 = LossyFdAdapter._adapter a.
Proof. unfold LossyFdAdapter._should_drop. case_match; [done|]. by destruct (LossyFdAdapter.next _). Qed.

Lemma lossy_read d a ret out a' :
  LossyFdAdapter.read d a = Ok (ret, out, a') ->
  exists ret', ad_read d (LossyFdAdapter._adapter a) = Ok (ret', out, LossyFdAdapter._adapter a') /\
    (ret = None \/ ret = ret').
Proof.
  unfold LossyFdAdapter.read. intros ([[r o] b] & Hr & Hd)%result_bind_Ok.
  pose proof (should_drop_adapter false (LossyFdAdapter.mk (LossyFdAdapter._rand a) b)) as E.
  destruct (LossyFdAdapter._should_drop _ _) as [[] a1]; cbn in E; simplify_eq; eauto.
Qed.

Lemma lossy_write seg a out a' :
  LossyFdAdapter.write seg a = Ok (out, a') ->
  (out = [] /\ LossyFdAdapter._adapter a' = LossyFdAdapter._adapter a) \/
  ad_write seg (LossyFdAdapter._adapter a) = Ok (out, LossyFdAdapter._adapter a').
Proof.
  unfold LossyFdAdapter.write. pose proof (should_drop_adapter true a) as E.
  destruct (LossyFdAdapter._should_drop _ _) as [[] a1]; cbn in E; [intros [= <- <-]; auto|].
  intros ([o b] & Hw & [= <- <-])%result_bind_Ok. right. by rewrite <- E.
Qed.

Lemma lossless_write seg a :
  FdAdapterConfig.loss_rate_up (ad_config (LossyFdAdapter._adapter a)) = 0 ->
  LossyFdAdapter.write seg a =
    ('(out, b) ← ad_write seg (LossyFdAdapter._adapter a); Ok (out, LossyFdAdapter.mk (LossyFdAdapter._rand a) b)).
Proof. intros E. unfold LossyFdAdapter.write, LossyFdAdapter._should_drop. by rewrite E. Qed.
End loss.

(** ** The law that a socket relies on

    Whatever a device yields, a segment that an adapter returns has its fields
    within their widths. *)
Class AdapterParses (A I O : Type) `{!Adapter A I O} : Type := {
  ad_input : I -> Prop;
  ad_read_wf d a seg out a' : ad_input d -> ad_read d a = Ok (Some seg, out, a') -> TCPSegment.wf seg
}.

Lemma parse_wf buf ck seg :
  Buffer.wf buf -> is_u32 ck -> TCPSegment.parse buf ck TCPSegment.init = Ok (NoError, seg) -> TCPSegment.wf seg.
Proof.
  intros Hb Hck Hp. destruct (TCPSegment.tcp_segment_parse_any buf ck TCPSegment.init) as (r & s' & E & H); [done|done|].
  rewrite Hp in E. injection E as <- <-. destruct H as [[? _]|[_ ?]]; done.
Qed.

Lemma unwrap_wf d a seg a' :
  BufferList.wf (IPv4Datagram._payload d) -> unwrap_tcp_in_ip d a = Ok (Some seg, a') -> TCPSegment.wf seg.
Proof.
  intros Hw. unfold unwrap_tcp_in_ip.
  intros (b1 & _ & H)%result_bind_Ok. destruct b1; [by simplify_eq|].
  apply result_bind_Ok in H as (b2 & _ & H). destruct b2; [by simplify_eq|].
  case_match; [by simplify_eq|].
  apply result_bind_Ok in H as (buf & Hbuf & ([res seg1] & Hparse & H)%result_bind_Ok).
  case_bool_decide as Hres; cbn [negb] in H; [|by simplify_eq]. subst res.
  apply result_bind_Ok in H as (port & _ & H). case_match; [by simplify_eq|]. case_match; [by simplify_eq|].
  apply result_bind_Ok in H as (a1 & _ & H). apply result_bind_Ok in H as (port' & _ & H).
  case_match; simplify_eq. eapply parse_wf; [by eapply NetworkInterface.to_Buffer_wf| |done]. apply u32_range.
Qed.

#[global] Program Instance udp_parses :
    AdapterParses FdAdapterBase.t UDPSocket.received_datagram (Address.t * BufferList.t) := {
  ad_input := fun d => is_u64 (zlen (UDPSocket.payload d))
}.
Next Obligation.
  intros d a seg out a' Hd. cbn. intros ([s b] & H & [= -> _ _])%result_bind_Ok.
  unfold TCPOverUDPSocketAdapter.read in H. case_match; [done|].
  apply result_bind_Ok in H as ([res seg1] & Hparse & H). case_bool_decide as Hres; cbn [negb] in H; [|done]. subst res.
  assert (seg1 = seg) as -> by (repeat case_match; by simplify_eq).
  eapply parse_wf; [|  |exact Hparse]; [by apply Buffer.of_string_wf|word_lia].
Qed.

#[global] Program Instance tun_parses : AdapterParses FdAdapterBase.t bytes BufferList.t := {
  ad_input := fun d => is_u64 (zlen d)
}.
Next Obligation.
  intros d a seg out a' Hd. cbn. intros ([s b] & H & [= -> _ _])%result_bind_Ok.
  unfold TCPOverIPv4OverTunFdAdapter.read in H.
  destruct (IPv4Datagram.ipv4_datagram_parse_ok (Buffer.of_string d) IPv4Datagram.init) as (r & d' & E & Hw);
    [by apply Buffer.of_string_wf|apply IPv4Datagram.ipv4_init_wf|].
  rewrite E in H. cbn [mbind result_bind] in H. case_match; [done|]. by eapply unwrap_wf.
Qed.

Lemma recv_frame_wf frame s d s' :
  BufferList.wf (EthernetFrame.payload frame) -> NetworkInterface.recv_frame frame s = Ok (Some d, s') ->
  BufferList.wf (IPv4Datagram._payload d).
Proof.
  intros Hw. unfold NetworkInterface.recv_frame. case_match; [done|]. case_match.
  { intros (b & _ & ([r m] & _ & Hm)%result_bind_Ok)%result_bind_Ok. repeat case_match; simplify_eq;
      apply result_bind_Ok in Hm as (? & _ & ?); done. }
  case_match; [|done]. intros (b & Hb & ([r m] & Hp & Hm)%result_bind_Ok)%result_bind_Ok.
  destruct (IPv4Datagram.ipv4_datagram_parse_ok b IPv4Datagram.init) as (r' & d' & E & Hd');
    [by eapply NetworkInterface.to_Buffer_wf|apply IPv4Datagram.ipv4_init_wf|].
  rewrite Hp in E. injection E as <- <-. case_match; simplify_eq. done.
Qed.

#[global] Program Instance ethernet_parses : AdapterParses TCPOverIPv4OverEthernetAdapter.t bytes BufferList.t := {
  ad_input := fun d => is_u64 (zlen d)
}.
Next Obligation.
  intros d a seg out a' Hd H. cbn in H. unfold TCPOverIPv4OverEthernetAdapter.read in H.
  destruct (EthernetFrame.ethernet_frame_parse_ok (Buffer.of_string d) EthernetFrame.init) as (r & f & E & Hw);
    [by apply Buffer.of_string_wf|split; [done|done|change (is_u16 0); word_lia]|].
  rewrite E in H. cbn [mbind result_bind] in H. case_match; [done|].
  apply result_bind_Ok in H as ([o i] & Hr & H). destruct o as [dg|]; [|by repeat case_match; simplify_eq].
  cbn in H. apply result_bind_Ok in H as ([s b] & Hu & [= -> _ _]).
  eapply unwrap_wf; [|exact Hu]. by eapply recv_frame_wf.
Qed.

#[global] Program Instance lossy_parses {G AdapterT I O} `{!LossyFdAdapter.Engine G} `{!Adapter AdapterT I O}
    `{!AdapterParses AdapterT I O} : AdapterParses (LossyFdAdapter.t G AdapterT) I O := {
  ad_input := ad_input
}.
Next Obligation.
  intros G AdapterT I O HE HA HP d a seg out a' Hd Hr. apply lossy_read in Hr as (ret & Hr & [?|<-]); [done|].
  by eapply ad_read_wf.
Qed.
