(* ===== verification/command_line.v ===== *)
(** * The command lines of [apps/tcp_ipv4.cc], [apps/tcp_udp.cc] and [apps/tcp_ip_ethernet.cc]

    The option parsers of the three programs, with the C library's [strncmp]
    and [strtol].  An argument vector is a list of C strings, without their
    final null characters; reading past it is undefined behaviour.  The
    resolver, the conversion of a loss rate ([strtof] and the product with
    65535, in floating point) and the random source port are arguments. *)

From S2P Require Import Prelude.
From S2P Require Import wrapping_integers.
From S2P Require Import tcp_segment.
From S2P Require Import address.
From S2P Require Import printing.
From S2P Require Import tcp_sender.
From S2P Require Import fd_adapter.

(** ** How a program ends

    A value, a call of [exit] with what went to [cout], an exception, a call of
    [abort] or [std::terminate], or a loop whose fuel was not enough. *)
Inductive outcome (A : Type) : Type :=
| Returns (a : A)
| Exits (status : Z) (cout : bytes)
| Raises (e : exn)
| Aborts
| Hangs.
Arguments Returns {A} _.
Arguments Exits {A} _ _.
Arguments Raises {A} _.
Arguments Aborts {A}.
Arguments Hangs {A}.

#[global] Instance outcome_bind : MBind outcome := fun A B k r =>
  match r with
  | Returns a => k a
  | Exits status cout => Exits status cout
  | Raises e => Raises e
  | Aborts => Aborts
  | Hangs => Hangs
  end.

Definition lift {A} (r : result A) : outcome A :=
  match r with Ok a => Returns a | Throw e => Raises e | OutOfFuel => Hangs end.

Definition EXIT_SUCCESS : Z := 0.
Definition EXIT_FAILURE : Z := 1.

(** ** The C library *)

(** [strncmp(a, b, n) == 0]. *)
Fixpoint strncmp_eq (n : nat) (a b : bytes) : bool :=
  match n with
  | O => true
  | S n =>
      match a, b with
      | [], [] => true
      | x :: a, y :: b => bool_decide (x = y) && strncmp_eq n a b
      | _, _ => false
      end
  end.

Definition isspace (b : byte) : bool := bool_decide (b ∈ [x20; x09; x0a; x0b; x0c; x0d]).

Fixpoint skip_spaces (s : bytes) : bytes :=
  match s with
  | b :: rest => if isspace b then skip_spaces rest else s
  | [] => []
  end.

(** The value of a character as a digit of base [base], in either case. *)
Definition digit_of (base : Z) (b : byte) : option Z :=
  let v := byte_val b in
  let d := if (48 <=? v) && (v <=? 57) then v - 48
           else if (97 <=? v) && (v <=? 122) then v - 87
           else if (65 <=? v) && (v <=? 90) then v - 55
           else 99 in
  if d <? base then Some d else None.

Fixpoint read_digits (base acc : Z) (s : bytes) : Z :=
  match s with
  | b :: rest => match digit_of base b with Some d => read_digits base (acc * base + d) rest | None => acc end
  | [] => acc
  end.

Definition LONG_MAX : Z := 2 ^ 63 - 1.
Definition LONG_MIN : Z := - 2 ^ 63.

(** [strtol(s, nullptr, 0)]: hexadecimal after [0x], octal after [0]. *)
Definition strtol (s : bytes) : Z :=
  let s := skip_spaces s in
  let '(negative, s) :=
    match s with
    | x2d :: rest => (true, rest)
    | x2b :: rest => (false, rest)
    | _ => (false, s)
    end in
  let v :=
    match s with
    | x30 :: x78 :: rest | x30 :: x58 :: rest => read_digits 16 0 rest
    | x30 :: rest => read_digits 8 0 rest
    | _ => read_digits 10 0 s
    end in
  Z.max LONG_MIN (Z.min LONG_MAX (if (negative : bool) then - v else v)).

(** [argv[i]]. *)
Definition arg (argv : list bytes) (i : Z) : outcome bytes :=
  match (if 0 <=? i then argv !! Z.to_nat i else None) with
  | Some s => Returns s
  | None => Raises (UndefinedBehaviour "argv")
  end.

(** ** The settings

    The local variables of the three [get_config]s. *)
Record settings : Type := mk_settings {
  c_fsm : TCPConfig.t;
  c_filt : FdAdapterConfig.t;
  listen : bool;
  source_address : bytes;
  source_port : bytes;
  next_hop_address : bytes;
  dev : option bytes
}.

#[global] Instance eta_settings : Eta settings := fun c =>
  mk_settings (c_fsm c) (c_filt c) (listen c) (source_address c) (source_port c) (next_hop_address c) (dev c).

(** [c_fsm.recv_capacity = strtol(...)] and [c_fsm.rt_timeout = strtol(...)]:
    the conversions to [size_t] and [uint16_t]. *)
Definition set_window (s : bytes) (c : settings) : settings :=
  c <| c_fsm := (c_fsm c) <| TCPConfig.recv_capacity := u64 (strtol s) |> |>.
Definition set_timeout (s : bytes) (c : settings) : settings :=
  c <| c_fsm := (c_fsm c) <| TCPConfig.rt_timeout := u16 (strtol s) |> |>.

(** ** The parts that the three programs share *)

Section programs.
Context (show_usage : bytes -> option bytes -> bytes).

Definition check_argc (argv : list bytes) (curr : Z) (err : string) : outcome () :=
  if zlen argv <=? curr + 3 then argv0 ← arg argv 0; Exits EXIT_FAILURE (show_usage argv0 (Some (lit err))) else Returns ().

(** An option with a value: the check, the value and what follows. *)
Definition with_value (argv : list bytes) (curr : Z) (err : string) (set : bytes -> settings -> settings) (c : settings)
    : outcome (Z * settings) :=
  _ ← check_argc argv curr err;
  v ← arg argv (curr + 1);
  Returns (curr + 2, set v c).

Definition help (argv : list bytes) : outcome (Z * settings) :=
  argv0 ← arg argv 0; Exits EXIT_SUCCESS (show_usage argv0 None).

Definition unrecognized (argv : list bytes) (option : bytes) : outcome (Z * settings) :=
  argv0 ← arg argv 0; Exits EXIT_FAILURE (show_usage argv0 (Some (lit "ERROR: unrecognized option " ++ option))).

(** [while (argc - curr > 2) { ... }], the body being [step]; a turn advances
    [curr], so there are at most [argc] of them. *)
Fixpoint option_loop (step : list bytes -> Z -> settings -> outcome (Z * settings)) (fuel : nat) (argv : list bytes)
    (curr : Z) (c : settings) : outcome (Z * settings) :=
  if zlen argv - curr <=? 2 then Returns (curr, c) else
  match fuel with
  | O => Hangs
  | S fuel => '(curr, c) ← step argv curr c; option_loop step fuel argv curr c
  end.
End programs.

(** The lines that open a usage text. *)
Definition usage_head (argv0 : bytes) : bytes :=
  lit "Usage: " ++ argv0 ++ lit " [options] <host> <port>" ++ newline ++ newline ++
  lit "   Option                                                          Default" ++ newline ++
  lit "   --                                                              --" ++ newline ++ newline.

Definition usage_window : bytes :=
  lit "   -w <winsz>      Use a window of <winsz> bytes                   " ++ dec TCPConfig.MAX_PAYLOAD_SIZE ++ newline ++ newline.
Definition usage_timeout : bytes :=
  lit "   -t <tmout>      Set rt_timeout to tmout                         " ++ dec TCPConfig.TIMEOUT_DFLT ++ newline ++ newline.
Definition usage_listen : bytes :=
  lit "   -l              Server (listen) mode.                           (client mode)" ++ newline ++
  lit "                   In server mode, <host>:<port> is the address to bind." ++ newline ++ newline.
Definition usage_loss : bytes :=
  lit "   -Lu <loss>      Set uplink loss to <rate> (float in 0..1)       (no loss)" ++ newline ++
  lit "   -Ld <loss>      Set downlink loss to <rate> (float in 0..1)     (no loss)" ++ newline ++ newline.

(** The message and [endl]. *)
Definition usage_end (msg : option bytes) : bytes := default [] msg ++ newline.

Definition set_loss_up (loss_of : bytes -> Z) (s : bytes) (c : settings) : settings :=
  c <| c_filt := (c_filt c) <| FdAdapterConfig.loss_rate_up := loss_of s |> |>.
Definition set_loss_dn (loss_of : bytes -> Z) (s : bytes) (c : settings) : settings :=
  c <| c_filt := (c_filt c) <| FdAdapterConfig.loss_rate_dn := loss_of s |> |>.

Definition with_destination (a : Address.t) (c : settings) : settings :=
  c <| c_filt := (c_filt c) <| FdAdapterConfig.destination := a |> |>.
Definition with_source (a : Address.t) (c : settings) : settings :=
  c <| c_filt := (c_filt c) <| FdAdapterConfig.source := a |> |>.

(** [{host, port}] from two strings. *)
Definition names (getaddrinfo : Address.resolver) (host port : bytes) : outcome Address.t :=
  lift (Address.of_names getaddrinfo host port).

(** ** [apps/tcp_ipv4.cc] *)

Module TcpIpv4.

Definition TUN_DFLT : bytes := lit "tun144".
Definition LOCAL_ADDRESS_DFLT : bytes := lit "169.254.144.9".

Definition show_usage (argv0 : bytes) (msg : option bytes) : bytes :=
  usage_head argv0 ++ usage_listen ++
  lit "   -a <addr>       Set source address (client mode only)           " ++ LOCAL_ADDRESS_DFLT ++ newline ++
  lit "   -s <port>       Set source port (client mode only)              (random)" ++ newline ++ newline ++
  usage_window ++ usage_timeout ++
  lit "   -d <tundev>     Connect to tun <tundev>                         " ++ TUN_DFLT ++ newline ++ newline ++
  usage_loss ++
  lit "   -h              Show this message." ++ newline ++ newline ++
  usage_end msg.

Section config.
Context (getaddrinfo : Address.resolver) (loss_of : bytes -> Z).

(** The body of the loop. *)
Definition step (argv : list bytes) (curr : Z) (c : settings) : outcome (Z * settings) :=
  opt ← arg argv curr;
  if strncmp_eq 3 (lit "-l") opt then Returns (curr + 1, c <| listen := true |>)
  else if strncmp_eq 3 (lit "-a") opt then
    with_value show_usage argv curr "ERROR: -a requires one argument." (fun v c => c <| source_address := v |>) c
  else if strncmp_eq 3 (lit "-s") opt then
    with_value show_usage argv curr "ERROR: -s requires one argument." (fun v c => c <| source_port := v |>) c
  else if strncmp_eq 3 (lit "-w") opt then
    with_value show_usage argv curr "ERROR: -w requires one argument." set_window c
  else if strncmp_eq 3 (lit "-t") opt then
    with_value show_usage argv curr "ERROR: -t requires one argument." set_timeout c
  else if strncmp_eq 3 (lit "-d") opt then
    with_value show_usage argv curr "ERROR: -t requires one argument." (fun v c => c <| dev := Some v |>) c
  else if strncmp_eq 3 (lit "-Lu") opt then
    with_value show_usage argv curr "ERROR: -Lu requires one argument." (set_loss_up loss_of) c
  else if strncmp_eq 3 (lit "-Ld") opt then
    with_value show_usage argv curr "ERROR: -Lu requires one argument." (set_loss_dn loss_of) c
  else if strncmp_eq 3 (lit "-h") opt then help show_usage argv
  else unrecognized show_usage argv opt.

Definition init (random : Z) : settings :=
  mk_settings TCPConfig.init FdAdapterConfig.init false LOCAL_ADDRESS_DFLT (dec (u16 random)) [] None.

(** The part after the loop. *)
Definition finish (argv : list bytes) (curr : Z) (c : settings) : outcome settings :=
  port ← arg argv (curr + 1);
  if listen c then
    a ← names getaddrinfo (lit "0") port;
    p ← lift (Address.port a);
    if p =? 0 then
      argv0 ← arg argv 0;
      Exits EXIT_FAILURE (show_usage argv0 (Some (lit "ERROR: listen port cannot be zero in server mode.")))
    else Returns (with_source a c)
  else
    host ← arg argv curr;
    d ← names getaddrinfo host port;
    a ← names getaddrinfo (source_address c) (source_port c);
    Returns (with_source a (with_destination d c)).

Definition get_config (argv : list bytes) (random : Z) : outcome settings :=
  '(curr, c) ← option_loop step (length argv) argv 1 (init random);
  finish argv curr c.
End config.
End TcpIpv4.

(** ** [apps/tcp_udp.cc] *)

Module TcpUdp.

Definition show_usage (argv0 : bytes) (msg : option bytes) : bytes :=
  usage_head argv0 ++ usage_listen ++ usage_window ++ usage_timeout ++ usage_loss ++
  lit "   -h              Show this message and quit." ++ newline ++ newline ++
  usage_end msg.

Section config.
Context (getaddrinfo : Address.resolver) (loss_of : bytes -> Z).

Definition step (argv : list bytes) (curr : Z) (c : settings) : outcome (Z * settings) :=
  opt ← arg argv curr;
  if strncmp_eq 3 (lit "-l") opt then Returns (curr + 1, c <| listen := true |>)
  else if strncmp_eq 3 (lit "-w") opt then
    with_value show_usage argv curr "ERROR: -w requires one argument." set_window c
  else if strncmp_eq 3 (lit "-t") opt then
    with_value show_usage argv curr "ERROR: -t requires one argument." set_timeout c
  else if strncmp_eq 3 (lit "-Lu") opt then
    with_value show_usage argv curr "ERROR: -Lu requires one argument." (set_loss_up loss_of) c
  else if strncmp_eq 3 (lit "-Ld") opt then
    with_value show_usage argv curr "ERROR: -Lu requires one argument." (set_loss_dn loss_of) c
  else if strncmp_eq 3 (lit "-h") opt then help show_usage argv
  else unrecognized show_usage argv opt.

Definition init : settings := mk_settings TCPConfig.init FdAdapterConfig.init false [] [] [] None.

(** The addresses are the last two arguments. *)
Definition finish (argv : list bytes) (curr : Z) (c : settings) : outcome settings :=
  port ← arg argv (zlen argv - 1);
  if listen c then
    a ← names getaddrinfo (lit "0") port;
    Returns (with_source a c)
  else
    host ← arg argv (zlen argv - 2);
    d ← names getaddrinfo host port;
    Returns (with_destination d c).

Definition get_config (argv : list bytes) : outcome settings :=
  '(curr, c) ← option_loop step (length argv) argv 1 init;
  finish argv curr c.
End config.
End TcpUdp.

(** ** [apps/tcp_ip_ethernet.cc] *)

Module TcpIpEthernet.

Definition TAP_DFLT : bytes := lit "tap10".
Definition LOCAL_ADDRESS_DFLT : bytes := lit "169.254.10.9".
Definition GATEWAY_DFLT : bytes := lit "169.254.10.1".

Definition show_usage (argv0 : bytes) (msg : option bytes) : bytes :=
  usage_head argv0 ++
  lit "   -a <addr>       Set IP source address (client mode only)        " ++ LOCAL_ADDRESS_DFLT ++ newline ++
  lit "   -s <port>       Set TCP source port (client mode only)          (random)" ++ newline ++ newline ++
  lit "   -n <addr>       Set IP next-hop address                         " ++ GATEWAY_DFLT ++ newline ++
  usage_window ++ usage_timeout ++
  lit "   -d <tapdev>     Connect to tap <tapdev>                         " ++ TAP_DFLT ++ newline ++ newline ++
  lit "   -h              Show this message." ++ newline ++ newline ++
  usage_end msg.

Section config.
Context (getaddrinfo : Address.resolver).

Definition step (argv : list bytes) (curr : Z) (c : settings) : outcome (Z * settings) :=
  opt ← arg argv curr;
  if strncmp_eq 3 (lit "-a") opt then
    with_value show_usage argv curr "ERROR: -a requires one argument." (fun v c => c <| source_address := v |>) c
  else if strncmp_eq 3 (lit "-s") opt then
    with_value show_usage argv curr "ERROR: -s requires one argument." (fun v c => c <| source_port := v |>) c
  else if strncmp_eq 3 (lit "-n") opt then
    with_value show_usage argv curr "ERROR: -n requires one argument." (fun v c => c <| next_hop_address := v |>) c
  else if strncmp_eq 3 (lit "-w") opt then
    with_value show_usage argv curr "ERROR: -w requires one argument." set_window c
  else if strncmp_eq 3 (lit "-t") opt then
    with_value show_usage argv curr "ERROR: -t requires one argument." set_timeout c
  else if strncmp_eq 3 (lit "-d") opt then
    with_value show_usage argv curr "ERROR: -t requires one argument." (fun v c => c <| dev := Some v |>) c
  else if strncmp_eq 3 (lit "-h") opt then help show_usage argv
  else unrecognized show_usage argv opt.

Definition init (random : Z) : settings :=
  mk_settings TCPConfig.init FdAdapterConfig.init false LOCAL_ADDRESS_DFLT (dec (u16 random)) GATEWAY_DFLT (Some TAP_DFLT).

(** Also the address of the next hop. *)
Definition finish (argv : list bytes) (curr : Z) (c : settings) : outcome (settings * Address.t) :=
  host ← arg argv curr;
  port ← arg argv (curr + 1);
  d ← names getaddrinfo host port;
  a ← names getaddrinfo (source_address c) (source_port c);
  next_hop ← names getaddrinfo (next_hop_address c) (lit "0");
  Returns (with_source a (with_destination d c), next_hop).

Definition get_config (argv : list bytes) (random : Z) : outcome (settings * Address.t) :=
  '(curr, c) ← option_loop step (length argv) argv 1 (init random);
  finish argv curr c.
End config.

(** The random local Ethernet address of [main]. *)
Definition private_address (draw : bytes) : bytes :=
  match draw with
  | [] => []
  | b :: rest => byte_of (Z.land (Z.lor (byte_val b) 0x02) 0xfe) :: rest
  end.
End TcpIpEthernet.

(** ** Numbers on the command line *)

Lemma digits_lead base fuel z :
  2 <= base <= 16 -> 0 < z < 2 ^ Z.of_nat fuel ->
  exists d rest, 0 < d < base /\ digits base fuel z [] = digit d :: rest.
Proof.
  intros Hb. revert z. induction fuel as [|fuel IH]; intros z Hz; [change (2 ^ Z.of_nat 0) with 1 in Hz; lia|]. cbn [digits].
  pose proof (Z.mod_pos_bound z base ltac:(lia)) as Hm. pose proof (Z.div_mod z base ltac:(lia)) as Hdm.
  destruct (Z.eqb_spec (z / base) 0) as [E|E]; [exists (z mod base), []; split; [lia|done]|].
  assert (0 <= z / base) by (apply Z.div_pos; lia). rewrite Nat2Z.inj_succ, Z.pow_succ_r in Hz by lia.
  destruct (IH (z / base)) as (d & rest & Hd & Er).
  { split; [lia|]. apply Z.div_lt_upper_bound; [lia|]. nia. }
  rewrite digits_acc, Er. by exists d, (rest ++ [digit (z mod base)]).
Qed.

Lemma show_lead base z : 2 <= base <= 16 -> 0 < z -> exists d rest, 0 < d < base /\ show base z = digit d :: rest.
Proof.
  intros Hb Hz. apply digits_lead; [done|]. split; [done|]. pose proof (Z.log2_nonneg z).
  replace (Z.of_nat (S (Z.to_nat (Z.log2 z)))) with (Z.succ (Z.log2 z)) by lia. by apply Z.log2_spec.
Qed.

(** Digits of a small base stay below it. *)
Lemma digits_below base fuel z :
  2 <= base <= 16 -> 0 <= z -> Forall (fun b => is_digit b /\ digit_val b < base) (digits base fuel z []).
Proof.
  intros Hb. revert z. induction fuel as [|fuel IH]; intros z Hz; [constructor|]. cbn [digits].
  pose proof (Z.mod_pos_bound z base ltac:(lia)) as Hm. destruct (digit_digit (z mod base)) as [E1 E2]; [lia|].
  assert (Forall (fun b => is_digit b /\ digit_val b < base) [digit (z mod base)]) as H1.
  { apply Forall_singleton. rewrite E1. split; [done|lia]. }
  destruct (_ =? _); [done|]. rewrite digits_acc. apply Forall_app. split; [|done]. apply IH. apply Z.div_pos; lia.
Qed.

Lemma digit_of_digit b : is_digit b /\ digit_val b < 10 -> digit_of 10 b = Some (digit_val b).
Proof.
  intros [[E H1] H2]. assert (byte_val b = 48 + digit_val b) as Hb.
  { rewrite <- E at 1. unfold digit. rewrite (proj2 (Z.ltb_lt _ _)), byte_val_of, u8_id by word_lia. done. }
  unfold digit_of. rewrite (proj2 (Z.leb_le 48 _)), (proj2 (Z.leb_le _ 57)) by lia. cbn [andb].
  rewrite (proj2 (Z.ltb_lt _ _)) by lia. f_equal. lia.
Qed.

Lemma read_digits_value s acc :
  Forall (fun b => is_digit b /\ digit_val b < 10) s -> read_digits 10 acc s = foldl (fun v b => v * 10 + digit_val b) acc s.
Proof.
  intros Hs. revert acc. induction Hs as [|b s Hb _ IH]; intros acc; [done|]. cbn. by rewrite digit_of_digit, IH.
Qed.

Lemma strtol_dec z : 0 <= z <= LONG_MAX -> strtol (dec z) = z.
Proof.
  intros Hz. destruct (Z.eq_dec z 0) as [->|Hne]; [done|].
  assert (read_digits 10 0 (dec z) = z) as Hv.
  { rewrite read_digits_value by (apply digits_below; lia).
    exact (proj1 (show_value 10 z ltac:(lia) ltac:(lia))). }
  destruct (show_lead 10 z ltac:(lia) ltac:(lia)) as (d & rest & Hd & E). fold (dec z) in E. rewrite E in Hv |- *.
  unfold LONG_MAX in *.
  assert (strtol (digit d :: rest) = Z.max LONG_MIN (Z.min LONG_MAX (read_digits 10 0 (digit d :: rest)))) as ->.
  { assert (d = 1 \/ d = 2 \/ d = 3 \/ d = 4 \/ d = 5 \/ d = 6 \/ d = 7 \/ d = 8 \/ d = 9) as Hd' by lia.
    by destruct Hd' as [->|[->|[->|[->|[->|[->|[->|[->| ->]]]]]]]]. }
  rewrite Hv. unfold LONG_MIN, LONG_MAX. lia.
Qed.

(** ** Every command line is handled

    [settles P o]: [o] is a value with [P], or a call of [exit] with one of the
    two statuses. *)
Definition settles {A} (P : A -> Prop) (o : outcome A) : Prop :=
  match o with
  | Returns a => P a
  | Exits status _ => status = EXIT_SUCCESS \/ status = EXIT_FAILURE
  | _ => False
  end.

Lemma settles_bind {A B} (P : A -> Prop) (Q : B -> Prop) (o : outcome A) (k : A -> outcome B) :
  settles P o -> (forall a, P a -> settles Q (k a)) -> settles Q (o ≫= k).
Proof. destruct o; cbn; auto. Qed.

Lemma arg_in argv i : 0 <= i < zlen argv -> exists s, arg argv i = Returns s /\ argv !! Z.to_nat i = Some s.
Proof.
  intros Hi. unfold arg, zlen in *. rewrite (proj2 (Z.leb_le _ _)) by lia.
  destruct (lookup_lt_is_Some_2 argv (Z.to_nat i)) as [s E]; [lia|]. rewrite E. by exists s.
Qed.

(** One turn: at least one argument is used and the last two are left. *)
Definition advances (argv : list bytes) (curr : Z) (r : Z * settings) : Prop := curr < r.1 <= zlen argv - 2.

Definition step_settles (step : list bytes -> Z -> settings -> outcome (Z * settings)) : Prop :=
  forall argv curr c, 1 <= curr -> 2 < zlen argv - curr -> settles (advances argv curr) (step argv curr c).

Lemma with_value_settles usage argv curr err set c :
  1 <= curr -> 2 < zlen argv - curr -> settles (advances argv curr) (with_value usage argv curr err set c).
Proof.
  intros Hc Hl. unfold with_value, check_argc. destruct (Z.leb_spec (zlen argv) (curr + 3)).
  - destruct (arg_in argv 0) as (s & E & _); [lia|]. rewrite E. cbn. by right.
  - destruct (arg_in argv (curr + 1)) as (s & E & _); [lia|]. cbn. rewrite E. cbn. unfold advances. cbn. lia.
Qed.

Lemma help_settles usage argv P : 0 < zlen argv -> settles P (help usage argv).
Proof. intros Hl. unfold help. destruct (arg_in argv 0) as (s & E & _); [lia|]. rewrite E. cbn. by left. Qed.

Lemma unrecognized_settles usage argv opt P : 0 < zlen argv -> settles P (unrecognized usage argv opt).
Proof. intros Hl. unfold unrecognized. destruct (arg_in argv 0) as (s & E & _); [lia|]. rewrite E. cbn. by right. Qed.

(** [step_tac]: a chain of options, each of them settled. *)
Ltac step_tac argv curr :=
  destruct (arg_in argv curr) as (opt & E & _); [lia|]; rewrite E; cbn [mbind outcome_bind];
  repeat match goal with |- settles _ (if ?b then _ else _) => destruct b end;
  first [by apply with_value_settles | apply help_settles; lia | apply unrecognized_settles; lia | cbn; unfold advances; cbn; lia].

Lemma ipv4_step_settles loss_of : step_settles (TcpIpv4.step loss_of).
Proof. intros argv curr c Hc Hl. unfold TcpIpv4.step. step_tac argv curr. Qed.

Lemma udp_step_settles loss_of : step_settles (TcpUdp.step loss_of).
Proof. intros argv curr c Hc Hl. unfold TcpUdp.step. step_tac argv curr. Qed.

Lemma ethernet_step_settles : step_settles TcpIpEthernet.step.
Proof. intros argv curr c Hc Hl. unfold TcpIpEthernet.step. step_tac argv curr. Qed.

Lemma option_loop_settles step fuel argv curr c :
  step_settles step -> 1 <= curr <= zlen argv - 2 -> zlen argv - curr <= Z.of_nat fuel ->
  settles (fun r => r.1 = zlen argv - 2) (option_loop step fuel argv curr c).
Proof.
  intros Hs. revert curr c. induction fuel as [|fuel IH]; intros curr c Hc Hf; cbn [option_loop].
  - destruct (Z.leb_spec (zlen argv - curr) 2); [cbn; lia|lia].
  - destruct (Z.leb_spec (zlen argv - curr) 2); [cbn; lia|].
    eapply settles_bind; [apply Hs; lia|]. intros [curr' c'] Ha. unfold advances in Ha. cbn in Ha. apply IH; lia.
Qed.

(** What a whole [get_config] may do. *)
Definition handled {A} (P : A -> Prop) (o : outcome A) : Prop :=
  match o with
  | Returns a => P a
  | Exits status _ => status = EXIT_SUCCESS \/ status = EXIT_FAILURE
  | Raises e => exists attempt ret, e = GaiError attempt ret /\ ret <> 0
  | Aborts | Hangs => False
  end.

Lemma handled_bind {A B} (P : A -> Prop) (Q : B -> Prop) (o : outcome A) (k : A -> outcome B) :
  handled P o -> (forall a, P a -> handled Q (k a)) -> handled Q (o ≫= k).
Proof. destruct o; cbn; auto. Qed.

Lemma settles_handled {A} (P : A -> Prop) o : settles P o -> handled P o.
Proof. by destruct o. Qed.

Definition inet (a : Address.t) : Prop := exists ip port, is_u32 ip /\ is_u16 port /\ a = Address.ipv4 ip port.

Lemma names_handled getaddrinfo host port : Address.gai_inet getaddrinfo -> handled inet (names getaddrinfo host port).
Proof.
  intros Hg. unfold names. destruct (Address.of_names_spec getaddrinfo host port Hg) as [(ip & p & Hi & Hp & ->)|(ret & Hr & ->)].
  - by exists ip, p.
  - cbn. eauto.
Qed.

Lemma arg_handled argv i : 0 <= i < zlen argv -> handled (fun s => argv !! Z.to_nat i = Some s) (arg argv i).
Proof. intros Hi. destruct (arg_in argv i Hi) as (s & -> & E). done. Qed.

Section total.
Context (getaddrinfo : Address.resolver) (Hgai : Address.gai_inet getaddrinfo) (loss_of : bytes -> Z).

Lemma ipv4_config_handled argv random :
  3 <= zlen argv ->
  handled (fun c => inet (FdAdapterConfig.source (c_filt c)) /\
             (if listen c then True else inet (FdAdapterConfig.destination (c_filt c))))
    (TcpIpv4.get_config getaddrinfo loss_of argv random).
Proof using Hgai.
  intros Hl. unfold TcpIpv4.get_config.
  eapply handled_bind; [apply settles_handled, option_loop_settles; [apply ipv4_step_settles|lia|unfold zlen; lia]|].
  intros [curr c] E. cbn in E. unfold TcpIpv4.finish.
  eapply handled_bind; [apply arg_handled; lia|]. intros port _. destruct (listen c) eqn:El.
  - eapply handled_bind; [by apply names_handled|]. intros a (ip & p & Hi & Hp & ->). rewrite Address.port_eq by done. cbn.
    destruct (p =? 0).
    + destruct (arg_in argv 0) as (s & E0 & _); [lia|]. rewrite E0. cbn. by right.
    + cbn. rewrite El. split; [by exists ip, p|done].
  - eapply handled_bind; [apply arg_handled; lia|]. intros host _.
    eapply handled_bind; [by apply names_handled|]. intros d Hd.
    eapply handled_bind; [by apply names_handled|]. intros a Ha. cbn. by rewrite El.
Qed.

Lemma udp_config_handled argv :
  3 <= zlen argv ->
  handled (fun c => if listen c then inet (FdAdapterConfig.source (c_filt c)) else inet (FdAdapterConfig.destination (c_filt c)))
    (TcpUdp.get_config getaddrinfo loss_of argv).
Proof using Hgai.
  intros Hl. unfold TcpUdp.get_config.
  eapply handled_bind; [apply settles_handled, option_loop_settles; [apply udp_step_settles|lia|unfold zlen; lia]|].
  intros [curr c] _. unfold TcpUdp.finish.
  eapply handled_bind; [apply arg_handled; lia|]. intros port _. destruct (listen c) eqn:El.
  - eapply handled_bind; [by apply names_handled|]. intros a Ha. cbn. by rewrite El.
  - eapply handled_bind; [apply arg_handled; lia|]. intros host _.
    eapply handled_bind; [by apply names_handled|]. intros a Ha. cbn. by rewrite El.
Qed.

Lemma ethernet_config_handled argv random :
  3 <= zlen argv ->
  handled (fun r => inet (FdAdapterConfig.source (c_filt r.1)) /\ inet (FdAdapterConfig.destination (c_filt r.1)) /\ inet r.2)
    (TcpIpEthernet.get_config getaddrinfo argv random).
Proof using Hgai.
  intros Hl. unfold TcpIpEthernet.get_config.
  eapply handled_bind; [apply settles_handled, option_loop_settles; [apply ethernet_step_settles|lia|unfold zlen; lia]|].
  intros [curr c] E. cbn in E. unfold TcpIpEthernet.finish.
  eapply handled_bind; [apply arg_handled; lia|]. intros host _.
  eapply handled_bind; [apply arg_handled; lia|]. intros port _.
  eapply handled_bind; [by apply names_handled|]. intros d Hd.
  eapply handled_bind; [by apply names_handled|]. intros a Ha.
  eapply handled_bind; [by apply names_handled|]. intros n Hn. done.
Qed.
End total.

(** ** Options are read as they are written *)

Inductive opt : Type :=
| Listen
| SourceAddress (v : bytes)
| SourcePort (v : bytes)
| NextHop (v : bytes)
| Window (n : Z)
| Timeout (ms : Z)
| Dev (v : bytes)
| LossUp (v : bytes)
| LossDown (v : bytes).

Definition write_opt (o : opt) : list bytes :=
  match o with
  | Listen => [lit "-l"]
  | SourceAddress v => [lit "-a"; v]
  | SourcePort v => [lit "-s"; v]
  | NextHop v => [lit "-n"; v]
  | Window n => [lit "-w"; dec n]
  | Timeout ms => [lit "-t"; dec ms]
  | Dev v => [lit "-d"; v]
  | LossUp v => [lit "-Lu"; v]
  | LossDown v => [lit "-Ld"; v]
  end.

Definition apply_opt (loss_of : bytes -> Z) (c : settings) (o : opt) : settings :=
  match o with
  | Listen => c <| listen := true |>
  | SourceAddress v => c <| source_address := v |>
  | SourcePort v => c <| source_port := v |>
  | NextHop v => c <| next_hop_address := v |>
  | Window n => c <| c_fsm := (c_fsm c) <| TCPConfig.recv_capacity := n |> |>
  | Timeout ms => c <| c_fsm := (c_fsm c) <| TCPConfig.rt_timeout := ms |> |>
  | Dev v => c <| dev := Some v |>
  | LossUp v => c <| c_filt := (c_filt c) <| FdAdapterConfig.loss_rate_up := loss_of v |> |>
  | LossDown v => c <| c_filt := (c_filt c) <| FdAdapterConfig.loss_rate_dn := loss_of v |> |>
  end.

(** The numbers that fit: a [long], and the [uint16_t] of the timeout. *)
Definition fits (o : opt) : bool :=
  match o with
  | Window n => (0 <=? n) && (n <=? LONG_MAX)
  | Timeout ms => (0 <=? ms) && (ms <? 65536)
  | _ => true
  end.

(** The options that each program knows. *)
Definition ipv4_opt (o : opt) : bool := match o with NextHop _ => false | _ => fits o end.
Definition udp_opt (o : opt) : bool :=
  match o with Listen | Window _ | Timeout _ | LossUp _ | LossDown _ => fits o | _ => false end.
Definition ethernet_opt (o : opt) : bool :=
  match o with Listen | LossUp _ | LossDown _ => false | _ => fits o end.

(** A command line: the program, the options, the two addresses. *)
Definition command (argv0 : bytes) (opts : list opt) (host port : bytes) : list bytes :=
  argv0 :: concat (write_opt <$> opts) ++ [host; port].

Lemma arg_drop argv i s rest : 0 <= i -> drop (Z.to_nat i) argv = s :: rest -> arg argv i = Returns s.
Proof.
  intros Hi E. unfold arg. rewrite (proj2 (Z.leb_le _ _)) by lia.
  rewrite <- (Nat.add_0_r (Z.to_nat i)), <- lookup_drop, E. done.
Qed.

Lemma drop_next {A} (l : list A) i x rest : 0 <= i -> drop (Z.to_nat i) l = x :: rest -> drop (Z.to_nat (i + 1)) l = rest.
Proof. intros Hi E. replace (Z.to_nat (i + 1)) with (Z.to_nat i + 1)%nat by lia. by rewrite <- drop_drop, E. Qed.

Lemma drop_zlen {A} (l : list A) i : 0 <= i <= zlen l -> zlen (drop (Z.to_nat i) l) = zlen l - i.
Proof. intros. zlen. lia. Qed.

Lemma with_value_reads usage argv curr err set c o v rest :
  1 <= curr <= zlen argv -> drop (Z.to_nat curr) argv = o :: v :: rest -> 2 <= zlen rest ->
  with_value usage argv curr err set c = Returns (curr + 2, set v c).
Proof.
  intros Hc E Hr. pose proof (drop_zlen argv curr ltac:(lia)) as Hl. rewrite E in Hl. zlen.
  unfold with_value, check_argc. rewrite (proj2 (Z.leb_gt _ _)) by lia. cbn.
  by rewrite (arg_drop argv (curr + 1) v rest ltac:(lia) (drop_next argv curr o (v :: rest) ltac:(lia) E)).
Qed.

(** Numbers that fit are taken as written. *)
Lemma set_window_dec loss_of n c : fits (Window n) = true -> set_window (dec n) c = apply_opt loss_of c (Window n).
Proof.
  intros [H1%Z.leb_le H2%Z.leb_le]%andb_prop. unfold set_window, LONG_MAX in *. rewrite strtol_dec, u64_id; [done|word_lia|done].
Qed.

Lemma set_timeout_dec loss_of ms c : fits (Timeout ms) = true -> set_timeout (dec ms) c = apply_opt loss_of c (Timeout ms).
Proof.
  intros [H1%Z.leb_le H2%Z.ltb_lt]%andb_prop. unfold set_timeout. rewrite strtol_dec, u16_id; [done|word_lia|unfold LONG_MAX; lia].
Qed.

(** A program whose loop reads the options [known] as they are written. *)
Definition reads_options (loss_of : bytes -> Z) (known : opt -> bool)
    (step : list bytes -> Z -> settings -> outcome (Z * settings)) : Prop :=
  forall argv curr c o rest, known o = true -> 1 <= curr <= zlen argv ->
    drop (Z.to_nat curr) argv = write_opt o ++ rest -> 2 <= zlen rest ->
    step argv curr c = Returns (curr + zlen (write_opt o), apply_opt loss_of c o).

Ltac reads_tac :=
  intros argv curr c o rest Hk Hc E Hr;
  assert (exists name tail, write_opt o ++ rest = name :: tail) as (name & tail & En) by (destruct o; cbn; eauto);
  rewrite (arg_drop argv curr name tail ltac:(lia) ltac:(congruence)); cbn [mbind outcome_bind];
  destruct o as [|v|v|v|n|ms|v|v|v]; try discriminate Hk; cbn [write_opt app] in E, En; injection En as <- <-;
  first [exact eq_refl
        | exact (with_value_reads _ argv curr _ _ c _ _ rest Hc E Hr)
        | rewrite <- set_window_dec by exact Hk; exact (with_value_reads _ argv curr _ _ c _ _ rest Hc E Hr)
        | rewrite <- set_timeout_dec by exact Hk; exact (with_value_reads _ argv curr _ _ c _ _ rest Hc E Hr)].

Lemma ipv4_reads loss_of : reads_options loss_of ipv4_opt (TcpIpv4.step loss_of).
Proof. unfold TcpIpv4.step. reads_tac. Qed.

Lemma udp_reads loss_of : reads_options loss_of udp_opt (TcpUdp.step loss_of).
Proof. unfold TcpUdp.step. reads_tac. Qed.

Lemma ethernet_reads loss_of : reads_options loss_of ethernet_opt TcpIpEthernet.step.
Proof. unfold TcpIpEthernet.step. reads_tac. Qed.

Lemma option_loop_reads loss_of known step fuel argv curr opts c host port :
  reads_options loss_of known step -> forallb known opts = true -> 1 <= curr <= zlen argv ->
  drop (Z.to_nat curr) argv = concat (write_opt <$> opts) ++ [host; port] -> (length opts <= fuel)%nat ->
  option_loop step fuel argv curr c = Returns (zlen argv - 2, foldl (apply_opt loss_of) c opts).
Proof.
  intros Hstep. revert fuel curr c. induction opts as [|o opts IH]; intros fuel curr c Hk Hc E Hf.
  - pose proof (drop_zlen argv curr ltac:(lia)) as Hl. rewrite E in Hl. cbn in Hl.
    destruct fuel; cbn [option_loop]; rewrite (proj2 (Z.leb_le _ _)) by (zlen; lia); do 2 f_equal; zlen; lia.
  - cbn in Hk. apply andb_prop in Hk as [Ho Hk]. destruct fuel as [|fuel]; [cbn in Hf; lia|].
    cbn [fmap list_fmap concat] in E. rewrite <- app_assoc in E. pose proof (drop_zlen argv curr ltac:(lia)) as Hl.
    rewrite E, !zlen_app in Hl. change (zlen [host; port]) with 2 in Hl. pose proof (zlen_nonneg (concat (write_opt <$> opts))).
    assert (1 <= zlen (write_opt o)) by (by destruct o). cbn [option_loop]. rewrite (proj2 (Z.leb_gt _ _)) by lia.
    rewrite (Hstep argv curr c o _ Ho Hc E) by (zlen; lia). cbn [mbind outcome_bind foldl]. apply IH; [done|lia| |cbn in Hf; lia].
    replace (Z.to_nat (curr + zlen (write_opt o))) with (Z.to_nat curr + length (write_opt o))%nat by (unfold zlen; lia).
    by rewrite <- drop_drop, E, drop_app_length.
Qed.

Lemma command_loop loss_of known step argv0 opts host port c :
  reads_options loss_of known step -> forallb known opts = true ->
  option_loop step (length (command argv0 opts host port)) (command argv0 opts host port) 1 c =
    Returns (zlen (command argv0 opts host port) - 2, foldl (apply_opt loss_of) c opts).
Proof.
  intros Hs Hk. eapply option_loop_reads; [exact Hs|exact Hk| |reflexivity|].
  - unfold command. rewrite zlen_cons, zlen_app. pose proof (zlen_nonneg (concat (write_opt <$> opts))).
    change (zlen [host; port]) with 2. lia.
  - assert (length opts <= length (concat (write_opt <$> opts)))%nat; [|unfold command; cbn; rewrite length_app; lia].
    clear. induction opts as [|o opts IH]; [done|]. rewrite fmap_cons. cbn [concat length]. rewrite length_app.
    assert (1 <= length (write_opt o))%nat by (destruct o; cbn; lia). lia.
Qed.

Lemma command_last argv0 opts host port :
  arg (command argv0 opts host port) (zlen (command argv0 opts host port) - 2) = Returns host /\
  arg (command argv0 opts host port) (zlen (command argv0 opts host port) - 1) = Returns port.
Proof.
  unfold command. set (front := argv0 :: concat (write_opt <$> opts)). change (argv0 :: _ ++ [host; port]) with (front ++ [host; port]).
  assert (drop (Z.to_nat (zlen (front ++ [host; port]) - 2)) (front ++ [host; port]) = [host; port]) as E.
  { replace (Z.to_nat _) with (length front) by (unfold zlen; rewrite length_app; cbn; lia). by rewrite drop_app_length. }
  assert (0 <= zlen (front ++ [host; port]) - 2) as Hn
    by (rewrite zlen_app; change (zlen [host; port]) with 2; pose proof (zlen_nonneg front); lia).
  split; [by eapply arg_drop|]. eapply arg_drop; [lia|]. replace (_ - 1) with (zlen (front ++ [host; port]) - 2 + 1) by lia.
  by eapply drop_next.
Qed.

(** A timeout that does not fit loses its high bits without a message. *)
Lemma timeout_wraps ms c : 0 <= ms <= LONG_MAX -> TCPConfig.rt_timeout (c_fsm (set_timeout (dec ms) c)) = ms mod 65536.
Proof. intros Hn. cbn. by rewrite strtol_dec. Qed.

(** Which mode a command line asks for. *)
Definition is_listen (o : opt) : bool := match o with Listen => true | _ => false end.

Lemma listen_opts loss_of c opts : listen (foldl (apply_opt loss_of) c opts) = listen c || existsb is_listen opts.
Proof.
  revert c. induction opts as [|o opts IH]; intros c; cbn; [by rewrite orb_false_r|]. rewrite IH.
  destruct o; cbn; by rewrite ?orb_true_r.
Qed.

(** The three programs read every command line without going past it.
    With a resolver that does what its manual says for IPv4, any three or more
    arguments give a configuration whose addresses are IPv4 addresses, or end
    the program with a usage text and one of the two exit statuses, or raise
    the resolver's error; no argument is read that is not there, and the loop
    over the options ends. *)
Theorem command_lines_handled getaddrinfo loss_of argv random :
  Address.gai_inet getaddrinfo -> 3 <= zlen argv ->
  handled (fun c => inet (FdAdapterConfig.source (c_filt c)) /\
             (if listen c then True else inet (FdAdapterConfig.destination (c_filt c))))
    (TcpIpv4.get_config getaddrinfo loss_of argv random) /\
  handled (fun c => if listen c then inet (FdAdapterConfig.source (c_filt c)) else inet (FdAdapterConfig.destination (c_filt c)))
    (TcpUdp.get_config getaddrinfo loss_of argv) /\
  handled (fun r => inet (FdAdapterConfig.source (c_filt r.1)) /\ inet (FdAdapterConfig.destination (c_filt r.1)) /\ inet r.2)
    (TcpIpEthernet.get_config getaddrinfo argv random).
Proof.
  intros Hg Hl. split; [by apply ipv4_config_handled|]. split; [by apply udp_config_handled|by apply ethernet_config_handled].
Qed.

(** A resolver that knows one host. *)
Definition one_host : Address.resolver := fun node service hints =>
  if bool_decide (node = lit "cs144.keithw.org") then (0, Some (Address.sockaddr_in 0x68c5ed4d 80, Address.sizeof_sockaddr_in)) else (-2, None).

Lemma one_host_inet : Address.gai_inet one_host.
Proof.
  intros node service flags. unfold one_host. case_bool_decide; [right|left; lia].
  exists 0x68c5ed4d, 80. split; [word_lia|]. split; [word_lia|reflexivity].
Qed.

(** The service [port] is the port number [p], on the host named and on any. *)
Definition is_port (getaddrinfo : Address.resolver) (host port : bytes) (p : Z) : Prop :=
  forall node, node ∈ [host; lit "0"] -> exists a, names getaddrinfo node port = Returns a /\ Address.port a = Ok p.

(** C38: options are read as they are written.  A command line made of any
    sequence of options that a program knows (with a window that fits a [long]
    and a timeout that fits its 16 bits), a host and a port configures the
    program with the options applied from left to right and then the addresses.
    In client mode the host and port are the destination, and the source is the
    one the options give; in server mode ([tcp_ipv4] and [tcp_udp]) the source
    has the port to listen on, and the statement leaves its address open. *)
Theorem command_line_roundtrip getaddrinfo loss_of random argv0 opts host port :
  (forallb ipv4_opt opts = true ->
   let c := foldl (apply_opt loss_of) (TcpIpv4.init random) opts in
   let r := TcpIpv4.get_config getaddrinfo loss_of (command argv0 opts host port) random in
   if existsb is_listen opts
   then forall p, p <> 0 -> is_port getaddrinfo host port p -> exists a, r = Returns (with_source a c) /\ Address.port a = Ok p
   else r = (d ← names getaddrinfo host port;
             a ← names getaddrinfo (source_address c) (source_port c);
             Returns (with_source a (with_destination d c)))) /\
  (forallb udp_opt opts = true ->
   let c := foldl (apply_opt loss_of) TcpUdp.init opts in
   let r := TcpUdp.get_config getaddrinfo loss_of (command argv0 opts host port) in
   if existsb is_listen opts
   then forall p, is_port getaddrinfo host port p -> exists a, r = Returns (with_source a c) /\ Address.port a = Ok p
   else r = (d ← names getaddrinfo host port; Returns (with_destination d c))) /\
  (forallb ethernet_opt opts = true ->
   let c := foldl (apply_opt loss_of) (TcpIpEthernet.init random) opts in
   TcpIpEthernet.get_config getaddrinfo (command argv0 opts host port) random =
     (d ← names getaddrinfo host port;
      a ← names getaddrinfo (source_address c) (source_port c);
      next_hop ← names getaddrinfo (next_hop_address c) (lit "0");
      Returns (with_source a (with_destination d c), next_hop))).
Proof.
  destruct (command_last argv0 opts host port) as [Eh Ep].
  assert (arg (command argv0 opts host port) (zlen (command argv0 opts host port) - 2 + 1) = Returns port) as Ep'
    by (rewrite <- Ep; f_equal; lia).
  assert (forall p, is_port getaddrinfo host port p -> exists a, names getaddrinfo (lit "0") port = Returns a /\ Address.port a = Ok p)
    as Hport by (intros p Hp; apply Hp; right; left).
  split; [|split]; intros Hk c; subst c.
  - intros r; subst r. unfold TcpIpv4.get_config. rewrite (command_loop _ _ _ _ _ _ _ _ (ipv4_reads loss_of) Hk). cbn [mbind outcome_bind].
    unfold TcpIpv4.finish. rewrite Ep', Eh, listen_opts. destruct (existsb is_listen opts); [|reflexivity].
    intros p Hp (a & Ea & Ea')%Hport. exists a. split; [|done]. cbn. rewrite Ea. cbn. rewrite Ea'. cbn. by rewrite (proj2 (Z.eqb_neq _ _) Hp).
  - intros r; subst r. unfold TcpUdp.get_config. rewrite (command_loop _ _ _ _ _ _ _ _ (udp_reads loss_of) Hk). cbn [mbind outcome_bind].
    unfold TcpUdp.finish. rewrite Ep, Eh, listen_opts. destruct (existsb is_listen opts); [|reflexivity].
    intros p (a & Ea & Ea')%Hport. exists a. split; [|done]. cbn. by rewrite Ea.
  - unfold TcpIpEthernet.get_config. rewrite (command_loop _ _ _ _ _ _ _ _ (ethernet_reads loss_of) Hk). cbn [mbind outcome_bind].
    unfold TcpIpEthernet.finish. by rewrite Ep', Eh.
Qed.

(** A resolver for which every host is this one. *)
Definition any_host : Address.resolver := fun node service hints =>
  (0, Some (Address.sockaddr_in 0 9090, Address.sizeof_sockaddr_in)).

Lemma command_line_roundtrip_witness :
  TcpUdp.get_config one_host (fun _ => 0) (command (lit "tcp_udp") [Window 4096; Timeout 70] (lit "cs144.keithw.org") (lit "http")) =
    Returns (mk_settings (TCPConfig.init <| TCPConfig.recv_capacity := 4096 |> <| TCPConfig.rt_timeout := 70 |>)
               (FdAdapterConfig.init <| FdAdapterConfig.destination := Address.ipv4 0x68c5ed4d 80 |>) false [] [] [] None) /\
  exists a c, TcpUdp.get_config any_host (fun _ => 0) (command (lit "tcp_udp") [Listen] (lit "localhost") (lit "9090")) =
    Returns (with_source a c) /\ Address.port a = Ok 9090.
Proof.
  split.
  - pose proof (proj1 (proj2 (command_line_roundtrip one_host (fun _ => 0) 0 (lit "tcp_udp") [Window 4096; Timeout 70]
                                (lit "cs144.keithw.org") (lit "http"))) eq_refl) as H.
    cbv zeta in H. cbn [existsb is_listen orb] in H. rewrite H. vm_compute. reflexivity.
  - pose proof (proj1 (proj2 (command_line_roundtrip any_host (fun _ => 0) 0 (lit "tcp_udp") [Listen]
                                (lit "localhost") (lit "9090"))) eq_refl 9090) as H.
    destruct H as (a & H1 & H2); [intros node _; eexists; split; vm_compute; reflexivity|]. eexists a, _. split; [exact H1|exact H2].
Defined.

(** In server mode the host makes no difference, although the usage text of
    both programs says that [<host>:<port>] is the address to bind: the source
    is made from ["0"] and the port. *)
Theorem server_ignores_host getaddrinfo loss_of random argv0 opts host host' port :
  existsb is_listen opts = true ->
  (forallb ipv4_opt opts = true ->
   TcpIpv4.get_config getaddrinfo loss_of (command argv0 opts host port) random =
     TcpIpv4.get_config getaddrinfo loss_of (command argv0 opts host' port) random) /\
  (forallb udp_opt opts = true ->
   TcpUdp.get_config getaddrinfo loss_of (command argv0 opts host port) =
     TcpUdp.get_config getaddrinfo loss_of (command argv0 opts host' port)).
Proof.
  intros Hl. pose proof (fun h => proj2 (command_last argv0 opts h port)) as Ep.
  assert (forall h, arg (command argv0 opts h port) (zlen (command argv0 opts h port) - 2 + 1) = Returns port) as Ep'
    by (intros h; rewrite <- (Ep h); f_equal; lia).
  split; intros Hk.
  - unfold TcpIpv4.get_config. rewrite !(command_loop _ _ _ _ _ _ _ _ (ipv4_reads loss_of) Hk). cbn [mbind outcome_bind].
    unfold TcpIpv4.finish. by rewrite !Ep', listen_opts, Hl.
  - unfold TcpUdp.get_config. rewrite !(command_loop _ _ _ _ _ _ _ _ (udp_reads loss_of) Hk). cbn [mbind outcome_bind].
    unfold TcpUdp.finish. by rewrite !Ep, listen_opts, Hl.
Qed.
