(* ===== verification/udp_tcpdump.v ===== *)
(** * [apps/udp_tcpdump.cc]

    The packet printer: the command line, the search for the UDP payload behind
    the link and IP headers, and the line printed for a TCP segment.  The
    capture library is the outside world: the link type and the answers of
    [pcap_next_ex] are arguments.  A packet is the list of its captured bytes,
    and reading past them is undefined behaviour.  The text of an IPv6 address
    ([inet_ntop]) is an argument. *)

From S2P Require Import Prelude.
From S2P Require Import wrapping_integers.
From S2P Require Import buffer.
From S2P Require Import parser.
From S2P Require Import util.
From S2P Require Import tcp_segment.
From S2P Require Import printing.
From S2P Require Import command_line.

Module UdpTcpdump.

(** ** The command line *)

Definition show_usage (arg0 : bytes) (errmsg : option bytes) : bytes :=
  lit "Usage: " ++ arg0 ++ lit " [-i <intf>] [-F <file>] [-h|--help] <expression>" ++ newline ++ newline ++
  lit "  -i <intf>    only capture packets from <intf> (default: all)" ++ newline ++ newline ++
  lit "  -F <file>    reads in a filter expression from <file>" ++ newline ++
  lit "               <expression> is ignored if -F is supplied." ++ newline ++ newline ++
  lit "  -h, --help   show this message" ++ newline ++ newline ++
  lit "  <expression> a filter expression in pcap-filter(7) syntax" ++ newline ++
  match errmsg with Some errmsg => newline ++ errmsg | None => [] end ++ newline.

Definition check_arg (argv : list bytes) (curr : Z) (errmsg : string) : outcome () :=
  if zlen argv <=? curr + 1 then arg0 ← arg argv 0; Exits EXIT_FAILURE (show_usage arg0 (Some (lit errmsg))) else Returns ().

(** The loop: each turn uses at least one argument. *)
Fixpoint arguments_loop (fuel : nat) (argv : list bytes) (curr : Z) (dev : option bytes) : outcome (Z * option bytes) :=
  if zlen argv <=? curr then Returns (curr, dev) else
  match fuel with
  | O => Hangs
  | S fuel =>
      opt ← arg argv curr;
      if strncmp_eq 3 (lit "-i") opt then
        _ ← check_arg argv curr "ERROR: -i requires an argument";
        v ← arg argv (curr + 1);
        arguments_loop fuel argv (curr + 2) (Some v)
      else if strncmp_eq 3 (lit "-h") opt || strncmp_eq 7 (lit "--help") opt then
        arg0 ← arg argv 0; Exits EXIT_SUCCESS (show_usage arg0 None)
      else Returns (curr, dev)
  end.

Definition parse_arguments (argv : list bytes) : outcome (Z * option bytes) := arguments_loop (length argv) argv 1 None.

(** [f_stream]: the remaining arguments, each with a space. *)
Definition filter_expression (argv : list bytes) (exp_start : Z) : bytes :=
  concat ((fun s => s ++ [space]) <$> drop (Z.to_nat exp_start) argv).

(** ** IP *)

Definition byte_at (data : bytes) (i : Z) : result Z :=
  match (if 0 <=? i then data !! Z.to_nat i else None) with
  | Some b => Ok (byte_val b)
  | None => Throw (UndefinedBehaviour "read outside the packet")
  end.

(** The [n] bytes at [data + i]. *)
Definition bytes_at (data : bytes) (i n : Z) : result bytes :=
  if (0 <=? i) && (i + n <=? zlen data) then Ok (take (Z.to_nat n) (drop (Z.to_nat i) data))
  else Throw (UndefinedBehaviour "read outside the packet").

Section dump.
Context (inet_ntop6 : bytes -> option bytes).

Definition inet4_addr (data : bytes) (i : Z) : result bytes :=
  addr ← bytes_at data i 4; Ok (inet_ntoa (be_val addr)).

Definition inet6_addr (data : bytes) (i : Z) : result bytes :=
  addr ← bytes_at data i 16; Ok (default (lit "unknown") (inet_ntop6 addr)).

(** The loop over the extension headers: the offset behind the last one, or
    [None] where the function returns -1, and what goes to [cerr].  A turn
    moves on by at least eight bytes. *)
Fixpoint extension_loop (fuel : nat) (len : Z) (data : bytes) (nxt data_offset : Z) : result (option Z * bytes) :=
  if nxt =? 0x11 then Ok (Some data_offset, []) else
  match fuel with
  | O => OutOfFuel
  | S fuel =>
      if negb (nxt =? 0) && negb (nxt =? 43) && negb (nxt =? 60) then Ok (None, lit "Not UDP or fragmented; ") else
      nxt ← byte_at data data_offset;
      hlen ← byte_at data (data_offset + 1);
      let data_offset := data_offset + 8 * (1 + hlen) in
      if len <? data_offset + 2 then Ok (None, []) else extension_loop fuel len data nxt data_offset
  end.

(** The offset of the UDP payload with the two addresses, or [None] for -1;
    and what goes to [cerr]. *)
Definition process_ipv4_ipv6 (len : Z) (data : bytes) : result (option (Z * bytes * bytes) * bytes) :=
  if len <? 1 then Ok (None, []) else
  b0 ← byte_at data 0;
  let pt := Z.land b0 0xf0 in
  if pt =? 0x40 then
    let data_offset := Z.land b0 0x0f * 4 in
    if len <? data_offset then Ok (None, []) else
    proto ← byte_at data 9;
    if negb (proto =? 0x11) then Ok (None, lit "Not UDP; ") else
    src_addr ← inet4_addr data 12;
    dst_addr ← inet4_addr data 16;
    Ok (Some (data_offset + 8, src_addr, dst_addr), [])
  else if pt =? 0x60 then
    if len <? 42 then Ok (None, []) else
    nxt ← byte_at data 6;
    '(o, cerr) ← extension_loop (length data) len data nxt 40;
    match o with
    | None => Ok (None, cerr)
    | Some data_offset =>
        src_addr ← inet6_addr data 8;
        dst_addr ← inet6_addr data 24;
        Ok (Some (data_offset + 8, src_addr, dst_addr), cerr)
    end
  else Ok (None, []).

(** ** The link layer *)

Inductive link : Type := DLT_NULL | DLT_EN10MB | DLT_LINUX_SLL | DLT_LINUX_SLL2 | DLT_RAW | DLT_other.

(** What becomes of a packet: skipped with a message, the end of the program,
    or its IP header at [hdr_off]. *)
Inductive link_result : Type := Skipped (cerr : bytes) | GiveUp (cerr : bytes) | Header (hdr_off : Z).

Definition skip_malformed : link_result := Skipped (lit "[INFO] Skipping malformed packet." ++ newline).
Definition skip_non_ip : link_result := Skipped (lit "[INFO] Skipping non-IP packet." ++ newline).

(** A two-byte protocol number at [i] in a header of [n] bytes. *)
Definition ethertype_at (pkt : bytes) (n i : Z) : result link_result :=
  if zlen pkt <? n then Ok skip_malformed else
  hi ← byte_at pkt i;
  lo ← byte_at pkt (i + 1);
  let pt := Z.lor (Z.shiftl hi 8) lo in
  if negb (pt =? 0x0800) && negb (pt =? 0x86dd) then Ok skip_non_ip else Ok (Header n).

Definition link_header (dl_type : link) (pkt : bytes) : result link_result :=
  match dl_type with
  | DLT_NULL =>
      if zlen pkt <? 4 then Ok skip_malformed else
      pt ← byte_at pkt 3;
      if negb (pt =? 2) && negb (pt =? 24) && negb (pt =? 28) && negb (pt =? 30) then Ok skip_non_ip else Ok (Header 4)
  | DLT_EN10MB => ethertype_at pkt 14 12
  | DLT_LINUX_SLL => ethertype_at pkt 16 14
  | DLT_LINUX_SLL2 => ethertype_at pkt 20 0
  | DLT_RAW => Ok (Header 0)
  | DLT_other => Ok (GiveUp (lit "Mysterious datalink type. Giving up."))
  end.

(** ** The segment *)

(** [res > ParseResult::BadChecksum], in the order of the enumeration. *)
Definition beyond_checksum (res : ParseResult) : bool :=
  match res with NoError | BadChecksum => false | _ => true end.

Definition flag (b : bool) (s : string) : bytes := if b then lit s else [].

Definition show_segment (src dst payload : bytes) (res : ParseResult) (seg : TCPSegment.t) : bytes :=
  if beyond_checksum res then lit "(did not recognize TCP header) src: " ++ src ++ lit " dst: " ++ dst ++ newline else
  let tcp_hdr := TCPSegment.header seg in
  let seqlen := u32 (TCPSegment.length_in_sequence_space seg) in
  src ++ lit ":" ++ dec (TCPHeader.sport tcp_hdr) ++ lit " > " ++ dst ++ lit ":" ++ dec (TCPHeader.dport tcp_hdr) ++
  newline ++ lit "    Flags [" ++
  flag (TCPHeader.urg tcp_hdr) "U" ++ flag (TCPHeader.psh tcp_hdr) "P" ++ flag (TCPHeader.rst tcp_hdr) "R" ++
  flag (TCPHeader.syn tcp_hdr) "S" ++ flag (TCPHeader.fin tcp_hdr) "F" ++ flag (TCPHeader.ack tcp_hdr) "." ++
  lit "] cksum 0x" ++ setw 4 x30 (hex (TCPHeader.cksum tcp_hdr)) ++
  lit (if bool_decide (res = NoError) then " (correct)" else " (incorrect!)") ++
  lit " seq " ++ show_seqno 10 (TCPHeader.seqno tcp_hdr) ++
  (if 0 <? seqlen then lit ":" ++ show_seqno 10 (WrappingInt32.add (TCPHeader.seqno tcp_hdr) seqlen) else []) ++
  lit " ack " ++ show_seqno 10 (TCPHeader.ackno tcp_hdr) ++ lit " win " ++ dec (TCPHeader.win tcp_hdr) ++
  lit " length " ++ dec (zlen payload) ++ newline.

(** The string of [len] characters at [pkt_data + off]: a length that has
    wrapped around is more than a [std::string] can hold. *)
Definition payload_of (pkt : bytes) (payload_off : Z) : result bytes :=
  let payload_len := zlen pkt ⊖ payload_off in
  if 2 ^ 63 <=? payload_len then Throw (LengthError "basic_string::_M_create")
  else bytes_at pkt payload_off payload_len.

(** One turn of the capture loop: what goes to [cout] and to [cerr], or the
    end of the program. *)
Definition show_packet (dl_type : link) (pkt : bytes) : result (bytes * bytes + bytes) :=
  l ← link_header dl_type pkt;
  match l with
  | Skipped cerr => Ok (inl ([], cerr))
  | GiveUp cerr => Ok (inr cerr)
  | Header hdr_off =>
      '(o, cerr) ← process_ipv4_ipv6 (i32 (zlen pkt ⊖ hdr_off)) (drop (Z.to_nat hdr_off) pkt);
      match o with
      | None => Ok (inl ([], cerr ++ lit "Error parsing IPv4/IPv6 packet. Skipping." ++ newline))
      | Some (start_off, src, dst) =>
          let payload_off := hdr_off + start_off in
          payload ← payload_of pkt payload_off;
          '(res, seg) ← TCPSegment.parse (Buffer.of_string payload) 0 TCPSegment.init;
          Ok (inl (show_segment src dst payload res seg ++ hexdump payload 8, cerr))
      end
  end.

(** The loop over the answers of [pcap_next_ex]: its return value and, if it
    is 1, the packet.  The status, [cout] and [cerr]; more answers may be
    needed than given.  When the loop is left the handle is closed, which frees
    it, and after an error ([-1]) the message is then asked of that handle. *)
Fixpoint capture_loop (dl_type : link) (answers : list (Z * bytes)) (cout cerr : bytes) : result (Z * bytes * bytes) :=
  match answers with
  | [] => OutOfFuel
  | (next_ret, pkt) :: answers =>
      if next_ret <? 0 then
        if next_ret =? -1 then Throw (UndefinedBehaviour "pcap_geterr of a closed handle") else Ok (EXIT_SUCCESS, cout, cerr)
      else if next_ret =? 0 then capture_loop dl_type answers cout cerr
      else
        r ← show_packet dl_type pkt;
        match r with
        | inl (out, err) => capture_loop dl_type answers (cout ++ out) (cerr ++ err)
        | inr err => Ok (EXIT_FAILURE, cout, cerr ++ err)
        end
  end.

(** What the capture library answers: [pcap_open_live] with a device (the
    error if it fails), the link type with its description, [pcap_compile] with
    a filter, [pcap_setfilter], the message of [pcap_geterr] and the packets. *)
Record pcap : Type := mk_pcap {
  open_live : option bytes -> option bytes;
  datalink : link;
  description : bytes;
  compile : bytes -> Z;
  setfilter : Z;
  geterr : bytes;
  next_ex : list (Z * bytes)
}.

Definition supported (dlt : link) : bool := match dlt with DLT_other => false | _ => true end.

Definition main (p : pcap) (argv : list bytes) : outcome (Z * bytes * bytes) :=
  '(exp_start, dev) ← parse_arguments argv;
  let cout := match dev with
              | Some dev => lit "Capturing on interface " ++ dev
              | None => lit "Capturing on all interfaces"
              end in
  match open_live p dev with
  | Some errbuf => Exits EXIT_FAILURE (cout ++ newline ++ lit "Error initiating capture: " ++ errbuf ++ newline)
  | None =>
      if negb (supported (datalink p)) then
        Exits EXIT_FAILURE (cout ++ newline ++ lit "Error: unsupported datalink type " ++ description p ++ newline)
      else
        let cout := cout ++ lit " (type: " ++ description p ++ lit ")" ++ newline in
        let expression := filter_expression argv exp_start in
        let cout := cout ++ lit "Using filter expression: " ++ expression ++ newline in
        if negb (compile p expression =? 0) then
          Returns (EXIT_FAILURE, cout ++ lit "Error compiling filter expression: " ++ geterr p ++ newline, [])
        else if negb (setfilter p =? 0) then
          Returns (EXIT_FAILURE, cout ++ lit "Error configuring packet filter: " ++ geterr p ++ newline, [])
        else lift (capture_loop (datalink p) (next_ex p) cout [])
  end.

(** ** Memory safety *)

Lemma byte_at_in data i : 0 <= i < zlen data -> exists v, byte_at data i = Ok v /\ is_u8 v.
Proof.
  intros Hi. unfold byte_at, zlen in *. rewrite (proj2 (Z.leb_le _ _)) by lia.
  destruct (lookup_lt_is_Some_2 data (Z.to_nat i)) as [b ->]; [lia|]. eexists. split; [done|]. apply byte_val_range.
Qed.

Lemma bytes_at_in data i n : 0 <= i -> 0 <= n -> i + n <= zlen data -> bytes_at data i n = Ok (take (Z.to_nat n) (drop (Z.to_nat i) data)).
Proof. intros ???. unfold bytes_at. by rewrite (proj2 (Z.leb_le 0 i)), (proj2 (Z.leb_le (i + n) _)) by lia. Qed.

(** The loop over extension headers ends, within the packet. *)
Lemma extension_loop_returns fuel data nxt off :
  0 <= off -> off + 2 <= zlen data -> zlen data - off <= Z.of_nat fuel ->
  exists o cerr, extension_loop fuel (zlen data) data nxt off = Ok (o, cerr) /\
    forall off', o = Some off' -> off <= off' /\ off' + 2 <= zlen data.
Proof.
  revert nxt off. induction fuel as [|fuel IH]; intros nxt off H0 H2 Hf; cbn [extension_loop].
  { destruct (_ =? _); [|lia]. do 2 eexists. split; [done|]. intros ? [= <-]. lia. }
  destruct (_ =? 0x11); [do 2 eexists; split; [done|]; intros ? [= <-]; lia|].
  destruct (_ && _); [by do 2 eexists|].
  destruct (byte_at_in data off) as (v & -> & _); [lia|]. cbn [mbind result_bind].
  destruct (byte_at_in data (off + 1)) as (h & -> & Hh); [lia|]. cbn [mbind result_bind]. unfold is_u8 in Hh.
  destruct (Z.ltb_spec (zlen data) (off + 8 * (1 + h) + 2)); [by do 2 eexists|].
  destruct (IH v (off + 8 * (1 + h))) as (o & cerr & E & Ho); [lia..|]. exists o, cerr. split; [done|].
  intros off' Eo. destruct (Ho off' Eo). lia.
Qed.

(** An IPv4 packet shorter than the fixed part of its header. *)
Definition short_ipv4 (data : bytes) : Prop :=
  exists b, data !! 0%nat = Some b /\ Z.land (byte_val b) 0xf0 = 0x40 /\ zlen data < 20.

(** The reads are within the packet unless it is one of these. *)
Lemma process_returns data :
  (exists o cerr, process_ipv4_ipv6 (zlen data) data = Ok (o, cerr) /\
     forall off src dst, o = Some (off, src, dst) -> 8 <= off <= zlen data + 8) \/
  (short_ipv4 data /\ exists what, process_ipv4_ipv6 (zlen data) data = Throw (UndefinedBehaviour what)).
Proof.
  unfold process_ipv4_ipv6. destruct (Z.ltb_spec (zlen data) 1); [left; by do 2 eexists|].
  destruct data as [|b data]; [done|]. change (byte_at (b :: data) 0) with (@Ok Z (byte_val b)). cbn [mbind result_bind].
  set (pkt := b :: data) in *. pose proof (byte_val_range b) as Hb.
  destruct (Z.eqb_spec (Z.land (byte_val b) 0xf0) 0x40) as [E4|].
  - assert (0 <= Z.land (byte_val b) 0x0f) as Hn by (apply Z.land_nonneg; by right).
    destruct (Z.ltb_spec (zlen pkt) (Z.land (byte_val b) 0x0f * 4)); [left; by do 2 eexists|].
    destruct (Z.lt_ge_cases (zlen pkt) 20) as [Hs|Hl].
    + assert (short_ipv4 pkt) as Hshort by (by exists b).
      unfold byte_at. cbn [Z.leb Z.compare]. change (0 <=? 9) with true. cbn iota.
      destruct (pkt !! Z.to_nat 9) as [p|]; [|right; split; [exact Hshort|by eexists]]. cbn [mbind result_bind].
      destruct (negb _); [left; by do 2 eexists|]. unfold inet4_addr, bytes_at.
      right. split; [exact Hshort|]. destruct ((0 <=? 12) && _); cbn [mbind result_bind]; [|by eexists].
      rewrite (proj2 (Z.leb_gt (16 + 4) (zlen pkt)) ltac:(lia)), andb_false_r. by eexists.
    + destruct (byte_at_in pkt 9) as (v & -> & _); [lia|]. cbn [mbind result_bind].
      destruct (negb _); [left; by do 2 eexists|]. unfold inet4_addr. rewrite !bytes_at_in by lia. cbn [mbind result_bind].
      left. do 2 eexists. split; [done|]. intros ??? [= <- _ _]. lia.
  - destruct (_ =? 0x60); [|left; by do 2 eexists]. destruct (Z.ltb_spec (zlen pkt) 42); [left; by do 2 eexists|].
    destruct (byte_at_in pkt 6) as (v & -> & _); [lia|]. cbn [mbind result_bind].
    destruct (extension_loop_returns (length pkt) pkt v 40) as (o & cerr & -> & Ho); [lia|lia|unfold zlen; lia|]. cbn [mbind result_bind].
    destruct o as [off|]; [|left; by do 2 eexists]. destruct (Ho off eq_refl) as [Ho1 Ho2].
    unfold inet6_addr. rewrite !bytes_at_in by lia. cbn [mbind result_bind]. left. do 2 eexists. split; [done|].
    intros ??? [= <- _ _]. lia.
Qed.

Lemma link_header_returns dl pkt :
  exists l, link_header dl pkt = Ok l /\ forall off, l = Header off -> 0 <= off <= zlen pkt.
Proof.
  assert (forall n i, 0 <= i -> i + 1 < n -> exists l, ethertype_at pkt n i = Ok l /\ forall off, l = Header off -> 0 <= off <= zlen pkt) as He.
  { intros n i Hi Hn. unfold ethertype_at. destruct (Z.ltb_spec (zlen pkt) n); [by eexists|].
    destruct (byte_at_in pkt i) as (h & -> & _); [lia|]. destruct (byte_at_in pkt (i + 1)) as (l & -> & _); [lia|].
    cbn [mbind result_bind]. destruct (_ && _); [by eexists|]. eexists. split; [done|]. intros ? [= <-]. lia. }
  pose proof (zlen_nonneg pkt). destruct dl; cbn [link_header]; try (apply He; lia).
  - destruct (Z.ltb_spec (zlen pkt) 4); [by eexists|]. destruct (byte_at_in pkt 3) as (h & -> & _); [lia|]. cbn [mbind result_bind].
    destruct (_ && _); [by eexists|]. eexists. split; [done|]. intros ? [= <-]. lia.
  - eexists. split; [done|]. intros ? [= <-]. lia.
  - by eexists.
Qed.

(** A packet whose IP header is cut: nothing else is read out of bounds. *)
Definition cut_ipv4 (dl : link) (pkt : bytes) : Prop :=
  exists off, link_header dl pkt = Ok (Header off) /\ short_ipv4 (drop (Z.to_nat off) pkt).

(** A packet that ends before its UDP payload starts. *)
Definition cut_udp (dl : link) (pkt : bytes) : Prop :=
  exists off start src dst cerr, link_header dl pkt = Ok (Header off) /\
    process_ipv4_ipv6 (zlen (drop (Z.to_nat off) pkt)) (drop (Z.to_nat off) pkt) = Ok (Some (start, src, dst), cerr) /\
    zlen pkt < off + start.

Lemma show_packet_cases dl pkt :
  zlen pkt < 2 ^ 31 ->
  match show_packet dl pkt with
  | Ok _ => ~ cut_udp dl pkt
  | Throw (UndefinedBehaviour _) => cut_ipv4 dl pkt
  | Throw (LengthError _) => cut_udp dl pkt
  | _ => False
  end.
Proof.
  intros Hlen. unfold show_packet. destruct (link_header_returns dl pkt) as (l & El & Hl). rewrite El. cbn [mbind result_bind].
  assert (forall off, l = Header off -> i32 (zlen pkt ⊖ off) = zlen (drop (Z.to_nat off) pkt)) as Hz.
  { intros off E. specialize (Hl off E). rewrite sub64_id by word_lia. zlen. unfold i32. rewrite Z.mod_small; lia. }
  destruct l as [cerr|cerr|off]; [intros (off & ? & ? & ? & ? & E & _); congruence|intros (off & ? & ? & ? & ? & E & _); congruence|].
  rewrite (Hz off eq_refl). specialize (Hl off eq_refl).
  destruct (process_returns (drop (Z.to_nat off) pkt)) as [(o & cerr & E & Ho)|(Hs & what & E)]; rewrite E; cbn [mbind result_bind].
  2:{ by exists off. }
  destruct o as [[[start src] dst]|]; [|intros (off' & ? & ? & ? & ? & E1 & E2 & _); rewrite El in E1; injection E1 as <-; congruence].
  specialize (Ho _ _ _ eq_refl). unfold payload_of. cbn zeta. destruct (Z.le_gt_cases (off + start) (zlen pkt)) as [Hle|Hgt].
  - rewrite sub64_id by word_lia. rewrite (proj2 (Z.leb_gt _ _)) by lia. rewrite bytes_at_in by lia. cbn [mbind result_bind].
    set (payload := take _ _).
    assert (zlen payload = zlen pkt - (off + start)) as Hp by (unfold payload; zlen; lia).
    assert (Buffer.wf (Buffer.of_string payload)) as Hw by (apply Buffer.of_string_wf; word_lia).
    destruct (TCPSegment.tcp_segment_parse_any (Buffer.of_string payload) 0 TCPSegment.init Hw ltac:(word_lia)) as (r & sg & -> & _).
    cbn [mbind result_bind]. intros (off' & start' & src' & dst' & cerr' & E1 & E2 & Hc). rewrite El in E1. injection E1 as <-.
    rewrite E in E2. injection E2 as <- _ _ _. lia.
  - assert (2 ^ 63 <= zlen pkt ⊖ (off + start)) as Hbig.
    { zlen. word_lia. }
    rewrite (proj2 (Z.leb_le _ _)) by done. cbn [mbind result_bind]. by exists off, start, src, dst, cerr.
Qed.

(** The printer reads nothing but the packet, with one exception.  Whatever
    the link type and the bytes captured, a packet is printed or skipped,
    unless its IPv4 header is cut short, in which case bytes behind the packet
    may be read, or it ends before the UDP payload, in which case the program
    is ended by an exception. *)
Theorem tcpdump_reads dl pkt :
  zlen pkt < 2 ^ 31 ->
  match show_packet dl pkt with
  | Ok _ => ~ cut_udp dl pkt
  | Throw (UndefinedBehaviour _) => cut_ipv4 dl pkt
  | Throw (LengthError _) => cut_udp dl pkt
  | _ => False
  end.
Proof. apply show_packet_cases. Qed.

(** The command line is read to a position within it, or the program exits. *)
Lemma arguments_settle argv : 1 <= zlen argv -> settles (fun r => 1 <= r.1 <= zlen argv) (parse_arguments argv).
Proof.
  intros Hl. unfold parse_arguments. assert (forall fuel curr dev, 1 <= curr <= zlen argv -> zlen argv - curr <= Z.of_nat fuel ->
    settles (fun r => 1 <= r.1 <= zlen argv) (arguments_loop fuel argv curr dev)) as H; [|apply H; unfold zlen in *; lia].
  induction fuel as [|fuel IH]; intros curr dev Hc Hf; cbn [arguments_loop]; destruct (Z.leb_spec (zlen argv) curr); [cbn; lia|lia|cbn; lia|].
  destruct (arg_in argv curr) as (opt & E & _); [lia|]. rewrite E. cbn [mbind outcome_bind].
  destruct (arg_in argv 0) as (argv0 & E0 & _); [lia|]. destruct (strncmp_eq 3 (lit "-i") opt).
  - unfold check_arg. rewrite E0. destruct (Z.leb_spec (zlen argv) (curr + 1)); [cbn; by right|]. cbn [mbind outcome_bind].
    destruct (arg_in argv (curr + 1)) as (v & E1 & _); [lia|]. rewrite E1. cbn [mbind outcome_bind]. apply IH; lia.
  - destruct (_ || _); [rewrite E0; cbn; by left|]. cbn. lia.
Qed.

(** Every packet that is not cut is printed or skipped. *)
Lemma whole_packet dl pkt :
  supported dl = true -> zlen pkt < 2 ^ 31 -> ~ cut_ipv4 dl pkt -> ~ cut_udp dl pkt -> exists o, show_packet dl pkt = Ok (inl o).
Proof.
  intros Hdl Hl H4 Hu. pose proof (show_packet_cases dl pkt Hl) as H.
  destruct (show_packet dl pkt) as [[o|cerr]|e|] eqn:E; [by eexists| |by destruct e|done].
  exfalso. revert E. unfold show_packet. destruct (link_header_returns dl pkt) as (l & El & _). rewrite El. cbn [mbind result_bind].
  destruct l as [c|c|off].
  - done.
  - intros _. revert El. clear -Hdl. unfold link_header, ethertype_at. destruct dl; try done; intros El;
      repeat (case_match; try done); repeat (apply result_bind_Ok in El as (? & _ & El)); by case_match.
  - intros E. apply result_bind_Ok in E as ([[[[? ?] ?]|] ?] & _ & E); [|done].
    apply result_bind_Ok in E as (? & _ & E). apply result_bind_Ok in E as ([? ?] & _ & E). done.
Qed.

Lemma capture_session dl pkts outs cout cerr :
  Forall2 (fun pkt o => show_packet dl pkt = Ok (inl o)) pkts outs ->
  capture_loop dl ((pair 1 <$> pkts) ++ [(-2, [])]) cout cerr =
    Ok (EXIT_SUCCESS, cout ++ concat (fst <$> outs), cerr ++ concat (snd <$> outs)).
Proof.
  intros H. revert cout cerr. induction H as [|pkt [out err] pkts outs E _ IH]; intros cout cerr; cbn.
  - by rewrite !app_nil_r.
  - rewrite E. cbn. rewrite IH. by rewrite <- !app_assoc.
Qed.

(** A capture session runs to its end.  With a device that opens, a link
    type that is supported and a filter that compiles, the program prints what
    it has to print for each of the packets captured, in order, and ends with
    success when the capture is interrupted, provided that no packet is cut
    short. *)
Theorem tcpdump_session p argv exp_start dev pkts :
  parse_arguments argv = Returns (exp_start, dev) ->
  open_live p dev = None -> supported (datalink p) = true ->
  compile p (filter_expression argv exp_start) = 0 -> setfilter p = 0 ->
  next_ex p = (pair 1 <$> pkts) ++ [(-2, [])] ->
  Forall (fun pkt => zlen pkt < 2 ^ 31 /\ ~ cut_ipv4 (datalink p) pkt /\ ~ cut_udp (datalink p) pkt) pkts ->
  exists outs banner, Forall2 (fun pkt o => show_packet (datalink p) pkt = Ok (inl o)) pkts outs /\
    main p argv = Returns (EXIT_SUCCESS, banner ++ concat (fst <$> outs), concat (snd <$> outs)).
Proof.
  intros Ha Ho Hdl Hc Hs Hn Hp.
  assert (exists outs, Forall2 (fun pkt o => show_packet (datalink p) pkt = Ok (inl o)) pkts outs) as [outs Houts].
  { clear Hn. induction Hp as [|pkt pkts (Hl & H4 & Hu) _ [outs IH]]; [by exists []|].
    destruct (whole_packet _ pkt Hdl Hl H4 Hu) as [o E]. exists (o :: outs). by constructor. }
  exists outs. eexists. split; [done|]. unfold main. rewrite Ha. cbn [mbind outcome_bind].
  rewrite Ho, Hdl, Hc, Hs, Hn. cbn. rewrite (capture_session _ _ _ _ _ Houts). done.
Qed.

(** ** What is printed *)

Definition is_udp_ipv4 (ip : bytes) : Prop := length ip = 20%nat /\ ip !! 0%nat = Some x45 /\ ip !! 9%nat = Some x11.

Lemma process_udp_ipv4 ip rest :
  is_udp_ipv4 ip ->
  process_ipv4_ipv6 (zlen (ip ++ rest)) (ip ++ rest) =
    Ok (Some (28, inet_ntoa (be_val (take 4 (drop 12 ip))), inet_ntoa (be_val (drop 16 ip))), []).
Proof.
  intros (Hl & H0 & H9). assert (20 <= zlen (ip ++ rest)) as Hz by (unfold zlen; rewrite length_app; lia).
  assert (forall i b, (i < 20)%nat -> ip !! i = Some b -> byte_at (ip ++ rest) (Z.of_nat i) = Ok (byte_val b)) as Hb.
  { intros i b Hi E. unfold byte_at. rewrite (proj2 (Z.leb_le _ _)), Nat2Z.id by lia. by rewrite lookup_app_l, E by lia. }
  unfold process_ipv4_ipv6. rewrite (proj2 (Z.ltb_ge _ _)) by lia. change 0 with (Z.of_nat 0). rewrite (Hb 0%nat x45 ltac:(lia) H0).
  cbn [mbind result_bind]. change (Z.land (byte_val x45) 240 =? 64) with true. cbn iota. change (Z.land (byte_val x45) 15 * 4) with 20.
  rewrite (proj2 (Z.ltb_ge _ _)) by lia. change 9 with (Z.of_nat 9). rewrite (Hb 9%nat x11 ltac:(lia) H9). cbn [mbind result_bind].
  change (negb (byte_val x11 =? 17)) with false. cbn iota. unfold inet4_addr. rewrite !bytes_at_in by lia. cbn [mbind result_bind].
  change (Z.to_nat 4) with 4%nat. change (Z.to_nat 12) with 12%nat. change (Z.to_nat 16) with 16%nat.
  rewrite !drop_app_le, !take_app_le by (rewrite ?length_drop; lia). do 5 f_equal. rewrite take_ge by (rewrite length_drop; lia). done.
Qed.

(** The link header of an IPv4 packet: the family 2 in the last byte, or the
    Ethernet type [0x0800] where each type of link has it. *)
Definition link_ipv4 (dl : link) (linkh : bytes) : Prop :=
  match dl with
  | DLT_NULL => length linkh = 4%nat /\ linkh !! 3%nat = Some x02
  | DLT_EN10MB => length linkh = 14%nat /\ linkh !! 12%nat = Some x08 /\ linkh !! 13%nat = Some x00
  | DLT_LINUX_SLL => length linkh = 16%nat /\ linkh !! 14%nat = Some x08 /\ linkh !! 15%nat = Some x00
  | DLT_LINUX_SLL2 => length linkh = 20%nat /\ linkh !! 0%nat = Some x08 /\ linkh !! 1%nat = Some x00
  | DLT_RAW => linkh = []
  | DLT_other => False
  end.

Lemma byte_at_app data rest (i : nat) b : data !! i = Some b -> byte_at (data ++ rest) (Z.of_nat i) = Ok (byte_val b).
Proof.
  intros E. unfold byte_at. rewrite (proj2 (Z.leb_le _ _)), Nat2Z.id by lia.
  by rewrite lookup_app_l, E by (by eapply lookup_lt_Some).
Qed.

Lemma ethertype_ipv4 linkh rest (n i : nat) :
  length linkh = n -> linkh !! i = Some x08 -> linkh !! S i = Some x00 ->
  ethertype_at (linkh ++ rest) (Z.of_nat n) (Z.of_nat i) = Ok (Header (Z.of_nat n)).
Proof.
  intros Hn H0 H1. unfold ethertype_at. rewrite (proj2 (Z.ltb_ge _ _)) by (unfold zlen; rewrite length_app; lia).
  rewrite (byte_at_app _ _ _ _ H0). cbn [mbind result_bind]. replace (Z.of_nat i + 1) with (Z.of_nat (S i)) by lia.
  by rewrite (byte_at_app _ _ _ _ H1).
Qed.

Lemma link_ipv4_header dl linkh rest : link_ipv4 dl linkh -> link_header dl (linkh ++ rest) = Ok (Header (zlen linkh)).
Proof.
  unfold zlen. destruct dl; cbn [link_ipv4 link_header].
  - intros [Hl H3]. rewrite (proj2 (Z.ltb_ge _ _)) by (unfold zlen; rewrite length_app; lia).
    change 3 with (Z.of_nat 3). rewrite (byte_at_app _ _ _ _ H3). by rewrite Hl.
  - intros (Hl & H0 & H1). rewrite Hl. by apply (ethertype_ipv4 _ _ 14 12).
  - intros (Hl & H0 & H1). rewrite Hl. by apply (ethertype_ipv4 _ _ 16 14).
  - intros (Hl & H0 & H1). rewrite Hl. by apply (ethertype_ipv4 _ _ 20 0).
  - by intros ->.
  - done.
Qed.

(** A packet goes to [show_segment] with the segment that its payload parses to. *)
Lemma show_packet_udp dl linkh ip udp wire res seg :
  link_ipv4 dl linkh -> is_udp_ipv4 ip -> length udp = 8%nat -> zlen linkh + 28 + zlen wire < 2 ^ 31 ->
  TCPSegment.parse (Buffer.of_string wire) 0 TCPSegment.init = Ok (res, seg) ->
  show_packet dl (linkh ++ ip ++ udp ++ wire) =
    Ok (inl (show_segment (inet_ntoa (be_val (take 4 (drop 12 ip)))) (inet_ntoa (be_val (drop 16 ip))) wire res seg ++ hexdump wire 8, [])).
Proof.
  intros Hl Hip Hudp Hlen Hp. pose proof (zlen_nonneg linkh). pose proof (zlen_nonneg wire).
  unfold show_packet. rewrite link_ipv4_header by done. cbn [mbind result_bind].
  assert (zlen ip = 20) as Zi by (destruct Hip; unfold zlen; lia). assert (zlen udp = 8) as Zu by (unfold zlen; lia).
  assert (zlen (linkh ++ ip ++ udp ++ wire) = zlen linkh + 28 + zlen wire) as Zp by (rewrite !zlen_app; lia).
  rewrite Zp, sub64_id by word_lia. unfold i32. rewrite Z.mod_small by lia.
  replace (drop (Z.to_nat (zlen linkh)) (linkh ++ ip ++ udp ++ wire)) with (ip ++ udp ++ wire)
    by (unfold zlen; by rewrite Nat2Z.id, drop_app_length).
  replace (zlen linkh + 28 + zlen wire - zlen linkh + 2 ^ 31 - 2 ^ 31) with (zlen (ip ++ udp ++ wire)) by (rewrite !zlen_app; lia).
  rewrite process_udp_ipv4 by done. cbn [mbind result_bind]. unfold payload_of. cbn zeta. rewrite Zp, sub64_id by word_lia.
  rewrite (proj2 (Z.leb_gt _ _)) by lia. rewrite bytes_at_in by lia. cbn [mbind result_bind].
  match goal with |- context [Buffer.of_string (take ?n ?x)] => replace (take n x) with wire; [by rewrite Hp|] end.
  replace (Z.to_nat (zlen linkh + 28)) with (length (linkh ++ ip ++ udp)) by (rewrite !length_app; unfold zlen in *; lia).
  rewrite (app_assoc ip udp wire), (app_assoc linkh (ip ++ udp) wire), drop_app_length, take_ge; [done|]. unfold zlen. lia.
Qed.


(** Of a segment with a wrong checksum the printer shows nothing.  The
    parser leaves before it reads the header, so the line printed has ports,
    flags, numbers and window zero, and is the same for any two such payloads of
    one length. *)
Theorem tcpdump_bad_checksum src dst payload seg :
  zlen payload < 2 ^ 64 ->
  TCPSegment.parse (Buffer.of_string payload) 0 TCPSegment.init = Ok (BadChecksum, seg) ->
  show_segment src dst payload BadChecksum seg =
    src ++ lit ":0 > " ++ dst ++ lit ":0" ++ newline ++
    lit "    Flags [] cksum 0x0000 (incorrect!) seq 0 ack 0 win 0 length " ++ dec (zlen payload) ++ newline.
Proof using.
  clear inet_ntop6. intros Hl H. destruct (TCPSegment.tcp_segment_parse_any (Buffer.of_string payload) 0 TCPSegment.init)
    as (r & s' & E & [[-> ->]|[[-> | ->] _]]); [apply Buffer.of_string_wf; pose proof (zlen_nonneg payload); word_lia|word_lia|..]; rewrite H in E; simplify_eq.
  reflexivity.
Qed.

End dump.

(** A frame: the Ethernet header of an IPv4 packet, an IP header, a UDP header. *)
Definition sample_link : bytes := replicate 12 x00 ++ [x08; x00].
Definition sample_ip : bytes := [x45] ++ replicate 8 x00 ++ [x11; x00; x00; x0a; x00; x00; x01; x0a; x00; x00; x02].


(** What the printer cannot handle.  An IPv4 packet of five bytes that
    claims a header of one word is read behind its end; an IPv4 packet of 20
    bytes that claims to be UDP ends the program; and when the capture itself
    fails, the program asks the handle it has just closed for the message. *)
Theorem tcpdump_overreads inet_ntop6 dl cout cerr :
  (exists what, show_packet inet_ntop6 DLT_RAW [x41; x00; x00; x00; x00] = Throw (UndefinedBehaviour what)) /\
  (exists what, show_packet inet_ntop6 DLT_RAW
     ([x45] ++ replicate 8 x00 ++ [x11] ++ replicate 10 x00) = Throw (LengthError what)) /\
  (exists what, capture_loop inet_ntop6 dl [(-1, [])] cout cerr = Throw (UndefinedBehaviour what)).
Proof. split; [|split]; eexists; vm_compute; reflexivity. Qed.

End UdpTcpdump.
