(* ===== verification/adapter_carries.v ===== *)
(** * What an adapter puts on its device

    The contract between a datagram adapter and the network, for all adapters
    of [fd_adapter.v] at once: whatever an adapter hands to its device, another
    adapter of the same kind reads from it nothing, or a segment with the data
    of one that was written.  An Ethernet adapter may keep a datagram until
    the next hop's address is known, so what waits inside is part of it. *)

From S2P Require Import Prelude.
From S2P Require Import wrapping_integers.
From S2P Require Import buffer.
From S2P Require Import parser.
From S2P Require Import util.
From S2P Require Import tcp_segment.
From S2P Require Import ipv4_datagram.
From S2P Require Import ethernet_frame.
From S2P Require Import address.
From S2P Require Import socket.
From S2P Require Import network_interface.
From S2P Require Import tcp_receiver.
From S2P Require Import end_to_end.
From S2P Require Import fd_adapter.
Import FdAdapterBase (config, listening).
Import TCPOverIPv4Adapter (unwrap_tcp_in_ip, wrap_tcp_in_ip).

(** [ad_wire o i]: the other end's device may yield [i] for the output [o].
    [ad_keeps L a]: what waits inside [a] was written as one of [L]. *)
Class AdapterWire (A I O : Type) : Type := {
  ad_wire : O -> I -> Prop;
  ad_keeps : list TCPSegment.t -> A -> Prop
}.

(** Whatever is read from the output, in whatever state, is of [L]. *)
Definition carries {A I O : Type} `{!Adapter A I O} `{!AdapterWire A I O} (L : list TCPSegment.t) (o : O) : Prop :=
  forall i (b : A) seg' out b', ad_wire (A := A) o i -> ad_read i b = Ok (Some seg', out, b') ->
    exists seg, seg ∈ L /\ as_sent seg seg'.

Class AdapterCarries (A I O : Type) `{!Adapter A I O} `{!AdapterParses A I O} `{!AdapterWire A I O} : Prop := {
  ad_wire_input o i : ad_wire (A := A) o i -> ad_input (A := A) i;
  ad_keeps_mono L L' a : L ⊆ L' -> ad_keeps L a -> ad_keeps L' a;
  ad_keeps_config L c a : ad_keeps L a -> ad_keeps L (ad_set_config c a);
  ad_keeps_listening L l a : ad_keeps L a -> ad_keeps L (ad_set_listening l a);
  ad_write_carries L seg a out a' :
    fits_ipv4 seg -> seg ∈ L -> ad_keeps L a -> ad_write seg a = Ok (out, a') ->
    ad_keeps L a' /\ Forall (carries L) out;
  ad_read_carries L i a ret out a' :
    ad_input (A := A) i -> ad_keeps L a -> ad_read i a = Ok (ret, out, a') -> ad_keeps L a' /\ Forall (carries L) out;
  ad_tick_carries L ms a out a' :
    ad_keeps L a -> ad_tick ms a = (out, a') -> ad_keeps L a' /\ Forall (carries L) out
}.

Lemma carries_mono {A I O : Type} `{!Adapter A I O} `{!AdapterWire A I O} L L' (o : O) :
  L ⊆ L' -> carries (A := A) L o -> carries (A := A) L' o.
Proof. intros HL Ho i b seg' out b' Hi Hr. destruct (Ho i b seg' out b' Hi Hr) as (seg & ? & ?). eauto. Qed.

Lemma received_as_sent seg sport dport seg' : received_as seg sport dport seg' -> as_sent seg seg'.
Proof. intros [Hp [v Hh]]. repeat split; unfold TCPSegment.header, TCPSegment.payload; rewrite ?Hh, ?Hp; done. Qed.

(** ** UDP *)

Lemma port_range a p : Address.port a = Ok p -> is_u16 p.
Proof.
  unfold Address.port. case_match; [|done]. intros [= <-].
  match goal with |- is_u16 (be_val ?s) => pose proof (be_val_range s) as Hr; assert (zlen s <= 2) as Hl end.
  { unfold zlen. rewrite length_take. lia. }
  match type of Hr with _ <= _ < 2 ^ ?e => pose proof (Z.pow_le_mono_r 2 e 16 ltac:(lia) ltac:(lia)) end.
  unfold is_u16. lia.
Qed.

#[global] Instance udp_wire : AdapterWire FdAdapterBase.t UDPSocket.received_datagram (Address.t * BufferList.t) := {
  ad_wire := fun o i => UDPSocket.payload i = BufferList.concatenate o.2 /\ is_u64 (zlen (UDPSocket.payload i));
  ad_keeps := fun _ _ => True
}.

Lemma udp_write_carries L seg a out :
  fits_ipv4 seg -> seg ∈ L -> TCPOverUDPSocketAdapter.write seg a = Ok out ->
  carries (A := FdAdapterBase.t) (I := UDPSocket.received_datagram) L out.
Proof.
  intros Hf Hin. unfold TCPOverUDPSocketAdapter.write.
  intros (sport & Hs & (dport & Hd & (pl & Hpl & [= <-])%result_bind_Ok)%result_bind_Ok)%result_bind_Ok.
  pose proof (set_ports_fits _ _ _ (port_range _ _ Hs) (port_range _ _ Hd) Hf) as [Hw Hdo Hl].
  destruct (TCPSegment.tcp_segment_read_back 0 (set_ports sport dport seg) TCPSegment.init Hw Hdo) as (l & v & Hser & _ & _ & Hp);
    [split; lia|]. rewrite Hser in Hpl. injection Hpl as ->.
  intros i b seg' out b' [Hi Hu] Hr. exists seg. split; [done|]. cbn in Hi, Hr.
  apply result_bind_Ok in Hr as ([s b1] & H & [= -> _ _]). unfold TCPOverUDPSocketAdapter.read in H. case_match; [done|].
  destruct (Hp (Buffer.of_string (UDPSocket.payload i))) as (s' & Hparse & Hh & Hstr);
    [by apply Buffer.of_string_wf|by rewrite Buffer.str_of_string|].
  rewrite Hparse in H. cbn [mbind result_bind] in H. rewrite bool_decide_true in H by done. cbn [negb] in H.
  assert (s' = seg') as -> by (repeat case_match; by simplify_eq).
  eapply (received_as_sent _ sport dport). split; [done|]. by exists v.
Qed.

#[global] Instance udp_carries :
  AdapterCarries FdAdapterBase.t UDPSocket.received_datagram (Address.t * BufferList.t).
Proof.
  split; try done.
  - by intros o i [_ ?].
  - intros L seg a out a' Hf Hin _. cbn. intros (o & Hw & [= <- <-])%result_bind_Ok. split; [done|].
    apply Forall_singleton. by eapply udp_write_carries.
  - intros L i a ret out a' _ _. cbn. intros ([s b] & _ & [= _ <- _])%result_bind_Ok. by split.
  - intros L ms a out a' _. cbn. intros [= <- _]. by split.
Qed.

(** ** IPv4 *)

(** A datagram with one of the segments. *)
Definition carried (L : list TCPSegment.t) (d : IPv4Datagram.t) : Prop :=
  IPv4Datagram.sendable d /\
  exists seg, seg ∈ L /\ forall buf seg', Buffer.wf buf -> Buffer.str buf = BufferList.concatenate (IPv4Datagram._payload d) ->
    TCPSegment.parse buf (IPv4Header.pseudo_cksum (IPv4Datagram._header d)) TCPSegment.init = Ok (NoError, seg') ->
    as_sent seg seg'.

Lemma carried_mono L L' d : L ⊆ L' -> carried L d -> carried L' d.
Proof. intros HL [Hs (seg & Hin & H)]. split; [done|]. exists seg. split; [by apply HL|done]. Qed.

Lemma wrap_carried L seg a d :
  fits_ipv4 seg -> seg ∈ L -> wrap_tcp_in_ip seg a = Ok d -> carried L d.
Proof.
  intros Hf Hin Hw. unfold wrap_tcp_in_ip in Hw.
  apply result_bind_Ok in Hw as (pa & Hpa & Hw). apply result_bind_Ok in Hw as (pb & Hpb & Hw). cbn beta zeta in Hw.
  apply result_bind_Ok in Hw as (ipa & Hipa & Hw). apply result_bind_Ok in Hw as (ipb & Hipb & Hw).
  pose proof (port_range _ _ Hpa) as Ra. pose proof (port_range _ _ Hpb) as Rb.
  pose proof (NetworkInterface.ipv4_numeric_range _ _ Hipa) as Ia. pose proof (NetworkInterface.ipv4_numeric_range _ _ Hipb) as Ib.
  set (a0 := FdAdapterBase.mk (FdAdapterConfig.mk (Address.ipv4 ipa pa) (Address.ipv4 ipb pb) 0 0) false).
  destruct (wrap_spec ipa pa ipb pb Ia Ra Ib Rb a0 seg) as (d' & Hd & Hs & _ & _ & _ & _ & Hp); [by split|done|].
  assert (d' = d) as ->.
  { unfold wrap_tcp_in_ip in Hd. cbn [a0 config FdAdapterBase._cfg FdAdapterConfig.source FdAdapterConfig.destination] in Hd.
    rewrite !Address.port_eq, !Address.ipv4_numeric_eq in Hd by done. cbn [mbind result_bind] in Hd.
    rewrite Hd in Hw. by injection Hw. }
  split; [done|]. exists seg. split; [done|]. intros buf seg' Hb Hstr Hparse.
  destruct (Hp buf Hb Hstr) as (seg1 & Hparse' & Hrec). rewrite Hparse in Hparse'. injection Hparse' as ->.
  by eapply received_as_sent.
Qed.

(** What TCP gets of a datagram was parsed from its payload. *)
Lemma unwrap_parsed d a seg a' :
  unwrap_tcp_in_ip d a = Ok (Some seg, a') ->
  exists buf, BufferList.to_Buffer (IPv4Datagram._payload d) = Ok buf /\
    TCPSegment.parse buf (IPv4Header.pseudo_cksum (IPv4Datagram._header d)) TCPSegment.init = Ok (NoError, seg).
Proof.
  unfold unwrap_tcp_in_ip.
  intros (b1 & _ & H)%result_bind_Ok. destruct b1; [by simplify_eq|].
  apply result_bind_Ok in H as (b2 & _ & H). destruct b2; [by simplify_eq|].
  case_match; [by simplify_eq|].
  apply result_bind_Ok in H as (buf & Hbuf & ([res seg1] & Hparse & H)%result_bind_Ok).
  case_bool_decide as Hres; cbn [negb] in H; [|by simplify_eq]. subst res.
  apply result_bind_Ok in H as (port & _ & H). case_match; [by simplify_eq|]. case_match; [by simplify_eq|].
  apply result_bind_Ok in H as (a1 & _ & H). apply result_bind_Ok in H as (port' & _ & H).
  case_match; simplify_eq. eauto.
Qed.

(** A carried datagram that is sent, parsed and unwrapped. *)
Lemma carried_read_back L d l buf dg b seg' b' :
  carried L d -> IPv4Datagram.serialize d = Ok l -> Buffer.wf buf -> Buffer.str buf = BufferList.concatenate l ->
  IPv4Datagram.parse buf IPv4Datagram.init = Ok (NoError, dg) -> unwrap_tcp_in_ip dg b = Ok (Some seg', b') ->
  exists seg, seg ∈ L /\ as_sent seg seg'.
Proof.
  intros [Hs (seg & Hin & H)] Hser Hb Hstr Hparse Hu.
  destruct (IPv4Datagram.ipv4_datagram_read_back d IPv4Datagram.init Hs) as (l' & v & Hser' & _ & _ & Hr).
  rewrite Hser in Hser'. injection Hser' as <-. destruct (Hr buf Hb Hstr) as (p & pl & Hp & _ & Hwf & Hpl).
  rewrite Hparse in Hp. injection Hp as ->. apply unwrap_parsed in Hu as (buf' & [= <-] & Hseg). exists seg. split; [done|].
  by apply (H pl seg' Hwf Hpl).
Qed.

#[global] Instance tun_wire : AdapterWire FdAdapterBase.t bytes BufferList.t := {
  ad_wire := fun o i => i = BufferList.concatenate o /\ is_u64 (zlen i);
  ad_keeps := fun _ _ => True
}.

Lemma tun_write_carries L seg a out :
  fits_ipv4 seg -> seg ∈ L -> TCPOverIPv4OverTunFdAdapter.write seg a = Ok out ->
  carries (A := FdAdapterBase.t) (I := bytes) L out.
Proof.
  intros Hf Hin (d & Hw%(wrap_carried L) & Hs)%result_bind_Ok; [|done|done].
  intros i b seg' o b' [-> Hu] Hr. cbn in Hr. apply result_bind_Ok in Hr as ([s b1] & H & [= -> _ _]).
  unfold TCPOverIPv4OverTunFdAdapter.read in H. apply result_bind_Ok in H as ([res dg] & Hparse & H).
  case_bool_decide as Hres; cbn [negb] in H; [|done]. subst res.
  eapply carried_read_back; [exact Hw|exact Hs| | |exact Hparse|exact H]; [by apply Buffer.of_string_wf|by apply Buffer.str_of_string].
Qed.

#[global] Instance tun_carries : AdapterCarries FdAdapterBase.t bytes BufferList.t.
Proof.
  split; try done.
  - by intros o i [_ ?].
  - intros L seg a out a' Hf Hin _. cbn. intros (o & Hw & [= <- <-])%result_bind_Ok. split; [done|].
    apply Forall_singleton. by eapply tun_write_carries.
  - intros L i a ret out a' _ _. cbn. intros ([s b] & _ & [= _ <- _])%result_bind_Ok. by split.
  - intros L ms a out a' _. cbn. intros [= <- _]. by split.
Qed.

(** ** Ethernet *)

Definition frame_carries (L : list TCPSegment.t) (f : EthernetFrame.t) : Prop :=
  EthernetHeader.wf (EthernetFrame._header f) /\ is_u64 (14 + zlen (BufferList.concatenate (EthernetFrame._payload f))) /\
  (EthernetHeader.type (EthernetFrame._header f) = EthernetHeader.TYPE_IPv4 ->
     exists d, carried L d /\ IPv4Datagram.serialize d = Ok (EthernetFrame._payload f)).

Record interface_keeps (L : list TCPSegment.t) (i : NetworkInterface.t) : Prop := {
  ik_src : length (NetworkInterface._ethernet_address i) = 6%nat;
  ik_mapping : forall ip mac time, NetworkInterface._mapping i !! ip = Some (mac, time) -> length mac = 6%nat;
  ik_pending : Forall (fun e => carried L e.1) (NetworkInterface._pending_list i);
  ik_frames : Forall (frame_carries L) (NetworkInterface._frames_out i)
}.

Lemma interface_keeps_mono L L' i : L ⊆ L' -> interface_keeps L i -> interface_keeps L' i.
Proof.
  intros HL []. split; [done|done| |].
  - eapply Forall_impl; [done|]. intros e. by apply carried_mono.
  - eapply Forall_impl; [done|]. intros f (? & ? & H). split; [done|]. split; [done|]. intros Ht.
    destruct (H Ht) as (d & ? & ?). exists d. split; [by eapply carried_mono|done].
Qed.

Lemma keeps_push L f i : interface_keeps L i -> frame_carries L f -> interface_keeps L (NetworkInterface.push_frame f i).
Proof. intros [] Hf. split; try done. cbn. apply Forall_app. split; [done|]. by apply Forall_singleton. Qed.

Lemma arp_frame_carries L dst src msg payload :
  length dst = 6%nat -> length src = 6%nat -> ARPMessage.wf msg -> ARPMessage.serialize msg = Ok payload ->
  frame_carries L (EthernetFrame.mk (EthernetHeader.mk dst src EthernetHeader.TYPE_ARP) (BufferList.of_string payload)).
Proof.
  intros Hd Hs Hm Hp.
  assert (ARPMessage.supported msg = true) as Hsup.
  { unfold ARPMessage.serialize in Hp. by destruct (ARPMessage.supported msg). }
  destruct (ARPMessage.arp_message_read_back msg ARPMessage.init Hm Hsup) as (s & E & Hz & _). rewrite Hp in E. injection E as <-.
  split; [split; [done|done|by vm_compute]|]. split; [|done].
  cbn [EthernetFrame._payload]. rewrite BufferList.concatenate_of_string, Hz by (rewrite Hz; by vm_compute). by vm_compute.
Qed.

Lemma send_datagram_keeps L d next_hop i i' :
  interface_keeps L i -> carried L d -> NetworkInterface.send_datagram d next_hop i = Ok i' -> interface_keeps L i'.
Proof.
  intros Hi Hd. unfold NetworkInterface.send_datagram. intros (nip & Hn & H)%result_bind_Ok.
  destruct (NetworkInterface._mapping i !! nip) as [[mac time]|] eqn:Em.
  - apply result_bind_Ok in H as (l & Hs & [= <-]). apply keeps_push; [done|].
    destruct (IPv4Datagram.ipv4_datagram_read_back d IPv4Datagram.init (proj1 Hd)) as (l' & v & E & _ & Hz & _).
    rewrite Hs in E. injection E as <-. split; [split; [by eapply ik_mapping|apply Hi|by vm_compute]|].
    split; [|by exists d]. cbn. rewrite Hz. destruct Hd as [[[] _ _ _] _]. word_lia.
  - assert (interface_keeps L (i <| NetworkInterface._pending_list := NetworkInterface._pending_list i ++ [(d, next_hop)] |>)) as H1.
    { destruct Hi. split; try done. cbn. apply Forall_app. split; [done|]. by apply Forall_singleton. }
    case_bool_decide; [by simplify_eq|]. apply result_bind_Ok in H as (ip & Hip & H).
    apply result_bind_Ok in H as (payload & Hp & [= <-]). apply keeps_push; [by destruct H1|].
    eapply arp_frame_carries; [done|apply Hi| |exact Hp].
    apply NetworkInterface.request_msg_wf; [apply Hi|by eapply NetworkInterface.ipv4_numeric_range..].
Qed.

Lemma send_list_keeps L tmp i i' :
  interface_keeps L i -> Forall (fun e => carried L e.1) tmp -> NetworkInterface.send_list tmp i = Ok i' -> interface_keeps L i'.
Proof.
  intros Hi Ht. revert i Hi. induction Ht as [|e tmp He _ IH]; intros i Hi; cbn [NetworkInterface.send_list]; [by intros [= <-]|].
  intros (i1 & H1 & H)%result_bind_Ok. eapply IH; [|exact H]. by eapply send_datagram_keeps.
Qed.

Lemma split_pending_Forall (P : IPv4Datagram.t * Address.t -> Prop) ip l tmp rest :
  NetworkInterface.split_pending ip l = Ok (tmp, rest) -> Forall P l -> Forall P tmp /\ Forall P rest.
Proof.
  revert tmp rest. induction l as [|e l IH]; intros tmp rest; cbn [NetworkInterface.split_pending]; [by intros [= <- <-]|].
  intros (nip & _ & ([t r] & H & E)%result_bind_Ok)%result_bind_Ok [He Hl]%Forall_cons.
  destruct (IH t r H Hl) as [Ht Hr]. case_match; simplify_eq; auto.
Qed.

Lemma learn_keeps L ip mac i : interface_keeps L i -> length mac = 6%nat -> interface_keeps L (NetworkInterface.learn ip mac i).
Proof.
  intros Hi Hm. unfold NetworkInterface.learn. case_match; [done|]. destruct Hi. split; try done. cbn.
  intros j m time. rewrite lookup_insert_Some. intros [(_ & [= <- _])|(_ & ?)]; [done|by eapply ik_mapping0].
Qed.

Lemma recv_arp_keeps L msg i i' :
  interface_keeps L i -> ARPMessage.wf msg -> NetworkInterface.recv_arp msg i = Ok i' -> interface_keeps L i'.
Proof.
  intros Hi Hm. unfold NetworkInterface.recv_arp. cbn zeta. pose proof (learn_keeps L (ARPMessage.sender_ip_address msg) _ i Hi (ARPMessage.wf_sender _ Hm)) as H1.
  revert H1. generalize (NetworkInterface.learn (ARPMessage.sender_ip_address msg) (ARPMessage.sender_ethernet_address msg) i).
  intros j Hj. destruct (_ =? _); [|destruct (_ =? _); [|by intros [= <-]]].
  - unfold NetworkInterface.recv_reply. intros ([tmp rest] & Hs & H)%result_bind_Ok.
    destruct (split_pending_Forall _ _ _ _ _ Hs (ik_pending _ _ Hj)) as [Ht Hr].
    eapply send_list_keeps; [|exact Ht|exact H]. by destruct Hj.
  - unfold NetworkInterface.recv_request. intros (ip & Hip & H)%result_bind_Ok. case_match; [by simplify_eq|].
    apply result_bind_Ok in H as (payload & Hp & [= <-]). apply keeps_push; [done|].
    eapply arp_frame_carries; [apply Hm|apply Hj| |exact Hp].
    apply NetworkInterface.reply_msg_wf; [apply Hj|by eapply NetworkInterface.ipv4_numeric_range|done].
Qed.

Lemma recv_frame_keeps L frame i o i' :
  interface_keeps L i -> BufferList.wf (EthernetFrame.payload frame) ->
  NetworkInterface.recv_frame frame i = Ok (o, i') -> interface_keeps L i'.
Proof.
  intros Hi Hw H. destruct (NetworkInterface.arp_frame_dec frame i) as [[msg Hm]|Hn].
  - destruct (NetworkInterface.recv_frame_arp _ _ _ Hm) as [E _]. rewrite E in H.
    apply result_bind_Ok in H as (i1 & H & [= _ <-]). eapply recv_arp_keeps; [exact Hi| |exact H].
    by eapply NetworkInterface.arp_frame_wf.
  - by destruct (NetworkInterface.recv_frame_other _ _ _ _ H Hn) as [-> _].
Qed.

(** A frame that is sent, parsed and received. *)
Lemma frame_read_back L f b seg' out b' :
  frame_carries L f -> is_u64 (zlen (BufferList.concatenate (EthernetFrame.serialize f))) ->
  TCPOverIPv4OverEthernetAdapter.read (BufferList.concatenate (EthernetFrame.serialize f)) b = Ok (Some seg', out, b') ->
  exists seg, seg ∈ L /\ as_sent seg seg'.
Proof.
  intros (Hh & Hu & Hd) Hz H. destruct (EthernetFrame.ethernet_frame_read_back f EthernetFrame.init Hh Hu) as [_ Hr].
  destruct (Hr (Buffer.of_string (BufferList.concatenate (EthernetFrame.serialize f)))) as (pl & Hp & Hw & Hs);
    [by apply Buffer.of_string_wf|by apply Buffer.str_of_string|].
  unfold TCPOverIPv4OverEthernetAdapter.read in H. rewrite Hp in H. cbn [mbind result_bind] in H.
  rewrite bool_decide_true in H by done. cbn [negb] in H. apply result_bind_Ok in H as ([o i] & Hf & H).
  destruct o as [dg|]; [|by repeat case_match; simplify_eq]. cbn in H. apply result_bind_Ok in H as ([s b1] & Hun & [= -> _ _]).
  unfold NetworkInterface.recv_frame in Hf. case_match; [done|]. cbn in Hf. case_match.
  { apply result_bind_Ok in Hf as ([r m] & _ & Hm). repeat case_match; simplify_eq; apply result_bind_Ok in Hm as (? & _ & ?); done. }
  destruct (Z.eqb_spec (EthernetHeader.type (EthernetFrame._header f)) EthernetHeader.TYPE_IPv4) as [Ht|]; [|done].
  apply result_bind_Ok in Hf as ([r d'] & Hparse & Hm). case_bool_decide as Hres; simplify_eq.
  destruct (Hd Ht) as (d & Hc & Hser). by eapply (carried_read_back L d _ pl).
Qed.

#[global] Instance ethernet_wire : AdapterWire TCPOverIPv4OverEthernetAdapter.t bytes BufferList.t := {
  ad_wire := fun o i => i = BufferList.concatenate o /\ is_u64 (zlen i);
  ad_keeps := fun L a => interface_keeps L (TCPOverIPv4OverEthernetAdapter._interface a)
}.

Lemma send_pending_carries L a :
  interface_keeps L (TCPOverIPv4OverEthernetAdapter._interface a) ->
  ad_keeps L (TCPOverIPv4OverEthernetAdapter.send_pending a).2 /\
  Forall (carries (A := TCPOverIPv4OverEthernetAdapter.t) (I := bytes) L) (TCPOverIPv4OverEthernetAdapter.send_pending a).1.
Proof.
  intros Hi. split; [by destruct Hi|]. cbn. pose proof (ik_frames _ _ Hi) as Hf. unfold NetworkInterface.frames_out.
  induction Hf as [|f l Hf _ IH]; cbn; [constructor|]. constructor; [|exact IH].
  intros i b seg' out b' [-> Hz] Hr. by eapply frame_read_back.
Qed.

#[global] Instance ethernet_carries : AdapterCarries TCPOverIPv4OverEthernetAdapter.t bytes BufferList.t.
Proof.
  split; try done.
  - by intros o i [_ ?].
  - intros L L' a. apply interface_keeps_mono.
  - intros L seg a out a' Hf Hin Hk. cbn. unfold TCPOverIPv4OverEthernetAdapter.write.
    intros (d & Hw%(wrap_carried L) & (i & Hs & H)%result_bind_Ok)%result_bind_Ok; [|done|done].
    pose proof (send_pending_carries L (a <| TCPOverIPv4OverEthernetAdapter._interface := i |>)) as Hp.
    destruct (TCPOverIPv4OverEthernetAdapter.send_pending _) as [out1 a1]. injection H as -> ->. apply Hp.
    exact (send_datagram_keeps _ _ _ _ _ Hk Hw Hs).
  - intros L i a ret out a' Hin Hk H. cbn in H. unfold TCPOverIPv4OverEthernetAdapter.read in H.
    destruct (EthernetFrame.ethernet_frame_parse_ok (Buffer.of_string i) EthernetFrame.init) as (r & f & E & Hw);
      [by apply Buffer.of_string_wf|split; [done|done|change (is_u16 0); word_lia]|].
    rewrite E in H. cbn [mbind result_bind] in H. case_match; [by simplify_eq|].
    apply result_bind_Ok in H as ([o j] & Hr & H). apply (recv_frame_keeps L) in Hr; [|done|done].
    pose proof (send_pending_carries L (a <| TCPOverIPv4OverEthernetAdapter._interface := j |>) Hr) as Hp.
    cbn beta iota zeta in H. destruct (TCPOverIPv4OverEthernetAdapter.send_pending _) as [out1 a1]. cbn [fst snd] in Hp.
    destruct o as [dg|]; [|by simplify_eq]. apply result_bind_Ok in H as ([s b] & _ & [= _ <- <-]). exact Hp.
  - intros L ms a out a' Hk. cbn. unfold TCPOverIPv4OverEthernetAdapter.tick.
    match goal with |- TCPOverIPv4OverEthernetAdapter.send_pending ?x = _ -> _ => pose proof (send_pending_carries L x) as Hp end.
    destruct (TCPOverIPv4OverEthernetAdapter.send_pending _) as [out1 a1]. intros [= <- <-]. apply Hp.
    destruct Hk. split; try done. cbn. intros ip mac time [Hm _]%map_lookup_filter_Some. by eapply ik_mapping0.
Qed.

(** ** Loss *)

#[global] Instance lossy_wire {G AdapterT I O} `{!AdapterWire AdapterT I O} : AdapterWire (LossyFdAdapter.t G AdapterT) I O := {
  ad_wire := ad_wire (A := AdapterT);
  ad_keeps := fun L a => ad_keeps L (LossyFdAdapter._adapter a)
}.

Section lossy.
Context {G AdapterT I O : Type} `{!LossyFdAdapter.Engine G} `{!Adapter AdapterT I O} `{!AdapterParses AdapterT I O}.
Context `{!AdapterWire AdapterT I O} `{!AdapterCarries AdapterT I O}.

Lemma lossy_carried L (o : O) : carries (A := AdapterT) L o -> carries (A := LossyFdAdapter.t G AdapterT) L o.
Proof.
  intros Ho i b seg' out b' Hi Hr. cbn in Hi, Hr. apply lossy_read in Hr as (ret & Hr & [?|<-]); [done|]. by eapply Ho.
Qed.

#[global] Instance lossy_carries : AdapterCarries (LossyFdAdapter.t G AdapterT) I O.
Proof.
  assert (forall L (out : list O), Forall (carries (A := AdapterT) L) out -> Forall (carries (A := LossyFdAdapter.t G AdapterT) L) out) as Hl.
  { intros L out Ho. eapply Forall_impl; [exact Ho|]. intros o. apply lossy_carried. }
  split; cbn.
  - intros o i Hi. exact (ad_wire_input (A := AdapterT) o i Hi).
  - intros L L' a. apply ad_keeps_mono.
  - intros L c a. apply ad_keeps_config.
  - intros L l a. apply ad_keeps_listening.
  - intros L seg a out a' Hf Hin Hk [[-> ->]|Hw]%lossy_write; [by split|].
    destruct (ad_write_carries L seg _ _ _ Hf Hin Hk Hw). auto.
  - intros L i a ret out a' Hi Hk (ret' & Hr & _)%lossy_read. destruct (ad_read_carries L i _ _ _ _ Hi Hk Hr). auto.
  - intros L ms a out a' Hk. unfold LossyFdAdapter.tick. destruct (ad_tick ms _) as [o b] eqn:E. intros [= <- <-]. cbn.
    destruct (ad_tick_carries L ms _ _ _ Hk E). auto.
Qed.
End lossy.
