(* ===== verification/tcp_sponge_socket.v ===== *)
(** * [libsponge/tcp_helpers/tcp_sponge_socket.*]

    The socket that runs a [TCPConnection] over a datagram adapter: the four
    rules that [_initialize_TCP] gives to the event loop, and the tick of
    [_tcp_loop].  The socket is generic in its adapter, as the class template
    is in [AdaptT].  The device, the kernel and the clock are the outside world
    and their answers are arguments.  [tcp_sponge_loop.v] installs the rules in
    the event loop. *)

From stdpp Require Import relations.
From S2P Require Import Prelude.
From S2P Require Import wrapping_integers.
From S2P Require Import byte_stream.
From S2P Require Import buffer.
From S2P Require Import parser.
From S2P Require Import util.
From S2P Require Import tcp_segment.
From S2P Require Import tcp_receiver.
From S2P Require Import tcp_sender.
From S2P Require Import tcp_state.
From S2P Require Import tcp_connection.
From S2P Require Import ethernet_frame.
From S2P Require Import ipv4_datagram.
From S2P Require Import network_interface.
From S2P Require Import file_descriptor.
From S2P Require Import socket.
From S2P Require Import fd_adapter.

Module TCPSpongeSocket.

Section socket.
Context {AdaptT I O : Type} `{!Adapter AdaptT I O}.

(** The members that the rules use, [_tcp] holding a connection. *)
Record t : Type := mk {
  _thread_data : FileDescriptor.t;
  _datagram_adapter : AdaptT;
  _tcp : TCPConnection.t;
  _inbound_shutdown : bool;
  _outbound_shutdown : bool;
  _fully_acked : bool
}.

#[global] Instance eta_t : Eta t := fun s =>
  mk (_thread_data s) (_datagram_adapter s) (_tcp s) (_inbound_shutdown s) (_outbound_shutdown s) (_fully_acked s).

Definition init (thread_data : FileDescriptor.t) (a : AdaptT) (config : TCPConfig.t) (random : Z) : t :=
  mk thread_data a (TCPConnection.init config random) false false false.

(** Rule 1: a datagram arrives. *)
Definition datagram_in (d : I) (s : t) : result (list O * t) :=
  '(seg, out, a) ← ad_read d (_datagram_adapter s);
  let s := s <| _datagram_adapter := a |> in
  tcp ← match seg with
        | Some seg => TCPConnection.segment_received seg (_tcp s)
        | None => Ok (_tcp s)
        end;
  let s := s <| _tcp := tcp |> in
  if FileDescriptor.eof (_thread_data s) && (TCPConnection.bytes_in_flight (_tcp s) =? 0) && negb (_fully_acked s)
  then Ok (out, s <| _fully_acked := true |>) else Ok (out, s).

Definition datagram_in_interest (s : t) : bool := TCPConnection.active (_tcp s).

(** The end of the owner's stream: in the callback of rule 2 and in its
    cancellation. *)
Definition outbound_end (s : t) : result t :=
  tcp ← TCPConnection.end_input_stream (_tcp s);
  Ok (s <| _tcp := tcp |> <| _outbound_shutdown := true |>).

(** Rule 2: bytes from the owner. *)
Definition bytes_out (k : FileDescriptor.kernel) (s : t) : result t :=
  '(data, fd) ← FileDescriptor.read (TCPConnection.remaining_outbound_capacity (_tcp s)) k (_thread_data s);
  let s := s <| _thread_data := fd |> in
  let len := zlen data in
  '(amount_written, tcp) ← TCPConnection.write data (_tcp s);
  let s := s <| _tcp := tcp |> in
  if negb (amount_written =? len) then
    Throw (RuntimeError "TCPConnection::write() accepted less than advertised length") else
  if FileDescriptor.eof (_thread_data s) then outbound_end s else Ok s.

Definition bytes_out_interest (s : t) : bool :=
  TCPConnection.active (_tcp s) && negb (_outbound_shutdown s) &&
  (0 <? TCPConnection.remaining_outbound_capacity (_tcp s)).

(** Rule 3: bytes for the owner.  [ret] is the kernel's answer to the write,
    [sret] to [shutdown(SHUT_WR)]. *)
Definition bytes_in (ret sret : Z * Z) (s : t) : result t :=
  let inbound := TCPConnection.inbound_stream (_tcp s) in
  let amount_to_write := Z.min 65536 (ByteStream.buffer_size inbound) in
  let buffer := ByteStream.peek_output amount_to_write inbound in
  '(bytes_written, fd) ← FileDescriptor.write [ret] (BufferViewList.of_string buffer) false (_thread_data s);
  let s := s <| _thread_data := fd |> in
  inbound ← ByteStream.pop_output bytes_written inbound;
  let s := s <| _tcp := (_tcp s) <| TCPConnection._receiver :=
               TCPReceiver.with_stream_out inbound (TCPConnection._receiver (_tcp s)) |> |> in
  if ByteStream.eof inbound || ByteStream.error inbound then
    fd ← Socket.shutdown Socket.SHUT_WR sret (_thread_data s);
    Ok (s <| _thread_data := fd |> <| _inbound_shutdown := true |>)
  else Ok s.

Definition bytes_in_interest (s : t) : bool :=
  let inbound := TCPConnection.inbound_stream (_tcp s) in
  negb (ByteStream.buffer_empty inbound) ||
  ((ByteStream.eof inbound || ByteStream.error inbound) && negb (_inbound_shutdown s)).

(** Rule 4: segments to send. *)
Fixpoint send_segments (segments : list TCPSegment.t) (a : AdaptT) : result (list O * AdaptT) :=
  match segments with
  | [] => Ok ([], a)
  | front :: segments =>
      '(out, a) ← ad_write front a;
      '(rest, a) ← send_segments segments a;
      Ok (out ++ rest, a)
  end.

Definition datagrams_out (s : t) : result (list O * t) :=
  '(out, a) ← send_segments (TCPConnection._segments_out (_tcp s)) (_datagram_adapter s);
  Ok (out, s <| _datagram_adapter := a |> <| _tcp := (_tcp s) <| TCPConnection._segments_out := [] |> |>).

Definition datagrams_out_interest (s : t) : bool :=
  match TCPConnection._segments_out (_tcp s) with [] => false | _ => true end.

(** The part of [_tcp_loop] that follows an event. *)
Definition loop_tick (ms : Z) (s : t) : list O * t :=
  if TCPConnection.active (_tcp s) then
    let s := s <| _tcp := TCPConnection.tick ms (_tcp s) |> in
    let '(out, a) := ad_tick ms (_datagram_adapter s) in
    (out, s <| _datagram_adapter := a |>)
  else ([], s).

(** [connect] up to its loop: the connection and the state it must be in. *)
Definition connect (c_ad : FdAdapterConfig.t) (s : t) : result t :=
  let s := s <| _datagram_adapter := ad_set_config c_ad (_datagram_adapter s) |> in
  tcp ← TCPConnection.connect (_tcp s);
  let s := s <| _tcp := tcp |> in
  if TCPState.neqb (TCPConnection.state (_tcp s)) (TCPState.of_state TCPState.SYN_SENT) then
    Throw (RuntimeError "After TCPConnection::connect(), state was not SYN_SENT")
  else Ok s.

Definition listen_and_accept (c_ad : FdAdapterConfig.t) (s : t) : t :=
  let s := s <| _datagram_adapter := ad_set_config c_ad (_datagram_adapter s) |> in
  s <| _datagram_adapter := ad_set_listening true (_datagram_adapter s) |>.

(** ** The socket's runs

    With the bytes taken from the owner so far.  Rule 2 runs only while it has
    not seen the end of the owner's stream; every other rule may run at any
    time, since a rule that the event loop polled is served even if an earlier
    one has changed its guard. *)
Context `{!AdapterParses AdaptT I O}.

Definition config : Type := t * bytes.

Inductive step : config -> config -> Prop :=
| step_connect s W c_ad s' : connect c_ad s = Ok s' -> step (s, W) (s', W)
| step_listen s W c_ad : step (s, W) (listen_and_accept c_ad s, W)
| step_datagram_in s W d out s' : ad_input d -> datagram_in d s = Ok (out, s') -> step (s, W) (s', W)
| step_bytes_out s W k s' :
    _outbound_shutdown s = false ->
    FileDescriptor.honest_read (TCPConnection.remaining_outbound_capacity (_tcp s)) k ->
    zlen W + zlen (FileDescriptor.k_data k) + 2 + 2 ^ 16 < 2 ^ 64 ->
    bytes_out k s = Ok s' -> step (s, W) (s', W ++ FileDescriptor.k_data k)
| step_outbound_end s W s' : outbound_end s = Ok s' -> step (s, W) (s', W)
| step_bytes_in s W ret sret s' : bytes_in ret sret s = Ok s' -> step (s, W) (s', W)
| step_datagrams_out s W out s' : datagrams_out s = Ok (out, s') -> step (s, W) (s', W)
| step_tick s W ms : step (s, W) ((loop_tick ms s).2, W).

Definition reachable (s0 : t) (c : config) : Prop := rtc step (s0, []) c.

Lemma read_pop len s s' :
  ByteStream.pop_output len s = Ok s' ->
  ByteStream.read len s = Ok (ByteStream.peek_output (Z.min len (ByteStream.buffer_size s)) s, s').
Proof.
  unfold ByteStream.read, ByteStream.pop_output. cbn zeta. intros H.
  replace (Z.min (Z.min len _) _) with (Z.min len (ByteStream.buffer_size s)) by lia. by rewrite H.
Qed.

(** A write that the connection accepts whole. *)
Lemma write_all_step W data c c' :
  TCPConnection.sender_ended c = false -> zlen W + zlen data + 2 + 2 ^ 16 < 2 ^ 64 ->
  TCPConnection.write data c = Ok (zlen data, c') -> TCPConnection.step (c, W) (c', W ++ data).
Proof.
  intros Hie Hlen Hw. replace data with (substr0 data (zlen data)) at 1 by (rewrite substr0_eq; unfold zlen; rewrite take_ge; [done|lia]).
  by apply TCPConnection.step_write.
Qed.

(** Every step of the socket is a sequence of calls to its connection. *)
Lemma step_refines c c' :
  (_outbound_shutdown (c.1) = false -> TCPConnection.sender_ended (_tcp (c.1)) = false) -> step c c' ->
  rtc TCPConnection.step (_tcp (c.1), c.2) (_tcp (c'.1), c'.2) /\
  (_outbound_shutdown (c'.1) = false -> TCPConnection.sender_ended (_tcp (c'.1)) = false).
Proof.
  assert (forall s W s', outbound_end s = Ok s' -> rtc TCPConnection.step (_tcp s, W) (_tcp s', W) /\ _outbound_shutdown s' = true) as Hend.
  { intros s W s' (tcp & Ht & [= <-])%result_bind_Ok. split; [|done]. apply rtc_once. by apply TCPConnection.step_end_input. }
  intros Hinv Hs. destruct Hs as [s W c_ad s' Hc|s W c_ad|s W d out s' Hd Hr|s W k s' Ho Hk Hlen Hb|s W s' He|s W ret sret s' Hb|s W out s' Ho|s W ms];
    cbn in *.
  - apply result_bind_Ok in Hc as (tcp & Ht & H). cbn beta zeta in H. case_match; simplify_eq. cbn. split; [apply rtc_once; by apply TCPConnection.step_connect|].
    by rewrite (TCPConnection.connect_ended _ _ Ht).
  - split; [apply rtc_refl|done].
  - apply result_bind_Ok in Hr as ([[seg o] a] & Hr & H). apply result_bind_Ok in H as (tcp & Ht & H). cbn beta zeta in H.
    assert (_tcp s' = tcp /\ _outbound_shutdown s' = _outbound_shutdown s) as [-> ->] by (case_match; by simplify_eq).
    destruct seg as [seg|]; [|by simplify_eq; split; [apply rtc_refl|]]. cbn in Ht. split.
    + apply rtc_once, (TCPConnection.step_segment _ _ seg); [|done]. apply (ad_read_wf _ _ _ _ _ Hd Hr).
    + by rewrite (TCPConnection.segment_received_ended _ _ _ Ht).
  - apply result_bind_Ok in Hb as ([data fd] & Hr & H). apply result_bind_Ok in H as ([n tcp] & Hw & H). cbn beta zeta iota in H.
    destruct (Z.eqb_spec n (zlen data)) as [->|]; cbn [negb] in H; [|done].
    pose proof (FileDescriptor.read_spec (TCPConnection.remaining_outbound_capacity (_tcp s)) k (_thread_data s)
      ltac:(apply sub64_range) Hk) as Hspec. rewrite Hr in Hspec.
    case_match; [done|]. destruct Hspec as [[= -> ->] _].
    assert (TCPConnection.step (_tcp s, W) (tcp, W ++ FileDescriptor.k_data k)) as Hstep.
    { by apply write_all_step; [apply Hinv| |]. }
    match type of H with (if ?b then _ else _) = _ => destruct b end.
    + apply (Hend _ (W ++ FileDescriptor.k_data k)) in H as [H ->]. split; [|done]. eapply rtc_l; [exact Hstep|exact H].
    + injection H as <-. split; [by apply rtc_once|]. intros _. cbn. rewrite (TCPConnection.write_ended _ _ _ _ Hw). by apply Hinv.
  - apply (Hend _ W) in He as [He ->]. done.
  - apply result_bind_Ok in Hb as ([n fd] & Hw & H). apply result_bind_Ok in H as (inb & Hp & H). cbn beta zeta in H.
    assert (_tcp s' = (_tcp s) <| TCPConnection._receiver := TCPReceiver.with_stream_out inb (TCPConnection._receiver (_tcp s)) |>
      /\ _outbound_shutdown s' = _outbound_shutdown s) as [-> ->].
    { case_match; [|by simplify_eq]. by apply result_bind_Ok in H as (? & _ & [= <-]). }
    split; [|done]. apply rtc_once.
    eapply (TCPConnection.step_read _ _ n).
    + by eapply FileDescriptor.write_range.
    + by apply read_pop.
  - apply result_bind_Ok in Ho as ([o a] & _ & [= _ <-]). cbn. split; [|done]. apply rtc_once, TCPConnection.step_drain.
  - unfold loop_tick. case_match; [|by split; [apply rtc_refl|]]. destruct (ad_tick ms _) as [o a]. cbn.
    split; [apply rtc_once, TCPConnection.step_tick|]. by rewrite TCPConnection.conn_tick_ended.
Qed.

Lemma socket_reachable fd a cfg random c :
  reachable (init fd a cfg random) c ->
  TCPConnection.reachable cfg random (_tcp (c.1), c.2) /\
  (_outbound_shutdown (c.1) = false -> TCPConnection.sender_ended (_tcp (c.1)) = false).
Proof.
  intros Hr. unfold reachable in Hr.
  enough (forall c0, rtc step c0 c -> (_outbound_shutdown (c0.1) = false -> TCPConnection.sender_ended (_tcp (c0.1)) = false) ->
    rtc TCPConnection.step (_tcp (c0.1), c0.2) (_tcp (c.1), c.2) /\
    (_outbound_shutdown (c.1) = false -> TCPConnection.sender_ended (_tcp (c.1)) = false)) as H by (by apply H in Hr).
  intros c0 Hrt. induction Hrt as [c|c0 c1 c2 Hs _ IH]; intros Hi; [by split; [apply rtc_refl|]|].
  destruct (step_refines _ _ Hi Hs) as [H1 Hi1]. destruct (IH Hr Hi1) as [H2 ?]. split; [by etrans|done].
Qed.

(** The socket implements the connection.  Whatever the device, the owner,
    the kernel and the clock do, and in whatever order the event loop runs the
    four rules, the connection inside the socket is one that its own calls
    reach, with the bytes taken from the owner as the bytes written to it; and
    until rule 2 has seen the end of the owner's stream the outbound stream is
    open. *)
Theorem socket_refines fd a cfg random s W :
  reachable (init fd a cfg random) (s, W) ->
  TCPConnection.reachable cfg random (_tcp s, W) /\
  (_outbound_shutdown s = false -> ByteStream.input_ended (TCPSender.stream_in (TCPConnection._sender (_tcp s))) = false).
Proof. apply (socket_reachable fd a cfg random (s, W)). Qed.

(** The end of the owner's stream can always be taken. *)
Lemma outbound_end_returns cfg random s W :
  is_u64 (TCPConfig.send_capacity cfg) ->
  WrappingInt32.wf (default (WrappingInt32.mk random) (TCPConfig.fixed_isn cfg)) ->
  TCPConnection.reachable cfg random (_tcp s, W) ->
  exists s', outbound_end s = Ok s'.
Proof.
  intros Hc Hw Hr. destruct (TCPConnection.end_input_returns _ _ (TCPConnection.reachable_conn_inv _ _ _ Hc Hw Hr)) as (c' & He).
  unfold outbound_end. cbn in He. rewrite He. cbn. eauto.
Qed.

(** The owner's bytes are taken whole.  In every reachable socket whose
    rule 2 has not ended, with a kernel that delivers at most what was asked
    for, rule 2 fails only with the error of its [read]; otherwise it returns,
    all the bytes read are in the connection's outbound stream, and it ends
    exactly at end of file.  So the exception for a short write is never
    thrown. *)
Theorem socket_takes_all fd a cfg random s W k :
  is_u64 (TCPConfig.send_capacity cfg) ->
  WrappingInt32.wf (default (WrappingInt32.mk random) (TCPConfig.fixed_isn cfg)) ->
  reachable (init fd a cfg random) (s, W) -> _outbound_shutdown s = false ->
  FileDescriptor.honest_read (TCPConnection.remaining_outbound_capacity (_tcp s)) k ->
  zlen W + zlen (FileDescriptor.k_data k) + 2 + 2 ^ 16 < 2 ^ 64 ->
  if FileDescriptor.k_ret k <? 0 then bytes_out k s = Throw (UnixError "read" (FileDescriptor.k_errno k))
  else exists s', bytes_out k s = Ok s' /\
         reachable (init fd a cfg random) (s', W ++ FileDescriptor.k_data k) /\
         _outbound_shutdown s' = FileDescriptor.eof (_thread_data s').
Proof.
  intros Hc Hw Hr Ho Hk Hlen. destruct (socket_reachable _ _ _ _ _ Hr) as [Hcr Hie]. cbn in Hcr, Hie. specialize (Hie Ho).
  pose proof (FileDescriptor.read_spec (TCPConnection.remaining_outbound_capacity (_tcp s)) k (_thread_data s)
    ltac:(apply sub64_range) Hk) as Hread.
  assert (forall s', bytes_out k s = Ok s' -> reachable (init fd a cfg random) (s', W ++ FileDescriptor.k_data k)) as Hnext.
  { intros s' Hb. eapply rtc_r; [exact Hr|by apply step_bytes_out]. }
  unfold bytes_out in *. destruct (FileDescriptor.k_ret k <? 0) eqn:Eneg; [by rewrite Hread|]. destruct Hread as [Hread Hle].
  rewrite Hread in *. cbn [mbind result_bind] in *. cbn beta zeta iota in *.
  destruct (TCPConnection.write_returns _ _ (FileDescriptor.k_data k) (TCPConnection.reachable_conn_inv _ _ _ Hc Hw Hcr) Hie Hlen)
    as (n & c' & Hwr).
  pose proof (TCPConnection.write_accepts W _ _ _ _ (TCPConnection.reachable_conn_inv _ _ _ Hc Hw Hcr) Hwr Hle) as ->.
  cbn in Hwr, Hnext |- *. rewrite Hwr in *. cbn in Hnext |- *. rewrite Z.eqb_refl in *. cbn [negb] in *.
  match goal with |- context [if ?b then _ else _] => destruct b eqn:Ee end; [|eexists; split; [done|]; split; [by apply Hnext|]; cbn in *; by rewrite Ho, Ee].
  match type of Hnext with context [outbound_end ?s1] => destruct (outbound_end_returns cfg random s1 (W ++ FileDescriptor.k_data k)) as (s' & He) end.
  1-2: done.
  - cbn. eapply rtc_r; [exact Hcr|]. by apply write_all_step.
  - rewrite He in *. exists s'. split; [done|]. split; [by apply Hnext|].
    by apply result_bind_Ok in He as (tcp & _ & [= <-]).
Qed.

End socket.
Arguments t : clear implicits.

(** A socket that connects and then takes three bytes from its owner. *)
Definition sample_init : t FdAdapterBase.t :=
  init (FileDescriptor.mk 5 false false 0 0) FdAdapterBase.init TCPConnection.sample_config 0.

Definition sample_connected : t FdAdapterBase.t :=
  Eval vm_compute in
    match connect FdAdapterConfig.init sample_init with Ok s => s | _ => sample_init end.

End TCPSpongeSocket.
