(* ===== verification/tcp_sponge_pair.v ===== *)
(** * Two sockets over an unreliable network of datagrams

    The whole stack at both ends: the owners' bytes go through the thread's
    socket pair, [TCPSpongeSocket], [TCPConnection] and a datagram adapter to a
    network that loses, repeats, delays and reorders datagrams, and also
    brings datagrams of others.  The pair of sockets is shown to be a run of
    the pair of connections of [tcp_peers.v].  The adapter is any that keeps the
    contract of [adapter_carries.v]: UDP, TUN, Ethernet, and each with loss. *)

From stdpp Require Import relations.
From S2P Require Import Prelude.
From S2P Require Import wrapping_integers.
From S2P Require Import byte_stream.
From S2P Require Import buffer.
From S2P Require Import parser.
From S2P Require Import util.
From S2P Require Import tcp_segment.
From S2P Require Import ipv4_datagram.
From S2P Require Import ethernet_frame.
From S2P Require Import address.
From S2P Require Import network_interface.
From S2P Require Import tcp_receiver.
From S2P Require Import tcp_sender.
From S2P Require Import tcp_state.
From S2P Require Import tcp_connection.
From S2P Require Import end_to_end.
From S2P Require Import tcp_peers.
From S2P Require Import segments_made.
From S2P Require Import clean_close.
From S2P Require Import file_descriptor.
From S2P Require Import socket.
From S2P Require Import fd_adapter.
From S2P Require Import adapter_carries.
From S2P Require Import tcp_sponge_socket.

(** ** Segments fit in datagrams

    All that a connection makes is within the fields' widths and carries at
    most [MAX_PAYLOAD_SIZE] bytes. *)

Lemma set_header_fits f seg :
  fits_ipv4 seg -> (TCPHeader.wf (TCPSegment._header seg) -> TCPHeader.wf (f (TCPSegment._header seg))) ->
  TCPHeader.doff (f (TCPSegment._header seg)) = TCPHeader.doff (TCPSegment._header seg) ->
  fits_ipv4 (TCPSender.set_header f seg).
Proof. intros [[Hh Hp] Hd Hl] Hf E. split; cbn; rewrite ?E; [|done|done]. split; [by apply Hf|done]. Qed.

(** A segment that leaves room for any header. *)
Definition fits_small (seg : TCPSegment.t) : Prop :=
  fits_ipv4 seg /\ zlen (Buffer.str (TCPSegment._payload seg)) <= TCPConfig.MAX_PAYLOAD_SIZE.

Lemma set_payload_fits data seg :
  fits_small seg -> zlen data <= TCPConfig.MAX_PAYLOAD_SIZE -> fits_small (TCPSender.set_payload (Buffer.of_string data) seg).
Proof.
  intros [[[Hh Hp] Hd Hl] _] Hz. unfold TCPConfig.MAX_PAYLOAD_SIZE in *. pose proof (zlen_nonneg data).
  assert (is_u64 (zlen data)) as Hu by word_lia. pose proof (TCPHeader.wf_doff _ Hh).
  split; [split|]; cbn; rewrite ?Buffer.str_of_string by done; [|done|lia|done].
  split; [done|]. by apply Buffer.of_string_wf.
Qed.

Lemma stamp_fits r seg : fits_ipv4 seg -> fits_ipv4 (TCPConnection.stamp r seg).
Proof.
  intros Hs. unfold TCPConnection.stamp. apply set_header_fits; [|intros []; split; try done; apply u16_range|done].
  unfold TCPReceiver.ackno. destruct (TCPReceiver._isn r); [|done]. apply set_header_fits; [done| |done].
  intros []. split; try done. apply WrappingInt32.wrap_wf.
Qed.

#[export] Instance fits_made : MadeFrom fits_small fits_ipv4 (fun _ => True).
Proof.
  split.
  - split; [|done]. split; [split; [apply TCPHeader.init_header_wf|done]|done|done].
  - intros a w seg [Hf Hz]. split; [|done]. apply set_header_fits; [done| |done]. intros []. split; try done. apply WrappingInt32.wrap_wf.
  - intros seg [Hf Hz]. split; [|done]. apply set_header_fits; [done|by intros []|done].
  - intros seg [Hf Hz]. split; [|done]. apply set_header_fits; [done|by intros []|done].
  - intros data seg. apply set_payload_fits.
  - intros r seg _ [Hf _]. by apply stamp_fits.
  - intros seg [Hf _]. apply set_header_fits; [done|by intros []|done].
Qed.

(** A peer whose segments fit and whose queue has been counted as emitted. *)
Definition peer_fits : peer -> Prop := peer_made fits_small fits_ipv4.

Lemma peer_run_fits wire p p' : peer_fits p -> rtc (peer_step as_sent wire) p p' -> peer_fits p'.
Proof. intros Hp Hr. revert Hp. induction Hr as [|p1 p2 p3 Hs _ IH]; [done|]. intros Hp. apply IH. by eapply (peer_step_made (R := fun _ => True)). Qed.

Lemma peer_run_emitted wire p p' : rtc (peer_step as_sent wire) p p' -> emitted p ⊆ emitted p'.
Proof. induction 1; [done|]. etrans; [by eapply peer_step_emitted|done]. Qed.

Module TCPSpongePair.
Import TCPSpongeSocket (_tcp, _thread_data, _datagram_adapter, _outbound_shutdown).

Section pair.
Context {AdaptT I O : Type} `{!Adapter AdaptT I O} `{!AdapterParses AdaptT I O}.
Context `{!AdapterWire AdaptT I O} `{!AdapterCarries AdaptT I O}.

(** A socket with the bytes taken from its owner, the bytes given to its
    owner, and all that it has handed to its device. *)
Record endpoint : Type := mk {
  sock : TCPSpongeSocket.t AdaptT;
  from_owner : bytes;
  to_owner : bytes;
  on_wire : list O
}.

#[global] Instance eta_endpoint : Eta endpoint := fun e => mk (sock e) (from_owner e) (to_owner e) (on_wire e).

Definition new_endpoint (fd : FileDescriptor.t) (a : AdaptT) (cfg : TCPConfig.t) (random : Z) : endpoint :=
  mk (TCPSpongeSocket.init fd a cfg random) [] [] [].

(** A kernel that does what [writev(2)] says with [n] bytes. *)
Definition honest_write (n : Z) (ret : Z * Z) : Prop := (- 2 ^ 31 <= ret.1 < 0 /\ ret.2 <> 0) \/ 0 <= ret.1 <= n.

(** What rule 3 offers to the owner. *)
Definition offered (s : TCPSpongeSocket.t AdaptT) : bytes :=
  let inbound := TCPConnection.inbound_stream (_tcp s) in
  ByteStream.peek_output (Z.min 65536 (ByteStream.buffer_size inbound)) inbound.

(** One rule, the clock or the owner; the network delivers something that the
    other end has sent ([arriving]), or anything that the adapter drops. *)
Inductive endpoint_step (arriving : list O) : endpoint -> endpoint -> Prop :=
| ep_connect e c_ad s :
    TCPSpongeSocket.connect c_ad (sock e) = Ok s -> endpoint_step arriving e (e <| sock := s |>)
| ep_listen e c_ad :
    endpoint_step arriving e (e <| sock := TCPSpongeSocket.listen_and_accept c_ad (sock e) |>)
| ep_datagram e o i out s :
    o ∈ arriving -> ad_wire (A := AdaptT) o i -> TCPSpongeSocket.datagram_in i (sock e) = Ok (out, s) ->
    endpoint_step arriving e (e <| sock := s |> <| on_wire := on_wire e ++ out |>)
| ep_stray e i out a s :
    ad_input (A := AdaptT) i -> ad_read i (_datagram_adapter (sock e)) = Ok (None, out, a) ->
    TCPSpongeSocket.datagram_in i (sock e) = Ok (out, s) ->
    endpoint_step arriving e (e <| sock := s |> <| on_wire := on_wire e ++ out |>)
| ep_bytes_out e k s :
    _outbound_shutdown (sock e) = false ->
    FileDescriptor.honest_read (TCPConnection.remaining_outbound_capacity (_tcp (sock e))) k ->
    zlen (from_owner e) + zlen (FileDescriptor.k_data k) + 2 + 2 ^ 16 < 2 ^ 64 ->
    TCPSpongeSocket.bytes_out k (sock e) = Ok s ->
    endpoint_step arriving e (e <| sock := s |> <| from_owner := from_owner e ++ FileDescriptor.k_data k |>)
| ep_outbound_end e s :
    TCPSpongeSocket.outbound_end (sock e) = Ok s -> endpoint_step arriving e (e <| sock := s |>)
| ep_bytes_in e ret sret s :
    honest_write (zlen (offered (sock e))) ret -> TCPSpongeSocket.bytes_in ret sret (sock e) = Ok s ->
    endpoint_step arriving e (e <| sock := s |> <| to_owner := to_owner e ++ substr0 (offered (sock e)) ret.1 |>)
| ep_datagrams_out e out s :
    TCPSpongeSocket.datagrams_out (sock e) = Ok (out, s) ->
    endpoint_step arriving e (e <| sock := s |> <| on_wire := on_wire e ++ out |>)
| ep_tick e ms :
    endpoint_step arriving e (e <| sock := (TCPSpongeSocket.loop_tick ms (sock e)).2 |>
                                <| on_wire := on_wire e ++ (TCPSpongeSocket.loop_tick ms (sock e)).1 |>).

Inductive pair_step : endpoint * endpoint -> endpoint * endpoint -> Prop :=
| pair_left a a' b : endpoint_step (on_wire b) a a' -> pair_step (a, b) (a', b)
| pair_right a b b' : endpoint_step (on_wire a) b b' -> pair_step (a, b) (a, b').

(** ** The socket as a peer *)

Record linked (e : endpoint) (p : peer) : Prop := {
  li_conn : conn p = _tcp (sock e);
  li_written : written p = from_owner e;
  li_taken : taken p = to_owner e;
  li_open : _outbound_shutdown (sock e) = false -> TCPConnection.sender_ended (_tcp (sock e)) = false;
  li_fits : peer_fits p;
  li_keeps : ad_keeps (emitted p) (_datagram_adapter (sock e));
  li_wire : Forall (carries (A := AdaptT) (emitted p)) (on_wire e)
}.

Lemma new_linked fd a cfg random :
  ad_keeps [] a -> linked (new_endpoint fd a cfg random) (new_peer cfg random).
Proof. intros Ha. by split; [..|apply new_peer_made| |]. Qed.

(** A change of the socket that is a sequence of calls to the connection and
    leaves the adapter and the wire as the contract has it. *)
Lemma linked_move wire e p p' s taken_from given out :
  linked e p -> rtc (peer_step as_sent wire) p p' -> conn p' = _tcp s -> written p' = taken_from -> taken p' = given ->
  (_outbound_shutdown s = false -> TCPConnection.sender_ended (_tcp s) = false) ->
  ad_keeps (emitted p') (_datagram_adapter s) -> Forall (carries (A := AdaptT) (emitted p')) out ->
  linked (mk s taken_from given (on_wire e ++ out)) p'.
Proof.
  intros [] Hr Hc Hw Ht Ho Hk Hout. split; try done.
  - by eapply peer_run_fits.
  - cbn. apply Forall_app. split; [|done]. eapply Forall_impl; [exact li_wire0|]. intros o. apply carries_mono.
    by eapply peer_run_emitted.
Qed.

Lemma keeps_run wire p p' (a : AdaptT) : rtc (peer_step as_sent wire) p p' -> ad_keeps (emitted p) a -> ad_keeps (emitted p') a.
Proof. intros Hr. apply ad_keeps_mono. by eapply peer_run_emitted. Qed.

Lemma outbound_end_linked wire e p s :
  linked e p -> TCPSpongeSocket.outbound_end (sock e) = Ok s ->
  exists p', rtc (peer_step as_sent wire) p p' /\ linked (e <| sock := s |>) p'.
Proof.
  intros Hl (tcp & Ht & [= <-])%result_bind_Ok. exists (after tcp p).
  assert (rtc (peer_step as_sent wire) p (after tcp p)) as Hr by (apply rtc_once, peer_end_input; by rewrite (li_conn _ _ Hl)).
  split; [done|]. destruct e as [s0 W D out].
  replace ((mk s0 W D out) <| sock := _ |>) with (mk (s0 <| _tcp := tcp |> <| _outbound_shutdown := true |>) W D (out ++ []))
    by (by rewrite app_nil_r).
  eapply (linked_move wire (mk s0 W D out)); [done|done|done|apply Hl|apply Hl|done|eapply keeps_run; [done|apply Hl]|constructor].
Qed.

(** Rule 1, whatever the adapter made of the datagram. *)
Lemma datagram_in_linked wire e p i out s :
  linked e p -> ad_input (A := AdaptT) i ->
  (forall seg' o a, ad_read i (_datagram_adapter (sock e)) = Ok (Some seg', o, a) -> exists seg, seg ∈ wire /\ as_sent seg seg') ->
  TCPSpongeSocket.datagram_in i (sock e) = Ok (out, s) ->
  exists p', rtc (peer_step as_sent wire) p p' /\ linked (e <| sock := s |> <| on_wire := on_wire e ++ out |>) p'.
Proof.
  intros Hl Hi Hfrom H. destruct e as [s0 W D w]. cbn in *.
  apply result_bind_Ok in H as ([[seg o] a] & Hr & H). apply result_bind_Ok in H as (tcp & Ht & H). cbn beta zeta in H, Ht.
  assert (out = o /\ _tcp s = tcp /\ _outbound_shutdown s = _outbound_shutdown s0 /\ _datagram_adapter s = a) as (-> & Es & Eo & Ea)
    by (case_match; by simplify_eq). clear H.
  destruct (ad_read_carries (emitted p) i _ _ _ _ Hi (li_keeps _ _ Hl) Hr) as [Hk Hc].
  destruct seg as [seg'|]; cbn in Ht.
  - destruct (Hfrom _ _ _ Hr) as (seg & Hin & Hsd). exists (after tcp p).
    assert (rtc (peer_step as_sent wire) p (after tcp p)) as Hs.
    { apply rtc_once. eapply peer_segment; [exact Hin|exact Hsd|apply (ad_read_wf _ _ _ _ _ Hi Hr)|by rewrite (li_conn _ _ Hl)]. }
    split; [done|]. change (linked (mk s W D (w ++ o)) (after tcp p)).
    eapply (linked_move wire (mk s0 W D w)); [exact Hl|exact Hs|done|apply Hl|apply Hl| | |].
    + rewrite Es, Eo, (TCPConnection.segment_received_ended _ _ _ Ht). apply Hl.
    + rewrite Ea. by eapply keeps_run.
    + eapply Forall_impl; [exact Hc|]. intros x. apply carries_mono. by eapply peer_run_emitted.
  - injection Ht as <-. exists p. split; [apply rtc_refl|]. change (linked (mk s W D (w ++ o)) p).
    eapply (linked_move wire (mk s0 W D w)); [exact Hl|apply rtc_refl|by rewrite Es, (li_conn _ _ Hl)|apply Hl|apply Hl| |by rewrite Ea|done].
    rewrite Es, Eo. apply Hl.
Qed.

Lemma bytes_out_linked wire e p k s :
  linked e p -> _outbound_shutdown (sock e) = false ->
  FileDescriptor.honest_read (TCPConnection.remaining_outbound_capacity (_tcp (sock e))) k ->
  zlen (from_owner e) + zlen (FileDescriptor.k_data k) + 2 + 2 ^ 16 < 2 ^ 64 ->
  TCPSpongeSocket.bytes_out k (sock e) = Ok s ->
  exists p', rtc (peer_step as_sent wire) p p' /\
    linked (e <| sock := s |> <| from_owner := from_owner e ++ FileDescriptor.k_data k |>) p'.
Proof.
  intros Hl Ho Hk Hlen Hb. destruct e as [s0 W D w]. cbn in *.
  pose proof (FileDescriptor.read_spec (TCPConnection.remaining_outbound_capacity (_tcp s0)) k (_thread_data s0)
    ltac:(apply sub64_range) Hk) as Hspec.
  apply result_bind_Ok in Hb as ([data fd] & Hr & H). apply result_bind_Ok in H as ([n tcp] & Hw & H). cbn beta zeta iota in H.
  destruct (Z.eqb_spec n (zlen data)) as [->|]; cbn [negb] in H; [|done].
  rewrite Hr in Hspec. destruct (_ <? 0); [done|]. destruct Hspec as [[= -> ->] _].
  set (data := FileDescriptor.k_data k) in *. set (p1 := (after tcp p) <| written := W ++ data |>).
  pose proof (li_open _ _ Hl Ho) as Hopen. cbn in Hopen.
  assert (rtc (peer_step as_sent wire) p p1) as Hs.
  { apply rtc_once. assert (substr0 data (zlen data) = data) as Ed by (rewrite substr0_eq; unfold zlen; rewrite take_ge; [done|lia]).
    pose proof (peer_write (passes := as_sent) wire p data (zlen data) tcp) as Hstep. rewrite Ed, (li_written _ _ Hl), (li_conn _ _ Hl) in Hstep.
    by apply Hstep. }
  match type of H with (if FileDescriptor.eof (_thread_data ?x) then _ else _) = _ => set (s1 := x) in * end.
  assert (linked (mk s1 (W ++ data) D w) p1) as H1.
  { rewrite <- (app_nil_r w).
    eapply (linked_move wire (mk s0 W D w)); [exact Hl|exact Hs|done|done|apply Hl| |eapply keeps_run; [exact Hs|apply Hl]|constructor].
    intros _. cbn. rewrite (TCPConnection.write_ended _ _ _ _ Hw). exact Hopen. }
  destruct (FileDescriptor.eof _).
  - destruct (outbound_end_linked wire _ _ _ H1 H) as (p' & Hr' & Hl'). exists p'. split; [by etrans|exact Hl'].
  - injection H as <-. exists p1. split; [exact Hs|exact H1].
Qed.

(** One [writev]: the owner gets what the kernel took. *)
Lemma write_takes buffer ret fd n fd' :
  honest_write (zlen buffer) ret -> zlen buffer <= 65536 ->
  FileDescriptor.write [ret] (BufferViewList.of_string buffer) false fd = Ok (n, fd') -> n = ret.1 /\ 0 <= n <= zlen buffer.
Proof.
  intros Hh Hz. destruct ret as [ret errno]. unfold FileDescriptor.write. cbn [FileDescriptor.write_loop].
  intros ([[tot b] w] & H & [= <- _])%result_bind_Ok. apply result_bind_Ok in H as (x & Hx & H).
  unfold honest_write in Hh. cbn in Hh. rewrite FileDescriptor.i32_id in Hx by lia. unfold SystemCall in Hx.
  destruct Hh as [[Hneg He]|Hret].
  - rewrite (proj2 (Z.leb_gt _ _)) in Hx by lia. rewrite (proj2 (Z.eqb_neq _ _)) in Hx by done. done.
  - rewrite (proj2 (Z.leb_le _ _)) in Hx by lia. injection Hx as <-.
    match type of H with (if ?c then _ else _) = _ => destruct c end; [done|].
    match type of H with (if ?c then _ else _) = _ => destruct c end; [done|].
    apply result_bind_Ok in H as (b' & _ & H). cbn in H. injection H as <- _ _. cbn [fst]. rewrite add64_id by word_lia. lia.
Qed.

Lemma bytes_in_linked wire e p ret sret s :
  linked e p -> honest_write (zlen (offered (sock e))) ret -> TCPSpongeSocket.bytes_in ret sret (sock e) = Ok s ->
  exists p', rtc (peer_step as_sent wire) p p' /\
    linked (e <| sock := s |> <| to_owner := to_owner e ++ substr0 (offered (sock e)) ret.1 |>) p'.
Proof.
  intros Hl Hh H. destruct e as [s0 W D w]. cbn in *. unfold TCPSpongeSocket.bytes_in in H.
  apply result_bind_Ok in H as ([n fd] & Hw & H). apply result_bind_Ok in H as (inb & Hp & H). cbn beta zeta in H.
  fold (offered s0) in Hw. assert (zlen (offered s0) <= 65536) as Hz.
  { unfold offered, ByteStream.peek_output. rewrite substr0_eq. zlen. lia. }
  destruct (write_takes _ _ _ _ _ Hh Hz Hw) as [-> Hn]. set (c := _tcp s0) in *.
  assert (_tcp s = c <| TCPConnection._receiver := TCPReceiver.with_stream_out inb (TCPConnection._receiver c) |>
    /\ _outbound_shutdown s = _outbound_shutdown s0 /\ _datagram_adapter s = _datagram_adapter s0) as (Es & Eo & Ea).
  { match type of H with (if ?b then _ else _) = _ => destruct b end; [|by simplify_eq]. by apply result_bind_Ok in H as (? & _ & [= <-]). }
  set (d := substr0 (offered s0) ret.1).
  assert (d = ByteStream.peek_output (Z.min ret.1 (ByteStream.buffer_size (TCPConnection.inbound_stream c))) (TCPConnection.inbound_stream c)) as Ed.
  { unfold d, offered, ByteStream.peek_output in *. fold c in Hn |- *. revert Hn. rewrite !substr0_eq. zlen.
    unfold ByteStream.buffer_size. intros Hn. rewrite take_take. f_equal. lia. }
  set (p1 := p <| conn := _tcp s |> <| taken := D ++ d |>).
  assert (rtc (peer_step as_sent wire) p p1) as Hs.
  { apply rtc_once. pose proof (peer_read (passes := as_sent) wire p ret.1 d inb) as Hstep.
    rewrite (li_conn _ _ Hl), (li_taken _ _ Hl) in Hstep. cbn in Hstep. fold c in Hstep. rewrite <- Es in Hstep. apply Hstep.
    - word_lia.
    - rewrite Ed. by apply TCPSpongeSocket.read_pop. }
  exists p1. split; [done|]. change (linked (mk s W (D ++ d) w) p1). rewrite <- (app_nil_r w).
  eapply (linked_move wire (mk s0 W D w)); [exact Hl|exact Hs|done|apply Hl|done| |rewrite Ea; apply Hl|constructor].
  rewrite Es, Eo. apply Hl.
Qed.

Lemma send_segments_carries L segs (a : AdaptT) out a' :
  Forall fits_ipv4 segs -> segs ⊆ L -> ad_keeps L a -> TCPSpongeSocket.send_segments segs a = Ok (out, a') ->
  ad_keeps L a' /\ Forall (carries (A := AdaptT) L) out.
Proof.
  intros Hf. revert a out. induction Hf as [|seg segs Hseg _ IH]; intros a out HL Hk; cbn [TCPSpongeSocket.send_segments].
  { intros [= <- <-]. by split. }
  intros ([o a1] & Hw & ([rest a2] & Hr & [= <- <-])%result_bind_Ok)%result_bind_Ok.
  destruct (ad_write_carries L seg _ _ _ Hseg ltac:(apply HL; left) Hk Hw) as [Hk1 Ho].
  destruct (IH a1 rest ltac:(intros x ?; apply HL; by right) Hk1 Hr) as [Hk2 Hrest]. split; [done|]. by apply Forall_app.
Qed.

Lemma datagrams_out_linked wire e p out s :
  linked e p -> TCPSpongeSocket.datagrams_out (sock e) = Ok (out, s) ->
  exists p', rtc (peer_step as_sent wire) p p' /\ linked (e <| sock := s |> <| on_wire := on_wire e ++ out |>) p'.
Proof.
  intros Hl H. destruct e as [s0 W D w]. cbn in *. apply result_bind_Ok in H as ([o a] & Hs & [= -> <-]).
  pose proof (li_conn _ _ Hl) as Ec. cbn in Ec. destruct (li_fits _ _ Hl) as [Hc He Hq]. rewrite Ec in Hc, Hq.
  destruct (send_segments_carries (emitted p) _ _ _ _ (proj2 Hc) Hq (li_keeps _ _ Hl) Hs) as [Hk Ho].
  set (p1 := p <| conn := (_tcp s0) <| TCPConnection._segments_out := [] |> |>).
  assert (rtc (peer_step as_sent wire) p p1) as Hr.
  { apply rtc_once. pose proof (peer_drain (passes := as_sent) wire p (length (TCPConnection._segments_out (conn p)))) as Hd. by rewrite drop_all, Ec in Hd. }
  exists p1. split; [done|].
  eapply (linked_move wire (mk s0 W D w) _ _ (s0 <| _datagram_adapter := a |> <| _tcp := (_tcp s0) <| TCPConnection._segments_out := [] |> |>));
    [exact Hl|exact Hr|done|apply Hl|apply Hl|apply Hl|exact Hk|exact Ho].
Qed.

Lemma tick_keeps_linked wire e p ms :
  linked e p ->
  exists p', rtc (peer_step as_sent wire) p p' /\
    linked (e <| sock := (TCPSpongeSocket.loop_tick ms (sock e)).2 |>
              <| on_wire := on_wire e ++ (TCPSpongeSocket.loop_tick ms (sock e)).1 |>) p'.
Proof.
  intros Hl. destruct e as [s0 W D w]. cbn in *. unfold TCPSpongeSocket.loop_tick. destruct (TCPConnection.active _).
  2:{ exists p. split; [apply rtc_refl|]. cbn. by rewrite app_nil_r. }
  cbn. destruct (ad_tick ms (_datagram_adapter s0)) as [o a] eqn:Et. cbn.
  destruct (ad_tick_carries (emitted p) ms _ _ _ (li_keeps _ _ Hl) Et) as [Hk Ho].
  set (c := TCPConnection.tick ms (_tcp s0)).
  assert (rtc (peer_step as_sent wire) p (after c p)) as Hr.
  { apply rtc_once. pose proof (peer_tick (passes := as_sent) wire p ms) as Hs. by rewrite (li_conn _ _ Hl) in Hs. }
  exists (after c p). split; [done|].
  eapply (linked_move wire (mk s0 W D w) _ _ (s0 <| _tcp := c |> <| _datagram_adapter := a |>));
    [exact Hl|exact Hr|done|apply Hl|apply Hl| |by eapply keeps_run|].
  - cbn. unfold c. rewrite TCPConnection.conn_tick_ended. apply Hl.
  - eapply Forall_impl; [exact Ho|]. intros x. apply carries_mono. by eapply peer_run_emitted.
Qed.

Lemma connect_linked wire e p c_ad s :
  linked e p -> TCPSpongeSocket.connect c_ad (sock e) = Ok s ->
  exists p', rtc (peer_step as_sent wire) p p' /\ linked (e <| sock := s |>) p'.
Proof.
  intros Hl H. destruct e as [s0 W D w]. cbn in *. apply result_bind_Ok in H as (tcp & Ht & H). cbn beta zeta in H.
  match type of H with (if ?b then _ else _) = _ => destruct b end; [done|]. injection H as <-. cbn in Ht.
  assert (rtc (peer_step as_sent wire) p (after tcp p)) as Hr by (apply rtc_once, peer_connect; by rewrite (li_conn _ _ Hl)).
  exists (after tcp p). split; [done|].
  set (s := _ <| _tcp := _ |>). change (linked (mk s W D w) (after tcp p)). rewrite <- (app_nil_r w).
  eapply (linked_move wire (mk s0 W D w)); [exact Hl|exact Hr|done|apply Hl|apply Hl| | |constructor].
  - cbn. rewrite (TCPConnection.connect_ended _ _ Ht). apply Hl.
  - apply ad_keeps_config. eapply keeps_run; [exact Hr|apply Hl].
Qed.

(** Every step of an endpoint is a run of its peer. *)
Lemma endpoint_refines arriving wire e p e' :
  linked e p -> Forall (carries (A := AdaptT) wire) arriving -> endpoint_step arriving e e' ->
  exists p', rtc (peer_step as_sent wire) p p' /\ linked e' p'.
Proof.
  intros Hl Ha Hs. destruct Hs as [e c_ad s H|e c_ad|e o i out s Ho Hi H|e i out a s Hi Hn H|e k s Ho Hk Hlen H|e s H|e ret sret s Hh H|e out s H|e ms].
  - by eapply connect_linked.
  - exists p. split; [apply rtc_refl|]. destruct Hl. split; try done. cbn. by apply ad_keeps_listening, ad_keeps_config.
  - rewrite Forall_forall in Ha. pose proof (Ha o Ho) as Hc.
    eapply datagram_in_linked; [exact Hl|by eapply ad_wire_input| |exact H]. intros seg' o' a Hr. by eapply Hc.
  - eapply datagram_in_linked; [exact Hl|exact Hi| |exact H]. intros seg' o' a' Hr. by rewrite Hn in Hr.
  - by eapply bytes_out_linked.
  - by eapply outbound_end_linked.
  - by eapply bytes_in_linked.
  - by eapply datagrams_out_linked.
  - by apply tick_keeps_linked.
Qed.

(** The pair of sockets refines the pair of connections. *)
Lemma pair_refines a b p q a' b' :
  linked a p -> linked b q -> rtc pair_step (a, b) (a', b') ->
  exists p' q', rtc (system_step as_sent) (p, q) (p', q') /\ linked a' p' /\ linked b' q'.
Proof.
  intros Hp Hq Hr. revert p q Hp Hq. remember (a, b) as ab eqn:E. remember (a', b') as ab' eqn:E'. revert a b E.
  induction Hr as [ab|ab ab1 ab2 Hs _ IH]; intros a b -> p q Hp Hq.
  - injection E' as -> ->. exists p, q. split; [apply rtc_refl|done].
  - inversion Hs as [? a1 ? H|? ? b1 H]; subst.
    + destruct (endpoint_refines _ (emitted q) _ _ _ Hp (li_wire _ _ Hq) H) as (p1 & Hr1 & Hp1).
      destruct (IH eq_refl a1 b eq_refl p1 q Hp1 Hq) as (p' & q' & Hrun & Hlp & Hlq). exists p', q'. split; [|done].
      etrans; [|exact Hrun]. clear -Hr1. induction Hr1; [apply rtc_refl|]. eapply rtc_l; [by apply step_left|done].
    + destruct (endpoint_refines _ (emitted p) _ _ _ Hq (li_wire _ _ Hp) H) as (q1 & Hr1 & Hq1).
      destruct (IH eq_refl a b1 eq_refl p q1 Hp Hq1) as (p' & q' & Hrun & Hlp & Hlq). exists p', q'. split; [|done].
      etrans; [|exact Hrun]. clear -Hr1. induction Hr1; [apply rtc_refl|]. eapply rtc_l; [by apply step_right|done].
Qed.

Lemma linked_inbound e p : linked e p ->
  taken p ++ ByteStream._str (TCPConnection.inbound_stream (conn p)) =
  to_owner e ++ ByteStream._str (TCPConnection.inbound_stream (_tcp (sock e))).
Proof. intros Hl. by rewrite (li_taken _ _ Hl), (li_conn _ _ Hl). Qed.

End pair.
Arguments endpoint : clear implicits.

(** Reliable delivery through the whole stack.  Two sockets over any of the
    adapters (UDP, TUN, Ethernet, lossy or not), each with any owner, kernel and
    clock, joined by a network that loses, repeats, delays and reorders
    datagrams and delivers strangers' datagrams that the adapter drops: at every
    moment, the bytes given to either owner, followed by those that wait in
    the inbound stream, are a prefix of the bytes taken from the other. *)
Theorem sockets_reliable {AdaptT I O : Type} `{!Adapter AdaptT I O} `{!AdapterParses AdaptT I O} `{!AdapterWire AdaptT I O}
    `{!AdapterCarries AdaptT I O} fd_a fd_b (adapter_a adapter_b : AdaptT) cfg_a cfg_b random_a random_b
    (a b : endpoint AdaptT O) :
  is_u64 (TCPConfig.send_capacity cfg_a) -> is_u64 (TCPConfig.send_capacity cfg_b) ->
  is_u32 (TCPConfig.recv_capacity cfg_a) -> is_u32 (TCPConfig.recv_capacity cfg_b) ->
  WrappingInt32.wf (default (WrappingInt32.mk random_a) (TCPConfig.fixed_isn cfg_a)) ->
  WrappingInt32.wf (default (WrappingInt32.mk random_b) (TCPConfig.fixed_isn cfg_b)) ->
  ad_keeps [] adapter_a -> ad_keeps [] adapter_b ->
  rtc pair_step (new_endpoint fd_a adapter_a cfg_a random_a, new_endpoint fd_b adapter_b cfg_b random_b) (a, b) ->
  zlen (from_owner a) + 2 < 2 ^ 31 -> zlen (from_owner b) + 2 < 2 ^ 31 ->
  to_owner b ++ ByteStream._str (TCPConnection.inbound_stream (_tcp (sock b))) `prefix_of` from_owner a /\
  to_owner a ++ ByteStream._str (TCPConnection.inbound_stream (_tcp (sock a))) `prefix_of` from_owner b.
Proof.
  intros Hsa Hsb Hra Hrb Hwa Hwb Hka Hkb Hr Hla Hlb.
  destruct (pair_refines _ _ _ _ _ _ (new_linked fd_a _ cfg_a random_a Hka) (new_linked fd_b _ cfg_b random_b Hkb) Hr)
    as (p & q & Hs & Hp & Hq).
  rewrite <- (li_written _ _ Hp) in Hla |- *. rewrite <- (li_written _ _ Hq) in Hlb |- *.
  rewrite <- (linked_inbound _ _ Hp), <- (linked_inbound _ _ Hq).
  apply system_project in Hs as [Ha Hb]. cbn in Ha, Hb. split.
  - eapply (one_direction _ _ cfg_a random_a cfg_b random_b); [apply as_data|done|done|done|done|exact Ha|reflexivity|exact Hb].
  - eapply (one_direction _ _ cfg_b random_b cfg_a random_a); [apply as_data|done|done|done|done|exact Hb|reflexivity|exact Ha].
Qed.

(** An end whose connection is over without a reset has lost nothing: the other
    end has been given, or has in its inbound stream, every byte taken from
    this one's owner, and that stream has ended. *)
Definition closed_cleanly (c : TCPConnection.t) : Prop := TCPConnection.active c = false /\ ~ TCPConnection.has_error c.

Definition delivered {AdaptT O : Type} (a b : endpoint AdaptT O) : Prop :=
  to_owner b ++ ByteStream._str (TCPConnection.inbound_stream (_tcp (sock b))) = from_owner a /\
  ByteStream.input_ended (TCPConnection.inbound_stream (_tcp (sock b))) = true.

Theorem sockets_complete {AdaptT I O : Type} `{!Adapter AdaptT I O} `{!AdapterParses AdaptT I O} `{!AdapterWire AdaptT I O}
    `{!AdapterCarries AdaptT I O} fd_a fd_b (adapter_a adapter_b : AdaptT) cfg_a cfg_b random_a random_b
    (a b : endpoint AdaptT O) :
  is_u64 (TCPConfig.send_capacity cfg_a) -> is_u64 (TCPConfig.send_capacity cfg_b) ->
  is_u32 (TCPConfig.recv_capacity cfg_a) -> is_u32 (TCPConfig.recv_capacity cfg_b) ->
  WrappingInt32.wf (default (WrappingInt32.mk random_a) (TCPConfig.fixed_isn cfg_a)) ->
  WrappingInt32.wf (default (WrappingInt32.mk random_b) (TCPConfig.fixed_isn cfg_b)) ->
  ad_keeps [] adapter_a -> ad_keeps [] adapter_b ->
  rtc pair_step (new_endpoint fd_a adapter_a cfg_a random_a, new_endpoint fd_b adapter_b cfg_b random_b) (a, b) ->
  zlen (from_owner a) + 2 < 2 ^ 31 -> zlen (from_owner b) + 2 < 2 ^ 31 ->
  (closed_cleanly (_tcp (sock a)) -> delivered a b) /\ (closed_cleanly (_tcp (sock b)) -> delivered b a).
Proof.
  intros Hsa Hsb Hra Hrb Hwa Hwb Hka Hkb Hr Hla Hlb.
  destruct (pair_refines _ _ _ _ _ _ (new_linked fd_a _ cfg_a random_a Hka) (new_linked fd_b _ cfg_b random_b Hkb) Hr)
    as (p & q & Hs & Hp & Hq).
  apply system_project in Hs as [Ha Hb]. cbn in Ha, Hb. unfold closed_cleanly, delivered.
  rewrite <- (li_written _ _ Hp) in Hla |- *. rewrite <- (li_written _ _ Hq) in Hlb |- *.
  rewrite <- (linked_inbound _ _ Hp), <- (linked_inbound _ _ Hq), <- (li_conn _ _ Hp), <- (li_conn _ _ Hq).
  split; intros [Hact Hne].
  - by eapply (one_direction_complete cfg_a random_a cfg_b random_b).
  - by eapply (one_direction_complete cfg_b random_b cfg_a random_a).
Qed.

(** Two hosts on one Ethernet that have not heard of each other. *)
Definition eth_a : TCPOverIPv4OverEthernetAdapter.t :=
  (TCPOverIPv4OverEthernetAdapter.init NetworkInterface.mac_a (Address.ipv4 0x0a000001 0) (Address.ipv4 0x0a000002 0)).2.
Definition eth_b : TCPOverIPv4OverEthernetAdapter.t :=
  (TCPOverIPv4OverEthernetAdapter.init NetworkInterface.mac_b (Address.ipv4 0x0a000002 0) (Address.ipv4 0x0a000001 0)).2.

Lemma hosts_keep : ad_keeps [] eth_a /\ ad_keeps [] eth_b.
Proof. split; (split; [done|cbn; by intros ip mac time ?%lookup_empty_Some|constructor|constructor]). Qed.

End TCPSpongePair.
