(* ===== verification/tcp_sponge_loop.v ===== *)
(** * [libsponge/tcp_helpers/tcp_sponge_socket.*]: the event loop

    The socket's four rules installed in an [EventLoop], the loop [_tcp_loop]
    that runs them, and the operations of the owner that start and end it.  The
    world of the rules is the socket, the adapter's file descriptor and a
    counter of callbacks; the kernel is an [Environment] that answers the
    system calls of each callback. *)

From stdpp Require Import relations.
From S2P Require Import Prelude.
From S2P Require Import wrapping_integers.
From S2P Require Import byte_stream.
From S2P Require Import buffer.
From S2P Require Import util.
From S2P Require Import address.
From S2P Require Import ethernet_frame.
From S2P Require Import tcp_segment.
From S2P Require Import tcp_receiver.
From S2P Require Import tcp_sender.
From S2P Require Import tcp_state.
From S2P Require Import tcp_connection.
From S2P Require Import file_descriptor.
From S2P Require Import socket.
From S2P Require Import eventloop.
From S2P Require Import fd_adapter.
From S2P Require Import tcp_sponge_socket.

(** ** Devices

    What an adapter reads from and writes to: a UDP socket, or the file
    descriptor of a TUN or TAP device. *)
Class Device (I O : Type) : Type := {
  dev_answer : Type;
  dev_read : dev_answer -> FileDescriptor.t -> result (I * FileDescriptor.t);
  dev_write : list (Z * Z) -> O -> FileDescriptor.t -> result FileDescriptor.t
}.

(** [recv()] with its default MTU, and [sendto]. *)
#[global] Instance udp_device : Device UDPSocket.received_datagram (Address.t * BufferList.t) := {
  dev_answer := UDPSocket.recv_answer;
  dev_read := UDPSocket.recv 65536;
  dev_write := fun answers out fd =>
    match answers with
    | [] => OutOfFuel
    | sendmsg :: _ => UDPSocket.sendto sendmsg (out.1) (BufferViewList.of_buffers (out.2)) fd
    end
}.

(** [read()] without a limit, and [write], which repeats until all is written. *)
#[global] Instance tuntap_device : Device bytes BufferList.t := {
  dev_answer := FileDescriptor.kernel;
  dev_read := FileDescriptor.read npos;
  dev_write := fun answers out fd =>
    '(_, fd) ← FileDescriptor.write answers (BufferViewList.of_buffers out) true fd; Ok fd
}.

(** A read of the device is counted; a write is not a read. *)
Class DeviceCounts (I O : Type) `{!Device I O} : Prop := {
  dev_read_count k fd i fd' : dev_read k fd = Ok (i, fd') ->
    FileDescriptor.read_count fd' = u32 (FileDescriptor.read_count fd + 1);
  dev_write_count answers o fd fd' : dev_write answers o fd = Ok fd' ->
    FileDescriptor.read_count fd' = FileDescriptor.read_count fd
}.

Lemma recv_shape mtu k fd d fd' :
  UDPSocket.recv mtu k fd = Ok (d, fd') ->
  fd' = FileDescriptor.register_read fd /\ zlen (UDPSocket.payload d) <= Z.max 0 mtu.
Proof.
  unfold UDPSocket.recv. intros (n & _ & H)%result_bind_Ok. cbn zeta in H.
  destruct (Z.ltb_spec mtu n); [done|]. apply result_bind_Ok in H as (a & _ & [= <- <-]). split; [done|].
  cbn. rewrite zlen_resize. lia.
Qed.

Lemma read_shape limit k fd d fd' :
  FileDescriptor.read limit k fd = Ok (d, fd') ->
  FileDescriptor.read_count fd' = u32 (FileDescriptor.read_count fd + 1) /\ zlen d <= 2 ^ 20.
Proof.
  unfold FileDescriptor.read. intros (n & _ & H)%result_bind_Ok. cbn zeta in H.
  destruct (Z.ltb_spec (Z.min FileDescriptor.BUFFER_SIZE limit) n); [done|]. injection H as <- <-. split; [by case_match|].
  unfold FileDescriptor.BUFFER_SIZE in *. rewrite zlen_resize. lia.
Qed.

#[global] Instance udp_counts : DeviceCounts UDPSocket.received_datagram (Address.t * BufferList.t).
Proof.
  split.
  - intros k fd i fd' H. cbn in H. by destruct (recv_shape _ _ _ _ _ H) as [-> _].
  - intros [|r answers] o fd fd'; cbn; [done|]. intros H. by destruct (UDPSocket.sendto_whole _ _ _ _ _ H) as [_ ->].
Qed.

Lemma write_loop_read_count answers buffer all total fd tot b fd' :
  FileDescriptor.write_loop answers buffer all total fd = Ok (tot, b, fd') ->
  FileDescriptor.read_count fd' = FileDescriptor.read_count fd.
Proof.
  revert buffer total fd. induction answers as [|[ret errno] answers IH]; intros buffer total fd; cbn [FileDescriptor.write_loop]; [done|].
  intros (n & _ & H)%result_bind_Ok. do 2 (match type of H with (if ?c then _ else _) = _ => destruct c; [done|] end).
  apply result_bind_Ok in H as (buf & _ & H). cbn zeta in H.
  match type of H with (if ?c then _ else _) = _ => destruct c end; [by apply IH in H|]. by injection H as _ _ <-.
Qed.

#[global] Instance tuntap_counts : DeviceCounts bytes BufferList.t.
Proof.
  split.
  - intros k fd i fd' H. cbn in H. by destruct (read_shape _ _ _ _ _ H) as [-> _].
  - intros answers o fd fd'. cbn. intros ([n fd1] & ([[tot b] fd2] & H & [= <- <-])%result_bind_Ok & [= <-])%result_bind_Ok.
    by eapply write_loop_read_count.
Qed.

(** What the device yields, the adapter can read. *)
Class DeviceParses (A I O : Type) `{!Adapter A I O} `{!AdapterParses A I O} `{!Device I O} : Prop :=
  dev_read_input k fd i fd' : dev_read k fd = Ok (i, fd') -> ad_input i.

#[global] Instance udp_device_parses :
  DeviceParses FdAdapterBase.t UDPSocket.received_datagram (Address.t * BufferList.t).
Proof.
  intros k fd i fd' H. cbn in *. destruct (recv_shape _ _ _ _ _ H) as [_ Hz].
  pose proof (zlen_nonneg (UDPSocket.payload i)). word_lia.
Qed.

#[global] Instance tun_device_parses : DeviceParses FdAdapterBase.t bytes BufferList.t.
Proof.
  intros k fd i fd' H. cbn in *. destruct (read_shape _ _ _ _ _ H) as [_ Hz]. pose proof (zlen_nonneg i). word_lia.
Qed.

#[global] Instance ethernet_device_parses : DeviceParses TCPOverIPv4OverEthernetAdapter.t bytes BufferList.t.
Proof.
  intros k fd i fd' H. cbn in *. destruct (read_shape _ _ _ _ _ H) as [_ Hz]. pose proof (zlen_nonneg i). word_lia.
Qed.

Module TCPSpongeLoop.
Import TCPSpongeSocket.

Definition TCP_TICK_MS : Z := 10.

Section loop.
Context {AdaptT I O : Type} `{!Adapter AdaptT I O} `{!Device I O}.

(** The kernel's answers in the [n]-th callback: to the device's read and to
    its [j]-th write, to the owner's descriptor's read with a given limit, to
    its write, and to [shutdown]. *)
Record Environment : Type := mk_environment {
  env_device : nat -> dev_answer;
  env_device_write : nat -> nat -> list (Z * Z);
  env_read : nat -> Z -> FileDescriptor.kernel;
  env_write : nat -> Z * Z;
  env_shutdown : nat -> Z * Z
}.

Record world : Type := mk_world { sock : t AdaptT; dev : FileDescriptor.t; calls : nat }.

#[global] Instance eta_world : Eta world := fun w => mk_world (sock w) (dev w) (calls w).

Variable env : Environment.

(** The adapter's writes to its device in one callback. *)
Fixpoint put_all (n j : nat) (outs : list O) (fd : FileDescriptor.t) : result FileDescriptor.t :=
  match outs with
  | [] => Ok fd
  | o :: outs => fd ← dev_write (env_device_write env n j) o fd; put_all n (S j) outs fd
  end.

(** A callback that only concerns the socket and the owner's descriptor. *)
Definition on_sock (f : nat -> t AdaptT -> result (t AdaptT)) (w : world) : result world :=
  s ← f (calls w) (sock w); Ok (mk_world s (dev w) (S (calls w))).

Definition rule1 : EventLoop.Rule world :=
  EventLoop.mk_rule dev EventLoop.In
    (fun w =>
       '(d, fd) ← dev_read (env_device env (calls w)) (dev w);
       '(outs, s) ← datagram_in d (sock w);
       fd ← put_all (calls w) 0 outs fd;
       Ok (mk_world s fd (S (calls w))))
    (fun w => datagram_in_interest (sock w))
    (fun w => Ok w).

Definition rule2 : EventLoop.Rule world :=
  EventLoop.mk_rule (fun w => _thread_data (sock w)) EventLoop.In
    (on_sock (fun n s => bytes_out (env_read env n (TCPConnection.remaining_outbound_capacity (_tcp s))) s))
    (fun w => bytes_out_interest (sock w))
    (on_sock (fun _ s => outbound_end s)).

Definition rule3 : EventLoop.Rule world :=
  EventLoop.mk_rule (fun w => _thread_data (sock w)) EventLoop.Out
    (on_sock (fun n s => bytes_in (env_write env n) (env_shutdown env n) s))
    (fun w => bytes_in_interest (sock w))
    (fun w => Ok w).

Definition rule4 : EventLoop.Rule world :=
  EventLoop.mk_rule dev EventLoop.Out
    (fun w =>
       '(outs, s) ← datagrams_out (sock w);
       fd ← put_all (calls w) 0 outs (dev w);
       Ok (mk_world s fd (S (calls w))))
    (fun w => datagrams_out_interest (sock w))
    (fun w => Ok w).

(** One turn's inputs: [poll]'s answer, the owner's [_abort], and the time that
    has passed. *)
Record turn : Type := mk_turn { t_poll : EventLoop.answer; t_abort : bool; t_ms : Z }.

(** [_tcp_loop]: a loop that needs more turns than given has not returned. *)
Fixpoint tcp_loop (turns : list turn) (condition : world -> bool) (rules : list (EventLoop.Rule world)) (w : world)
    : result (list turn * list (EventLoop.Rule world) * world) :=
  if negb (condition w) then Ok (turns, rules, w) else
  match turns with
  | [] => OutOfFuel
  | u :: turns =>
      '(ret, rules, w) ← EventLoop.wait_next_event (t_poll u) rules w;
      match ret with
      | EventLoop.Exit => Ok (turns, rules, w)
      | _ =>
          if t_abort u then Ok (turns, rules, w) else
          let '(outs, s) := loop_tick (t_ms u) (sock w) in
          fd ← put_all (calls w) 0 outs (dev w);
          tcp_loop turns condition rules (mk_world s fd (S (calls w)))
      end
  end.

(** ** The socket object

    The owner's end of the pair, the world of the rules, the event loop, and
    whether [_tcp] has a value; when it has none, the [_tcp] of the world's
    socket has no meaning.  [_tcp.reset()] leaves the event loop and the flags
    as they are. *)
Record object : Type := mk_object {
  _local : FileDescriptor.t;
  _world : world;
  _eventloop : list (EventLoop.Rule world);
  _has_tcp : bool
}.

#[global] Instance eta_object : Eta object := fun o => mk_object (_local o) (_world o) (_eventloop o) (_has_tcp o).

Definition socket_pair_helper (socketpair : call) (fds : Z * Z) : result (FileDescriptor.t * FileDescriptor.t) :=
  _ ← run_call "socketpair" socketpair;
  first ← FileDescriptor.init (fds.1);
  second ← FileDescriptor.init (fds.2);
  Ok (first, second).

(** The constructor; [checks] are the answers to the [getsockopt] calls of the
    two [LocalStreamSocket]s, [get] and [set] those to [fcntl]. *)
Definition construct (socketpair : call) (fds : Z * Z) (checks : Z -> Socket.option_answer) (get set : Z * Z)
    (adapter : AdaptT) (device : FileDescriptor.t) : result object :=
  '(first, second) ← socket_pair_helper socketpair fds;
  local ← LocalStreamSocket.of_fd first (checks 0) (checks 1);
  remote ← LocalStreamSocket.of_fd second (checks 2) (checks 3);
  _ ← FileDescriptor.set_blocking false get set;
  Ok (mk_object local (mk_world (TCPSpongeSocket.init remote adapter TCPConfig.init 0) device 0) [] false).

Definition _initialize_TCP (config : TCPConfig.t) (random : Z) (o : object) : object :=
  let w := _world o in
  o <| _world := w <| sock := (sock w) <| _tcp := TCPConnection.init config random |> |> |>
    <| _eventloop := EventLoop.add_rule rule4 (EventLoop.add_rule rule3
                       (EventLoop.add_rule rule2 (EventLoop.add_rule rule1 (_eventloop o)))) |>
    <| _has_tcp := true |>.

Definition run_loop (turns : list turn) (condition : world -> bool) (o : object) : result (list turn * object) :=
  '(turns, rules, w) ← tcp_loop turns condition (_eventloop o) (_world o);
  Ok (turns, o <| _world := w |> <| _eventloop := rules |>).

Definition in_state (st : TCPState.State) (w : world) : bool :=
  TCPState.eqb (TCPConnection.state (_tcp (sock w))) (TCPState.of_state st).

Definition connect (c_tcp : TCPConfig.t) (random : Z) (c_ad : FdAdapterConfig.t) (turns : list turn) (o : object)
    : result (list turn * object) :=
  if _has_tcp o then Throw (RuntimeError "connect() with TCPConnection already initialized") else
  let o := _initialize_TCP c_tcp random o in
  s ← TCPSpongeSocket.connect c_ad (sock (_world o));
  let o := o <| _world := (_world o) <| sock := s |> |> in
  run_loop turns (in_state TCPState.SYN_SENT) o.

Definition listen_and_accept (c_tcp : TCPConfig.t) (random : Z) (c_ad : FdAdapterConfig.t) (turns : list turn) (o : object)
    : result (list turn * object) :=
  if _has_tcp o then Throw (RuntimeError "listen_and_accept() with TCPConnection already initialized") else
  let o := _initialize_TCP c_tcp random o in
  let o := o <| _world := (_world o) <| sock := TCPSpongeSocket.listen_and_accept c_ad (sock (_world o)) |> |> in
  run_loop turns
    (fun w => in_state TCPState.LISTEN w || in_state TCPState.SYN_RCVD w || in_state TCPState.SYN_SENT w) o.

(** [_tcp_main], the body of the second thread. *)
Definition _tcp_main (turns : list turn) (shutdown : call) (o : object) : result object :=
  if negb (_has_tcp o) then Throw (RuntimeError "no TCP") else
  '(_, o) ← run_loop turns (fun _ => true) o;
  local ← Socket.shutdown Socket.SHUT_RDWR shutdown (_local o);
  Ok (o <| _local := local |> <| _has_tcp := false |>).

(** [wait_until_closed], up to the join of the thread. *)
Definition wait_until_closed (shutdown : call) (o : object) : result object :=
  local ← Socket.shutdown Socket.SHUT_RDWR shutdown (_local o); Ok (o <| _local := local |>).

(** [CS144TCPSocket::connect] and [FullStackSocket::connect]: a fixed source
    address with a random port. *)
Definition connect_from (source_ip port : Z) (address : Address.t) (random : Z) (turns : list turn) (o : object)
    : result (list turn * object) :=
  source ← Address.of_ip_port source_ip (u16 port);
  connect (TCPConfig.init <| TCPConfig.rt_timeout := 100 |>) random
    (FdAdapterConfig.init <| FdAdapterConfig.source := source |> <| FdAdapterConfig.destination := address |>) turns o.

Definition CS144_connect : Z -> Address.t -> Z -> list turn -> object -> result (list turn * object) :=
  connect_from 0xa9fe9009.

Definition FullStack_connect : Z -> Address.t -> Z -> list turn -> object -> result (list turn * object) :=
  connect_from 0xa9fe0a09.

(** ** The rules serve what they were called for *)

Lemma u32_succ_ne c : u32 (c + 1) <> c.
Proof. unfold u32. pose proof (Z.mod_pos_bound (c + 1) (2 ^ 32) ltac:(lia)). intros E.
  assert (c < 2 ^ 32 - 1 \/ c = 2 ^ 32 - 1) as [?| ->] by lia; [|done]. rewrite Z.mod_small in E; lia.
Qed.

Definition the_rules : list (EventLoop.Rule world) := [rule1; rule2; rule3; rule4].

Lemma initialize_rules config random o : _eventloop o = [] -> _eventloop (_initialize_TCP config random o) = the_rules.
Proof. intros E. unfold _initialize_TCP. cbn. by rewrite E. Qed.

Context `{!DeviceCounts I O}.

Lemma put_all_count n j outs fd fd' :
  put_all n j outs fd = Ok fd' -> FileDescriptor.read_count fd' = FileDescriptor.read_count fd.
Proof.
  revert j fd. induction outs as [|o outs IH]; intros j fd; cbn; [by intros [= <-]|].
  intros (fd1 & H1%dev_write_count & H2%IH)%result_bind_Ok. congruence.
Qed.

Lemma rule1_serviced : EventLoop.serviced rule1.
Proof.
  intros w w' H. left. apply result_bind_Ok in H as ([d fd1] & H1%dev_read_count & H).
  apply result_bind_Ok in H as ([outs s] & _ & H). apply result_bind_Ok in H as (fd2 & H2%put_all_count & [= <-]).
  unfold EventLoop.service_count. cbn. rewrite H2, H1. apply u32_succ_ne.
Qed.

Lemma rule2_serviced : EventLoop.serviced rule2.
Proof.
  intros w w' H. left. apply result_bind_Ok in H as (s & H & [= <-]). unfold EventLoop.service_count. cbn.
  apply result_bind_Ok in H as ([data fd] & [Hc _]%read_shape & H). apply result_bind_Ok in H as ([n tcp] & _ & H).
  cbn beta zeta in H. match type of H with (if ?b then _ else _) = _ => destruct b; [done|] end.
  assert (_thread_data s = fd) as ->; [|rewrite Hc; apply u32_succ_ne].
  match type of H with (if ?b then _ else _) = _ => destruct b end; [|by injection H as <-].
  by apply result_bind_Ok in H as (tcp' & _ & [= <-]).
Qed.

Lemma write_once_count r buffer fd n fd' :
  FileDescriptor.write [r] buffer false fd = Ok (n, fd') ->
  FileDescriptor.write_count fd' = u32 (FileDescriptor.write_count fd + 1).
Proof.
  unfold FileDescriptor.write. destruct r as [ret errno]. intros ([[tot b] fd1] & H & [= _ <-])%result_bind_Ok.
  cbn [FileDescriptor.write_loop] in H. apply result_bind_Ok in H as (m & _ & H).
  do 2 (match type of H with (if ?c then _ else _) = _ => destruct c; [done|] end).
  apply result_bind_Ok in H as (buf & _ & H). cbn in H. by injection H as _ _ <-.
Qed.

Lemma rule3_serviced : EventLoop.serviced rule3.
Proof.
  intros w w' H. left. apply result_bind_Ok in H as (s & H & [= <-]). unfold EventLoop.service_count. cbn.
  apply result_bind_Ok in H as ([n fd] & Hc%write_once_count & H). apply result_bind_Ok in H as (inb & _ & H). cbn beta zeta in H.
  set (c := FileDescriptor.write_count (_thread_data (sock w))) in *.
  match type of H with (if ?b then _ else _) = _ => destruct b end.
  - apply result_bind_Ok in H as (fd1 & H1 & [= <-]). cbn. apply result_bind_Ok in H1 as (r & _ & [= <-]).
    change (u32 (FileDescriptor.write_count fd + 1) <> c). rewrite Hc. unfold u32. rewrite Zplus_mod_idemp_l. intros E.
    pose proof (Z.mod_pos_bound (c + 1 + 1) (2 ^ 32) ltac:(lia)).
    assert (c < 2 ^ 32 - 2 \/ c = 2 ^ 32 - 2 \/ c = 2 ^ 32 - 1) as [?|[Ec|Ec]] by lia;
      [rewrite Z.mod_small in E; lia|rewrite Ec in E; vm_compute in E; lia..].
  - injection H as <-. cbn. rewrite Hc. apply u32_succ_ne.
Qed.

Lemma rule4_serviced : EventLoop.serviced rule4.
Proof.
  intros w w' H. right. apply result_bind_Ok in H as ([outs s] & H1 & H). apply result_bind_Ok in H as (fd & _ & [= <-]).
  apply result_bind_Ok in H1 as ([o a] & _ & [= _ <-]). done.
Qed.

Lemma the_rules_serviced : Forall EventLoop.serviced the_rules.
Proof.
  apply Forall_cons_2; [apply rule1_serviced|]. apply Forall_cons_2; [apply rule2_serviced|].
  apply Forall_cons_2; [apply rule3_serviced|]. apply Forall_cons_2; [apply rule4_serviced|constructor].
Qed.

(** C21: the socket never busy-waits.  Whatever rules are left, whatever the
    state of the socket and whatever [poll] reports, a round of the event loop
    has the same outcome as the round without the test for a busy wait, which
    cannot throw the busy-wait exception: the test never fires. *)
Theorem socket_never_spins a rules w :
  rules `sublist_of` the_rules ->
  EventLoop.wait_next_event a rules w = EventLoop.round_with EventLoop.serve_untested a rules w.
Proof. intros Hs. apply EventLoop.round_untested. eapply Forall_sublist; [exact Hs|apply the_rules_serviced]. Qed.

(** ** The loop implements the connection *)

Context `{!AdapterParses AdaptT I O} `{!DeviceParses AdaptT I O}.
Hypothesis honest : forall n limit, 0 <= limit -> FileDescriptor.honest_read limit (env_read env n limit).

(** The socket is reachable with some bytes taken from the owner, at most one
    buffer per callback, as long as the bytes can be numbered. *)
Definition genuine (s0 : t AdaptT) (w : world) : Prop :=
  2 ^ 20 * Z.of_nat (calls w) < 2 ^ 63 ->
  exists W, zlen W <= 2 ^ 20 * Z.of_nat (calls w) /\ TCPSpongeSocket.reachable s0 (sock w, W).

(** Rule 2 is served only while the owner's stream is open. *)
Definition relies (r : EventLoop.Rule world) (w : world) : Prop := r = rule2 -> _outbound_shutdown (sock w) = false.

Lemma genuine_step s0 w s fd :
  genuine s0 w -> (forall W, TCPSpongeSocket.step (sock w, W) (s, W)) -> genuine s0 (mk_world s fd (S (calls w))).
Proof.
  intros Hg Hs Hb. cbn in *. destruct (Hg ltac:(lia)) as (W & HW & Hr). exists W. split; [lia|]. eapply rtc_r; [exact Hr|apply Hs].
Qed.

Lemma rule1_ne_rule2 (w : world) : rule1 <> rule2.
Proof.
  intros E. assert (EventLoop.cancel rule1 w = Ok w) as Hc by done. rewrite E in Hc.
  apply result_bind_Ok in Hc as (s & _ & [= Hw]). apply (f_equal calls) in Hw. cbn in Hw. lia.
Qed.

(** Rules 3 and 4 write. *)
Lemma out_ne_rule2 r : EventLoop.direction r = EventLoop.Out -> r <> rule2.
Proof. by intros Hd ->. Qed.

Lemma rule1_keeps s0 : EventLoop.keeps (genuine s0) relies rule1.
Proof.
  split.
  - intros w _ E. by destruct (rule1_ne_rule2 w).
  - intros w w' Hg _ H. apply result_bind_Ok in H as ([d fd1] & H1%dev_read_input & H).
    apply result_bind_Ok in H as ([outs s] & H2 & H). apply result_bind_Ok in H as (fd2 & _ & [= <-]).
    apply genuine_step; [done|]. intros W. by eapply step_datagram_in.
  - by intros w w' Hg [= <-].
Qed.

Lemma read_data limit k fd d fd' :
  0 <= limit -> FileDescriptor.honest_read limit k -> FileDescriptor.read limit k fd = Ok (d, fd') ->
  d = FileDescriptor.k_data k /\ zlen (FileDescriptor.k_data k) <= 2 ^ 20.
Proof.
  intros Hl Hk Hr. pose proof (FileDescriptor.read_spec limit k fd Hl Hk) as Hs. rewrite Hr in Hs.
  case_match; [done|]. destruct Hs as [[= -> ->] _]. split; [done|]. by apply read_shape in Hr as [_ ?].
Qed.

Lemma rule2_keeps s0 : EventLoop.keeps (genuine s0) relies rule2.
Proof.
  split.
  - intros w Hi _. cbn in Hi. unfold bytes_out_interest in Hi. by destruct (_outbound_shutdown (sock w)); rewrite ?andb_false_r in Hi.
  - intros w w' Hg Hq H. apply result_bind_Ok in H as (s & H & [= <-]). intros Hb. cbn in *.
    destruct (Hg ltac:(lia)) as (W & HW & Hr).
    set (limit := TCPConnection.remaining_outbound_capacity (_tcp (sock w))) in *.
    assert (FileDescriptor.honest_read limit (env_read env (calls w) limit)) as Hk by (apply honest, sub64_range).
    pose proof H as H0. apply result_bind_Ok in H0 as ([data fd] & H1 & _).
    destruct (read_data _ _ _ _ _ (proj1 (sub64_range _ _)) Hk H1) as [_ Hd].
    exists (W ++ FileDescriptor.k_data (env_read env (calls w) limit)). split; [zlen; lia|].
    eapply rtc_r; [exact Hr|]. apply step_bytes_out; [by apply Hq|done|lia|done].
  - intros w w' Hg H. apply result_bind_Ok in H as (s & H & [= <-]). apply genuine_step; [done|].
    intros W. by apply step_outbound_end.
Qed.

Lemma rule3_keeps s0 : EventLoop.keeps (genuine s0) relies rule3.
Proof.
  split.
  - intros w _ E. by destruct (out_ne_rule2 rule3).
  - intros w w' Hg _ H. apply result_bind_Ok in H as (s & H & [= <-]). apply genuine_step; [done|].
    intros W. by eapply step_bytes_in.
  - by intros w w' Hg [= <-].
Qed.

Lemma rule4_keeps s0 : EventLoop.keeps (genuine s0) relies rule4.
Proof.
  split.
  - intros w _ E. by destruct (out_ne_rule2 rule4).
  - intros w w' Hg _ H. apply result_bind_Ok in H as ([outs s] & H & H2). apply result_bind_Ok in H2 as (fd & _ & [= <-]).
    apply genuine_step; [done|]. intros W. by eapply step_datagrams_out.
  - by intros w w' Hg [= <-].
Qed.

Lemma datagram_in_shutdown d s out s' : datagram_in d s = Ok (out, s') -> _outbound_shutdown s' = _outbound_shutdown s.
Proof.
  unfold datagram_in. intros ([[seg o] a] & _ & (tcp & _ & H)%result_bind_Ok)%result_bind_Ok.
  cbn beta zeta in H. case_match; by simplify_eq.
Qed.

Lemma out_compatible r r' :
  EventLoop.direction r' = EventLoop.Out -> (forall w, EventLoop.cancel r' w = Ok w) -> EventLoop.compatible relies r r'.
Proof.
  intros Hd Hc. split.
  - intros w w' _ _ E. by destruct (out_ne_rule2 r' Hd).
  - intros w w' H. rewrite Hc in H. by injection H as <-.
Qed.

Lemma rule12_compatible : EventLoop.compatible relies rule1 rule2.
Proof.
  split.
  - intros w w' [H|[= <-]] Hq; [|done]. apply result_bind_Ok in H as ([d fd1] & _ & H).
    apply result_bind_Ok in H as ([outs s] & H2%datagram_in_shutdown & H). apply result_bind_Ok in H as (fd2 & _ & [= <-]).
    intros _. cbn. rewrite H2. by apply Hq.
  - intros w w' _ _ E. by destruct (rule1_ne_rule2 w).
Qed.

Lemma the_rules_compatible : EventLoop.all_compatible relies the_rules.
Proof.
  repeat (split; [repeat (apply Forall_cons_2; [first [exact rule12_compatible|by apply out_compatible]|]); constructor|]).
  done.
Qed.

Lemma the_rules_keep s0 : Forall (EventLoop.keeps (genuine s0) relies) the_rules.
Proof.
  apply Forall_cons_2; [apply rule1_keeps|]. apply Forall_cons_2; [apply rule2_keeps|].
  apply Forall_cons_2; [apply rule3_keeps|]. apply Forall_cons_2; [apply rule4_keeps|constructor].
Qed.

(** Every turn's [poll] answers for every descriptor. *)
Definition answers_all (turns : list turn) : Prop :=
  Forall (fun u => (4 <= length (EventLoop.a_revents (t_poll u)))%nat) turns.

(** A socket as the constructor leaves it. *)
Record fresh (remote : FileDescriptor.t) (adapter : AdaptT) (device : FileDescriptor.t) (o : object) : Prop := {
  fresh_rules : _eventloop o = [];
  fresh_tcp : _has_tcp o = false;
  fresh_world : exists c random, _world o = mk_world (TCPSpongeSocket.init remote adapter c random) device 0
}.

Lemma construct_fresh socketpair fds checks get set adapter device o :
  construct socketpair fds checks get set adapter device = Ok o ->
  exists remote, FileDescriptor.init (fds.2) = Ok remote /\ fresh remote adapter device o.
Proof.
  intros ([first second] & H1 & (local & H2 & (remote & H3 & (flags & H4 & [= <-])%result_bind_Ok)%result_bind_Ok)%result_bind_Ok)%result_bind_Ok.
  apply result_bind_Ok in H1 as (r & _ & (a & Ha & (b & Hb & [= <- <-])%result_bind_Ok)%result_bind_Ok).
  assert (remote = b) as ->.
  { unfold LocalStreamSocket.of_fd, Socket.of_fd in H3. apply result_bind_Ok in H3 as (? & _ & H3).
    case_match; [done|]. apply result_bind_Ok in H3 as (? & _ & H3). case_match; [done|]. by injection H3 as <-. }
  exists b. split; [done|]. split; [done..|]. cbn. eauto.
Qed.

(** What [connect] and [listen_and_accept] leave behind. *)
Definition opened (c_tcp : TCPConfig.t) (random : Z) (turns : list turn) (o : object) (turns' : list turn) (o' : object) : Prop :=
  (exists c_ad, connect c_tcp random c_ad turns o = Ok (turns', o')) \/
  (exists c_ad, listen_and_accept c_tcp random c_ad turns o = Ok (turns', o')).

(** What the rules and the clock keep, the loop keeps. *)
Section kept.
Variable P : world -> Prop.
Hypothesis rules_keep : Forall (EventLoop.keeps P relies) the_rules.
Hypothesis tick_keeps : forall w ms outs s fd,
  P w -> loop_tick ms (sock w) = (outs, s) -> put_all (calls w) 0 outs (dev w) = Ok fd -> P (mk_world s fd (S (calls w))).

Lemma tcp_loop_keeps turns condition rules w turns' rules' w' :
  answers_all turns -> rules `sublist_of` the_rules -> P w ->
  tcp_loop turns condition rules w = Ok (turns', rules', w') ->
  answers_all turns' /\ rules' `sublist_of` the_rules /\ P w'.
Proof using rules_keep tick_keeps.
  intros Ha. revert rules w. induction Ha as [|u turns Hu Ha IH]; intros rules w Hs Hg; cbn [tcp_loop].
  { case_match; [|done]. intros [= <- <- <-]. by split; [constructor|]. }
  case_match; [intros [= <- <- <-]; split; [by constructor|done]|].
  intros ([[ret rules1] w1] & Hw & H1)%result_bind_Ok.
  destruct (EventLoop.eventloop_keeps P relies (t_poll u) rules w ret rules1 w1) as [Hg1 Hs1];
    [eapply Forall_sublist; [exact Hs|apply rules_keep]|eapply EventLoop.all_compatible_sublist; [exact Hs|apply the_rules_compatible]
    |done|apply sublist_length in Hs; cbn in Hs; lia|done|].
  assert (rules1 `sublist_of` the_rules) as Hs2 by (by etrans).
  assert (t_abort u = false -> (let '(outs, s) := loop_tick (t_ms u) (sock w1) in
    fd ← put_all (calls w1) 0 outs (dev w1); tcp_loop turns condition rules1 (mk_world s fd (S (calls w1)))) =
    Ok (turns', rules', w') -> answers_all turns' /\ rules' `sublist_of` the_rules /\ P w') as Hnext.
  { intros _. destruct (loop_tick (t_ms u) (sock w1)) as [outs s] eqn:Et. intros (fd & Hp & Hl)%result_bind_Ok.
    eapply IH; [exact Hs2| |exact Hl]. by eapply tick_keeps. }
  destruct ret; [destruct (t_abort u)|destruct (t_abort u)|]; first [by injection H1 as <- <- <-|by apply Hnext].
Qed.

Lemma run_loop_keeps turns condition o turns' o' :
  answers_all turns -> _eventloop o `sublist_of` the_rules -> P (_world o) ->
  run_loop turns condition o = Ok (turns', o') ->
  answers_all turns' /\ _eventloop o' `sublist_of` the_rules /\ P (_world o').
Proof using rules_keep tick_keeps.
  intros Ha Hs Hg ([[turns1 rules] w] & H & [= <- <-])%result_bind_Ok. by eapply tcp_loop_keeps in H.
Qed.

Lemma opened_keeps remote adapter device c_tcp random turns o turns' o' :
  fresh remote adapter device o -> answers_all turns ->
  (forall c_ad s, TCPSpongeSocket.connect c_ad (TCPSpongeSocket.init remote adapter c_tcp random) = Ok s -> P (mk_world s device 0)) ->
  (forall c_ad, P (mk_world (TCPSpongeSocket.listen_and_accept c_ad (TCPSpongeSocket.init remote adapter c_tcp random)) device 0)) ->
  opened c_tcp random turns o turns' o' ->
  answers_all turns' /\ _eventloop o' `sublist_of` the_rules /\ P (_world o').
Proof using rules_keep tick_keeps.
  intros [Hrules Htcp (c0 & r0 & Hworld)] Ha Hconnect Hlisten Ho.
  assert (_world (_initialize_TCP c_tcp random o) = mk_world (TCPSpongeSocket.init remote adapter c_tcp random) device 0) as Hs
    by (unfold _initialize_TCP; cbn; by rewrite Hworld).
  destruct Ho as [(c_ad & Ho)|(c_ad & Ho)]; [unfold connect in Ho|unfold listen_and_accept in Ho]; rewrite Htcp in Ho; cbn zeta in Ho;
    rewrite Hs in Ho.
  - apply result_bind_Ok in Ho as (s & Hc & Ho). eapply run_loop_keeps; [exact Ha| | |exact Ho].
    + cbn. rewrite Hrules. reflexivity.
    + by eapply Hconnect.
  - eapply run_loop_keeps; [exact Ha| | |exact Ho].
    + cbn. rewrite Hrules. reflexivity.
    + apply Hlisten.
Qed.
End kept.

Lemma genuine_tick s0 w ms outs s fd :
  genuine s0 w -> loop_tick ms (sock w) = (outs, s) -> put_all (calls w) 0 outs (dev w) = Ok fd ->
  genuine s0 (mk_world s fd (S (calls w))).
Proof using Type.
  intros Hg Et _. apply genuine_step; [done|]. intros W. change s with ((outs, s).2). rewrite <- Et. apply step_tick.
Qed.

Lemma genuine_start s0 s device : (forall W, TCPSpongeSocket.step (s0, W) (s, W)) -> genuine s0 (mk_world s device 0).
Proof using Type. intros Hs _. exists []. split; [done|]. apply rtc_once, Hs. Qed.

(** C20: the socket, from its constructor through [connect] or
    [listen_and_accept] and on through the loop of its thread, drives its
    connection only through the connection's own calls: with a kernel that
    answers reads as documented, and for the first [2^43] callbacks, the
    connection is one that its own calls reach.  [condition] is any test and the
    owner may abort at any turn, so this holds of every turn. *)
Theorem socket_loop_refines socketpair fds checks get set adapter device o c_tcp random turns turns1 o1 condition turns2 o2 :
  construct socketpair fds checks get set adapter device = Ok o -> answers_all turns ->
  opened c_tcp random turns o turns1 o1 -> run_loop turns1 condition o1 = Ok (turns2, o2) ->
  2 ^ 20 * Z.of_nat (calls (_world o2)) < 2 ^ 63 ->
  exists W, TCPConnection.reachable c_tcp random (_tcp (sock (_world o2)), W).
Proof.
  intros Hc Ha Ho Hr Hb. destruct (construct_fresh _ _ _ _ _ _ _ _ Hc) as (remote & _ & Hf).
  destruct (opened_keeps _ (the_rules_keep _) (genuine_tick (TCPSpongeSocket.init remote adapter c_tcp random)) _ _ _ c_tcp random _ _ turns1 o1 Hf Ha)
    as (Ha1 & Hs1 & Hg1); [..|exact Ho|].
  { intros c_ad s Hs. apply genuine_start. intros W. by eapply step_connect. }
  { intros c_ad. apply genuine_start. intros W. apply step_listen. }
  destruct (run_loop_keeps _ (the_rules_keep _) (genuine_tick _) _ _ _ _ _ Ha1 Hs1 Hg1 Hr) as (_ & _ & Hg2).
  destruct (Hg2 Hb) as (W & _ & HW). exists W. by destruct (TCPSpongeSocket.socket_reachable _ _ _ _ _ HW).
Qed.

End loop.

(** ** The socket over Ethernet *)

(** Six random bytes, the first made that of a private address. *)
Definition random_private_ethernet_address (draw : EthernetAddress) : EthernetAddress :=
  match draw with
  | b :: rest => byte_of (Z.land (Z.lor (byte_val b) 0x02) 0xfe) :: rest
  | [] => []
  end.

(** The adapter that the constructor of [FullStackSocket] makes, with the frame
    that it sends. *)
Definition FullStackSocket (draw : EthernetAddress) : list BufferList.t * TCPOverIPv4OverEthernetAdapter.t :=
  TCPOverIPv4OverEthernetAdapter.init (random_private_ethernet_address draw)
    (Address.ipv4 0xa9fe0a09 0) (Address.ipv4 0xa9fe0a01 0).

(** ** A socket on a TUN device that sends its SYN and is aborted *)

Definition sample_environment : Environment (I := bytes) (O := BufferList.t) :=
  mk_environment (fun _ => FileDescriptor.mk_kernel 0 0 []) (fun _ _ => [(40, 0)])
    (fun _ _ => FileDescriptor.mk_kernel 0 0 []) (fun _ => (0, 0)) (fun _ => (0, 0)).

Lemma sample_honest n limit : 0 <= limit -> FileDescriptor.honest_read limit (env_read sample_environment n limit).
Proof. intros Hl. right. split; [done|]. change (0 <= Z.min (1024 * 1024) limit). lia. Qed.

Definition sample_checks (n : Z) : Socket.option_answer := Socket.mk_option (0, 0) 1 4.

Definition sample_object : object (AdaptT := FdAdapterBase.t) :=
  match construct (0, 0) (3, 4) sample_checks (0, 0) (0, 0) FdAdapterBase.init (FileDescriptor.mk 5 false false 0 0) with
  | Ok o => o
  | _ => mk_object (FileDescriptor.mk 0 false false 0 0)
           (mk_world (TCPSpongeSocket.init (FileDescriptor.mk 0 false false 0 0) FdAdapterBase.init TCPConfig.init 0)
              (FileDescriptor.mk 0 false false 0 0) 0) [] false
  end.

(** One turn in which the device is writable, and the owner aborts. *)
Definition sample_turns : list turn := [mk_turn (EventLoop.mk_answer 1 0 [0; 0; 0; EventLoop.POLLOUT]) true 10].

Definition sample_target : FdAdapterConfig.t :=
  FdAdapterConfig.init <| FdAdapterConfig.destination := Address.ipv4 0x0a000002 80 |>.

(** The outcome of a run, as a number that can be computed. *)
Definition calls_of (r : result (list turn * object (AdaptT := FdAdapterBase.t))) : option nat :=
  match r with Ok (_, o) => Some (calls (_world o)) | _ => None end.

Lemma calls_of_Ok r n : calls_of r = Some n -> exists turns o, r = Ok (turns, o) /\ calls (_world o) = n.
Proof. destruct r as [[turns o]| |]; cbn; intros [= <-]. by eauto. Qed.

Lemma sample_calls :
  calls_of (connect sample_environment TCPConnection.sample_config 0 sample_target sample_turns sample_object) = Some 1%nat.
Proof. vm_compute. reflexivity. Qed.

Lemma socket_loop_refines_witness :
  exists turns1 o1 W,
    connect sample_environment TCPConnection.sample_config 0 sample_target sample_turns sample_object = Ok (turns1, o1) /\
    calls (_world o1) = 1%nat /\ TCPConnection.reachable TCPConnection.sample_config 0 (_tcp (sock (_world o1)), W).
Proof.
  destruct (calls_of_Ok _ _ sample_calls) as (turns1 & o1 & E & Ec).
  destruct (socket_loop_refines sample_environment sample_honest (0, 0) (3, 4) sample_checks (0, 0) (0, 0) FdAdapterBase.init
    (FileDescriptor.mk 5 false false 0 0) sample_object TCPConnection.sample_config 0 sample_turns turns1 o1 (fun _ => false) turns1 o1)
    as [W HW].
  - reflexivity.
  - repeat constructor.
  - left. exists sample_target. exact E.
  - destruct turns1, o1; reflexivity.
  - rewrite Ec. reflexivity.
  - exists turns1, o1, W. split; [exact E|]. split; [exact Ec|exact HW].
Defined.

(** A round in which the device is writable and [rule4] sends the SYN. *)
Definition sample_world : world := mk_world TCPSpongeSocket.sample_connected (FileDescriptor.mk 5 false false 0 0) 0.
Definition sample_poll : EventLoop.answer := EventLoop.mk_answer 1 0 [0; 0; 0; EventLoop.POLLOUT].

(** What a round leaves, as numbers that can be computed. *)
Definition round_calls {R : Type} (r : result (EventLoop.Result * R * world (AdaptT := FdAdapterBase.t))) : option (nat * Z) :=
  match r with Ok (_, _, w) => Some (calls w, FileDescriptor.write_count (dev w)) | _ => None end.

Lemma sample_round :
  round_calls (EventLoop.round_with EventLoop.serve_untested sample_poll
    (the_rules (AdaptT := FdAdapterBase.t) sample_environment) sample_world) = Some (1%nat, 1).
Proof. vm_compute. reflexivity. Qed.

Lemma socket_never_spins_witness :
  round_calls (EventLoop.wait_next_event sample_poll
    (the_rules (AdaptT := FdAdapterBase.t) sample_environment) sample_world) = Some (1%nat, 1).
Proof.
  rewrite (socket_never_spins sample_environment sample_poll (the_rules (AdaptT := FdAdapterBase.t) sample_environment) sample_world);
    [exact sample_round|reflexivity].
Defined.

End TCPSpongeLoop.
