(* ===== verification/tcp_sponge_life.v ===== *)
(** * [libsponge/tcp_helpers/tcp_sponge_socket.*]: the socket and its thread

    The life of a [TCPSpongeSocket] with its [std::thread]: [connect] and
    [listen_and_accept] start the thread, [wait_until_closed] and the destructor
    join it, and the destructor sets [_abort] first.  As the standard has it:
    a thread is joinable from its start until it is joined, also after its
    function has returned; to start a thread in a handle that is joinable, and
    to let an exception leave a thread's function, is [std::terminate].  The
    two sockets with a fixed device are here as well. *)

From S2P Require Import Prelude.
From S2P Require Import buffer.
From S2P Require Import util.
From S2P Require Import address.
From S2P Require Import ethernet_frame.
From S2P Require Import tcp_sender.
From S2P Require Import file_descriptor.
From S2P Require Import socket.
From S2P Require Import tun.
From S2P Require Import eventloop.
From S2P Require Import fd_adapter.
From S2P Require Import command_line.
From S2P Require Import tcp_sponge_socket.
From S2P Require Import tcp_sponge_loop.

Module SocketLife.
Import TCPSpongeLoop (object, turn, t_poll, t_abort, t_ms, mk_turn, _world, _eventloop, _has_tcp, _local).

(** What the handle [_tcp_thread] stands for. *)
Inductive thread : Type := NoThread | Running | Finished.

Definition joinable (th : thread) : bool := match th with NoThread => false | _ => true end.

Section life.
Context {AdaptT I O : Type} `{!Adapter AdaptT I O} `{!Device I O}.
Variable env : TCPSpongeLoop.Environment (I := I) (O := O).

Record t : Type := mk { _socket : object (AdaptT := AdaptT); _tcp_thread : thread; _abort : bool }.

#[global] Instance eta_t : Eta t := fun l => mk (_socket l) (_tcp_thread l) (_abort l).

(** The constructor: no thread, [_abort] false. *)
Definition init (o : object) : t := mk o NoThread false.

(** [_tcp_thread = thread(...)]. *)
Definition start (l : t) : outcome t :=
  if joinable (_tcp_thread l) then Aborts else Returns (l <| _tcp_thread := Running |>).

(** [_abort], as the loop sees it in each turn. *)
Definition seen (abort : bool) (turns : list turn) : list turn :=
  map (fun u => mk_turn (t_poll u) (t_abort u || abort) (t_ms u)) turns.

Definition connect (c_tcp : TCPConfig.t) (random : Z) (c_ad : FdAdapterConfig.t) (turns : list turn) (l : t) : outcome (list turn * t) :=
  '(turns, o) ← lift (TCPSpongeLoop.connect env c_tcp random c_ad (seen (_abort l) turns) (_socket l));
  l ← start (l <| _socket := o |>);
  Returns (turns, l).

Definition listen_and_accept (c_tcp : TCPConfig.t) (random : Z) (c_ad : FdAdapterConfig.t) (turns : list turn) (l : t) :
    outcome (list turn * t) :=
  '(turns, o) ← lift (TCPSpongeLoop.listen_and_accept env c_tcp random c_ad (seen (_abort l) turns) (_socket l));
  l ← start (l <| _socket := o |>);
  Returns (turns, l).

(** The thread's function from its start to its end. *)
Definition thread_runs (turns : list turn) (shutdown : call) (l : t) : outcome t :=
  match TCPSpongeLoop._tcp_main env (seen (_abort l) turns) shutdown (_socket l) with
  | Ok o => Returns (l <| _socket := o |> <| _tcp_thread := Finished |>)
  | Throw (UndefinedBehaviour s) => Raises (UndefinedBehaviour s)
  | Throw _ => Aborts
  | OutOfFuel => Hangs
  end.

(** [_tcp_thread.join()]: what is left of the thread's function runs. *)
Definition join (turns : list turn) (shutdown : call) (l : t) : outcome t :=
  l ← match _tcp_thread l with Running => thread_runs turns shutdown l | _ => Returns l end;
  Returns (l <| _tcp_thread := NoThread |>).

Definition wait_until_closed (turns : list turn) (shutdown thread_shutdown : call) (l : t) : outcome t :=
  o ← lift (TCPSpongeLoop.wait_until_closed shutdown (_socket l));
  let l := l <| _socket := o |> in
  if joinable (_tcp_thread l) then join turns thread_shutdown l else Returns l.

(** [~TCPSpongeSocket]; the members' destructors follow, and that of a joinable
    thread is [std::terminate]. *)
Definition destructor (turns : list turn) (thread_shutdown : call) (l : t) : outcome t :=
  l ← (if joinable (_tcp_thread l) then join turns thread_shutdown (l <| _abort := true |>) else Returns l);
  if joinable (_tcp_thread l) then Aborts else Returns l.

(** ** The destructor ends *)

(** The loop stops at the end of the turn in which it sees [_abort]. *)
Lemma tcp_loop_abort turns condition rules w u ret rules' w' :
  EventLoop.wait_next_event (t_poll u) rules w = Ok (ret, rules', w') ->
  exists left rules2 w2, TCPSpongeLoop.tcp_loop env (seen true (u :: turns)) condition rules w = Ok (left, rules2, w2).
Proof.
  intros Hw. cbn. destruct (condition w); cbn [negb]; [|by eauto]. rewrite Hw. cbn. rewrite orb_true_r. destruct ret; by eauto.
Qed.

(** An unclean end: the owner lets go of a socket whose thread runs.  If the
    round of the event loop that is under way returns and the owner's end can
    be shut down, the destructor returns, after that one round. *)
Lemma destructor_ends turns u shutdown l ret rules' w' :
  _tcp_thread l = Running -> _has_tcp (_socket l) = true ->
  EventLoop.wait_next_event (t_poll u) (_eventloop (_socket l)) (_world (_socket l)) = Ok (ret, rules', w') ->
  (0 <=? shutdown.1) = true ->
  exists l', destructor (u :: turns) shutdown l = Returns l' /\ _tcp_thread l' = NoThread /\ _has_tcp (_socket l') = false.
Proof.
  intros Ht Hh Hw Hs. unfold destructor, join, thread_runs, TCPSpongeLoop._tcp_main. rewrite Ht. cbn [joinable]. cbn [_tcp_thread]. cbn.
  rewrite Ht. cbn. rewrite Hh. cbn [negb]. unfold TCPSpongeLoop.run_loop.
  destruct (tcp_loop_abort turns (fun _ => true) _ _ _ _ _ _ Hw) as (left & rules2 & w2 & E). cbn in E. rewrite E. cbn.
  unfold Socket.shutdown, run_call, SystemCall. rewrite Hs. cbn. by eexists.
Qed.

(** ** What the handle forbids *)

(** A connection that has ended without being waited for: the socket has no
    connection, so [connect] goes ahead, and its new thread ends the program. *)
Lemma connect_unjoined_aborts c_tcp random c_ad turns l turns' o :
  _tcp_thread l = Finished ->
  TCPSpongeLoop.connect env c_tcp random c_ad (seen (_abort l) turns) (_socket l) = Ok (turns', o) ->
  connect c_tcp random c_ad turns l = Aborts.
Proof. intros Ht Hc. unfold connect. rewrite Hc. cbn. unfold start. cbn. by rewrite Ht. Qed.

(** While the connection lives, it is an exception. *)
Lemma connect_twice_raises c_tcp random c_ad turns l :
  _has_tcp (_socket l) = true ->
  connect c_tcp random c_ad turns l = Raises (RuntimeError "connect() with TCPConnection already initialized").
Proof. intros Hh. unfold connect, TCPSpongeLoop.connect. by rewrite Hh. Qed.

End life.

(** ** The sockets with a fixed device *)

(** [open], [ioctl] and the rest are the kernel's answers; [draw] the random
    bytes of the Ethernet address, [first] the answers to the write of the frame
    that the adapter sends when it is made. *)
Definition CS144TCPSocket (open : call) (ioctl : TunTapFD.ifreq -> call) (socketpair : call) (fds : Z * Z)
    (checks : Z -> Socket.option_answer) (get set : Z * Z) : result t :=
  device ← TunTapFD.TunFD open ioctl (lit "tun144");
  o ← TCPSpongeLoop.construct socketpair fds checks get set FdAdapterBase.init device;
  Ok (init o).

Definition FullStackSocket (draw : EthernetAddress) (first : list (Z * Z)) (open : call) (ioctl : TunTapFD.ifreq -> call)
    (socketpair : call) (fds : Z * Z) (checks : Z -> Socket.option_answer) (get set : Z * Z) : result t :=
  device ← TunTapFD.TapFD open ioctl (lit "tap10");
  let '(frames, adapter) := TCPSpongeLoop.FullStackSocket draw in
  '(_, device) ← FileDescriptor.write first (BufferViewList.of_buffers (concat frames)) true device;
  o ← TCPSpongeLoop.construct socketpair fds checks get set adapter device;
  Ok (init o).

End SocketLife.
