(* ===== verification/bidirectional_stream_copy.v ===== *)
(** * [apps/bidirectional_stream_copy.*]

    The loop that the command-line programs run over a socket: standard input
    to the socket and the socket to standard output, through two [ByteStream]s,
    as four rules of an event loop.  The kernel's answers come from an
    [Environment]; the last four fields of the world are the bytes that have
    passed between the program and the kernel, in each direction. *)

From S2P Require Import Prelude.
From S2P Require Import byte_stream.
From S2P Require Import buffer.
From S2P Require Import util.
From S2P Require Import file_descriptor.
From S2P Require Import socket.
From S2P Require Import eventloop.

Module StreamCopy.

Definition max_copy_length : Z := 65536.
Definition buffer_size : Z := 1048576.

Record world : Type := mk_world {
  _input : FileDescriptor.t;
  _output : FileDescriptor.t;
  _socket : FileDescriptor.t;
  _outbound : ByteStream.t;
  _inbound : ByteStream.t;
  _outbound_shutdown : bool;
  _inbound_shutdown : bool;
  calls : nat;
  from_input : bytes;
  to_socket : bytes;
  from_socket : bytes;
  to_output : bytes
}.

#[global] Instance eta_world : Eta world := fun w =>
  mk_world (_input w) (_output w) (_socket w) (_outbound w) (_inbound w) (_outbound_shutdown w) (_inbound_shutdown w)
    (calls w) (from_input w) (to_socket w) (from_socket w) (to_output w).

(** The kernel's answers in the [n]-th callback: to a read with a given limit,
    to a write, and to [shutdown] or [close]. *)
Record Environment : Type := mk_environment {
  env_read : nat -> Z -> FileDescriptor.kernel;
  env_write : nat -> Z * Z;
  env_end : nat -> Z * Z
}.

Definition init (input output socket : FileDescriptor.t) : world :=
  mk_world input output socket (ByteStream.init buffer_size) (ByteStream.init buffer_size) false false 0 [] [] [] [].

Section copy.
Variable env : Environment.

(** [stream.write(fd.read(stream.remaining_capacity()))], with the end of file. *)
Definition pull (n : nat) (fd : FileDescriptor.t) (stream : ByteStream.t) : result (bytes * FileDescriptor.t * ByteStream.t) :=
  let limit := ByteStream.remaining_capacity stream in
  '(data, fd) ← FileDescriptor.read limit (env_read env n limit) fd;
  let '(_, stream) := ByteStream.write data stream in
  Ok (data, fd, if FileDescriptor.eof fd then ByteStream.end_input stream else stream).

(** [stream.pop_output(fd.write(stream.peek_output(...), false))]. *)
Definition push (n : nat) (fd : FileDescriptor.t) (stream : ByteStream.t) : result (bytes * FileDescriptor.t * ByteStream.t) :=
  let bytes_to_write := Z.min max_copy_length (ByteStream.buffer_size stream) in
  let data := ByteStream.peek_output bytes_to_write stream in
  '(bytes_written, fd) ← FileDescriptor.write [env_write env n] (BufferViewList.of_string data) false fd;
  stream ← ByteStream.pop_output bytes_written stream;
  Ok (substr0 data bytes_written, fd, stream).

Definition can_pull (stream other : ByteStream.t) : bool :=
  negb (ByteStream.error stream) && (0 <? ByteStream.remaining_capacity stream) && negb (ByteStream.error other).

Definition must_push (stream : ByteStream.t) (shutdown : bool) : bool :=
  negb (ByteStream.buffer_empty stream) || (ByteStream.eof stream && negb shutdown).

Definition end_outbound (w : world) : result world :=
  Ok (w <| _outbound := ByteStream.end_input (_outbound w) |> <| calls := S (calls w) |>).
Definition end_inbound (w : world) : result world :=
  Ok (w <| _inbound := ByteStream.end_input (_inbound w) |> <| calls := S (calls w) |>).

Definition rule1 : EventLoop.Rule world :=
  EventLoop.mk_rule _input EventLoop.In
    (fun w =>
       '(data, fd, stream) ← pull (calls w) (_input w) (_outbound w);
       Ok (w <| _input := fd |> <| _outbound := stream |> <| calls := S (calls w) |> <| from_input := from_input w ++ data |>))
    (fun w => can_pull (_outbound w) (_inbound w))
    end_outbound.

Definition rule2 : EventLoop.Rule world :=
  EventLoop.mk_rule _socket EventLoop.Out
    (fun w =>
       '(data, fd, stream) ← push (calls w) (_socket w) (_outbound w);
       let w' := w <| _socket := fd |> <| _outbound := stream |> <| calls := S (calls w) |> <| to_socket := to_socket w ++ data |> in
       if ByteStream.eof stream then
         fd ← Socket.shutdown Socket.SHUT_WR (env_end env (calls w)) fd;
         Ok (w' <| _socket := fd |> <| _outbound_shutdown := true |>)
       else Ok w')
    (fun w => must_push (_outbound w) (_outbound_shutdown w))
    end_outbound.

Definition rule3 : EventLoop.Rule world :=
  EventLoop.mk_rule _socket EventLoop.In
    (fun w =>
       '(data, fd, stream) ← pull (calls w) (_socket w) (_inbound w);
       Ok (w <| _socket := fd |> <| _inbound := stream |> <| calls := S (calls w) |> <| from_socket := from_socket w ++ data |>))
    (fun w => can_pull (_inbound w) (_outbound w))
    end_inbound.

Definition rule4 : EventLoop.Rule world :=
  EventLoop.mk_rule _output EventLoop.Out
    (fun w =>
       '(data, fd, stream) ← push (calls w) (_output w) (_inbound w);
       let w' := w <| _output := fd |> <| _inbound := stream |> <| calls := S (calls w) |> <| to_output := to_output w ++ data |> in
       if ByteStream.eof stream then
         fd ← FileDescriptor.close ((env_end env (calls w)).1) ((env_end env (calls w)).2) fd;
         Ok (w' <| _output := fd |> <| _inbound_shutdown := true |>)
       else Ok w')
    (fun w => must_push (_inbound w) (_inbound_shutdown w))
    end_inbound.

Definition the_rules : list (EventLoop.Rule world) :=
  EventLoop.add_rule rule4 (EventLoop.add_rule rule3 (EventLoop.add_rule rule2 (EventLoop.add_rule rule1 []))).

(** The final loop, for the given answers of [poll]: whether it has returned
    (at [Exit]), the rules that are left and the world. *)
Fixpoint copy_loop (answers : list EventLoop.answer) (rules : list (EventLoop.Rule world)) (w : world) :
    result (bool * list (EventLoop.Rule world) * world) :=
  match answers with
  | [] => Ok (false, rules, w)
  | a :: answers =>
      '(res, rules, w) ← EventLoop.wait_next_event a rules w;
      match res with
      | EventLoop.Exit => Ok (true, rules, w)
      | _ => copy_loop answers rules w
      end
  end.

(** The whole function: the three descriptors become non-blocking first. *)
Definition bidirectional_stream_copy (blocking : Z -> Z * Z) (answers : list EventLoop.answer)
    (input output socket : FileDescriptor.t) : result (bool * list (EventLoop.Rule world) * world) :=
  _ ← FileDescriptor.set_blocking false (blocking 0) (blocking 1);
  _ ← FileDescriptor.set_blocking false (blocking 2) (blocking 3);
  _ ← FileDescriptor.set_blocking false (blocking 4) (blocking 5);
  copy_loop answers the_rules (init input output socket).

(** ** Nothing is lost, altered or reordered *)

(** The bytes that came in are those that went out and those in between. *)
Definition in_transit (came went : bytes) (stream : ByteStream.t) : Prop :=
  ByteStream.wf stream /\ came = went ++ ByteStream._str stream.

Lemma pull_transit came went n fd stream data fd' stream' :
  (let limit := ByteStream.remaining_capacity stream in FileDescriptor.honest_read limit (env_read env n limit)) ->
  in_transit came went stream -> pull n fd stream = Ok (data, fd', stream') -> in_transit (came ++ data) went stream'.
Proof.
  intros Hk [Hwf ->] ([d fd1] & Hr & H)%result_bind_Ok.
  pose proof (FileDescriptor.read_spec (ByteStream.remaining_capacity stream) (env_read env n (ByteStream.remaining_capacity stream)) fd
    (proj1 (sub64_range _ _)) Hk) as Hs. rewrite Hr in Hs.
  case_match; [done|]. destruct Hs as [[= Ed _] Hle]. rewrite <- Ed in Hle.
  rewrite ByteStream.remaining_capacity_eq in Hle by done. pose proof (ByteStream.write_wf d stream Hwf) as Hwf'.
  rewrite ByteStream.write_eq in H, Hwf' by done. rewrite Z.min_l in H, Hwf' by done. injection H as <- _ <-.
  assert (in_transit ((went ++ ByteStream._str stream) ++ d) went
    (snd (zlen d, ByteStream.mk (ByteStream._str stream ++ take (Z.to_nat (zlen d)) d) (ByteStream._capacity stream)
      (zlen (ByteStream._str stream) + zlen d) (ByteStream._bytes_read stream) (ByteStream._bytes_written stream ⊕ zlen d)
      (ByteStream._input_is_end stream) (ByteStream._error stream)))) as Ht.
  { split; [done|]. cbn. rewrite <- app_assoc. do 2 f_equal. unfold zlen. by rewrite Nat2Z.id, firstn_all. }
  case_match; [|done]. destruct Ht as [Ht ?]. split; [by apply ByteStream.end_input_wf|done].
Qed.

Lemma push_transit came went n fd stream data fd' stream' :
  - 2 ^ 31 <= (env_write env n).1 -> FileDescriptor.honest_write (env_write env n) ->
  in_transit came went stream -> push n fd stream = Ok (data, fd', stream') ->
  in_transit came (went ++ data) stream' /\ fd' = FileDescriptor.register_write fd.
Proof.
  intros Hmin Hhw [Hwf ->] ([m fd1] & Hw & (st & Hp & [= <- <- <-])%result_bind_Ok)%result_bind_Ok.
  destruct (FileDescriptor.write_bounded _ _ _ _ _ Hmin Hhw Hw) as [Hm ->].
  split; [|done]. pose proof (ByteStream.pop_output_wf _ _ _ Hwf (proj1 Hm) Hp) as Hwf'. split; [done|].
  rewrite ByteStream.pop_output_eq in Hp by (done || apply Hm). injection Hp as <-. cbn.
  rewrite ByteStream.peek_output_eq in * by done. unfold ByteStream.buffer_size in *. rewrite (ByteStream.wf_len _ Hwf) in *.
  set (str := ByteStream._str stream) in *. pose proof (zlen_nonneg str). pose proof (ByteStream.wf_capacity _ Hwf) as Hcap.
  pose proof (ByteStream.wf_cap _ Hwf) as Hle. rewrite (ByteStream.wf_len _ Hwf) in Hle. fold str in Hle.
  unfold BufferViewList.of_string in Hm. rewrite FileDescriptor.view_size in Hm; cbn [concat] in *; rewrite app_nil_r in *;
    [|unfold is_u64 in *; unfold zlen in *; rewrite length_take; lia].
  rewrite <- app_assoc. f_equal. rewrite substr0_eq, take_take.
  unfold zlen in *. rewrite length_take in Hm. rewrite !Nat.min_l by lia. rewrite Z.min_l by lia. by rewrite take_drop.
Qed.

(** Between rounds: both directions are in transit. *)
Definition faithful (w : world) : Prop :=
  in_transit (from_input w) (to_socket w) (_outbound w) /\ in_transit (from_socket w) (to_output w) (_inbound w).

Lemma faithful_end_outbound w w' : faithful w -> end_outbound w = Ok w' -> faithful w'.
Proof. intros [[Hw ?] ?] [= <-]. split; [split; [by apply ByteStream.end_input_wf|done]|done]. Qed.

Lemma faithful_end_inbound w w' : faithful w -> end_inbound w = Ok w' -> faithful w'.
Proof. intros [? [Hw ?]] [= <-]. split; [done|split; [by apply ByteStream.end_input_wf|done]]. Qed.

Definition relies (r : EventLoop.Rule world) (w : world) : Prop := True.

Hypothesis honest_reads : forall n limit, 0 <= limit -> FileDescriptor.honest_read limit (env_read env n limit).
Hypothesis honest_writes : forall n, - 2 ^ 31 <= (env_write env n).1 /\ FileDescriptor.honest_write (env_write env n).

Lemma copy_rules_keep : Forall (EventLoop.keeps faithful relies) the_rules.
Proof.
  apply Forall_cons_2; [|apply Forall_cons_2; [|apply Forall_cons_2; [|apply Forall_cons_2; [|constructor]]]];
    (split; [done| |first [exact faithful_end_outbound|exact faithful_end_inbound]]);
    intros w w' [Ho Hi] _ ([[data fd] stream] & H1 & H2)%result_bind_Ok; cbn zeta in H2.
  - injection H2 as <-. split; [eapply pull_transit; [apply honest_reads, sub64_range|done..]|done].
  - destruct (push_transit _ _ _ _ _ _ _ _ (proj1 (honest_writes _)) (proj2 (honest_writes _)) Ho H1) as [Ht _].
    case_match; [apply result_bind_Ok in H2 as (fd2 & _ & [= <-])|injection H2 as <-]; by split.
  - injection H2 as <-. split; [done|eapply pull_transit; [apply honest_reads, sub64_range|done..]].
  - destruct (push_transit _ _ _ _ _ _ _ _ (proj1 (honest_writes _)) (proj2 (honest_writes _)) Hi H1) as [Ht _].
    case_match; [apply result_bind_Ok in H2 as (fd2 & _ & [= <-])|injection H2 as <-]; by split.
Qed.

Lemma rules_compatible rules : EventLoop.all_compatible relies rules.
Proof. induction rules; [done|]. split; [by apply Forall_forall|done]. Qed.

(** Every [poll] answers for every descriptor. *)
Definition answers_all (answers : list EventLoop.answer) : Prop :=
  Forall (fun a => (4 <= length (EventLoop.a_revents a))%nat) answers.

Lemma copy_rules_quiet rules : rules `sublist_of` the_rules -> EventLoop.stays_quiet rules.
Proof.
  intros Hs. apply (EventLoop.stays_quiet_sublist _ _ Hs). clear Hs. repeat split; try done;
    repeat (apply Forall_cons_2; [by intros w w' [= <-]|]); constructor.
Qed.

Lemma copy_loop_faithful answers rules w returned rules' w' :
  answers_all answers -> rules `sublist_of` the_rules -> faithful w ->
  copy_loop answers rules w = Ok (returned, rules', w') ->
  faithful w' /\ rules' `sublist_of` rules /\
  (returned = true -> Forall (fun a => EventLoop.a_errno a <> EventLoop.EINTR) answers ->
   Forall (fun r => EventLoop.interest r w' = false) rules').
Proof.
  intros Ha. revert rules w. induction Ha as [|a answers Hl Ha IH]; intros rules w Hs Hf; cbn [copy_loop]; [by intros [= <- <- <-]|].
  intros ([[res rules1] w1] & H1 & H2)%result_bind_Ok.
  destruct (EventLoop.eventloop_keeps faithful relies a rules w res rules1 w1) as [Hf1 Hs1];
    [eapply Forall_sublist; [exact Hs|apply copy_rules_keep]|apply rules_compatible|done
    |apply sublist_length in Hs; cbn in Hs; lia|done|].
  destruct res.
  1-2: destruct (IH rules1 w1) as (? & ? & Hq); [by etrans|done|done|]; split; [done|]; split; [by etrans|]; intros ? Hi; inv Hi; by apply Hq.
  injection H2 as _ <- <-. split; [done|]. split; [done|]. intros _ Hi. inv Hi. eapply EventLoop.eventloop_exit; [by apply copy_rules_quiet|done|done].
Qed.

Lemma copy_outcome blocking answers input output socket returned rules w :
  answers_all answers -> bidirectional_stream_copy blocking answers input output socket = Ok (returned, rules, w) ->
  faithful w /\ rules `sublist_of` the_rules /\
  (returned = true -> Forall (fun a => EventLoop.a_errno a <> EventLoop.EINTR) answers ->
   Forall (fun r => EventLoop.interest r w = false) rules).
Proof.
  intros Ha (f1 & _ & (f2 & _ & (f3 & _ & H)%result_bind_Ok)%result_bind_Ok)%result_bind_Ok.
  eapply copy_loop_faithful; [exact Ha|reflexivity| |exact H].
  split; (split; [apply ByteStream.init_wf; unfold buffer_size; word_lia|done]).
Qed.

Lemma must_push_false came went stream shutdown :
  in_transit came went stream -> must_push stream shutdown = false ->
  came = went /\ (ByteStream.eof stream = true -> shutdown = true).
Proof.
  intros [Hwf ->] [He Hs]%orb_false_iff. split.
  - apply negb_false_iff in He. unfold ByteStream.buffer_empty, ByteStream.buffer_size in He. apply Z.eqb_eq in He. rewrite (ByteStream.wf_len _ Hwf) in He.
    destruct (ByteStream._str stream); [apply app_nil_r|unfold zlen in He; cbn in He; lia].
  - intros Ee. rewrite Ee in Hs. by apply negb_false_iff in Hs.
Qed.


End copy.

(** ** A short conversation *)

Definition deliver (limit : Z) (data : bytes) : FileDescriptor.kernel :=
  if zlen data <=? Z.min FileDescriptor.BUFFER_SIZE limit then FileDescriptor.mk_kernel (zlen data) 0 data
  else FileDescriptor.mk_kernel (-1) 5 [].

Definition sample_kernel : Environment :=
  mk_environment (fun n limit => deliver limit (match n with 0%nat => [x01; x02; x03] | 1%nat => [x07] | _ => [] end))
    (fun n => if (n =? 3)%nat then (3, 0) else (1, 0)) (fun _ => (0, 0)).

Lemma sample_reads n limit : 0 <= limit -> FileDescriptor.honest_read limit (env_read sample_kernel n limit).
Proof.
  intros Hl. cbn. unfold deliver. case_match eqn:E; [right|left; cbn; split; [lia|done]].
  split; [done|]. cbn [FileDescriptor.k_data]. by apply Z.leb_le.
Qed.

Lemma sample_writes n : - 2 ^ 31 <= (env_write sample_kernel n).1 /\ FileDescriptor.honest_write (env_write sample_kernel n).
Proof. cbn. unfold FileDescriptor.honest_write. case_match; cbn; lia. Qed.

Definition sample_polls : list EventLoop.answer := replicate 3 (EventLoop.mk_answer 4 0 [1; 4; 1; 4]).

#[local] Abbreviation sample_copy :=
  (bidirectional_stream_copy sample_kernel (fun _ => (0, 0)) sample_polls
    (FileDescriptor.mk 0 false false 0 0) (FileDescriptor.mk 1 false false 0 0) (FileDescriptor.mk 3 false false 0 0)).

(** What can be computed of an outcome. *)
Definition summary (r : result (bool * list (EventLoop.Rule world) * world)) :
    option (bool * list (EventLoop.Direction * Z) * Z * bytes * bytes) :=
  match r with
  | Ok (returned, rules, w) =>
      Some (returned, map (fun r => (EventLoop.direction r, FileDescriptor.fd_num (EventLoop.fd r w))) rules,
            FileDescriptor.fd_num (_output w), to_socket w, to_output w)
  | _ => None
  end.

(** The first and the third rule end with their input, the fourth with the
    closing of standard output. *)
Lemma sample_summary : summary sample_copy = Some (true, [(EventLoop.Out, 3)], 1, [x01; x02; x03], [x07]).
Proof. vm_compute. reflexivity. Qed.

Lemma sample_answers : answers_all sample_polls.
Proof. repeat constructor. Qed.

Lemma summary_Ok r returned l fd s o :
  summary r = Some (returned, l, fd, s, o) ->
  exists rules w, r = Ok (returned, rules, w) /\ FileDescriptor.fd_num (_output w) = fd /\ to_socket w = s /\
    map (fun r => (EventLoop.direction r, FileDescriptor.fd_num (EventLoop.fd r w))) rules = l.
Proof. destruct r as [[[b rules] w]| |]; cbn; [|done..]. intros [= <- <- <- <- _]. by eauto 10. Qed.

Lemma only_rule2 rules w :
  rules `sublist_of` the_rules sample_kernel -> FileDescriptor.fd_num (_output w) = 1 ->
  map (fun r => (EventLoop.direction r, FileDescriptor.fd_num (EventLoop.fd r w))) rules = [(EventLoop.Out, 3)] ->
  rule2 sample_kernel ∈ rules.
Proof.
  intros Hs Ho Hm. destruct rules as [|r [|? ?]]; cbn in Hm; [done| |done]. injection Hm as Hd Hfd.
  assert (r ∈ the_rules sample_kernel) as Hin by (eapply elem_of_submseteq; [by left|by apply sublist_submseteq]).
  change (the_rules sample_kernel) with [rule1 sample_kernel; rule2 sample_kernel; rule3 sample_kernel; rule4 sample_kernel] in Hin.
  rewrite !elem_of_cons in Hin. destruct Hin as [->|[->|[->|[->|[]%elem_of_nil]]]]; cbn in Hd, Hfd; [done|left|done|congruence].
Qed.

Lemma sample_copy_returns :
  exists rules w, sample_copy = Ok (true, rules, w) /\ rule2 sample_kernel ∈ rules /\ to_socket w = [x01; x02; x03].
Proof.
  destruct (summary_Ok _ _ _ _ _ _ sample_summary) as (rules & w & E & Ho & Hs & Hm). exists rules, w.
  split; [exact E|]. split; [|exact Hs]. apply (only_rule2 rules w); [|exact Ho|exact Hm].
  apply (copy_outcome sample_kernel sample_reads sample_writes _ _ _ _ _ _ _ _ sample_answers E).
Qed.


End StreamCopy.
