(* ===== verification/program_pair.v ===== *)
(** * Two programs at the two ends of a connection

    A program of [apps/] over a [TCPSpongeSocket] has two threads: the owner's
    runs [bidirectional_stream_copy] on one end of a socket pair, the other
    runs [_tcp_loop] on the other end and on the adapter's device.  This file
    runs both threads of both programs at once, in any interleaving of their
    callbacks, over the kernel's socket pair and a network of datagrams.  The
    threads meet only in system calls, so a step is one callback of
    [bidirectional_stream_copy.v] or of [tcp_sponge_loop.v] with what it asked
    of the outside, its [effect].  The loops themselves are shown to be
    sequences of such steps. *)

From stdpp Require Import relations.
From S2P Require Import Prelude.
From S2P Require Import wrapping_integers.
From S2P Require Import byte_stream.
From S2P Require Import buffer.
From S2P Require Import util.
From S2P Require Import address.
From S2P Require Import tcp_segment.
From S2P Require Import tcp_sender.
From S2P Require Import tcp_connection.
From S2P Require Import tcp_peers.
From S2P Require Import file_descriptor.
From S2P Require Import socket.
From S2P Require Import eventloop.
From S2P Require Import fd_adapter.
From S2P Require Import adapter_carries.
From S2P Require Import tcp_sponge_socket.
From S2P Require Import tcp_sponge_pair.
From S2P Require Import tcp_sponge_loop.
From S2P Require Import bidirectional_stream_copy.

Module ProgramPair.
Import TCPSpongeSocket (_tcp, _thread_data, _datagram_adapter, _outbound_shutdown).

Section programs.
Context {AdaptT I O : Type} `{!Adapter AdaptT I O} `{!AdapterParses AdaptT I O} `{!Device I O}.
Context `{!AdapterWire AdaptT I O} `{!AdapterCarries AdaptT I O}.

(** ** The threads *)

(** What a callback asked of the outside, with the answer: nothing, a read or a
    write of its end of the socket pair, a read of standard input, a write to
    standard output, or the use of the device, with the segment that the
    adapter made of what it read. *)
Inductive effect : Type :=
| Internal
| PairRead (limit : Z) (k : FileDescriptor.kernel)
| PairWrite (data : bytes) (ret : Z * Z)
| InputRead (limit : Z) (k : FileDescriptor.kernel)
| OutputWrite (data : bytes) (ret : Z * Z)
| DeviceRead (i : I) (seg : option TCPSegment.t) (outs : list O)
| DeviceWrite (outs : list O).

(** What rules 2 and 4 of the copy offer to the kernel. *)
Definition to_push (stream : ByteStream.t) : bytes :=
  ByteStream.peek_output (Z.min StreamCopy.max_copy_length (ByteStream.buffer_size stream)) stream.

(** The owner's thread. *)
Inductive app_step : StreamCopy.world -> effect -> StreamCopy.world -> Prop :=
| app_input env w w' :
    EventLoop.callback (StreamCopy.rule1 env) w = Ok w' ->
    let limit := ByteStream.remaining_capacity (StreamCopy._outbound w) in
    app_step w (InputRead limit (StreamCopy.env_read env (StreamCopy.calls w) limit)) w'
| app_send env w w' :
    EventLoop.callback (StreamCopy.rule2 env) w = Ok w' ->
    app_step w (PairWrite (to_push (StreamCopy._outbound w)) (StreamCopy.env_write env (StreamCopy.calls w))) w'
| app_receive env w w' :
    EventLoop.callback (StreamCopy.rule3 env) w = Ok w' ->
    let limit := ByteStream.remaining_capacity (StreamCopy._inbound w) in
    app_step w (PairRead limit (StreamCopy.env_read env (StreamCopy.calls w) limit)) w'
| app_output env w w' :
    EventLoop.callback (StreamCopy.rule4 env) w = Ok w' ->
    app_step w (OutputWrite (to_push (StreamCopy._inbound w)) (StreamCopy.env_write env (StreamCopy.calls w))) w'
| app_end_outbound w w' : StreamCopy.end_outbound w = Ok w' -> app_step w Internal w'
| app_end_inbound w w' : StreamCopy.end_inbound w = Ok w' -> app_step w Internal w'.

(** The thread of the connection.  Rule 2 is served only while the owner's
    stream is open. *)
Inductive tcp_step : TCPSpongeLoop.world -> effect -> TCPSpongeLoop.world -> Prop :=
| tcp_connect w c_ad s :
    TCPSpongeSocket.connect c_ad (TCPSpongeLoop.sock w) = Ok s -> tcp_step w Internal (w <| TCPSpongeLoop.sock := s |>)
| tcp_listen w c_ad :
    tcp_step w Internal (w <| TCPSpongeLoop.sock := TCPSpongeSocket.listen_and_accept c_ad (TCPSpongeLoop.sock w) |>)
| tcp_datagram_in env w i fd seg outs a w' :
    dev_read (TCPSpongeLoop.env_device env (TCPSpongeLoop.calls w)) (TCPSpongeLoop.dev w) = Ok (i, fd) ->
    ad_read i (_datagram_adapter (TCPSpongeLoop.sock w)) = Ok (seg, outs, a) ->
    EventLoop.callback (TCPSpongeLoop.rule1 env) w = Ok w' -> tcp_step w (DeviceRead i seg outs) w'
| tcp_bytes_out env w w' :
    _outbound_shutdown (TCPSpongeLoop.sock w) = false -> EventLoop.callback (TCPSpongeLoop.rule2 env) w = Ok w' ->
    let limit := TCPConnection.remaining_outbound_capacity (_tcp (TCPSpongeLoop.sock w)) in
    tcp_step w (PairRead limit (TCPSpongeLoop.env_read env (TCPSpongeLoop.calls w) limit)) w'
| tcp_outbound_end env w w' : EventLoop.cancel (TCPSpongeLoop.rule2 env) w = Ok w' -> tcp_step w Internal w'
| tcp_bytes_in env w w' :
    EventLoop.callback (TCPSpongeLoop.rule3 env) w = Ok w' ->
    tcp_step w (PairWrite (TCPSpongePair.offered (TCPSpongeLoop.sock w)) (TCPSpongeLoop.env_write env (TCPSpongeLoop.calls w))) w'
| tcp_datagrams_out env w outs s w' :
    TCPSpongeSocket.datagrams_out (TCPSpongeLoop.sock w) = Ok (outs, s) ->
    EventLoop.callback (TCPSpongeLoop.rule4 env) w = Ok w' -> tcp_step w (DeviceWrite outs) w'
| tcp_tick env w ms outs s fd :
    TCPSpongeSocket.loop_tick ms (TCPSpongeLoop.sock w) = (outs, s) ->
    TCPSpongeLoop.put_all env (TCPSpongeLoop.calls w) 0 outs (TCPSpongeLoop.dev w) = Ok fd ->
    tcp_step w (DeviceWrite outs) (TCPSpongeLoop.mk_world s fd (S (TCPSpongeLoop.calls w))).

(** ** The kernel *)

(** [read(2)] on a stream socket with this queue: it fails, or it takes from
    the front.  [writev(2)]: it fails, or it appends a prefix of the data. *)
Definition pair_read (queue : bytes) (limit : Z) (k : FileDescriptor.kernel) (queue' : bytes) : Prop :=
  (- 2 ^ 31 <= FileDescriptor.k_ret k < 0 /\ FileDescriptor.k_errno k <> 0 /\ queue' = queue) \/
  (FileDescriptor.k_ret k = zlen (FileDescriptor.k_data k) /\
   zlen (FileDescriptor.k_data k) <= Z.min FileDescriptor.BUFFER_SIZE limit /\ queue = FileDescriptor.k_data k ++ queue').

Definition pair_write (queue data : bytes) (ret : Z * Z) (queue' : bytes) : Prop :=
  (- 2 ^ 31 <= ret.1 < 0 /\ ret.2 <> 0 /\ queue' = queue) \/
  (0 <= ret.1 <= zlen data /\ queue' = queue ++ substr0 data ret.1).

(** One machine: its two threads, the bytes in the socket pair on their way to
    the connection ([up]) and to the owner ([down]), and all that it has handed
    to its device. *)
Record host : Type := mk {
  app : StreamCopy.world;
  tcp : TCPSpongeLoop.world (AdaptT := AdaptT);
  up : bytes;
  down : bytes;
  on_net : list O
}.

(** A step of either thread, with an answer that the kernel may give.  The
    network delivers something that the other machine has sent ([arriving]), or
    anything that the adapter drops. *)
Inductive host_step (arriving : list O) (h : host) : host -> Prop :=
| app_internal w : app_step (app h) Internal w -> host_step arriving h (mk w (tcp h) (up h) (down h) (on_net h))
| app_reads_input w limit k :
    app_step (app h) (InputRead limit k) w -> FileDescriptor.honest_read limit k ->
    host_step arriving h (mk w (tcp h) (up h) (down h) (on_net h))
| app_writes_output w data ret :
    app_step (app h) (OutputWrite data ret) w -> TCPSpongePair.honest_write (zlen data) ret ->
    host_step arriving h (mk w (tcp h) (up h) (down h) (on_net h))
| app_writes_pair w data ret up' :
    app_step (app h) (PairWrite data ret) w -> pair_write (up h) data ret up' ->
    host_step arriving h (mk w (tcp h) up' (down h) (on_net h))
| app_reads_pair w limit k down' :
    app_step (app h) (PairRead limit k) w -> pair_read (down h) limit k down' ->
    host_step arriving h (mk w (tcp h) (up h) down' (on_net h))
| tcp_internal w : tcp_step (tcp h) Internal w -> host_step arriving h (mk (app h) w (up h) (down h) (on_net h))
| tcp_reads_pair w limit k up' :
    tcp_step (tcp h) (PairRead limit k) w -> pair_read (up h) limit k up' ->
    host_step arriving h (mk (app h) w up' (down h) (on_net h))
| tcp_writes_pair w data ret down' :
    tcp_step (tcp h) (PairWrite data ret) w -> pair_write (down h) data ret down' ->
    host_step arriving h (mk (app h) w (up h) down' (on_net h))
| tcp_receives w o i seg outs :
    tcp_step (tcp h) (DeviceRead i seg outs) w -> o ∈ arriving -> ad_wire (A := AdaptT) o i ->
    host_step arriving h (mk (app h) w (up h) (down h) (on_net h ++ outs))
| tcp_drops w i outs :
    tcp_step (tcp h) (DeviceRead i None outs) w -> ad_input (A := AdaptT) i ->
    host_step arriving h (mk (app h) w (up h) (down h) (on_net h ++ outs))
| tcp_sends w outs :
    tcp_step (tcp h) (DeviceWrite outs) w -> host_step arriving h (mk (app h) w (up h) (down h) (on_net h ++ outs)).

Inductive programs_step : host * host -> host * host -> Prop :=
| program_left a a' b : host_step (on_net b) a a' -> programs_step (a, b) (a', b)
| program_right a b b' : host_step (on_net a) b b' -> programs_step (a, b) (a, b').

(** A program at the moment that its connection has been made. *)
Definition new_host (input output local thread device : FileDescriptor.t) (a : AdaptT) (cfg : TCPConfig.t) (random : Z) : host :=
  mk (StreamCopy.init input output local)
    (TCPSpongeLoop.mk_world (TCPSpongeSocket.init thread a cfg random) device 0) [] [] [].

(** ** The owner's thread under the kernel *)

(** The answers that the kernel may give, and those of a call that succeeds. *)
Definition honest (eff : effect) : Prop :=
  match eff with
  | PairRead limit k | InputRead limit k => FileDescriptor.honest_read limit k
  | PairWrite data ret | OutputWrite data ret => TCPSpongePair.honest_write (zlen data) ret
  | _ => True
  end.

Lemma pair_read_honest queue limit k queue' : pair_read queue limit k queue' -> FileDescriptor.honest_read limit k.
Proof using. intros [(? & ? & _)|(? & ? & _)]; [by left|by right]. Qed.

Lemma pair_write_honest queue data ret queue' : pair_write queue data ret queue' -> TCPSpongePair.honest_write (zlen data) ret.
Proof using. intros [(? & ? & _)|(? & _)]; [by left|by right]. Qed.

Lemma pair_read_takes queue limit k queue' :
  0 <= FileDescriptor.k_ret k -> pair_read queue limit k queue' -> queue = FileDescriptor.k_data k ++ queue'.
Proof using. intros Hk [(? & _)|(_ & _ & ->)]; [lia|done]. Qed.

Lemma pair_write_puts queue data ret queue' :
  0 <= ret.1 -> pair_write queue data ret queue' -> queue' = queue ++ substr0 data ret.1.
Proof using. intros Hr [(? & _)|(_ & ->)]; [lia|done]. Qed.

Lemma pull_data env n fd stream data fd' stream' :
  (let limit := ByteStream.remaining_capacity stream in
   FileDescriptor.honest_read limit (StreamCopy.env_read env n limit)) ->
  StreamCopy.pull env n fd stream = Ok (data, fd', stream') ->
  let k := StreamCopy.env_read env n (ByteStream.remaining_capacity stream) in
  0 <= FileDescriptor.k_ret k /\ data = FileDescriptor.k_data k.
Proof using.
  intros Hk ([d fd1] & Hr & H)%result_bind_Ok. destruct (ByteStream.write d stream) as [m st]. injection H as <- _ _.
  cbn zeta in *. set (k := StreamCopy.env_read _ _ _) in *.
  pose proof (FileDescriptor.read_spec (ByteStream.remaining_capacity stream) k fd (proj1 (sub64_range _ _)) Hk) as Hs. rewrite Hr in Hs.
  destruct (Z.ltb_spec (FileDescriptor.k_ret k) 0); [done|]. by destruct Hs as [[= -> _] _].
Qed.

Lemma to_push_short stream : zlen (to_push stream) <= 65536.
Proof using. unfold to_push, StreamCopy.max_copy_length, ByteStream.peek_output. rewrite substr0_eq. zlen. lia. Qed.

Lemma push_data env n fd stream data fd' stream' :
  TCPSpongePair.honest_write (zlen (to_push stream)) (StreamCopy.env_write env n) ->
  StreamCopy.push env n fd stream = Ok (data, fd', stream') ->
  0 <= (StreamCopy.env_write env n).1 /\ data = substr0 (to_push stream) (StreamCopy.env_write env n).1.
Proof using.
  intros Hh ([m fd1] & Hw & (st & _ & [= <- _ _])%result_bind_Ok)%result_bind_Ok.
  destruct (TCPSpongePair.write_takes _ _ _ _ _ Hh (to_push_short stream) Hw) as [-> ?]. split; [lia|done].
Qed.

Lemma honest_write_fd n ret :
  n <= 65536 -> TCPSpongePair.honest_write n ret -> - 2 ^ 31 <= ret.1 /\ FileDescriptor.honest_write ret.
Proof using. unfold TCPSpongePair.honest_write, FileDescriptor.honest_write. lia. Qed.

(** What a step of the copy means for its two streams. *)
Definition copied (eff : effect) (w w' : StreamCopy.world) : Prop :=
  match eff with
  | PairRead _ k =>
      0 <= FileDescriptor.k_ret k /\ StreamCopy.from_socket w' = StreamCopy.from_socket w ++ FileDescriptor.k_data k /\
      StreamCopy.to_socket w' = StreamCopy.to_socket w
  | PairWrite data ret =>
      0 <= ret.1 /\ StreamCopy.to_socket w' = StreamCopy.to_socket w ++ substr0 data ret.1 /\
      StreamCopy.from_socket w' = StreamCopy.from_socket w
  | _ => StreamCopy.from_socket w' = StreamCopy.from_socket w /\ StreamCopy.to_socket w' = StreamCopy.to_socket w
  end.

Lemma app_step_copies w eff w' :
  StreamCopy.faithful w -> honest eff -> app_step w eff w' ->
  StreamCopy.faithful w' /\ StreamCopy.from_input w `prefix_of` StreamCopy.from_input w' /\ copied eff w w'.
Proof using.
  intros Hf Hh Hs. pose proof Hf as [Ho Hi].
  destruct Hs as [env w w' H limit|env w w' H|env w w' H limit|env w w' H|w w' H|w w' H]; cbn [honest] in Hh.
  - apply result_bind_Ok in H as ([[data fd] stream] & H & [= <-]).
    split; [split; [by eapply StreamCopy.pull_transit|done]|]. by split; [apply prefix_app_r|].
  - apply result_bind_Ok in H as ([[data fd] stream] & H & H2). cbn beta zeta in H2.
    destruct (push_data _ _ _ _ _ _ _ Hh H) as [Hr ->]. destruct (honest_write_fd _ _ (to_push_short _) Hh) as [Hm Hw].
    destruct (StreamCopy.push_transit _ _ _ _ _ _ _ _ _ Hm Hw Ho H) as [Ht _].
    case_match; [apply result_bind_Ok in H2 as (fd2 & _ & [= <-])|injection H2 as <-]; by split.
  - apply result_bind_Ok in H as ([[data fd] stream] & H & [= <-]). destruct (pull_data _ _ _ _ _ _ _ Hh H) as [Hr Hd].
    split; [split; [done|by eapply StreamCopy.pull_transit]|]. split; [done|]. cbn. by rewrite Hd.
  - apply result_bind_Ok in H as ([[data fd] stream] & H & H2). cbn beta zeta in H2.
    destruct (honest_write_fd _ _ (to_push_short _) Hh) as [Hm Hw].
    destruct (StreamCopy.push_transit _ _ _ _ _ _ _ _ _ Hm Hw Hi H) as [Ht _].
    case_match; [apply result_bind_Ok in H2 as (fd2 & _ & [= <-])|injection H2 as <-]; by split.
  - split; [by eapply StreamCopy.faithful_end_outbound|]. by injection H as <-.
  - split; [by eapply StreamCopy.faithful_end_inbound|]. by injection H as <-.
Qed.

(** ** The connection's thread as an endpoint *)

(** The thread's step, with the bytes [W] taken from the owner, [D] given to
    the owner and [net] handed to the device, is one of [tcp_sponge_pair.v]. *)
Definition moved (arriving : list O) (W D : bytes) (net : list O) (eff : effect) (w w' : TCPSpongeLoop.world) : Prop :=
  let to W' D' net' :=
    TCPSpongePair.endpoint_step arriving (TCPSpongePair.mk (TCPSpongeLoop.sock w) W D net)
      (TCPSpongePair.mk (TCPSpongeLoop.sock w') W' D' net') in
  match eff with
  | Internal => to W D net
  | PairRead _ k =>
      0 <= FileDescriptor.k_ret k /\
      (zlen W + zlen (FileDescriptor.k_data k) + 2 + 2 ^ 16 < 2 ^ 64 -> to (W ++ FileDescriptor.k_data k) D net)
  | PairWrite data ret => 0 <= ret.1 /\ to W (D ++ substr0 data ret.1) net
  | DeviceRead i seg outs =>
      (exists o, o ∈ arriving /\ ad_wire (A := AdaptT) o i) \/ (seg = None /\ ad_input (A := AdaptT) i) -> to W D (net ++ outs)
  | DeviceWrite outs => to W D (net ++ outs)
  | InputRead _ _ | OutputWrite _ _ => False
  end.

Lemma read_answered limit k fd d fd' :
  0 <= limit -> FileDescriptor.honest_read limit k -> FileDescriptor.read limit k fd = Ok (d, fd') -> 0 <= FileDescriptor.k_ret k.
Proof using.
  intros Hl Hk Hr. pose proof (FileDescriptor.read_spec limit k fd Hl Hk) as Hs. rewrite Hr in Hs.
  by destruct (Z.ltb_spec (FileDescriptor.k_ret k) 0).
Qed.

Lemma offered_short (s : TCPSpongeSocket.t AdaptT) : zlen (TCPSpongePair.offered s) <= 65536.
Proof using. unfold TCPSpongePair.offered, ByteStream.peek_output. rewrite substr0_eq. zlen. lia. Qed.

Lemma tcp_step_moves arriving W D net w eff w' :
  honest eff -> tcp_step w eff w' -> moved arriving W D net eff w w'.
Proof using.
  intros Hh Hs.
  destruct Hs as [w c_ad s H|w c_ad|env w i fd seg outs a w' Hd Hr H|env w w' Ho H limit|env w w' H|env w w' H|env w outs s w' Hd H|env w ms outs s fd Ht H];
    unfold moved; cbn [honest] in Hh.
  - exact (TCPSpongePair.ep_connect _ (TCPSpongePair.mk (TCPSpongeLoop.sock w) W D net) c_ad s H).
  - exact (TCPSpongePair.ep_listen _ (TCPSpongePair.mk (TCPSpongeLoop.sock w) W D net) c_ad).
  - apply result_bind_Ok in H as ([i' fd1] & Hd' & H). rewrite Hd in Hd'. injection Hd' as <- <-.
    apply result_bind_Ok in H as ([outs' s] & Hin & H). apply result_bind_Ok in H as (fd2 & _ & [= <-]).
    assert (outs' = outs) as ->.
    { pose proof Hin as H'. apply result_bind_Ok in H' as ([[seg' o'] a'] & Hr' & H'). rewrite Hr in Hr'. injection Hr' as <- <- <-.
      apply result_bind_Ok in H' as (tcp' & _ & H'). cbn zeta in H'. case_match; by injection H' as -> _. }
    intros [(o & Hin' & Hw)|[-> Hi]].
    + exact (TCPSpongePair.ep_datagram _ (TCPSpongePair.mk (TCPSpongeLoop.sock w) W D net) o i outs s Hin' Hw Hin).
    + exact (TCPSpongePair.ep_stray _ (TCPSpongePair.mk (TCPSpongeLoop.sock w) W D net) i outs a s Hi Hr Hin).
  - apply result_bind_Ok in H as (s & H & [= <-]). cbn zeta in Hh. pose proof H as H'.
    apply result_bind_Ok in H' as ([data fd] & Hrd & _). split; [by eapply (read_answered limit); [apply sub64_range|done|exact Hrd]|].
    intros Hlen. by apply (TCPSpongePair.ep_bytes_out _ (TCPSpongePair.mk (TCPSpongeLoop.sock w) W D net)).
  - apply result_bind_Ok in H as (s & H & [= <-]).
    exact (TCPSpongePair.ep_outbound_end _ (TCPSpongePair.mk (TCPSpongeLoop.sock w) W D net) s H).
  - apply result_bind_Ok in H as (s & H & [= <-]). pose proof H as H'. apply result_bind_Ok in H' as ([n fd] & Hw & _).
    destruct (TCPSpongePair.write_takes _ _ _ _ _ Hh (offered_short _) Hw) as [-> ?]. split; [lia|].
    exact (TCPSpongePair.ep_bytes_in _ (TCPSpongePair.mk (TCPSpongeLoop.sock w) W D net) _ _ s Hh H).
  - apply result_bind_Ok in H as ([outs' s'] & Hd' & H). rewrite Hd in Hd'. injection Hd' as <- <-.
    apply result_bind_Ok in H as (fd & _ & [= <-]).
    exact (TCPSpongePair.ep_datagrams_out _ (TCPSpongePair.mk (TCPSpongeLoop.sock w) W D net) outs s Hd).
  - pose proof (TCPSpongePair.ep_tick arriving (TCPSpongePair.mk (TCPSpongeLoop.sock w) W D net) ms) as Hs.
    cbn in Hs. by rewrite Ht in Hs.
Qed.

(** ** The host as an endpoint *)

(** The bytes that the copy gave to the pair are those that the connection took
    and those in the pair, and the other way round. *)
Record corresponds (h : host) (e : TCPSpongePair.endpoint AdaptT O) : Prop := {
  co_sock : TCPSpongePair.sock e = TCPSpongeLoop.sock (tcp h);
  co_wire : TCPSpongePair.on_wire e = on_net h;
  co_up : StreamCopy.to_socket (app h) = TCPSpongePair.from_owner e ++ up h;
  co_down : TCPSpongePair.to_owner e = StreamCopy.from_socket (app h) ++ down h;
  co_copy : StreamCopy.faithful (app h)
}.

Lemma new_corresponds input output local thread device a cfg random :
  corresponds (new_host input output local thread device a cfg random) (TCPSpongePair.new_endpoint thread a cfg random).
Proof using.
  split; [done..|]. split; (split; [apply ByteStream.init_wf; unfold StreamCopy.buffer_size; word_lia|done]).
Qed.

(** What the connection took, standard input has given. *)
Lemma taken_from_input h e : corresponds h e ->
  zlen (TCPSpongePair.from_owner e) + zlen (up h) <= zlen (StreamCopy.from_input (app h)).
Proof using.
  intros [_ _ Hu _ [[_ ->] _]]. rewrite Hu. zlen. pose proof (zlen_nonneg (ByteStream._str (StreamCopy._outbound (app h)))). lia.
Qed.

Lemma host_step_grows arriving h h' :
  host_step arriving h h' -> StreamCopy.faithful (app h) ->
  StreamCopy.faithful (app h') /\ StreamCopy.from_input (app h) `prefix_of` StreamCopy.from_input (app h').
Proof using.
  intros [w Hs|w limit k Hs Hk|w data ret Hs Hk|w data ret up' Hs Hk|w limit k down' Hs Hk|w _|w limit k up' _ _|w data ret down' _ _|w o i seg outs _ _ _|w i outs _ _|w outs _] Hf;
    cbn; try done; eapply app_step_copies in Hs as (? & ? & _); try done.
  - by eapply pair_write_honest.
  - by eapply pair_read_honest.
Qed.

Lemma programs_grow s s' :
  rtc programs_step s s' -> StreamCopy.faithful (app s.1) -> StreamCopy.faithful (app s.2) ->
  StreamCopy.from_input (app s.1) `prefix_of` StreamCopy.from_input (app s'.1) /\
  StreamCopy.from_input (app s.2) `prefix_of` StreamCopy.from_input (app s'.2).
Proof using.
  induction 1 as [s|s s1 s2 Hs _ IH]; [done|]. intros Ha Hb.
  destruct Hs as [a a' b Hs|a b b' Hs]; destruct (host_step_grows _ _ _ Hs ltac:(assumption)) as [Hf Hp];
    (destruct IH as [? ?]; [done|done|]); cbn in *; split; by etrans || done.
Qed.

Lemma host_simulates arriving h e h' :
  corresponds h e -> zlen (StreamCopy.from_input (app h)) + 2 < 2 ^ 31 -> host_step arriving h h' ->
  exists e', rtc (TCPSpongePair.endpoint_step arriving) e e' /\ corresponds h' e'.
Proof using.
  intros Hc Hlen Hs. pose proof (taken_from_input _ _ Hc) as Htk. destruct e as [s W D net], Hc as [E1 E2 Hu Hd Hf]. cbn in *. subst s net.
  destruct Hs as [w Hs|w limit k Hs Hk|w data ret Hs Hk|w data ret up' Hs Hk|w limit k down' Hs Hk|w Hs|w limit k up' Hs Hk|w data ret down' Hs Hk|w o i seg outs Hs Ho Hw|w i outs Hs Hi|w outs Hs].
  - destruct (app_step_copies _ Internal _ Hf Logic.I Hs) as (Hf' & _ & Ef & Et).
    eexists; split; [apply rtc_refl|]; split; cbn; by rewrite ?Ef, ?Et.
  - destruct (app_step_copies _ (InputRead limit k) _ Hf Hk Hs) as (Hf' & _ & Ef & Et).
    eexists; split; [apply rtc_refl|]; split; cbn; by rewrite ?Ef, ?Et.
  - destruct (app_step_copies _ (OutputWrite data ret) _ Hf Hk Hs) as (Hf' & _ & Ef & Et).
    eexists; split; [apply rtc_refl|]; split; cbn; by rewrite ?Ef, ?Et.
  - destruct (app_step_copies _ (PairWrite data ret) _ Hf (pair_write_honest _ _ _ _ Hk) Hs) as (Hf' & _ & Hr & Et & Ef).
    eexists. split; [apply rtc_refl|]. split; cbn; rewrite ?Ef; try done.
    rewrite Et, Hu, (pair_write_puts _ _ _ _ Hr Hk). by rewrite app_assoc.
  - destruct (app_step_copies _ (PairRead limit k) _ Hf (pair_read_honest _ _ _ _ Hk) Hs) as (Hf' & _ & Hr & Ef & Et).
    eexists. split; [apply rtc_refl|]. split; cbn; rewrite ?Et; try done.
    by rewrite Ef, Hd, (pair_read_takes _ _ _ _ Hr Hk), app_assoc.
  - pose proof (tcp_step_moves arriving W D (on_net h) _ Internal _ Logic.I Hs) as Hm. eexists. split; [by apply rtc_once|]. by split.
  - destruct (tcp_step_moves arriving W D (on_net h) _ (PairRead limit k) _ (pair_read_honest _ _ _ _ Hk) Hs) as [Hr Hm].
    pose proof (pair_read_takes _ _ _ _ Hr Hk) as Hq. rewrite Hq in Htk, Hu. revert Htk. zlen. intros Htk.
    pose proof (zlen_nonneg up'). eexists. split; [apply rtc_once, Hm; lia|]. split; cbn; try done. by rewrite Hu, app_assoc.
  - destruct (tcp_step_moves arriving W D (on_net h) _ (PairWrite data ret) _ (pair_write_honest _ _ _ _ Hk) Hs) as [Hr Hm].
    eexists. split; [by apply rtc_once|]. split; cbn; try done. by rewrite Hd, (pair_write_puts _ _ _ _ Hr Hk), app_assoc.
  - eexists. split; [apply rtc_once, (tcp_step_moves arriving W D (on_net h) _ (DeviceRead i seg outs) _ Logic.I Hs); left; by eauto|]. by split.
  - eexists. split; [apply rtc_once, (tcp_step_moves arriving W D (on_net h) _ (DeviceRead i None outs) _ Logic.I Hs); by right|]. by split.
  - eexists. split; [apply rtc_once, (tcp_step_moves arriving W D (on_net h) _ (DeviceWrite outs) _ Logic.I Hs)|]. by split.
Qed.

(** Two programs refine two sockets. *)
Lemma programs_refine s s' ea eb :
  rtc programs_step s s' -> corresponds s.1 ea -> corresponds s.2 eb ->
  zlen (StreamCopy.from_input (app s'.1)) + 2 < 2 ^ 31 -> zlen (StreamCopy.from_input (app s'.2)) + 2 < 2 ^ 31 ->
  exists ea' eb', rtc TCPSpongePair.pair_step (ea, eb) (ea', eb') /\ corresponds s'.1 ea' /\ corresponds s'.2 eb'.
Proof using.
  intros Hr. revert ea eb. induction Hr as [s|s s1 s2 Hs Hr IH]; intros ea eb Ha Hb Hla Hlb.
  { exists ea, eb. split; [apply rtc_refl|done]. }
  destruct (programs_grow _ _ (rtc_l _ _ _ _ Hs Hr) (co_copy _ _ Ha) (co_copy _ _ Hb)) as [Hpa%prefix_length Hpb%prefix_length].
  destruct Hs as [a a' b Hs|a b b' Hs]; cbn in *.
  - destruct (host_simulates _ _ _ _ Ha ltac:(unfold zlen in *; lia) Hs) as (ea1 & Hr1 & Ha1).
    destruct (IH ea1 eb Ha1 Hb Hla Hlb) as (ea' & eb' & Hr2 & ? & ?). exists ea', eb'. split; [|done].
    etrans; [|exact Hr2]. rewrite <- (co_wire _ _ Hb) in Hr1. clear -Hr1. induction Hr1; [apply rtc_refl|].
    eapply rtc_l; [by apply TCPSpongePair.pair_left|done].
  - destruct (host_simulates _ _ _ _ Hb ltac:(unfold zlen in *; lia) Hs) as (eb1 & Hr1 & Hb1).
    destruct (IH ea eb1 Ha Hb1 Hla Hlb) as (ea' & eb' & Hr2 & ? & ?). exists ea', eb'. split; [|done].
    etrans; [|exact Hr2]. rewrite <- (co_wire _ _ Ha) in Hr1. clear -Hr1. induction Hr1; [apply rtc_refl|].
    eapply rtc_l; [by apply TCPSpongePair.pair_right|done].
Qed.

(** All that has come to a program, in order: what standard output was given,
    then the copy's buffer, the socket pair and the connection's stream. *)
Definition arrived (h : host) : bytes :=
  StreamCopy.to_output (app h) ++ ByteStream._str (StreamCopy._inbound (app h)) ++ down h ++
  ByteStream._str (TCPConnection.inbound_stream (_tcp (TCPSpongeLoop.sock (tcp h)))).

Lemma corresponds_arrived h e : corresponds h e ->
  TCPSpongePair.to_owner e ++ ByteStream._str (TCPConnection.inbound_stream (_tcp (TCPSpongePair.sock e))) = arrived h.
Proof using.
  intros [E _ _ Hd [_ [_ Hi]]]. unfold arrived. by rewrite E, Hd, Hi, !app_assoc.
Qed.

Lemma corresponds_input h e : corresponds h e -> TCPSpongePair.from_owner e `prefix_of` StreamCopy.from_input (app h).
Proof using. intros [_ _ Hu _ [[_ ->] _]]. rewrite Hu, <- app_assoc. by apply prefix_app_r. Qed.

(** The program's connection is over, and not by a reset. *)
Definition closed_cleanly (h : host) : Prop := TCPSpongePair.closed_cleanly (_tcp (TCPSpongeLoop.sock (tcp h))).

(** All that the connection of [a] took has arrived at [b], and its end. *)
Definition complete (a b : host) : Prop :=
  StreamCopy.from_input (app a) = arrived b ++ up a ++ ByteStream._str (StreamCopy._outbound (app a)) /\
  ByteStream.input_ended (TCPConnection.inbound_stream (_tcp (TCPSpongeLoop.sock (tcp b)))) = true.

Lemma corresponds_complete a b ea eb :
  corresponds a ea -> corresponds b eb -> TCPSpongePair.delivered ea eb -> complete a b.
Proof using.
  intros Ha Hb [H1 H2]. rewrite (corresponds_arrived _ _ Hb) in H1. rewrite (co_sock _ _ Hb) in H2. split; [|done].
  rewrite H1. destruct Ha as [_ _ Hu _ [[_ ->] _]]. by rewrite Hu, <- app_assoc.
Qed.

(** ** The loops are sequences of steps *)

Definition app_acts (w w' : StreamCopy.world) : Prop := exists eff, app_step w eff w'.
Definition tcp_acts (w w' : TCPSpongeLoop.world) : Prop := exists eff, tcp_step w eff w'.

Lemma app_acts_r w0 w eff w' : rtc app_acts w0 w -> app_step w eff w' -> rtc app_acts w0 w'.
Proof using. intros Hr Hs. eapply rtc_r; [exact Hr|by eexists]. Qed.

Lemma tcp_acts_r w0 w eff w' : rtc tcp_acts w0 w -> tcp_step w eff w' -> rtc tcp_acts w0 w'.
Proof using. intros Hr Hs. eapply rtc_r; [exact Hr|by eexists]. Qed.

Lemma app_rules_act env w0 : Forall (EventLoop.keeps (rtc app_acts w0) StreamCopy.relies) (StreamCopy.the_rules env).
Proof using.
  apply Forall_cons_2; [|apply Forall_cons_2; [|apply Forall_cons_2; [|apply Forall_cons_2; [|constructor]]]];
    (split; [done|intros w w' Hr _ H|intros w w' Hr H]); (eapply app_acts_r; [exact Hr|]);
    first [by apply (app_input env)|by apply (app_send env)|by apply (app_receive env)|by apply (app_output env)
          |by apply app_end_outbound|by apply app_end_inbound].
Qed.

Lemma copy_loop_acts env answers rules w0 w returned rules' w' :
  StreamCopy.answers_all answers -> rules `sublist_of` StreamCopy.the_rules env -> rtc app_acts w0 w ->
  StreamCopy.copy_loop answers rules w = Ok (returned, rules', w') -> rtc app_acts w0 w'.
Proof using.
  intros Ha. revert rules w. induction Ha as [|a answers Hl Ha IH]; intros rules w Hs Hr; cbn [StreamCopy.copy_loop]; [by intros [= _ _ <-]|].
  intros ([[res rules1] w1] & H1 & H2)%result_bind_Ok.
  destruct (EventLoop.eventloop_keeps (rtc app_acts w0) StreamCopy.relies a rules w res rules1 w1) as [Hr1 Hs1];
    [eapply Forall_sublist; [exact Hs|apply app_rules_act]|apply StreamCopy.rules_compatible|done
    |apply sublist_length in Hs; cbn in Hs; lia|done|].
  destruct res; [by eapply IH; [etrans|..]|by eapply IH; [etrans|..]|by injection H2 as _ _ <-].
Qed.

Lemma tcp_rules_act env w0 :
  Forall (EventLoop.keeps (rtc tcp_acts w0) (TCPSpongeLoop.relies env)) (TCPSpongeLoop.the_rules env).
Proof using.
  apply Forall_cons_2; [|apply Forall_cons_2; [|apply Forall_cons_2; [|apply Forall_cons_2; [|constructor]]]].
  - split.
    + intros w _ E. by destruct (TCPSpongeLoop.rule1_ne_rule2 env w).
    + intros w w' Hr _ H. pose proof H as H'. apply result_bind_Ok in H' as ([i fd] & Hd & H').
      apply result_bind_Ok in H' as ([outs s] & Hin & _). apply result_bind_Ok in Hin as ([[seg o] a] & Hrd & _).
      eapply tcp_acts_r; [exact Hr|by eapply tcp_datagram_in].
    + by intros w w' Hr [= <-].
  - split.
    + intros w Hi _. cbn in Hi. unfold TCPSpongeSocket.bytes_out_interest in Hi.
      by destruct (_outbound_shutdown (TCPSpongeLoop.sock w)); rewrite ?andb_false_r in Hi.
    + intros w w' Hr Hq H. eapply tcp_acts_r; [exact Hr|]. apply (tcp_bytes_out env); [by apply Hq|done].
    + intros w w' Hr H. eapply tcp_acts_r; [exact Hr|by eapply tcp_outbound_end].
  - split.
    + intros w _ E. by apply (f_equal EventLoop.direction) in E.
    + intros w w' Hr _ H. eapply tcp_acts_r; [exact Hr|by eapply tcp_bytes_in].
    + by intros w w' Hr [= <-].
  - split.
    + intros w _ E. by apply (f_equal EventLoop.direction) in E.
    + intros w w' Hr _ H. pose proof H as H'. apply result_bind_Ok in H' as ([outs s] & Hd & _).
      eapply tcp_acts_r; [exact Hr|by eapply tcp_datagrams_out].
    + by intros w w' Hr [= <-].
Qed.

Lemma tcp_tick_acts env w0 w ms outs s fd :
  rtc tcp_acts w0 w -> TCPSpongeSocket.loop_tick ms (TCPSpongeLoop.sock w) = (outs, s) ->
  TCPSpongeLoop.put_all env (TCPSpongeLoop.calls w) 0 outs (TCPSpongeLoop.dev w) = Ok fd ->
  rtc tcp_acts w0 (TCPSpongeLoop.mk_world s fd (S (TCPSpongeLoop.calls w))).
Proof using. intros Hr Ht Hp. eapply tcp_acts_r; [exact Hr|by eapply tcp_tick]. Qed.

End programs.
Arguments host : clear implicits.

(** C19: the two threads of a program take only the steps of [host_step].  From
    the constructor of the socket through [connect] or [listen_and_accept] and
    for as long as its thread has run, the socket has made a sequence of
    [tcp_step]s from the new host's; and [bidirectional_stream_copy], on the
    owner's end of the pair and for as long as it has run, one of
    [app_step]s. *)
Theorem threads_are_steps {AdaptT I O : Type} `{!Adapter AdaptT I O} `{!Device I O}
    env_owner env_thread socketpair fds checks get set (adapter : AdaptT) device o c_tcp random turns turns1 o1 condition turns2 o2
    blocking answers input output returned rules w :
  TCPSpongeLoop.construct socketpair fds checks get set adapter device = Ok o -> TCPSpongeLoop.answers_all turns ->
  TCPSpongeLoop.opened env_thread c_tcp random turns o turns1 o1 ->
  TCPSpongeLoop.run_loop env_thread turns1 condition o1 = Ok (turns2, o2) ->
  StreamCopy.answers_all answers ->
  StreamCopy.bidirectional_stream_copy env_owner blocking answers input output (TCPSpongeLoop._local o1) = Ok (returned, rules, w) ->
  exists thread, FileDescriptor.init (fds.2) = Ok thread /\
    let h : host AdaptT O := new_host input output (TCPSpongeLoop._local o1) thread device adapter c_tcp random in
    rtc tcp_acts (tcp h) (TCPSpongeLoop._world o2) /\ rtc (app_acts (I := I) (O := O)) (app h) w.
Proof.
  intros Hc Ha Ho Hr Hb Hcp. destruct (TCPSpongeLoop.construct_fresh _ _ _ _ _ _ _ _ Hc) as (thread & Hfd & Hf).
  exists thread. split; [exact Hfd|]. cbn zeta. split.
  - set (w0 := tcp _).
    destruct (TCPSpongeLoop.opened_keeps env_thread (rtc tcp_acts w0) (tcp_rules_act env_thread w0) (tcp_tick_acts env_thread w0)
      _ _ _ c_tcp random _ _ turns1 o1 Hf Ha) as (Ha1 & Hs1 & Hr1); [..|exact Ho|].
    + intros c_ad s Hs. apply rtc_once. exists Internal. exact (tcp_connect w0 c_ad s Hs).
    + intros c_ad. apply rtc_once. exists Internal. exact (tcp_listen w0 c_ad).
    + by destruct (TCPSpongeLoop.run_loop_keeps env_thread _ (tcp_rules_act env_thread w0) (tcp_tick_acts env_thread w0)
        _ _ _ _ _ Ha1 Hs1 Hr1 Hr) as (_ & _ & ?).
  - apply result_bind_Ok in Hcp as (f1 & _ & (f2 & _ & (f3 & _ & H)%result_bind_Ok)%result_bind_Ok).
    eapply (copy_loop_acts env_owner); [exact Hb|reflexivity|apply rtc_refl|exact H].
Qed.

(** C1: reliable delivery from program to program.  Two programs that copy
    their standard input to a [TCPSpongeSocket] and the socket to their standard
    output, over any of the adapters and a network that loses, repeats, delays
    and reorders datagrams and delivers strangers' datagrams that the adapter
    drops: whatever the interleaving of the four threads, the partial reads
    and writes of the kernel, the clock and the closing of descriptors, what
    one program has put on its standard output, followed by everything that is
    on its way there, is a prefix of what the other has read from its standard
    input. *)
Theorem programs_reliable {AdaptT I O : Type} `{!Adapter AdaptT I O} `{!AdapterParses AdaptT I O} `{!Device I O}
    `{!AdapterWire AdaptT I O} `{!AdapterCarries AdaptT I O} in_a out_a local_a thread_a device_a in_b out_b local_b thread_b device_b
    (adapter_a adapter_b : AdaptT) cfg_a cfg_b random_a random_b (a b : host AdaptT O) :
  is_u64 (TCPConfig.send_capacity cfg_a) -> is_u64 (TCPConfig.send_capacity cfg_b) ->
  is_u32 (TCPConfig.recv_capacity cfg_a) -> is_u32 (TCPConfig.recv_capacity cfg_b) ->
  WrappingInt32.wf (default (WrappingInt32.mk random_a) (TCPConfig.fixed_isn cfg_a)) ->
  WrappingInt32.wf (default (WrappingInt32.mk random_b) (TCPConfig.fixed_isn cfg_b)) ->
  ad_keeps [] adapter_a -> ad_keeps [] adapter_b ->
  rtc programs_step
    (new_host in_a out_a local_a thread_a device_a adapter_a cfg_a random_a,
     new_host in_b out_b local_b thread_b device_b adapter_b cfg_b random_b) (a, b) ->
  zlen (StreamCopy.from_input (app a)) + 2 < 2 ^ 31 -> zlen (StreamCopy.from_input (app b)) + 2 < 2 ^ 31 ->
  arrived b `prefix_of` StreamCopy.from_input (app a) /\ arrived a `prefix_of` StreamCopy.from_input (app b).
Proof.
  intros Hsa Hsb Hra Hrb Hwa Hwb Hka Hkb Hr Hla Hlb.
  destruct (programs_refine _ _ _ _ Hr (new_corresponds in_a out_a local_a thread_a device_a adapter_a cfg_a random_a)
    (new_corresponds in_b out_b local_b thread_b device_b adapter_b cfg_b random_b) Hla Hlb) as (ea & eb & Hr' & Ha & Hb).
  cbn in Ha, Hb. pose proof (corresponds_input _ _ Ha) as Hpa. pose proof (corresponds_input _ _ Hb) as Hpb.
  pose proof (prefix_length _ _ Hpa). pose proof (prefix_length _ _ Hpb).
  destruct (TCPSpongePair.sockets_reliable thread_a thread_b adapter_a adapter_b cfg_a cfg_b random_a random_b ea eb)
    as [H1 H2]; try done; [unfold zlen in *; lia..|].
  rewrite (corresponds_arrived _ _ Ha) in H2. rewrite (corresponds_arrived _ _ Hb) in H1. split; by etrans.
Qed.

(** C2: a clean close loses nothing.  In the same setting, once the connection
    of one program is over without a reset, every byte that the connection took
    has arrived at the other program, whose inbound stream has ended: what the
    first has read from its standard input is what has arrived at the second
    (printed, or in its buffers and its inbound stream), followed only by what
    still waits in front of the connection.  So for each direction, and at
    every moment. *)
Theorem programs_complete {AdaptT I O : Type} `{!Adapter AdaptT I O} `{!AdapterParses AdaptT I O} `{!Device I O}
    `{!AdapterWire AdaptT I O} `{!AdapterCarries AdaptT I O} in_a out_a local_a thread_a device_a in_b out_b local_b thread_b device_b
    (adapter_a adapter_b : AdaptT) cfg_a cfg_b random_a random_b (a b : host AdaptT O) :
  is_u64 (TCPConfig.send_capacity cfg_a) -> is_u64 (TCPConfig.send_capacity cfg_b) ->
  is_u32 (TCPConfig.recv_capacity cfg_a) -> is_u32 (TCPConfig.recv_capacity cfg_b) ->
  WrappingInt32.wf (default (WrappingInt32.mk random_a) (TCPConfig.fixed_isn cfg_a)) ->
  WrappingInt32.wf (default (WrappingInt32.mk random_b) (TCPConfig.fixed_isn cfg_b)) ->
  ad_keeps [] adapter_a -> ad_keeps [] adapter_b ->
  rtc programs_step
    (new_host in_a out_a local_a thread_a device_a adapter_a cfg_a random_a,
     new_host in_b out_b local_b thread_b device_b adapter_b cfg_b random_b) (a, b) ->
  zlen (StreamCopy.from_input (app a)) + 2 < 2 ^ 31 -> zlen (StreamCopy.from_input (app b)) + 2 < 2 ^ 31 ->
  (closed_cleanly a -> complete a b) /\ (closed_cleanly b -> complete b a).
Proof.
  intros Hsa Hsb Hra Hrb Hwa Hwb Hka Hkb Hr Hla Hlb.
  destruct (programs_refine _ _ _ _ Hr (new_corresponds in_a out_a local_a thread_a device_a adapter_a cfg_a random_a)
    (new_corresponds in_b out_b local_b thread_b device_b adapter_b cfg_b random_b) Hla Hlb) as (ea & eb & Hr' & Ha & Hb).
  cbn in Ha, Hb. pose proof (prefix_length _ _ (corresponds_input _ _ Ha)). pose proof (prefix_length _ _ (corresponds_input _ _ Hb)).
  destruct (TCPSpongePair.sockets_complete thread_a thread_b adapter_a adapter_b cfg_a cfg_b random_a random_b ea eb)
    as [H1 H2]; try done; [unfold zlen in *; lia..|].
  split; intros Hc.
  - apply (corresponds_complete _ _ _ _ Ha Hb), H1. by rewrite (co_sock _ _ Ha).
  - apply (corresponds_complete _ _ _ _ Hb Ha), H2. by rewrite (co_sock _ _ Hb).
Qed.

(** ** Runs that compute *)

(** What a thread does next, with the kernel's answer: the bytes that standard
    input has, or how many bytes the kernel passes on. *)
Inductive action : Type :=
| AppInput (data : bytes)
| AppSend (n : Z)
| AppReceive (n : nat)
| AppOutput (n : Z)
| Connect (c_ad : FdAdapterConfig.t)
| Listen (c_ad : FdAdapterConfig.t)
| Deliver (k : nat)
| BytesOut (n : nat)
| BytesIn (n : Z)
| DatagramsOut
| Tick (ms : Z).

Section run.
Context {AdaptT : Type} `{!Adapter AdaptT bytes BufferList.t} `{!AdapterParses AdaptT bytes BufferList.t}.
Context `{!AdapterWire AdaptT bytes BufferList.t} `{!AdapterCarries AdaptT bytes BufferList.t}.
Hypothesis Hwire : forall o, is_u64 (zlen (BufferList.concatenate o)) -> ad_wire (A := AdaptT) o (BufferList.concatenate o).

Definition gives (data : bytes) : FileDescriptor.kernel := FileDescriptor.mk_kernel (zlen data) 0 data.

Definition copy_kernel (data : bytes) (n : Z) : StreamCopy.Environment :=
  StreamCopy.mk_environment (fun _ _ => gives data) (fun _ => (n, 0)) (fun _ => (0, 0)).

(** The device takes each of the outputs whole. *)
Definition loop_kernel (arrival data : bytes) (n : Z) (outs : list BufferList.t) :
    TCPSpongeLoop.Environment (I := bytes) (O := BufferList.t) :=
  TCPSpongeLoop.mk_environment (fun _ => gives arrival)
    (fun _ j => match outs !! j with Some o => [(zlen (BufferList.concatenate o), 0)] | None => [] end)
    (fun _ _ => gives data) (fun _ => (n, 0)) (fun _ => (0, 0)).

Definition fits (data : bytes) (limit : Z) : bool := zlen data <=? Z.min FileDescriptor.BUFFER_SIZE limit.

Definition ok {A : Type} (r : result A) : option A := match r with Ok a => Some a | _ => None end.

Definition act (arriving : list BufferList.t) (x : action) (h : host AdaptT BufferList.t) : option (host AdaptT BufferList.t) :=
  let '(mk a w u d net) := h in
  match x with
  | AppInput data =>
      if fits data (ByteStream.remaining_capacity (StreamCopy._outbound a)) then
        a' ← ok (EventLoop.callback (StreamCopy.rule1 (copy_kernel data 0)) a); Some (mk a' w u d net)
      else None
  | AppSend n =>
      let data := to_push (StreamCopy._outbound a) in
      if (0 <=? n) && (n <=? zlen data) then
        a' ← ok (EventLoop.callback (StreamCopy.rule2 (copy_kernel [] n)) a); Some (mk a' w (u ++ substr0 data n) d net)
      else None
  | AppReceive n =>
      let data := take n d in
      if fits data (ByteStream.remaining_capacity (StreamCopy._inbound a)) then
        a' ← ok (EventLoop.callback (StreamCopy.rule3 (copy_kernel data 0)) a); Some (mk a' w u (drop n d) net)
      else None
  | AppOutput n =>
      if (0 <=? n) && (n <=? zlen (to_push (StreamCopy._inbound a))) then
        a' ← ok (EventLoop.callback (StreamCopy.rule4 (copy_kernel [] n)) a); Some (mk a' w u d net)
      else None
  | Connect c_ad =>
      s ← ok (TCPSpongeSocket.connect c_ad (TCPSpongeLoop.sock w)); Some (mk a (w <| TCPSpongeLoop.sock := s |>) u d net)
  | Listen c_ad =>
      Some (mk a (w <| TCPSpongeLoop.sock := TCPSpongeSocket.listen_and_accept c_ad (TCPSpongeLoop.sock w) |>) u d net)
  | Deliver k =>
      o ← arriving !! k;
      let i := BufferList.concatenate o in
      '(i', _) ← ok (dev_read (gives i) (TCPSpongeLoop.dev w));
      if decide (i' = i) then
        if zlen i <? 2 ^ 64 then
          '(seg, outs, _) ← ok (ad_read i (_datagram_adapter (TCPSpongeLoop.sock w)));
          w' ← ok (EventLoop.callback (TCPSpongeLoop.rule1 (loop_kernel i [] 0 outs)) w);
          Some (mk a w' u d (net ++ outs))
        else None
      else None
  | BytesOut n =>
      let data := take n u in
      if fits data (TCPConnection.remaining_outbound_capacity (_tcp (TCPSpongeLoop.sock w))) &&
         negb (_outbound_shutdown (TCPSpongeLoop.sock w)) then
        w' ← ok (EventLoop.callback (TCPSpongeLoop.rule2 (loop_kernel [] data 0 [])) w); Some (mk a w' (drop n u) d net)
      else None
  | BytesIn n =>
      let data := TCPSpongePair.offered (TCPSpongeLoop.sock w) in
      if (0 <=? n) && (n <=? zlen data) then
        w' ← ok (EventLoop.callback (TCPSpongeLoop.rule3 (loop_kernel [] [] n [])) w); Some (mk a w' u (d ++ substr0 data n) net)
      else None
  | DatagramsOut =>
      '(outs, _) ← ok (TCPSpongeSocket.datagrams_out (TCPSpongeLoop.sock w));
      w' ← ok (EventLoop.callback (TCPSpongeLoop.rule4 (loop_kernel [] [] 0 outs)) w); Some (mk a w' u d (net ++ outs))
  | Tick ms =>
      let '(outs, s) := TCPSpongeSocket.loop_tick ms (TCPSpongeLoop.sock w) in
      fd ← ok (TCPSpongeLoop.put_all (loop_kernel [] [] 0 outs) (TCPSpongeLoop.calls w) 0 outs (TCPSpongeLoop.dev w));
      Some (mk a (TCPSpongeLoop.mk_world s fd (S (TCPSpongeLoop.calls w))) u d (net ++ outs))
  end.

Lemma ok_Some {A : Type} (r : result A) a : ok r = Some a -> r = Ok a.
Proof using. by destruct r; intros [= ->]. Qed.

Lemma gives_honest data limit : fits data limit = true -> FileDescriptor.honest_read limit (gives data).
Proof using. unfold fits. rewrite Z.leb_le. intros H. by right. Qed.

Lemma gives_front queue n limit : fits (take n queue) limit = true -> pair_read queue limit (gives (take n queue)) (drop n queue).
Proof using. unfold fits. rewrite Z.leb_le. intros H. right. cbn. by rewrite take_drop. Qed.

Lemma within_write queue data n :
  (0 <=? n) && (n <=? zlen data) = true -> pair_write queue data (n, 0) (queue ++ substr0 data n).
Proof using. rewrite andb_true_iff, !Z.leb_le. intros H. by right. Qed.

Lemma host_act arriving x h h' : act arriving x h = Some h' -> host_step arriving h h'.
Proof using Hwire.
  destruct h as [a w u d net]; destruct x as [data|n|n|n|c_ad|c_ad|k|n|n| |ms]; cbn [act]; intros H; cbn zeta in H.
  - destruct (fits _ _) eqn:Ef; [|done]. apply bind_Some in H as (a' & Ha%ok_Some & [= <-]).
    exact (app_reads_input arriving (mk a w u d net) a' _ _ (app_input _ a a' Ha) (gives_honest _ _ Ef)).
  - destruct (_ && _) eqn:Ef; [|done]. apply bind_Some in H as (a' & Ha%ok_Some & [= <-]).
    exact (app_writes_pair arriving (mk a w u d net) a' _ _ _ (app_send _ a a' Ha) (within_write u _ n Ef)).
  - destruct (fits _ _) eqn:Ef; [|done]. apply bind_Some in H as (a' & Ha%ok_Some & [= <-]).
    exact (app_reads_pair arriving (mk a w u d net) a' _ _ _ (app_receive _ a a' Ha) (gives_front d n _ Ef)).
  - destruct (_ && _) eqn:Ef; [|done]. apply bind_Some in H as (a' & Ha%ok_Some & [= <-]).
    exact (app_writes_output arriving (mk a w u d net) a' _ _ (app_output _ a a' Ha) (pair_write_honest [] _ _ _ (within_write [] _ n Ef))).
  - apply bind_Some in H as (s & Hs%ok_Some & [= <-]). exact (tcp_internal arriving (mk a w u d net) _ (tcp_connect w c_ad s Hs)).
  - injection H as <-. exact (tcp_internal arriving (mk a w u d net) _ (tcp_listen w c_ad)).
  - apply bind_Some in H as (o & Ho%list_elem_of_lookup_2 & H). apply bind_Some in H as ([i' fd] & Hd%ok_Some & H).
    destruct (decide _) as [->|]; [|done]. destruct (Z.ltb_spec (zlen (BufferList.concatenate o)) (2 ^ 64)) as [Hz|]; [|done].
    apply bind_Some in H as ([[seg outs] b] & Hr%ok_Some & H). apply bind_Some in H as (w' & Hw%ok_Some & [= <-]).
    refine (tcp_receives arriving (mk a w u d net) w' o _ seg outs (tcp_datagram_in (loop_kernel (BufferList.concatenate o) [] 0 outs) w _ fd seg outs b w' Hd Hr Hw) Ho (Hwire _ _)).
    pose proof (zlen_nonneg (BufferList.concatenate o)). word_lia.
  - destruct (_ && _) eqn:Ef; [|done]. apply andb_true_iff in Ef as [Ef Eo%negb_true_iff].
    apply bind_Some in H as (w' & Hw%ok_Some & [= <-]).
    exact (tcp_reads_pair arriving (mk a w u d net) w' _ _ _ (tcp_bytes_out _ w w' Eo Hw) (gives_front u n _ Ef)).
  - destruct (_ && _) eqn:Ef; [|done]. apply bind_Some in H as (w' & Hw%ok_Some & [= <-]).
    exact (tcp_writes_pair arriving (mk a w u d net) w' _ _ _ (tcp_bytes_in _ w w' Hw) (within_write d _ n Ef)).
  - apply bind_Some in H as ([outs s] & Hd%ok_Some & H). apply bind_Some in H as (w' & Hw%ok_Some & [= <-]).
    exact (tcp_sends arriving (mk a w u d net) w' outs (tcp_datagrams_out _ w outs s w' Hd Hw)).
  - destruct (TCPSpongeSocket.loop_tick ms _) as [outs s] eqn:Et. apply bind_Some in H as (fd & Hp%ok_Some & [= <-]).
    exact (tcp_sends arriving (mk a w u d net) _ outs (tcp_tick _ w ms outs s fd Et Hp)).
Qed.

(** Who acts ([true] for the first program), and how. *)
Fixpoint run (schedule : list (bool * action)) (s : host AdaptT BufferList.t * host AdaptT BufferList.t)
    : option (host AdaptT BufferList.t * host AdaptT BufferList.t) :=
  match schedule with
  | [] => Some s
  | (true, x) :: rest => a ← act (on_net (s.2)) x (s.1); run rest (a, s.2)
  | (false, x) :: rest => b ← act (on_net (s.1)) x (s.2); run rest (s.1, b)
  end.

Lemma programs_run schedule s s' : run schedule s = Some s' -> rtc programs_step s s'.
Proof using Hwire.
  revert s. induction schedule as [|[[] x] rest IH]; intros [a b]; cbn [run fst snd]; [by intros [= <-]|..];
    intros (h & Ha%host_act & Hr)%bind_Some; (eapply rtc_l; [|by apply IH]).
  - by apply program_left.
  - by apply program_right.
Qed.
End run.

(** Two programs on one Ethernet: the first reads three bytes, the connection
    is made, and the second prints the first two of them. *)
Definition fd (n : Z) : FileDescriptor.t := FileDescriptor.mk n false false 0 0.

Definition program_a : host TCPOverIPv4OverEthernetAdapter.t BufferList.t :=
  new_host (fd 0) (fd 1) (fd 3) (fd 4) (fd 5) TCPSpongePair.eth_a config_a 0.
Definition program_b : host TCPOverIPv4OverEthernetAdapter.t BufferList.t :=
  new_host (fd 0) (fd 1) (fd 3) (fd 4) (fd 5) TCPSpongePair.eth_b config_b 0.

Definition schedule : list (bool * action) :=
  [(true, AppInput [x68; x69; x21]); (false, Listen (FdAdapterBase.config server)); (true, Connect (FdAdapterBase.config client));
   (true, DatagramsOut); (false, Deliver 0); (true, Deliver 0); (true, AppSend 3); (false, Deliver 1); (false, DatagramsOut);
   (true, Deliver 1); (true, BytesOut 2); (true, DatagramsOut); (false, Deliver 3); (false, Deliver 2); (false, Tick 1000);
   (false, BytesIn 2); (true, BytesOut 1); (false, AppReceive 2); (false, AppOutput 1)].

(** What can be computed of a run. *)
Definition progress (r : option (host TCPOverIPv4OverEthernetAdapter.t BufferList.t * host TCPOverIPv4OverEthernetAdapter.t BufferList.t)) :
    option (bytes * bytes * bytes) :=
  match r with
  | Some (a, b) => Some (StreamCopy.from_input (app a), StreamCopy.from_input (app b), StreamCopy.to_output (app b))
  | None => None
  end.

Lemma schedule_progress : progress (run schedule (program_a, program_b)) = Some ([x68; x69; x21], [], [x68]).
Proof. vm_compute. reflexivity. Qed.

Lemma progress_Some r x y z :
  progress r = Some (x, y, z) ->
  exists a b, r = Some (a, b) /\ StreamCopy.from_input (app a) = x /\ StreamCopy.from_input (app b) = y /\ StreamCopy.to_output (app b) = z.
Proof. destruct r as [[a b]|]; [|done]. intros [= <- <- <-]. by exists a, b. Qed.

Lemma programs_reliable_witness :
  exists a b, rtc programs_step (program_a, program_b) (a, b) /\ StreamCopy.to_output (app b) = [x68] /\
    arrived b `prefix_of` StreamCopy.from_input (app a).
Proof.
  destruct (progress_Some _ _ _ _ schedule_progress) as (a & b & E & Ea & Eb & Eo).
  pose proof (programs_run (fun o H => conj eq_refl H) schedule (program_a, program_b) (a, b) E) as Hr. exists a, b.
  split; [exact Hr|]. split; [exact Eo|].
  apply (programs_reliable (fd 0) (fd 1) (fd 3) (fd 4) (fd 5) (fd 0) (fd 1) (fd 3) (fd 4) (fd 5) TCPSpongePair.eth_a TCPSpongePair.eth_b
    config_a config_b 0 0 a b); [vm_compute; split; congruence..|apply TCPSpongePair.hosts_keep|apply TCPSpongePair.hosts_keep|exact Hr
    |rewrite Ea; reflexivity|rewrite Eb; reflexivity].
Defined.

(** The rest of the run: both close, the FIN overtakes the last byte, and the
    first program's connection lingers. *)
Definition closing : list (bool * action) :=
  [(true, BytesOut 0); (true, DatagramsOut); (false, Deliver 5); (false, Deliver 4); (false, BytesOut 0); (false, DatagramsOut);
   (true, Deliver 4); (true, Deliver 3); (true, Deliver 2); (true, Deliver 5); (true, DatagramsOut); (false, Deliver 6);
   (true, Tick 10000)].

Definition ending (r : option (host TCPOverIPv4OverEthernetAdapter.t BufferList.t * host TCPOverIPv4OverEthernetAdapter.t BufferList.t)) :
    option (bytes * bytes * bytes * bytes * (bool * bool * bool)) :=
  match r with
  | Some (a, b) =>
      let c := _tcp (TCPSpongeLoop.sock (tcp a)) in
      Some (StreamCopy.from_input (app a), StreamCopy.from_input (app b), up a, ByteStream._str (StreamCopy._outbound (app a)),
            (TCPConnection.active c, ByteStream.error (TCPSender.stream_in (TCPConnection._sender c)),
             ByteStream.error (TCPConnection.inbound_stream c)))
  | None => None
  end.

Lemma closing_ending :
  ending (run (schedule ++ closing) (program_a, program_b)) = Some ([x68; x69; x21], [], [], [], (false, false, false)).
Proof. vm_compute. reflexivity. Qed.

Lemma ending_Some r x y u s :
  ending r = Some (x, y, u, s, (false, false, false)) ->
  exists a b, r = Some (a, b) /\ StreamCopy.from_input (app a) = x /\ StreamCopy.from_input (app b) = y /\
    up a = u /\ ByteStream._str (StreamCopy._outbound (app a)) = s /\ closed_cleanly a.
Proof.
  destruct r as [[a b]|]; [|done]. intros [= <- <- <- <- E1 E2 E3]. exists a, b. repeat (split; [done|]).
  unfold TCPConnection.has_error. unfold TCPConnection.inbound_stream in E3. rewrite E2, E3. by intros [?|?].
Qed.

Lemma programs_complete_witness :
  exists a b, rtc programs_step (program_a, program_b) (a, b) /\ closed_cleanly a /\ arrived b = [x68; x69; x21].
Proof.
  destruct (ending_Some _ _ _ _ _ closing_ending) as (a & b & E & Ea & Eb & Eu & Es & Hc).
  pose proof (programs_run (fun o H => conj eq_refl H) (schedule ++ closing) (program_a, program_b) (a, b) E) as Hr. exists a, b.
  split; [exact Hr|]. split; [exact Hc|].
  destruct (programs_complete (fd 0) (fd 1) (fd 3) (fd 4) (fd 5) (fd 0) (fd 1) (fd 3) (fd 4) (fd 5) TCPSpongePair.eth_a TCPSpongePair.eth_b
    config_a config_b 0 0 a b) as [H _]; [vm_compute; split; congruence..|apply TCPSpongePair.hosts_keep|apply TCPSpongePair.hosts_keep|exact Hr
    |rewrite Ea; reflexivity|rewrite Eb; reflexivity|].
  destruct (H Hc) as [Hall _]. rewrite Ea, Eu, Es, !app_nil_r in Hall. by symmetry.
Defined.

(** A socket on a TUN device that sends its SYN, with the copy of
    [bidirectional_stream_copy.v] on the owner's end of its pair. *)
Lemma connect_local env c_tcp random c_ad turns (o : TCPSpongeLoop.object (AdaptT := FdAdapterBase.t)) turns' o' :
  TCPSpongeLoop.connect env c_tcp random c_ad turns o = Ok (turns', o') -> TCPSpongeLoop._local o' = TCPSpongeLoop._local o.
Proof.
  unfold TCPSpongeLoop.connect. destruct (TCPSpongeLoop._has_tcp o); [done|]. cbn zeta. intros (s & _ & H)%result_bind_Ok.
  by apply result_bind_Ok in H as ([[t1 rules] w] & _ & [= _ <-]).
Qed.

Lemma threads_are_steps_witness :
  exists turns o w, TCPSpongeLoop.connect TCPSpongeLoop.sample_environment TCPConnection.sample_config 0 TCPSpongeLoop.sample_target
      TCPSpongeLoop.sample_turns TCPSpongeLoop.sample_object = Ok (turns, o) /\
    let h : host FdAdapterBase.t BufferList.t :=
      new_host (fd 0) (fd 1) (fd 3) (fd 4) (fd 5) FdAdapterBase.init TCPConnection.sample_config 0 in
    rtc tcp_acts (tcp h) (TCPSpongeLoop._world o) /\ rtc (app_acts (I := bytes) (O := BufferList.t)) (app h) w /\
    TCPSpongeLoop.calls (TCPSpongeLoop._world o) = 1%nat /\ StreamCopy.to_socket w = [x01; x02; x03].
Proof.
  destruct (TCPSpongeLoop.calls_of_Ok _ _ TCPSpongeLoop.sample_calls) as (turns & o & E & Ec).
  destruct StreamCopy.sample_copy_returns as (rules & w & Hc & _ & Hs). exists turns, o, w.
  assert (TCPSpongeLoop._local o = fd 3) as El by (rewrite (connect_local _ _ _ _ _ _ _ _ E); vm_compute; reflexivity).
  destruct (threads_are_steps StreamCopy.sample_kernel TCPSpongeLoop.sample_environment (0, 0) (3, 4) TCPSpongeLoop.sample_checks
    (0, 0) (0, 0) FdAdapterBase.init (fd 5) TCPSpongeLoop.sample_object TCPConnection.sample_config 0 TCPSpongeLoop.sample_turns
    turns o (fun _ => false) turns o (fun _ => (0, 0)) StreamCopy.sample_polls (fd 0) (fd 1) true rules w) as (thread & Ht & H1 & H2).
  - reflexivity.
  - repeat constructor.
  - left. exists TCPSpongeLoop.sample_target. exact E.
  - destruct turns, o; reflexivity.
  - apply StreamCopy.sample_answers.
  - rewrite El. exact Hc.
  - injection Ht as <-. rewrite El in H1, H2. split; [exact E|]. cbn zeta. split; [exact H1|]. split; [exact H2|]. split; [exact Ec|exact Hs].
Defined.

End ProgramPair.
