(* ===== verification/network_simulator.v ===== *)
(** * [apps/network_simulator.cc]

    The simulated network of the router's test: hosts with an interface each, a
    router with seven, wires that carry the frames, and the ten scenarios.
    What the generator [rd] draws is an argument: six bytes for every Ethernet
    address, a number for every payload.  The lines on [cerr] are left out; the
    text of a frame in them is [summary], which never throws. *)

From Stdlib Require Import DecimalString.
From S2P Require Import Prelude.
From S2P Require Import buffer.
From S2P Require Import parser.
From S2P Require Import ipv4_datagram.
From S2P Require Import ethernet_frame.
From S2P Require Import address.
From S2P Require Import printing.
From S2P Require Import network_interface.
From S2P Require Import router.

Definition map_head (f : Z -> Z) (l : bytes) : bytes :=
  match l with b :: l => byte_of (f (byte_val b)) :: l | [] => [] end.

Definition random_host_ethernet_address (draw : bytes) : EthernetAddress :=
  map_head (fun b => Z.land (Z.lor b 0x02) 0xfe) draw.

Definition random_router_ethernet_address (draw : bytes) : EthernetAddress := [x02; x00; x00] ++ drop 3 draw.

(** [Address{"a.b.c.d"}] and [ip("a.b.c.d")]. *)
Definition dotted (a b c d : Z) : Z := ((a * 256 + b) * 256 + c) * 256 + d.
Definition addr (a b c d : Z) : Address.t := Address.ipv4 (dotted a b c d) 0.

(** [while (not queue1.empty()) { queue1.pop(); queue2.pop(); }]. *)
Fixpoint clear {T} (queue1 queue2 : list T) : result (list T) :=
  match queue1, queue2 with
  | [], _ => Ok queue2
  | _ :: _, [] => Throw (UndefinedBehaviour "pop of an empty queue")
  | _ :: queue1, _ :: queue2 => clear queue1 queue2
  end.

(** The text of a frame. *)
Definition summary (frame : EthernetFrame.t) : result bytes :=
  let ret := ethernet_header_to_string (EthernetFrame.header frame) in
  if EthernetHeader.type (EthernetFrame.header frame) =? EthernetHeader.TYPE_IPv4 then
    payload ← BufferList.to_Buffer (EthernetFrame.payload frame);
    '(res, dgram) ← IPv4Datagram.parse payload IPv4Datagram.init;
    if bool_decide (res = NoError) then
      Ok (ret ++ lit " " ++ IPv4HeaderText.summary (IPv4Datagram.header dgram) ++
          lit " payload=" ++ [x22] ++ BufferList.concatenate (IPv4Datagram.payload dgram) ++ [x22])
    else Ok (ret ++ lit " (bad IPv4)")
  else if EthernetHeader.type (EthernetFrame.header frame) =? EthernetHeader.TYPE_ARP then
    payload ← BufferList.to_Buffer (EthernetFrame.payload frame);
    '(res, arp) ← ARPMessage.parse payload ARPMessage.init;
    if bool_decide (res = NoError) then Ok (ret ++ lit " " ++ arp_message_to_string arp)
    else Ok (ret ++ lit " (bad ARP)")
  else Ok ret.

(** Every frame whose payload is in one piece, as the network's are, has one. *)
Lemma summary_total header payload :
  is_u64 (zlen payload) -> exists text, summary (EthernetFrame.mk header (BufferList.of_string payload)) = Ok text.
Proof.
  intros Hl. assert (Buffer.wf (Buffer.of_string payload)) as Hw by (by apply Buffer.of_string_wf).
  unfold summary. cbn zeta. cbn [EthernetFrame.header EthernetFrame._header EthernetFrame.payload EthernetFrame._payload].
  change (BufferList.to_Buffer (BufferList.of_string payload)) with (@Ok Buffer.t (Buffer.of_string payload)). cbn [mbind result_bind].
  destruct (_ =? EthernetHeader.TYPE_IPv4).
  - destruct (IPv4Datagram.ipv4_datagram_parse_ok (Buffer.of_string payload) IPv4Datagram.init Hw IPv4Datagram.ipv4_init_wf) as (r & d & -> & _).
    cbn [mbind result_bind]. case_bool_decide; by eexists.
  - destruct (_ =? EthernetHeader.TYPE_ARP); [|by eexists].
    destruct (ARPMessage.arp_message_parse_total (Buffer.of_string payload) ARPMessage.init Hw ARPMessage.arp_init_wf) as (r & m & -> & _).
    cbn [mbind result_bind]. case_bool_decide; by eexists.
Qed.

Module Host.

Record t : Type := mk {
  _name : string;
  _my_address : Address.t;
  _interface : AsyncNetworkInterface.t;
  _next_hop : Address.t;
  _expecting_to_receive : list IPv4Datagram.t
}.

#[global] Instance eta_t : Eta t := fun h => mk (_name h) (_my_address h) (_interface h) (_next_hop h) (_expecting_to_receive h).

Definition init (name : string) (my_address next_hop : Address.t) (draw : bytes) : t :=
  mk name my_address
    (AsyncNetworkInterface.of_interface (NetworkInterface.init (random_host_ethernet_address draw) my_address)) next_hop [].

(** [x.serialize().concatenate()]. *)
Definition wire (d : IPv4Datagram.t) : result bytes := l ← IPv4Datagram.serialize d; Ok (BufferList.concatenate l).

Fixpoint expecting_loop (l : list IPv4Datagram.t) (expected : IPv4Datagram.t) : result bool :=
  match l with
  | [] => Ok false
  | x :: l =>
      a ← wire x;
      b ← wire expected;
      if bool_decide (a = b) then Ok true else expecting_loop l expected
  end.

Definition expecting (expected : IPv4Datagram.t) (h : t) : result bool := expecting_loop (_expecting_to_receive h) expected.

Fixpoint remove_loop (l : list IPv4Datagram.t) (expected : IPv4Datagram.t) : result (list IPv4Datagram.t) :=
  match l with
  | [] => Ok []
  | x :: l =>
      a ← wire x;
      b ← wire expected;
      if bool_decide (a = b) then Ok l else rest ← remove_loop l expected; Ok (x :: rest)
  end.

Definition remove_expectation (expected : IPv4Datagram.t) (h : t) : result t :=
  l ← remove_loop (_expecting_to_receive h) expected;
  Ok (h <| _expecting_to_receive := l |>).

(** ["random payload: {" + to_string(rd()) + "}"]. *)
Definition random_payload (draw : N) : bytes :=
  String.list_byte_of_string (String.append "random payload: {" (String.append (NilZero.string_of_uint (N.to_uint draw)) "}")).

Definition send_to (destination : Address.t) (ttl : Z) (draw : N) (h : t) : result (IPv4Datagram.t * t) :=
  src ← Address.ipv4_numeric (_my_address h);
  dst ← Address.ipv4_numeric destination;
  let payload := BufferList.of_string (random_payload draw) in
  let header := IPv4Header.init <| IPv4Header.src := src |> <| IPv4Header.dst := dst |> in
  let header := header <| IPv4Header.len := u16 (IPv4Header.hlen header * 4 + BufferList.size payload) |>
                       <| IPv4Header.ttl := ttl |> in
  let dgram := IPv4Datagram.mk header payload in
  i ← AsyncNetworkInterface.send_datagram dgram (_next_hop h) (_interface h);
  Ok (dgram, h <| _interface := i |>).

Definition address (h : t) : Address.t := _my_address h.
Definition interface (h : t) : AsyncNetworkInterface.t := _interface h.
Definition name (h : t) : string := _name h.

Definition expect (expected : IPv4Datagram.t) (h : t) : t :=
  h <| _expecting_to_receive := _expecting_to_receive h ++ [expected] |>.

(** The loop of [check] pops one received datagram a turn. *)
Fixpoint check_loop (received : list IPv4Datagram.t) (h : t) : result t :=
  match received with
  | [] => Ok (h <| _interface := (_interface h) <| AsyncNetworkInterface._datagrams_out := [] |> |>)
  | dgram_received :: received =>
      e ← expecting dgram_received h;
      if negb e then Throw (RuntimeError "received unexpected Internet datagram") else
      h ← remove_expectation dgram_received h;
      check_loop received h
  end.

Definition check (h : t) : result t :=
  h ← check_loop (AsyncNetworkInterface.datagrams_out (_interface h)) h;
  match _expecting_to_receive h with
  | [] => Ok h
  | _ :: _ => Throw (RuntimeError "did NOT receive an expected Internet datagram")
  end.

(** ** What [check] decides *)

(** The datagrams that can be compared, with their bytes. *)
Definition wires (l : list IPv4Datagram.t) (ws : list bytes) : Prop := Forall2 (fun d w => wire d = Ok w) l ws.

Lemma expecting_spec l ws d w : wires l ws -> wire d = Ok w -> expecting_loop l d = Ok (bool_decide (w ∈ ws)).
Proof.
  intros Hl Hd. induction Hl as [|x a l ws Hx Hl IH]; cbn [expecting_loop].
  { by rewrite bool_decide_eq_false_2 by apply not_elem_of_nil. }
  rewrite Hx, Hd. cbn [mbind result_bind]. destruct (bool_decide (a = w)) eqn:E.
  - apply bool_decide_eq_true in E. by rewrite bool_decide_eq_true_2 by (subst; apply elem_of_cons; by left).
  - apply bool_decide_eq_false in E. rewrite IH. f_equal. apply bool_decide_ext. rewrite elem_of_cons. split; [by right|by intros [->|?]].
Qed.

Lemma remove_spec l ws d w :
  wires l ws -> wire d = Ok w -> w ∈ ws -> exists l' ws', remove_loop l d = Ok l' /\ wires l' ws' /\ ws ≡ₚ w :: ws'.
Proof.
  intros Hl Hd. induction Hl as [|x a l ws Hx Hl IH]; intros Hin; [by apply elem_of_nil in Hin|].
  cbn [remove_loop]. rewrite Hx, Hd. cbn [mbind result_bind]. case_bool_decide as E.
  - exists l, ws. by subst.
  - apply elem_of_cons in Hin as [->|Hin]; [done|]. destruct (IH Hin) as (l' & ws' & -> & Hl' & Hp). cbn [mbind result_bind].
    exists (x :: l'), (a :: ws'). split; [done|]. split; [by constructor|]. rewrite Hp. apply Permutation_swap.
Qed.

Lemma check_loop_spec received rs h es :
  wires received rs -> wires (_expecting_to_receive h) es ->
  (exists h', check_loop received h = Ok h' /\ _expecting_to_receive h' = []) <-> rs ≡ₚ es.
Proof.
  intros Hr. revert h es. induction Hr as [|d w received rs Hd Hr IH]; intros h es He; cbn [check_loop].
  { split.
    - intros (h' & [= <-] & E). cbn in E. rewrite E in He. by inv He.
    - intros E%Permutation_nil_l. subst. inv He. eexists. split; [done|]. done. }
  unfold expecting. rewrite (expecting_spec _ _ _ _ He Hd). cbn [mbind result_bind]. case_bool_decide as Hin; cbn [negb].
  - destruct (remove_spec _ _ _ _ He Hd Hin) as (l' & es' & Hrem & Hl' & Hp). unfold remove_expectation. rewrite Hrem.
    cbn [mbind result_bind]. pose proof (IH (h <| _expecting_to_receive := l' |>)) as Hi. rewrite (Hi es' Hl'), Hp. split; [by intros ->|].
    apply Permutation_cons_inv.
  - split; [by intros (h' & ? & _)|]. intros Hp. destruct Hin. rewrite <- Hp. by apply elem_of_cons; left.
Qed.

(** [check] is exact.  It returns just when the datagrams that the host
    received are those it was told to expect, in any order and with their
    multiplicities, compared by their bytes on the wire. *)
Theorem host_check h rs es :
  wires (AsyncNetworkInterface.datagrams_out (_interface h)) rs -> wires (_expecting_to_receive h) es ->
  (exists h', check h = Ok h') <-> rs ≡ₚ es.
Proof.
  intros Hr He. rewrite <- (check_loop_spec _ _ _ _ Hr He). unfold check. split.
  - intros (h' & (h1 & H1 & H2)%result_bind_Ok). exists h1. split; [done|]. by case_match.
  - intros (h' & -> & E). cbn [mbind result_bind]. rewrite E. by eauto.
Qed.

End Host.

Module Network.

Record t : Type := mk {
  _router : Router.t;
  default_id : Z;
  eth0_id : Z;
  eth1_id : Z;
  eth2_id : Z;
  uun3_id : Z;
  hs4_id : Z;
  mit5_id : Z;
  _hosts : gmap string Host.t
}.

#[global] Instance eta_t : Eta t := fun n =>
  mk (_router n) (default_id n) (eth0_id n) (eth1_id n) (eth2_id n) (uun3_id n) (hs4_id n) (mit5_id n) (_hosts n).

(** The copy of the queue, each frame with its payload in one piece. *)
Fixpoint deliver (to_send : list EthernetFrame.t) (dst : AsyncNetworkInterface.t) : result AsyncNetworkInterface.t :=
  match to_send with
  | [] => Ok dst
  | front :: to_send =>
      let front := EthernetFrame.mk (EthernetFrame.header front)
                     (BufferList.of_string (BufferList.concatenate (EthernetFrame.payload front))) in
      dst ← AsyncNetworkInterface.recv_frame front dst;
      deliver to_send dst
  end.

Definition frames_out (i : AsyncNetworkInterface.t) : list EthernetFrame.t :=
  NetworkInterface.frames_out (AsyncNetworkInterface.base i).

Definition clear_frames (frames : list EthernetFrame.t) (i : AsyncNetworkInterface.t) : result AsyncNetworkInterface.t :=
  q ← clear frames (frames_out i);
  Ok (i <| AsyncNetworkInterface.base := (AsyncNetworkInterface.base i) <| NetworkInterface._frames_out := q |> |>).

Definition exchange_frames (x y : AsyncNetworkInterface.t) : result (AsyncNetworkInterface.t * AsyncNetworkInterface.t) :=
  let x_frames := frames_out x in
  let y_frames := frames_out y in
  y ← deliver x_frames y;
  x ← deliver y_frames x;
  x ← clear_frames x_frames x;
  y ← clear_frames y_frames y;
  Ok (x, y).

Definition exchange_frames3 (x y z : AsyncNetworkInterface.t) :
    result (AsyncNetworkInterface.t * AsyncNetworkInterface.t * AsyncNetworkInterface.t) :=
  let x_frames := frames_out x in
  let y_frames := frames_out y in
  let z_frames := frames_out z in
  y ← deliver x_frames y;
  z ← deliver x_frames z;
  x ← deliver y_frames x;
  z ← deliver y_frames z;
  x ← deliver z_frames x;
  y ← deliver z_frames y;
  x ← clear_frames x_frames x;
  y ← clear_frames y_frames y;
  z ← clear_frames z_frames z;
  Ok (x, y, z).

Definition host (name : string) (n : t) : result Host.t :=
  match _hosts n !! name with
  | None => Throw (RuntimeError "unknown host")
  | Some h => if bool_decide (Host.name h = name) then Ok h else Throw (RuntimeError "invalid host")
  end.

(** Assignment through the reference that [host] returns. *)
Definition set_host (name : string) (h : Host.t) (n : t) : t := n <| _hosts := <[name := h]> (_hosts n) |>.

(** The seven interfaces in the order of the member initialisers. *)
Definition router_interface (draw : bytes) (ip : Address.t) : AsyncNetworkInterface.t :=
  AsyncNetworkInterface.of_interface (NetworkInterface.init (random_router_ethernet_address draw) ip).

(** [insert] into the map keeps a host that is already there. *)
Definition insert_host (name : string) (my_address next_hop : Address.t) (draw : bytes) (n : t) : t :=
  match _hosts n !! name with
  | Some _ => n
  | None => set_host name (Host.init name my_address next_hop draw) n
  end.

Definition routes (default_router hs_router : Address.t) (n : t) : Router.t :=
  let r := _router n in
  let r := Router.add_route (dotted 0 0 0 0) 0 (Some default_router) (default_id n) r in
  let r := Router.add_route (dotted 10 0 0 0) 8 None (eth0_id n) r in
  let r := Router.add_route (dotted 172 16 0 0) 16 None (eth1_id n) r in
  let r := Router.add_route (dotted 192 168 0 0) 24 None (eth2_id n) r in
  let r := Router.add_route (dotted 198 178 229 0) 24 None (uun3_id n) r in
  let r := Router.add_route (dotted 143 195 0 0) 17 (Some hs_router) (hs4_id n) r in
  let r := Router.add_route (dotted 143 195 128 0) 18 (Some hs_router) (hs4_id n) r in
  let r := Router.add_route (dotted 143 195 192 0) 19 (Some hs_router) (hs4_id n) r in
  Router.add_route (dotted 128 30 76 255) 16 (Some (addr 128 30 0 1)) (mit5_id n) r.

(** [draws] are the thirteen draws of Ethernet addresses. *)
Definition init (draws : nat -> bytes) : result t :=
  let '(default_id, r) := Router.add_interface (router_interface (draws 0%nat) (addr 171 67 76 46)) Router.init in
  let '(eth0_id, r) := Router.add_interface (router_interface (draws 1%nat) (addr 10 0 0 1)) r in
  let '(eth1_id, r) := Router.add_interface (router_interface (draws 2%nat) (addr 172 16 0 1)) r in
  let '(eth2_id, r) := Router.add_interface (router_interface (draws 3%nat) (addr 192 168 0 1)) r in
  let '(uun3_id, r) := Router.add_interface (router_interface (draws 4%nat) (addr 198 178 229 1)) r in
  let '(hs4_id, r) := Router.add_interface (router_interface (draws 5%nat) (addr 143 195 0 2)) r in
  let '(mit5_id, r) := Router.add_interface (router_interface (draws 6%nat) (addr 128 30 76 255)) r in
  let n := mk r default_id eth0_id eth1_id eth2_id uun3_id hs4_id mit5_id ∅ in
  let n := insert_host "applesauce" (addr 10 0 0 2) (addr 10 0 0 1) (draws 7%nat) n in
  let n := insert_host "default_router" (addr 171 67 76 1) (addr 0 0 0 0) (draws 8%nat) n in
  let n := insert_host "cherrypie" (addr 192 168 0 2) (addr 192 168 0 1) (draws 9%nat) n in
  let n := insert_host "hs_router" (addr 143 195 0 1) (addr 0 0 0 0) (draws 10%nat) n in
  let n := insert_host "dm42" (addr 198 178 229 42) (addr 198 178 229 1) (draws 11%nat) n in
  let n := insert_host "dm43" (addr 198 178 229 43) (addr 198 178 229 1) (draws 12%nat) n in
  default_router ← host "default_router" n;
  hs_router ← host "hs_router" n;
  Ok (n <| _router := routes (Host.address default_router) (Host.address hs_router) n |>).

(** One wire between an interface of the router and a host. *)
Definition wire_up (id : Z) (name : string) (n : t) : result t :=
  i ← Router.interface id (_router n);
  h ← host name n;
  '(i, j) ← exchange_frames i (Host.interface h);
  Ok (set_host name (h <| Host._interface := j |>) (n <| _router := Router.set_interface id i (_router n) |>)).

Definition simulate_physical_connections (n : t) : result t :=
  n ← wire_up (default_id n) "default_router" n;
  n ← wire_up (eth0_id n) "applesauce" n;
  n ← wire_up (eth2_id n) "cherrypie" n;
  n ← wire_up (hs4_id n) "hs_router" n;
  i ← Router.interface (uun3_id n) (_router n);
  dm42 ← host "dm42" n;
  dm43 ← host "dm43" n;
  '(i, j, k) ← exchange_frames3 i (Host.interface dm42) (Host.interface dm43);
  Ok (set_host "dm43" (dm43 <| Host._interface := k |>) (set_host "dm42" (dm42 <| Host._interface := j |>)
        (n <| _router := Router.set_interface (uun3_id n) i (_router n) |>))).

Fixpoint simulate_rounds (rounds : nat) (n : t) : result t :=
  match rounds with
  | O => Ok n
  | S rounds =>
      r ← Router.route (_router n);
      n ← simulate_physical_connections (n <| _router := r |>);
      simulate_rounds rounds n
  end.

(** The hosts in the order in which the map is traversed. *)
Fixpoint check_hosts (l : list (string * Host.t)) (n : t) : result t :=
  match l with
  | [] => Ok n
  | (name, h) :: l => h ← Host.check h; check_hosts l (set_host name h n)
  end.

Definition simulate (n : t) : result t :=
  n ← simulate_rounds 256 n;
  check_hosts (map_to_list (_hosts n)) n.

End Network.

(** ** A wire *)

Module Wire.

(** Two interfaces on one wire. *)
Fixpoint exchanges (n : nat) (x y : AsyncNetworkInterface.t) : result (AsyncNetworkInterface.t * AsyncNetworkInterface.t) :=
  match n with
  | O => Ok (x, y)
  | S n => '(x, y) ← Network.exchange_frames x y; exchanges n x y
  end.

Definition fresh (mac : EthernetAddress) (ip : Z) : AsyncNetworkInterface.t :=
  AsyncNetworkInterface.of_interface (NetworkInterface.init mac (Address.ipv4 ip 0)).

Lemma recv_arp_message dst src m i :
  dst = NetworkInterface._ethernet_address (AsyncNetworkInterface.base i) \/ dst = ETHERNET_BROADCAST ->
  ARPMessage.wf m -> ARPMessage.supported m = true ->
  exists payload, ARPMessage.serialize m = Ok payload /\
    Network.deliver [EthernetFrame.mk (EthernetHeader.mk dst src EthernetHeader.TYPE_ARP) (BufferList.of_string payload)] i =
      (b ← NetworkInterface.recv_arp m (AsyncNetworkInterface.base i); Ok (i <| AsyncNetworkInterface.base := b |>)).
Proof.
  intros Hd Hm Hs. destruct (ARPMessage.arp_message_read_back m ARPMessage.init Hm Hs) as (payload & Hser & Hl & Hp).
  exists payload. split; [done|]. cbn [Network.deliver EthernetFrame.header EthernetFrame._header EthernetFrame.payload EthernetFrame._payload].
  rewrite BufferList.concatenate_of_string by (rewrite Hl; vm_compute; split; congruence).
  unfold AsyncNetworkInterface.recv_frame. rewrite (fun H => proj1 (NetworkInterface.recv_frame_arp _ _ m H)).
  { by destruct (NetworkInterface.recv_arp m _). }
  split; [|split; [done|by eexists]].
  unfold NetworkInterface.for_me. cbn. destruct Hd as [->| ->]; [by rewrite bool_decide_eq_true_2|].
  apply orb_true_iff. right. by apply bool_decide_eq_true_2.
Qed.

Lemma recv_ipv4 src d i :
  IPv4Datagram.sendable d ->
  exists l v pl, IPv4Datagram.serialize d = Ok l /\ Buffer.str pl = BufferList.concatenate (IPv4Datagram._payload d) /\
    Network.deliver [EthernetFrame.mk (EthernetHeader.mk (NetworkInterface._ethernet_address (AsyncNetworkInterface.base i)) src
                       EthernetHeader.TYPE_IPv4) l] i =
      Ok (i <| AsyncNetworkInterface._datagrams_out := AsyncNetworkInterface._datagrams_out i ++
            [IPv4Datagram.mk ((IPv4Datagram._header d) <| IPv4Header.cksum := v |>) [pl]] |>).
Proof.
  intros Hd. destruct (IPv4Datagram.ipv4_datagram_read_back d IPv4Datagram.init Hd) as (l & v & Hs & Hu & _ & Hp).
  destruct (Hp (Buffer.of_string (BufferList.concatenate l))) as (p & pl & Hp1 & _ & _ & Hpl);
    [by apply Buffer.of_string_wf|by apply Buffer.str_of_string|].
  exists l, v, pl. split; [done|]. split; [done|].
  cbn [Network.deliver EthernetFrame.header EthernetFrame._header EthernetFrame.payload EthernetFrame._payload].
  unfold AsyncNetworkInterface.recv_frame, NetworkInterface.recv_frame, NetworkInterface.for_me. cbn.
  rewrite bool_decide_eq_true_2 by done. cbn. unfold BufferList.of_buffer in *. cbn in Hp1. rewrite Hp1. cbn. by destruct i.
Qed.

Definition no_frames (x : AsyncNetworkInterface.t) : AsyncNetworkInterface.t :=
  x <| AsyncNetworkInterface.base := (AsyncNetworkInterface.base x) <| NetworkInterface._frames_out := [] |> |>.

(** One side has a frame to send and the other has none. *)
Lemma exchange_to_right x y f y' :
  Network.frames_out x = [f] -> Network.frames_out y = [] -> Network.deliver [f] y = Ok y' ->
  Network.exchange_frames x y = Ok (no_frames x, y').
Proof.
  intros Hx Hy Hd. unfold Network.exchange_frames. rewrite Hx, Hy, Hd. cbn [mbind result_bind Network.deliver].
  unfold Network.clear_frames. rewrite Hx. cbn. by destruct y' as [[] ?].
Qed.

Lemma exchange_to_left x y f x' :
  Network.frames_out x = [] -> Network.frames_out y = [f] -> Network.deliver [f] x = Ok x' ->
  Network.exchange_frames x y = Ok (x', no_frames y).
Proof.
  intros Hx Hy Hd. unfold Network.exchange_frames. rewrite Hx, Hy. cbn [mbind result_bind Network.deliver] in *. rewrite Hd.
  cbn [mbind result_bind]. unfold Network.clear_frames. rewrite Hy. cbn. by destruct x' as [[] ?].
Qed.

(** The states on the way, [preq], [prep] and [l] being the serialised
    messages. *)
Section wire.
Variables (mac_x mac_y : EthernetAddress) (ip_x ip_y : Z) (d : IPv4Datagram.t).
Hypothesis Hx : is_u32 ip_x.
Hypothesis Hy : is_u32 ip_y.

Definition request : ARPMessage.t :=
  NetworkInterface.request_msg (NetworkInterface.init mac_x (Address.ipv4 ip_x 0)) ip_x ip_y.
Definition reply : ARPMessage.t :=
  NetworkInterface.reply_msg (NetworkInterface.init mac_y (Address.ipv4 ip_y 0)) ip_y request.

Definition asking (preq : bytes) : AsyncNetworkInterface.t :=
  AsyncNetworkInterface.mk (NetworkInterface.mk mac_x (Address.ipv4 ip_x 0)
    [EthernetFrame.mk (EthernetHeader.mk ETHERNET_BROADCAST mac_x EthernetHeader.TYPE_ARP) (BufferList.of_string preq)]
    ∅ [(d, Address.ipv4 ip_y 0)] 0 (<[ip_y := 0]> ∅)) [].
Definition answering (prep : bytes) : AsyncNetworkInterface.t :=
  AsyncNetworkInterface.mk (NetworkInterface.mk mac_y (Address.ipv4 ip_y 0)
    [EthernetFrame.mk (EthernetHeader.mk mac_x mac_y EthernetHeader.TYPE_ARP) (BufferList.of_string prep)]
    (<[ip_x := (mac_x, 0)]> ∅) [] 0 ∅) [].
Definition sending (l : BufferList.t) : AsyncNetworkInterface.t :=
  AsyncNetworkInterface.mk (NetworkInterface.mk mac_x (Address.ipv4 ip_x 0)
    [EthernetFrame.mk (EthernetHeader.mk mac_y mac_x EthernetHeader.TYPE_IPv4) l]
    (<[ip_y := (mac_y, 0)]> ∅) [] 0 (<[ip_y := 0]> ∅)) [].

Lemma wire_asks preq :
  ARPMessage.serialize request = Ok preq ->
  AsyncNetworkInterface.send_datagram d (Address.ipv4 ip_y 0) (fresh mac_x ip_x) = Ok (asking preq).
Proof.
  intros Hp. unfold AsyncNetworkInterface.send_datagram, NetworkInterface.send_datagram.
  rewrite Address.ipv4_numeric_eq by done. cbn. rewrite lookup_empty. cbn. rewrite Address.ipv4_numeric_eq by done. cbn.
  change (ARPMessage.serialize _) with (ARPMessage.serialize request). by rewrite Hp.
Qed.

Lemma wire_answers preq prep :
  ARPMessage.serialize reply = Ok prep ->
  Network.deliver (Network.frames_out (asking preq)) (fresh mac_y ip_y) =
    (b ← NetworkInterface.recv_arp request (AsyncNetworkInterface.base (fresh mac_y ip_y));
     Ok ((fresh mac_y ip_y) <| AsyncNetworkInterface.base := b |>)) ->
  Network.exchange_frames (asking preq) (fresh mac_y ip_y) = Ok (no_frames (asking preq), answering prep).
Proof.
  intros Hp Hd. apply exchange_to_right with (2 := eq_refl) (1 := eq_refl). refine (eq_trans Hd _).
  unfold NetworkInterface.recv_arp. cbn. unfold NetworkInterface.learn. cbn. rewrite lookup_empty.
  unfold NetworkInterface.recv_request. cbn. rewrite Address.ipv4_numeric_eq by done. cbn. rewrite Z.eqb_refl. cbn.
  change (ARPMessage.serialize _) with (ARPMessage.serialize reply). by rewrite Hp.
Qed.

Lemma wire_sends preq prep l :
  IPv4Datagram.serialize d = Ok l ->
  Network.deliver (Network.frames_out (answering prep)) (no_frames (asking preq)) =
    (b ← NetworkInterface.recv_arp reply (AsyncNetworkInterface.base (no_frames (asking preq)));
     Ok ((no_frames (asking preq)) <| AsyncNetworkInterface.base := b |>)) ->
  Network.exchange_frames (no_frames (asking preq)) (answering prep) = Ok (sending l, no_frames (answering prep)).
Proof.
  intros Hp Hd. apply exchange_to_left with (2 := eq_refl) (1 := eq_refl). refine (eq_trans Hd _).
  unfold NetworkInterface.recv_arp. cbn. unfold NetworkInterface.learn. cbn. rewrite lookup_empty.
  unfold NetworkInterface.recv_reply. cbn. rewrite Address.ipv4_numeric_eq by done. cbn. rewrite Z.eqb_refl. cbn.
  unfold NetworkInterface.send_datagram. rewrite Address.ipv4_numeric_eq by done. cbn. by rewrite lookup_insert_eq, Hp.
Qed.

End wire.

(** C36: a wire delivers.  Between two new interfaces that know nothing of each
    other, a datagram that can be sent arrives after three exchanges of
    frames (the ARP request, the reply, the datagram): the receiver then holds
    exactly that datagram, with the same header but for the checksum and the
    same payload, and nothing is left waiting on either side. *)
Theorem wire_delivers mac_x mac_y ip_x ip_y d :
  length mac_x = 6%nat -> length mac_y = 6%nat -> is_u32 ip_x -> is_u32 ip_y -> IPv4Datagram.sendable d ->
  exists x x' y' v pl,
    AsyncNetworkInterface.send_datagram d (Address.ipv4 ip_y 0) (fresh mac_x ip_x) = Ok x /\
    exchanges 3 x (fresh mac_y ip_y) = Ok (x', y') /\
    AsyncNetworkInterface.datagrams_out y' = [IPv4Datagram.mk ((IPv4Datagram._header d) <| IPv4Header.cksum := v |>) [pl]] /\
    Buffer.str pl = BufferList.concatenate (IPv4Datagram._payload d) /\
    Network.frames_out x' = [] /\ Network.frames_out y' = [] /\
    NetworkInterface._pending_list (AsyncNetworkInterface.base x') = [].
Proof.
  intros Lx Ly Hx Hy Hd. pose (req := request mac_x ip_x ip_y). pose (rep := reply mac_x mac_y ip_x ip_y).
  assert (ARPMessage.wf req) as Wreq by (by apply NetworkInterface.request_msg_wf).
  assert (ARPMessage.wf rep) as Wrep by (by apply NetworkInterface.reply_msg_wf).
  destruct (recv_arp_message ETHERNET_BROADCAST mac_x req (fresh mac_y ip_y)) as (preq & Sreq & Dreq); [by right|done|done|].
  destruct (recv_arp_message mac_x mac_y rep (no_frames (asking mac_x ip_x ip_y d preq))) as (prep & Srep & Drep); [by left|done|done|].
  destruct (recv_ipv4 mac_x d (no_frames (answering mac_x mac_y ip_x ip_y prep)) Hd) as (l & v & pl & Sd & Hpl & Dd).
  exists (asking mac_x ip_x ip_y d preq). do 2 eexists. exists v, pl. split; [by apply wire_asks|].
  cbn [exchanges]. rewrite (wire_answers mac_x mac_y ip_x ip_y d Hy preq prep Srep Dreq). cbn [mbind result_bind].
  rewrite (wire_sends mac_x mac_y ip_x ip_y d Hy preq prep l Sd Drep). cbn [mbind result_bind].
  rewrite (exchange_to_right (sending mac_x mac_y ip_x ip_y l) (no_frames (answering mac_x mac_y ip_x ip_y prep)) _ _ eq_refl eq_refl Dd). cbn. done.
Qed.

Lemma wire_delivers_witness :
  exists x x' y', AsyncNetworkInterface.send_datagram IPv4Datagram.sample (Address.ipv4 0x0a000002 0)
      (fresh NetworkInterface.mac_a 0x0a000001) = Ok x /\
    exchanges 3 x (fresh NetworkInterface.mac_b 0x0a000002) = Ok (x', y') /\
    length (AsyncNetworkInterface.datagrams_out y') = 1%nat.
Proof.
  destruct (wire_delivers NetworkInterface.mac_a NetworkInterface.mac_b 0x0a000001 0x0a000002 IPv4Datagram.sample)
    as (x & x' & y' & v & pl & H1 & H2 & H3 & _); [reflexivity|reflexivity|word_lia|word_lia|apply NetworkInterface.sample_deliverable|].
  exists x, x', y'. split; [exact H1|]. split; [exact H2|]. rewrite H3. reflexivity.
Defined.

End Wire.

Module Simulator.

(** ** The scenarios *)

Definition send_from (source : string) (destination : Address.t) (ttl : Z) (draw : N) (n : Network.t) :
    result (IPv4Datagram.t * Network.t) :=
  h ← Network.host source n;
  '(dgram_sent, h) ← Host.send_to destination ttl draw h;
  Ok (dgram_sent, Network.set_host source h n).

(** A datagram that a host must receive, with its TTL decremented. *)
Definition expect_at (source : string) (destination : Address.t) (draw : N) (receiver : string) (n : Network.t) : result Network.t :=
  '(dgram_sent, n) ← send_from source destination 64 draw n;
  let dgram_sent := dgram_sent <| IPv4Datagram._header := (IPv4Datagram._header dgram_sent) <| IPv4Header.ttl :=
                      u8 (IPv4Header.ttl (IPv4Datagram.header dgram_sent) - 1) |> |> in
  h ← Network.host receiver n;
  Network.simulate (Network.set_host receiver (Host.expect dgram_sent h) n).

(** A datagram that nobody may receive. *)
Definition expire (source : string) (destination : Address.t) (ttl : Z) (draw : N) (n : Network.t) : result Network.t :=
  '(_, n) ← send_from source destination ttl draw n;
  Network.simulate n.

Definition address_of (name : string) (n : Network.t) : result Address.t :=
  h ← Network.host name n; Ok (Host.address h).

Definition network_simulator (draws : nat -> bytes) (payloads : nat -> N) : result Network.t :=
  n ← Network.init draws;
  cherrypie ← address_of "cherrypie" n;
  n ← expect_at "applesauce" cherrypie (payloads 0%nat) "cherrypie" n;
  applesauce ← address_of "applesauce" n;
  n ← expect_at "cherrypie" applesauce (payloads 1%nat) "applesauce" n;
  n ← expect_at "applesauce" (addr 1 2 3 4) (payloads 2%nat) "default_router" n;
  n ← expect_at "applesauce" (addr 143 195 131 17) (payloads 3%nat) "hs_router" n;
  n ← expect_at "cherrypie" (addr 143 195 193 52) (payloads 4%nat) "hs_router" n;
  n ← expect_at "cherrypie" (addr 143 195 223 255) (payloads 5%nat) "hs_router" n;
  n ← expect_at "cherrypie" (addr 143 195 224 0) (payloads 6%nat) "default_router" n;
  dm43 ← address_of "dm43" n;
  n ← expect_at "dm42" dm43 (payloads 7%nat) "dm43" n;
  n ← expire "applesauce" (addr 1 2 3 4) 1 (payloads 8%nat) n;
  expire "applesauce" (addr 1 2 3 4) 0 (payloads 9%nat) n.

(** ** The whole program *)

Definition is_ok {A} (r : result A) : bool := match r with Ok _ => true | _ => false end.

(** Ethernet addresses that differ in their last byte. *)
Definition sample_draws (n : nat) : bytes := replicate 5 x00 ++ [byte_of (Z.of_nat n)].

(** The ten scenarios succeed on such a network: every datagram reaches the
    host that the routing table says, once and with its TTL decremented, and
    those whose TTL runs out reach nobody. *)
Theorem network_simulator_succeeds : is_ok (network_simulator sample_draws N.of_nat) = true.
Proof. vm_compute. reflexivity. Qed.

End Simulator.
