(* ===== verification/apps.v ===== *)
(** * The programs of [apps/]

    [tcp_ipv4.cc], [tcp_udp.cc], [tcp_ip_ethernet.cc], [tcp_native.cc],
    [webget.cc], [tun.cc], [tcp_benchmark.cc], [network_simulator.cc] and
    [selftest.cc]: their [main] functions over the
    library.  The kernel, the resolver and the random numbers are the outside
    world, as in the files of the components; what a program writes to [cerr]
    is left out.  A [main] that returns [EXIT_SUCCESS] yields the record of its
    copy loop; one that returns [EXIT_FAILURE] does what [exit] does. *)

From S2P Require Import Prelude.
From S2P Require Import byte_stream.
From S2P Require Import stream_reassembler.
From S2P Require Import buffer.
From S2P Require Import parser.
From S2P Require Import util.
From S2P Require Import tcp_segment.
From S2P Require Import ipv4_datagram.
From S2P Require Import ethernet_frame.
From S2P Require Import address.
From S2P Require Import printing.
From S2P Require Import network_interface.
From S2P Require Import tcp_sender.
From S2P Require Import file_descriptor.
From S2P Require Import socket.
From S2P Require Import tun.
From S2P Require Import eventloop.
From S2P Require Import fd_adapter.
From S2P Require Import command_line.
From S2P Require Import tcp_sponge_socket.
From S2P Require Import tcp_sponge_loop.
From S2P Require Import bidirectional_stream_copy.
From S2P Require Import tcp_benchmark.
From S2P Require Import network_simulator.

(** [catch (const exception &e)]: undefined behaviour is not caught. *)
Definition thrown (e : exn) : bool := match e with UndefinedBehaviour _ => false | _ => true end.

Definition try {A} (body : outcome A) : outcome A :=
  match body with
  | Raises e => if thrown e then Exits EXIT_FAILURE [] else Raises e
  | o => o
  end.

(** The descriptors that [bidirectional_stream_copy] makes. *)
Definition STDIN : FileDescriptor.t := FileDescriptor.mk 0 false false 0 0.
Definition STDOUT : FileDescriptor.t := FileDescriptor.mk 1 false false 0 0.

(** What is left of a copy: the rules of its loop and its world. *)
Definition copied : Type := list (EventLoop.Rule StreamCopy.world) * StreamCopy.world.

(** [bidirectional_stream_copy(socket)], which returns or does not. *)
Definition copy (env : StreamCopy.Environment) (blocking : Z -> Z * Z) (polls : list EventLoop.answer) (socket : FileDescriptor.t)
    : outcome copied :=
  '(returned, rules, w) ← lift (StreamCopy.bidirectional_stream_copy env blocking polls STDIN STDOUT socket);
  if (returned : bool) then Returns (rules, w) else Hangs.

(** ** The programs that use a [TCPSpongeSocket] *)

Section session.
Context {AdaptT I O : Type} `{!Adapter AdaptT I O} `{!Device I O}.

(** The kernel's answers from the construction of the socket to its end. *)
Record kernel : Type := mk_kernel {
  k_socketpair : call;
  k_fds : Z * Z;
  k_checks : Z -> Socket.option_answer;
  k_getfl : Z * Z;
  k_setfl : Z * Z;
  k_env : TCPSpongeLoop.Environment (I := I) (O := O);
  k_random : Z;
  k_turns : list TCPSpongeLoop.turn;
  k_thread_shutdown : call;
  k_copy : StreamCopy.Environment;
  k_blocking : Z -> Z * Z;
  k_polls : list EventLoop.answer;
  k_shutdown : call
}.

(** [_tcp_thread.join()]: an exception that leaves the thread ends the
    program. *)
Definition join (k : kernel) (turns : list TCPSpongeLoop.turn) (o : TCPSpongeLoop.object) : outcome () :=
  match TCPSpongeLoop._tcp_main (k_env k) turns (k_thread_shutdown k) o with
  | Ok _ => Returns ()
  | Throw e => if thrown e then Aborts else Raises e
  | OutOfFuel => Hangs
  end.

(** From the adapter to the end of [main]: the socket, the connection, the
    copy and [wait_until_closed].  The second thread runs from the time the
    connection is open; it is joined by [wait_until_closed], or by the
    destructor of the socket when an exception passes it. *)
Definition session (k : kernel) (adapter : AdaptT) (device : FileDescriptor.t) (listen : bool) (c_fsm : TCPConfig.t)
    (c_filt : FdAdapterConfig.t) : outcome copied :=
  o ← lift (TCPSpongeLoop.construct (k_socketpair k) (k_fds k) (k_checks k) (k_getfl k) (k_setfl k) adapter device);
  '(turns, o) ← lift (if listen then TCPSpongeLoop.listen_and_accept (k_env k) c_fsm (k_random k) c_filt (k_turns k) o
                      else TCPSpongeLoop.connect (k_env k) c_fsm (k_random k) c_filt (k_turns k) o);
  let owner :=
    '(rules, w) ← copy (k_copy k) (k_blocking k) (k_polls k) (TCPSpongeLoop._local o);
    _ ← lift (TCPSpongeLoop.wait_until_closed (k_shutdown k) (o <| TCPSpongeLoop._local := StreamCopy._socket w |>));
    Returns (rules, w) in
  match owner with
  | Hangs => Hangs
  | r => _ ← join k turns o; r
  end.
End session.
Arguments kernel : clear implicits.
Arguments kernel I O {_}.

(** The test that opens the three programs. *)
Definition required (show_usage : bytes -> option bytes -> bytes) (argv : list bytes) : outcome () :=
  if zlen argv <? 3 then
    argv0 ← arg argv 0; Exits EXIT_FAILURE (show_usage argv0 (Some (lit "ERROR: required arguments are missing.")))
  else Returns ().

Section programs.
Context (getaddrinfo : Address.resolver) (loss_of : bytes -> Z) (draws : list Z) (random : Z).
Context (open : call) (ioctl : TunTapFD.ifreq -> call).

Definition tcp_ipv4_main (k : kernel bytes BufferList.t) (argv : list bytes) : outcome copied :=
  try (_ ← required TcpIpv4.show_usage argv;
       c ← TcpIpv4.get_config getaddrinfo loss_of argv random;
       tun ← lift (TunTapFD.TunFD open ioctl (default TcpIpv4.TUN_DFLT (dev c)));
       session k (LossyFdAdapter.init draws FdAdapterBase.init) tun (listen c) (c_fsm c) (c_filt c)).

(** [socket] and [bind] are the kernel's answers for the UDP socket. *)
Definition tcp_udp_main (socket bind : call) (k : kernel UDPSocket.received_datagram (Address.t * BufferList.t)) (argv : list bytes)
    : outcome copied :=
  try (_ ← required TcpUdp.show_usage argv;
       c ← TcpUdp.get_config getaddrinfo loss_of argv;
       udp_sock ← lift (UDPSocket.init socket);
       _ ← (if listen c then lift (Socket.bind bind) else Returns ());
       session k (LossyFdAdapter.init draws FdAdapterBase.init) udp_sock (listen c) (c_fsm c) (c_filt c)).

(** [draw] are the random bytes of the Ethernet address; [first] are the
    answers to the write of the frame that the adapter's constructor sends. *)
Definition tcp_ip_ethernet_main (draw : EthernetAddress) (first : list (Z * Z)) (k : kernel bytes BufferList.t) (argv : list bytes)
    : outcome copied :=
  try (_ ← required TcpIpEthernet.show_usage argv;
       let local_ethernet_address := TcpIpEthernet.private_address draw in
       '(c, next_hop) ← TcpIpEthernet.get_config getaddrinfo argv random;
       tap ← lift (TunTapFD.TapFD open ioctl (default TcpIpEthernet.TAP_DFLT (dev c)));
       let '(frames, adapter) :=
         TCPOverIPv4OverEthernetAdapter.init local_ethernet_address (FdAdapterConfig.source (c_filt c)) next_hop in
       tap ← lift (FileDescriptor.write first (BufferViewList.of_buffers (concat frames)) true tap);
       session k adapter tap.2 false (c_fsm c) (c_filt c)).
End programs.

(** ** [tcp_native.cc] *)

Record native_kernel : Type := mk_native {
  n_socket : call;
  n_setsockopt : call;
  n_bind : call;
  n_listen : call;
  n_accept : call;
  n_checks : Z -> Socket.option_answer;
  n_connect : call;
  n_copy : StreamCopy.Environment;
  n_blocking : Z -> Z * Z;
  n_polls : list EventLoop.answer
}.

(** The test of the arguments, and whether they ask for server mode. *)
Definition native_mode (argv : list bytes) : outcome bool :=
  if zlen argv <? 3 then Exits EXIT_FAILURE [] else
  a ← arg argv 1;
  let server_mode := strncmp_eq 3 (lit "-l") a in
  if server_mode && (zlen argv <? 4) then Exits EXIT_FAILURE [] else Returns server_mode.

Definition tcp_native_main (getaddrinfo : Address.resolver) (k : native_kernel) (argv : list bytes) : outcome copied :=
  try (server_mode ← native_mode argv;
       socket ← (if (server_mode : bool) then
                   listening_socket ← lift (TCPSocket.init (n_socket k));
                   _ ← lift (Socket.set_reuseaddr (n_setsockopt k));
                   host ← arg argv 2; port ← arg argv 3; _ ← names getaddrinfo host port;
                   _ ← lift (Socket.bind (n_bind k));
                   _ ← lift (TCPSocket.listen (n_listen k));
                   '(conn, _) ← lift (TCPSocket.accept (n_accept k) (n_checks k 0) (n_checks k 1) listening_socket);
                   Returns conn
                 else
                   connecting_socket ← lift (TCPSocket.init (n_socket k));
                   host ← arg argv 1; port ← arg argv 2; _ ← names getaddrinfo host port;
                   _ ← lift (Socket.connect (n_connect k));
                   Returns connecting_socket);
       copy (n_copy k) (n_blocking k) (n_polls k) socket).

(** ** [webget.cc] *)

Definition crlf : bytes := [x0d; x0a].

(** [reqs]. *)
Definition requests (host path : bytes) : list bytes :=
  [lit "GET " ++ path ++ lit " HTTP/1.1" ++ crlf; lit "Host: " ++ host ++ crlf; lit "Connection: close" ++ crlf; crlf].

Record web_kernel : Type := mk_web {
  w_open : call;
  w_ioctl : TunTapFD.ifreq -> call;
  w_draw : EthernetAddress;
  w_first : list (Z * Z);
  w_kernel : kernel bytes BufferList.t;
  w_port : Z;
  w_send : list Z;
  w_reads : list FileDescriptor.kernel;
  w_close : call;
  w_shutdown : FileDescriptor.t -> call
}.

Section webget.
Context (getaddrinfo : Address.resolver) (k : web_kernel).

(** The address, the socket and the connection; the two local addresses are
    dotted quads. *)
Definition web_open (host : bytes) : outcome (list TCPSpongeLoop.turn * TCPSpongeLoop.object (AdaptT := TCPOverIPv4OverEthernetAdapter.t)) :=
  addr ← names getaddrinfo host (lit "http");
  tap ← lift (TunTapFD.TapFD (w_open k) (w_ioctl k) (lit "tap10"));
  let '(frames, adapter) := TCPSpongeLoop.FullStackSocket (w_draw k) in
  tap ← lift (FileDescriptor.write (w_first k) (BufferViewList.of_buffers (concat frames)) true tap);
  let kk := w_kernel k in
  skt ← lift (TCPSpongeLoop.construct (k_socketpair kk) (k_fds kk) (k_checks kk) (k_getfl kk) (k_setfl kk) adapter tap.2);
  lift (TCPSpongeLoop.FullStack_connect (k_env kk) (w_port k) addr (k_random kk) (k_turns kk) skt).

(** What the kernel takes of the requests; the return values of [send] are not
    looked at. *)
Definition sent (host path : bytes) : bytes := concat (zip_with (fun s n => substr0 s n) (requests host path) (w_send k)).

(** [while (!skt.eof()) cout << skt.read();] *)
Fixpoint read_loop (answers : list FileDescriptor.kernel) (skt : FileDescriptor.t) (cout : bytes) : bytes * outcome FileDescriptor.t :=
  if FileDescriptor.eof skt then (cout, Returns skt) else
  match answers with
  | [] => (cout, Hangs)
  | a :: answers =>
      match FileDescriptor.read npos a skt with
      | Ok (data, skt) => read_loop answers skt (cout ++ data)
      | Throw e => (cout, Raises e)
      | OutOfFuel => (cout, Hangs)
      end
  end.

(** What is sent, what is printed, and how the function ends. *)
Definition get_URL (host path : bytes) : bytes * bytes * outcome () :=
  match web_open host with
  | Returns (turns, o) =>
      let '(cout, r) := read_loop (w_reads k) (TCPSpongeLoop._local o) [] in
      let owner :=
        skt ← r;
        skt ← lift (FileDescriptor.close (w_close k).1 (w_close k).2 skt);
        _ ← lift (TCPSpongeLoop.wait_until_closed (w_shutdown k skt) (o <| TCPSpongeLoop._local := skt |>));
        Returns () in
      (sent host path, cout, match owner with Hangs => Hangs | r => _ ← join (w_kernel k) turns o; r end)
  | r => ([], [], _ ← r; Returns ())
  end.

Definition webget_main (argv : list bytes) : bytes * bytes * outcome () :=
  if zlen argv <=? 0 then ([], [], Aborts) else
  if negb (zlen argv =? 3) then ([], [], Exits EXIT_FAILURE []) else
  match arg argv 1, arg argv 2 with
  | Returns host, Returns path => let '(out, cout, r) := get_URL host path in (out, cout, try r)
  | _, _ => ([], [], Raises (UndefinedBehaviour "argv"))
  end.
End webget.

(** ** [tun.cc] *)

(** One turn of the loop: what is printed for a packet. *)
Definition tun_report (buffer : bytes) : result bytes :=
  let cout := newline ++ newline ++ lit "***" ++ newline ++ lit "*** Got packet:" ++ newline ++ lit "***" ++ newline ++
              hexdump buffer 0 ++ lit "attempting to parse as ipv4 datagram... " in
  '(res, ip_dgram) ← IPv4Datagram.parse (Buffer.of_string buffer) IPv4Datagram.init;
  if negb (bool_decide (res = NoError)) then Ok (cout ++ lit "failed." ++ newline) else
  let header := IPv4Datagram.header ip_dgram in
  let cout := cout ++ lit "success! totlen=" ++ dec (IPv4Header.len header) ++ lit ", IPv4 header contents:" ++ newline ++
              IPv4HeaderText.to_string header in
  if negb (IPv4Header.proto header =? IPv4Header.PROTO_TCP) then Ok (cout ++ newline ++ lit "Not TCP, skipping." ++ newline) else
  let cout := cout ++ newline ++ lit "Attempting to parse as a TCP segment... " in
  payload ← BufferList.to_Buffer (IPv4Datagram.payload ip_dgram);
  '(res, tcp_seg) ← TCPSegment.parse payload (IPv4Header.pseudo_cksum header) TCPSegment.init;
  if negb (bool_decide (res = NoError)) then Ok (cout ++ lit "failed." ++ newline) else
  Ok (cout ++ lit "success! payload len=" ++ dec (Buffer.size (TCPSegment.payload tcp_seg)) ++ lit ", TCP header contents:" ++ newline ++
      TCPHeaderText.to_string (TCPSegment.header tcp_seg) ++ newline).

(** The loop, for the kernel's answers to [read]; it ends with an exception. *)
Fixpoint tun_loop (answers : list FileDescriptor.kernel) (tun : FileDescriptor.t) (cout : bytes) : bytes * outcome () :=
  match answers with
  | [] => (cout, Hangs)
  | a :: answers =>
      match ('(buffer, tun) ← FileDescriptor.read npos a tun; text ← tun_report buffer; Ok (text, tun)) with
      | Ok (text, tun) => tun_loop answers tun (cout ++ text)
      | Throw e => (cout, Raises e)
      | OutOfFuel => (cout, Hangs)
      end
  end.

(** The message of an exception goes to [cout]; [what] is its text. *)
Definition tun_main (what : exn -> bytes) (open : call) (ioctl : TunTapFD.ifreq -> call) (answers : list FileDescriptor.kernel)
    : bytes * outcome () :=
  let '(cout, r) :=
    match TunTapFD.TunFD open ioctl (lit "tun144") with
    | Ok tun => tun_loop answers tun []
    | Throw e => ([], Raises e)
    | OutOfFuel => ([], Hangs)
    end in
  (match r with Raises e => cout ++ lit "Exception: " ++ what e ++ newline | _ => cout end, try r).

(** ** [selftest.cc] *)

Definition selftest_main : result bytes :=
  let re := StreamReassembler.init 1 in
  re ← StreamReassembler.push_substring (lit "ab") 0 false re;
  '(_, out) ← ByteStream.read 1 (StreamReassembler.stream_out re);
  let re := re <| StreamReassembler._output := out |> in
  re ← StreamReassembler.push_substring (lit "abc") 0 false re;
  Ok (dec (ByteStream.bytes_written (StreamReassembler.stream_out re)) ++ newline).

(** ** [tcp_benchmark.cc] and [network_simulator.cc] *)

(** A run without reordering and one with it, each with its string and its
    initial sequence numbers. *)
Definition tcp_benchmark_main (fuel : nat) (strings : bytes * bytes) (randoms : (Z * Z) * (Z * Z)) : outcome () :=
  try (_ ← lift (TCPBenchmark.main_loop fuel false (strings.1) (randoms.1.1) (randoms.1.2));
       _ ← lift (TCPBenchmark.main_loop fuel true (strings.2) (randoms.2.1) (randoms.2.2));
       Returns ()).

Definition network_simulator_main (draws : nat -> bytes) (payloads : nat -> N) : outcome () :=
  try (_ ← lift (Simulator.network_simulator draws payloads); Returns ()).

(** ** A run of [tcp_native] *)

(** A client that connects to the host of [one_host]. *)
Definition sample_native : native_kernel :=
  mk_native (3, 0) (0, 0) (0, 0) (0, 0) (0, 0) (fun _ => Socket.mk_option (0, 0) 0 4) (0, 0)
    StreamCopy.sample_kernel (fun _ => (0, 0)) StreamCopy.sample_polls.

Definition sample_client : list bytes := [lit "tcp_native"; lit "cs144.keithw.org"; lit "http"].

Lemma sample_native_runs :
  exists rules w, tcp_native_main one_host sample_native sample_client = Returns (rules, w) /\
    StreamCopy.rule2 StreamCopy.sample_kernel ∈ rules /\ StreamCopy.to_socket w = [x01; x02; x03].
Proof.
  destruct StreamCopy.sample_copy_returns as (rules & w & E & Hr & Hs). exists rules, w. split; [|split; [exact Hr|exact Hs]].
  assert (tcp_native_main one_host sample_native sample_client =
          try (copy StreamCopy.sample_kernel (fun _ => (0, 0)) StreamCopy.sample_polls (FileDescriptor.mk 3 false false 0 0))) as -> by reflexivity.
  unfold copy, STDIN, STDOUT. rewrite E. reflexivity.
Qed.

(** ** [webget] prints everything and fails *)

Lemma outcome_bind_Returns {A B} (o : outcome A) (f : A -> outcome B) b :
  o ≫= f = Returns b -> exists a, o = Returns a /\ f a = Returns b.
Proof. destruct o; cbn; intros H; try discriminate H. eauto. Qed.

Lemma lift_Returns {A} (r : result A) a : lift r = Returns a -> r = Ok a.
Proof. destruct r; cbn; congruence. Qed.

Lemma try_Returns {A} (o : outcome A) a : try o = Returns a -> o = Returns a.
Proof. destruct o; cbn; try done. by case_match. Qed.

Lemma run_loop_local {AdaptT I O} `{!Adapter AdaptT I O} `{!Device I O} (env : TCPSpongeLoop.Environment (I := I) (O := O)) turns condition
    (o : TCPSpongeLoop.object (AdaptT := AdaptT)) turns' o' :
  TCPSpongeLoop.run_loop env turns condition o = Ok (turns', o') -> TCPSpongeLoop._local o' = TCPSpongeLoop._local o.
Proof. unfold TCPSpongeLoop.run_loop. by intros ([[t r] w] & _ & [= _ <-])%result_bind_Ok. Qed.

Lemma web_open_local getaddrinfo k host turns o :
  web_open getaddrinfo k host = Returns (turns, o) -> FileDescriptor.eof (TCPSpongeLoop._local o) = false.
Proof.
  unfold web_open. intros H. apply outcome_bind_Returns in H as (addr & _ & H). apply outcome_bind_Returns in H as (tap & _ & H).
  destruct (TCPSpongeLoop.FullStackSocket (w_draw k)) as [frames adapter].
  apply outcome_bind_Returns in H as (tap' & _ & H). cbn zeta in H.
  apply outcome_bind_Returns in H as (skt & Hc%lift_Returns & H%lift_Returns).
  unfold TCPSpongeLoop.FullStack_connect, TCPSpongeLoop.connect_from in H. apply result_bind_Ok in H as (source & _ & H).
  unfold TCPSpongeLoop.connect in H. case_match; [done|]. cbn zeta in H. apply result_bind_Ok in H as (s & _ & H).
  rewrite (run_loop_local _ _ _ _ _ _ H). cbn. clear H.
  unfold TCPSpongeLoop.construct, TCPSpongeLoop.socket_pair_helper, LocalStreamSocket.of_fd, Socket.of_fd, FileDescriptor.init in Hc.
  repeat match goal with
  | H : _ ≫= _ = Ok _ |- _ => apply result_bind_Ok in H as (? & ? & ?)
  | H : (if _ then _ else _) = Ok _ |- _ => case_match; [discriminate H|]
  | H : Ok _ = Ok _ |- _ => injection H as H; subst
  | H : (match ?x with (_, _) => _ end) = Ok _ |- _ => destruct x
  end. simplify_eq. reflexivity.
Qed.

(** An answer of [read] that delivers [data]. *)
Definition answer (data : bytes) : FileDescriptor.kernel := FileDescriptor.mk_kernel (zlen data) 0 data.

Lemma read_loop_prints chunks rest skt cout :
  FileDescriptor.eof skt = false -> Forall (fun d => 0 < zlen d <= FileDescriptor.BUFFER_SIZE) chunks ->
  exists skt', read_loop ((answer <$> chunks) ++ answer [] :: rest) skt cout = (cout ++ concat chunks, Returns skt').
Proof.
  intros He Hc. revert skt cout He. assert (0 <= npos /\ FileDescriptor.BUFFER_SIZE <= npos) as [Hn Hb] by by vm_compute.
  induction Hc as [|d chunks Hd _ IH]; intros skt cout He; cbn [fmap list_fmap app].
  - cbn [read_loop]. rewrite He. pose proof (FileDescriptor.read_spec npos (answer []) skt Hn) as H.
    destruct H as [-> _]; [right; by vm_compute|]. cbn [answer FileDescriptor.k_data FileDescriptor.k_ret].
    eexists. rewrite !app_nil_r. destruct rest; reflexivity.
  - cbn [read_loop]. rewrite He. pose proof (FileDescriptor.read_spec npos (answer d) skt Hn) as H.
    cbn [answer FileDescriptor.k_ret FileDescriptor.k_data] in H. rewrite (proj2 (Z.ltb_ge _ _)) in H by lia.
    destruct H as [-> _]; [right; cbn; split; [done|lia]|]. rewrite (proj2 (Z.eqb_neq _ _)), andb_false_r by lia.
    destruct (IH (FileDescriptor.register_read skt) (cout ++ d) He) as [skt' E]. exists skt'. rewrite E. by rewrite <- app_assoc.
Qed.

Definition EBADF : Z := 9.

(** What [shutdown(2)] says of a descriptor that is not open. *)
Definition shutdown_checks (shutdown : FileDescriptor.t -> call) : Prop :=
  forall fd, FileDescriptor.closed fd = true -> shutdown fd = (-1, EBADF).

Lemma wait_after_close k o ret errno skt skt' :
  shutdown_checks (w_shutdown k) -> FileDescriptor.close ret errno skt = Ok skt' ->
  TCPSpongeLoop.wait_until_closed (AdaptT := TCPOverIPv4OverEthernetAdapter.t) (w_shutdown k skt') o = Throw (UnixError "shutdown" EBADF).
Proof.
  intros Hs (x & _ & [= <-])%result_bind_Ok. unfold TCPSpongeLoop.wait_until_closed, Socket.shutdown, run_call.
  rewrite Hs by done. reflexivity.
Qed.

Lemma join_never {I O} `{!Device I O} {AdaptT} `{!Adapter AdaptT I O} (k : kernel I O) turns (o : TCPSpongeLoop.object (AdaptT := AdaptT))
    (r : outcome ()) : r <> Returns () -> (match r with Hangs => Hangs | r => _ ← join k turns o; r end) <> Returns ().
Proof. intros Hr. destruct r; try done; cbn; by destruct (join k turns o). Qed.

(** C40: [webget] prints the whole response and then fails.  Whatever pieces
    the response comes in, they are printed in order up to its end.  But the
    program closes its socket before it waits for it, and a descriptor that is
    not open cannot be shut down, so that it never ends with success: once the
    response is printed and the second thread is done, it exits with a
    failure. *)
Theorem webget_fails getaddrinfo k :
  shutdown_checks (w_shutdown k) ->
  (forall argv, (webget_main getaddrinfo k argv).2 <> Returns ()) /\
  (forall argv0 host path turns o chunks rest,
     web_open getaddrinfo k host = Returns (turns, o) ->
     w_reads k = (answer <$> chunks) ++ answer [] :: rest ->
     Forall (fun d => 0 < zlen d <= FileDescriptor.BUFFER_SIZE) chunks ->
     0 <= (w_close k).1 -> join (w_kernel k) turns o = Returns () ->
     webget_main getaddrinfo k [argv0; host; path] = (sent k host path, concat chunks, Exits EXIT_FAILURE [])).
Proof.
  intros Hs. split.
  - intros argv. unfold webget_main. case_match; [done|]. case_match; [done|]. do 2 (case_match; try done).
    destruct (get_URL getaddrinfo k _ _) as [[out cout] r] eqn:E. cbn. intros Hr%try_Returns. subst r. revert E. unfold get_URL.
    destruct (web_open getaddrinfo k _) as [[turns o]| | | |]; [|cbn; congruence..].
    destruct (read_loop _ _ _) as [cout' r]. cbn zeta. intros [= _ _ E]. revert E. apply join_never.
    destruct r as [skt| | | |]; cbn; try done.
    destruct (FileDescriptor.close _ _ skt) as [skt'| |] eqn:Ec; cbn; try done. by rewrite (wait_after_close k _ _ _ _ _ Hs Ec).
  - intros argv0 host path turns o chunks rest Ho Hr Hc Hcl Hj. unfold webget_main. cbn [zlen length].
    change (arg [argv0; host; path] 1) with (Returns host). change (arg [argv0; host; path] 2) with (Returns path). cbn.
    unfold get_URL. rewrite Ho, Hr. destruct (read_loop_prints chunks rest _ [] (web_open_local _ _ _ _ _ Ho) Hc) as [skt ->].
    cbn [app mbind outcome_bind]. destruct (FileDescriptor.close _ _ skt) as [skt'| |] eqn:Ec;
      [|unfold FileDescriptor.close, SystemCall in Ec; by rewrite (proj2 (Z.leb_le _ _)) in Ec by done..].
    cbn [lift mbind outcome_bind]. rewrite (wait_after_close k _ _ _ _ _ Hs Ec). cbn. rewrite Hj. reflexivity.
Qed.

(** A [webget] whose connection is aborted after its SYN, and whose socket then
    delivers two pieces. *)
Definition sample_web : web_kernel :=
  mk_web (5, 0) (fun _ => (0, 0)) (replicate 6 x00) [(14, 0)]
    (mk_kernel (0, 0) (3, 4) TCPSpongeLoop.sample_checks (0, 0) (0, 0)
       (TCPSpongeLoop.mk_environment (fun _ => FileDescriptor.mk_kernel 0 0 []) (fun _ _ => [(42, 0)])
          (fun _ _ => FileDescriptor.mk_kernel 0 0 []) (fun _ => (0, 0)) (fun _ => (0, 0)))
       0 [TCPSpongeLoop.mk_turn (EventLoop.mk_answer 1 0 [0; 0; 0; EventLoop.POLLOUT]) true 10;
          TCPSpongeLoop.mk_turn (EventLoop.mk_answer 0 0 [0; 0; 0; 0]) true 10]
       (0, 0) StreamCopy.sample_kernel (fun _ => (0, 0)) [] (0, 0))
    1024 [100; 100; 100; 2] [answer (lit "HTTP/1.1 "); answer (lit "200 OK"); answer []] (0, 0)
    (fun fd => if FileDescriptor.closed fd then (-1, EBADF) else (0, 0)).

Definition web_joined (k : web_kernel) (host : bytes) : bool :=
  match web_open one_host k host with
  | Returns (turns, o) => match join (w_kernel k) turns o with Returns _ => true | _ => false end
  | _ => false
  end.

Lemma web_joined_runs k host :
  web_joined k host = true -> exists turns o, web_open one_host k host = Returns (turns, o) /\ join (w_kernel k) turns o = Returns ().
Proof.
  unfold web_joined. destruct (web_open one_host k host) as [[turns o]| | | |]; try done. intros H. exists turns, o. split; [done|].
  by destruct (join (w_kernel k) turns o) as [[]| | | |].
Qed.

Lemma sample_web_joined : web_joined sample_web (lit "cs144.keithw.org") = true.
Proof. vm_compute. reflexivity. Qed.

Lemma webget_fails_witness :
  webget_main one_host sample_web [lit "webget"; lit "cs144.keithw.org"; lit "/hello"] =
    (sent sample_web (lit "cs144.keithw.org") (lit "/hello"), lit "HTTP/1.1 200 OK", Exits EXIT_FAILURE []).
Proof.
  destruct (web_joined_runs _ _ sample_web_joined) as (turns & o & Ho & Hj).
  refine (proj2 (webget_fails one_host sample_web _) (lit "webget") (lit "cs144.keithw.org") (lit "/hello") turns o
            [lit "HTTP/1.1 "; lit "200 OK"] [] Ho _ _ _ Hj).
  - intros fd E. cbn. by rewrite E.
  - reflexivity.
  - repeat constructor; by vm_compute.
  - vm_compute. discriminate.
Defined.

(** ** [tun] reports every packet *)

(** A single buffer: what parsing leaves. *)
Lemma ipv4_payload_single buffer d r d' :
  IPv4Datagram.parse buffer d = Ok (r, d') -> exists b, BufferList.to_Buffer (IPv4Datagram.payload d') = Ok b.
Proof.
  unfold IPv4Datagram.parse. intros ([[res h] p] & _ & H)%result_bind_Ok. cbn zeta in H.
  repeat case_match; injection H as <- <-; by eexists.
Qed.

(** No packet, however malformed, stops the report. *)
Lemma tun_report_total buffer : is_u64 (zlen buffer) -> exists text, tun_report buffer = Ok text.
Proof.
  intros Hl. unfold tun_report. cbn zeta.
  destruct (IPv4Datagram.ipv4_datagram_parse_ok (Buffer.of_string buffer) IPv4Datagram.init) as (r & d & E & Hw);
    [by apply Buffer.of_string_wf|apply IPv4Datagram.ipv4_init_wf|].
  rewrite E. cbn [mbind result_bind]. case_match; [by eexists|]. case_match; [by eexists|].
  destruct (ipv4_payload_single _ _ _ _ E) as [b Eb]. rewrite Eb. cbn [mbind result_bind].
  destruct (TCPSegment.tcp_segment_parse_any b (IPv4Header.pseudo_cksum (IPv4Datagram.header d)) TCPSegment.init) as (r' & s & -> & _);
    [by eapply NetworkInterface.to_Buffer_wf|apply u32_range|]. cbn [mbind result_bind]. case_match; by eexists.
Qed.

(** [tun] goes on until its device fails.  Whatever packets it reads,
    well-formed or not, it prints one report after another; only a failed [read]
    ends it, with the message of the error and a failure. *)
Theorem tun_reports strerror gai_strerror open ioctl packets errno rest :
  0 <= open.1 -> 0 <= (ioctl (TunTapFD.request (lit "tun144") true)).1 -> errno <> 0 ->
  Forall (fun d => zlen d <= FileDescriptor.BUFFER_SIZE) packets ->
  exists texts, Forall2 (fun d text => tun_report d = Ok text) packets texts /\
    tun_main (what strerror gai_strerror) open ioctl ((answer <$> packets) ++ FileDescriptor.mk_kernel (-1) errno [] :: rest) =
      (concat texts ++ lit "Exception: read: " ++ strerror errno ++ newline, Exits EXIT_FAILURE []).
Proof.
  intros Ho Hi He Hp. unfold tun_main, TunTapFD.TunFD. rewrite TunTapFD.tuntap_opens by done.
  assert (forall tun cout, exists texts, Forall2 (fun d text => tun_report d = Ok text) packets texts /\
    tun_loop ((answer <$> packets) ++ FileDescriptor.mk_kernel (-1) errno [] :: rest) tun cout =
      (cout ++ concat texts, Raises (UnixError "read" errno))) as H.
  { assert (0 <= npos /\ FileDescriptor.BUFFER_SIZE <= npos) as [Hn Hb] by by vm_compute.
    induction Hp as [|d packets Hd _ IH]; intros tun cout; cbn [fmap list_fmap app tun_loop].
    - exists []. split; [constructor|]. rewrite app_nil_r.
      pose proof (FileDescriptor.read_spec npos (FileDescriptor.mk_kernel (-1) errno []) tun Hn) as H. cbn in H.
      rewrite H; [done|]. left. cbn. split; [lia|done].
    - pose proof (FileDescriptor.read_spec npos (answer d) tun Hn) as H. pose proof (zlen_nonneg d).
      cbn [answer FileDescriptor.k_ret FileDescriptor.k_data] in H. rewrite (proj2 (Z.ltb_ge (zlen d) 0)) in H by lia.
      destruct H as [-> _]; [right; cbn; split; [done|lia]|]. cbn [mbind result_bind].
      destruct (tun_report_total d) as [text Et]; [unfold FileDescriptor.BUFFER_SIZE in *; word_lia|]. rewrite Et. cbn [mbind result_bind].
      match goal with |- context [tun_loop _ ?t _] => destruct (IH t (cout ++ text)) as (texts & Ht & E) end.
      exists (text :: texts). split; [by constructor|]. rewrite E. cbn [concat]. by rewrite <- app_assoc. }
  destruct (H (FileDescriptor.mk (open.1) false false 0 0) []) as (texts & Ht & ->). exists texts. split; [exact Ht|].
  unfold what, tagged_error. by rewrite <- app_assoc.
Qed.

(** ** [selftest] prints 2 *)

Lemma selftest_prints : selftest_main = Ok (lit "2" ++ newline).
Proof. vm_compute. reflexivity. Qed.

(** ** The other programs end with success *)

Lemma benchmark_main_succeeds :
  tcp_benchmark_main 50 (TCPBenchmark.short_string, TCPBenchmark.short_string) ((5, 77), (5, 77)) = Returns ().
Proof.
  unfold tcp_benchmark_main. cbn [fst snd].
  assert (forall reorder, exists b, TCPBenchmark.main_loop 50 reorder TCPBenchmark.short_string 5 77 = Ok b) as H.
  { intros reorder. pose proof (TCPBenchmark.sample_main_loop reorder) as E.
    destruct (TCPBenchmark.main_loop 50 reorder TCPBenchmark.short_string 5 77) as [b| |]; [by exists b|discriminate E..]. }
  destruct (H false) as [b ->], (H true) as [b' ->]. reflexivity.
Qed.

Lemma simulator_main_succeeds : network_simulator_main Simulator.sample_draws N.of_nat = Returns ().
Proof.
  unfold network_simulator_main. pose proof Simulator.network_simulator_succeeds as E.
  destruct (Simulator.network_simulator Simulator.sample_draws N.of_nat) as [n| |]; [reflexivity|discriminate E..].
Qed.
